(* ===== verification/_CoqProject ===== *)
-Q . S2P
Prelude.v
JsNumber.v
JsFloat.v
JsString.v
DataTypes.v
Normalizer.v
Doubles.v
Dom.v
Render.v
Selection.v
Component.v
Machine.v
Traces.v
Tracking.v
Examples.v
