(* ===== verification/Prelude.v ===== *)
(** * countries-map: a verification development

    The program is the Angular component [CountriesMapComponent] of
    [src/projects/countries-map/src/lib/countries-map.component.ts], which
    shades the countries of an SVG world map by a value, highlights the
    country under the pointer and reports clicks as selection events.  The
    development is a shallow embedding of the component in Rocq: every
    function and method of the source is a definition that computes, the
    fields of the component are a record, methods that write fields and may
    throw are computations in a state and exception monad, and the effects
    of the browser (the element tree, the pointer events) are explicit
    data.

    ** The parts of the program and the files that model them

    - [Prelude] (this file): tactics and hint databases, [exists_] (lines
      28-29 of the source) and the [??] operator, lemmas on [fold_left] (the
      loops of the program are folds over the entries of an object), and
      the monad [M] of methods with [bind], [throw], [try_catch], [gets] and
      [modify].  An outcome is a result or an exception, with the state at
      that point: assignments made before a throw are kept.
    - [JsNumber]: the numbers of the source.  [number] is a rational, NaN
      or an infinity, with the comparisons, the arithmetic and the
      truthiness the program uses, and the equivalence [num_eq] (equal
      rationals) under which every operation is [Proper].  The arithmetic
      rounds its results by the operation [round] of the class
      [Rounding], whose laws binary64 satisfies; the theorems are proved
      for every instance.
    - [JsFloat]: the rounding of the IEEE-754 binary formats on the
      rationals (to nearest, ties to even, gradual underflow, overflow to
      an infinity), with the exponent of the last place taken from
      [SpecFloat] of the Standard Library; the proof that it meets the
      laws of [Rounding]; [binary64], the instance of JavaScript.
    - [JsString]: [toLowerCase], [toUpperCase], [parseInt] in radix 10 and
      [Number.prototype.toString], on ASCII strings.  [number_toString]
      is [Number::toString] of ECMAScript in radix 10: the layout of the
      digits in plain notation (exponent from -5 to 21) or in exponent
      notation is [print_decimal], written out step by step; the choice
      of the digits and of the exponent, which depends on the format of
      the numbers, is the one method [shortest] of the class
      [NumberToString].  [reference_printer] computes it for any
      [Rounding] as the shortest decimal that rounds to the number.
    - [DataTypes]: JavaScript objects as association lists in insertion
      order, the read of a key that also finds what a plain object
      inherits from [Object.prototype] ([inherited], [data_get]), the
      types of [data-types.ts] (not among the sources, modelled from their
      use) and of [chart-events.ts], and the exceptions.
    - [Normalizer]: lines 31-32 and 109-152, the first half of
      [initializeMap]: [countryNum], the scan for the bounds
      ([scan_step], [scan_bounds]), the defaults and the range
      ([bounds_of]), [percentage_of], and the loop that fills [mapData]
      ([draw_step], [build_mapData]); [normalize] is the whole of it.  The
      resolved map is a [gmap] from lower-cased ids to drawable records.
    - [Doubles]: the normalisation at [binary64]: when the hypothesis of
      [Normalizer] on the range holds of the numbers of JavaScript.
    - [Dom]: the element tree.  An element has an id, a class list, four
      style properties, two handlers and children; it is addressed by its
      path from the root.  [querySelectorAll], [update] (an assignment to
      one element) and the chain of ancestors of an element up to the
      document.
    - [Render]: lines 34-37, 154-178 and 186-193: the constants, the fill
      policy [fill_for], the body [paint_country] of the [forEach], the
      pass [draw] over the map and [render] over the host element, and
      [countryHover] with the dispatch of the two mouse handlers.
    - [Selection]: lines 205-228 without the state: the walk [walk_up] from
      the target of a click to the nearest country element, the ocean test,
      the two events, and the pairs of line 90.
    - [Component]: the record [Component] of the inputs (52-63), the
      outputs (65-67, a log of the events emitted, oldest first) and the
      fields (69-74); the methods [selectionValue], [getExtraSelected],
      [selectCountry], [initializeMap] (its [try] and [catch] included),
      [onChartReady], [onChartError] and [onMapSelect]; the effect of the
      constructor [run_effect].
    - [Machine]: the component as a state machine.  [Event] is what the
      host and the pointer can cause, [step] what the component does then,
      [reachable] the states it can be in; and the invariants of the
      reachable states.
    - [Traces]: whole runs of the machine: [eventually] along a sequence
      of events, the well-formedness [output_wf] of the events emitted,
      and the labelled run ([labels], [spec_step], [spec_emit]) that is
      compared with the contract of the selection; [same_structure], the
      trees with the same elements, ids and classes.
    - [Tracking]: the inputs that a pass reads ([reads], in the order of
      evaluation of lines 107-161), the machine [lazy_step] of a
      framework that skips the passes whose inputs are unchanged, the
      runs [notified] that hold an event it cannot skip, and the events
      [coalesce] of one that runs one pass for several changes.
    - [Examples]: a small map and the data of the examples of the
      specification, run through the model; every theorem with hypotheses
      is applied there to a concrete input.

    ** What the theorems show

    - Normalisation ([Normalizer]): every percentage is -1 or within
      [[0, 100]] when the scale is defined ([scale_ok]: the given bounds
      are numbers and the range did not overflow), whatever the rounding
      ([normalize_percentage_ok]); the scale is defined as soon as the
      bounds and the values are integers up to 2^52 ([scale_ok_small]);
      in binary64 it is defined for bounds and values of magnitude up to
      2^1022, so the percentages of JavaScript are -1 or within
      [[0, 100]] for such data ([Doubles.binary64_percentage_ok]), and the
      guard of the range changes no percentage, because a difference of
      two doubles is zero only when they are equal
      ([Doubles.binary64_guard_redundant]); when the distance of a value
      from the minimum overflows, its percentage is NaN
      ([percentage_of_overflow]); the marker -1 is on the records that
      do not parse and on them only; the percentage is monotone, clamps
      at the bounds, and is -1, 0 or 100 when the range is degenerate;
      the scan returns the least and the greatest value that parses
      ([bounds_auto]) and does not depend on the enumeration order
      ([bounds_permutation]); the loop that fills the map refines the
      lookup [resolve] of the last record whose id is the key up to case
      ([normalize_resolve]); the numeric value of a record that holds a
      number is the integer part of the decimal that is printed for it
      in plain notation and its leading digit in exponent notation
      ([countryNum_number], from [JsString.parseInt_number_toString]),
      so that an integer that is printed digit by digit is read back
      ([countryNum_integer]), as is, with the reference printer and in
      every rounding, each integer below 2^53 in absolute value
      ([countryNum_safe_integer]).  The facts on the two running
      extrema are proved once, for any strict order, in the section
      [RunningBest].
    - Drawing ([Render]): the loop over the selected elements is the
      same as one traversal of the tree ([draw_equiv]); what each
      element holds after the pass ([draw_country], [fill_for_policy]);
      the pass is idempotent ([draw_idempotent]) and forgets earlier
      passes; a hover writes the stroke of the item and of its land
      paths and nothing else, and any number of enter and leave cycles
      ends in the baseline ([hover_cycles_leave]).
    - Clicks ([Selection]): the walk up the ancestors finds the nearest
      country element, ends without one, or throws at the document, and
      each case is characterised by the shape of the chain
      ([walk_up_found], [walk_up_throws]); on the tree, a click inside a
      country element resolves to it ([resolve_target_nearest]).
    - Methods ([Component]): [initializeMap] and [onMapSelect] are
      characterised on every branch, exceptions included, through one
      table each ([initializeMap_outcome], [onMapSelect_outcome]) that
      the monadic code is proved equal to.  With a view child a pass
      returns having emitted exactly one event, ready or the loading
      error ([initializeMap_returns]).  A click that returns
      implements the contract of the selection, a two-state machine
      given in [Selection] ([onMapSelect_refines]); the clicks that
      throw are characterised, with the exception each throws
      ([onMapSelect_throws]).  The resolved map is a plain object: a
      click on an element whose id names a member of [Object.prototype]
      finds that member and throws, or selects with an event that has no
      value ([onMapSelect_inherited_id],
      [onMapSelect_inherited_select]); the colours do not see the
      members ([Render.fill_for_not_own]).
    - The state machine ([Machine]): in every reachable state the
      resolved map is the normalisation of the current inputs, the map
      on screen is painted by the fill policy under that map
      ([reachable_painted]), a selection carries a non-empty upper-case
      id, and the log of events only grows.  With data keyed in upper
      case a click whose walk does not throw returns ([click_returns]),
      a click outside every country element of a page that is in a
      document throws ([click_outside_throws]), a click in a country
      followed by a click on the ocean emits the selected and then the
      unselected event ([select_then_ocean]), and a click inside a
      country that has a record selects it ([click_selects]).
    - Runs ([Traces]): every event of the log of a reachable state is
      well formed: a select event is the unselected event or carries
      an upper-case id and a value that is NaN or the number of an
      integer ([reachable_outputs_wf]); over a whole run the selection
      and the select events are those of the two-state contract run on
      the clicks that returned, hovers, passes and clicks that throw
      being silent ([run_refines]); the value read for a selection
      follows the data through every event that is not a click
      ([selectionValue_live]); the component writes styles and handlers
      only, so that over every run without a new view the host keeps
      the elements it had, with their ids and classes
      ([run_keeps_structure]).
    - Passes ([Tracking]): a pass depends on the inputs it reads only,
      which are the data, the bounds when the data is not [null] and the
      colours when the host has a child ([pass_reads_only]); in a
      reachable state a pass changes the loading flag, emits its event
      and leaves every other field as it is, because the resolved map is
      the one of the inputs and the map is painted with it
      ([pass_fixpoint]); two passes in a row leave the fields of the
      second ([batched_change]); hence the machine of [Machine.step],
      which runs a pass at once on every change of the inputs, and any
      machine that skips the passes whose inputs are unchanged and runs
      one pass for several changes in a row go through the same inputs,
      view, selection, resolved map and select events
      ([scheduled_run_same_fields]).  Progress is proved on the machine
      that skips: once the map is in the view, a run that holds a new
      view or a change of an input that the last pass has read reaches
      the state where loading is cleared and the ready event is the
      last one emitted ([ready_after_notification]); a change of an
      input that the last pass has not read may run no pass
      ([Examples.skipped_change_not_ready]).
    - Where the code departs from its specification the theorems say
      what it does instead: a given minimum is lowered by the scan
      ([given_min_lowered]), data keyed in lower case makes a click
      throw ([onMapSelect_throws_key]), an element id in upper case is
      painted but never selected ([onMapSelect_upper_case_id]), a click
      outside every country element throws at the document
      ([onMapSelect_throws_walk]), a missing view child is not caught
      ([initializeMap_no_view]).

    ** Idealisations, bounds and fuel

    - A finite number is a rational, and the results of [-], [*], [/] and
      [parseInt] go through [round], of which the development assumes the
      laws of [Rounding] only: it respects equality of rationals, never
      gives NaN, is monotone, is exact on the integers up to 2^53 and
      leaves its results fixed.  [JsFloat] proves these laws of the
      rounding of every binary format of precision 53 or more, of
      [binary64] in particular, which overflows to an infinity beyond
      [2^1024]; on a list of sample operands, the subtraction, the
      multiplication and the division of [SpecFloat] at precision 53 give
      the numbers that [binary64] gives ([binary64_agrees_sub],
      [binary64_agrees_mul], [binary64_agrees_div]).  The two zeros are
      identified: the program compares numbers, tests them for
      truthiness and prints them, and none of these tells the zeros
      apart; it never divides by a zero, since the range is not zero.
      The one place where the program can hand a negative zero to its
      host is the value of a select event ([parseInt] of ["-0.5"] is the
      negative zero), which the model reports as zero.  The instances
      [exact_rounding] and [fixed_point] are two other roundings in
      which examples compute.  [parseInt] rounds the exact integer it
      reads; ECMAScript lets an implementation replace the digits after
      the twentieth by zeros first.
    - [Number.prototype.toString] is the algorithm of ECMAScript but for
      its step 5, the choice of the digits [s] and of the exponent [n]
      such that [s * 10^(n-k)] rounds to the number with the least
      number [k] of digits: that choice is the method [shortest], and
      the theorems hold for every choice.  The boundary between plain
      and exponent notation is decided on the exponent chosen, as the
      built-in does, and not on the value: the double nearest to 1e-6
      lies below 10^-6 and prints as [0.000001].  The reference instance
      tries 1 to 17 digits, takes the decimal nearest to the number and
      keeps the first that rounds to it.  It prints every integer
      below 2^53 digit by digit ([JsString.reference_shortest_integer]),
      and on the samples of [Examples.double_toString_examples] it
      prints what the built-in prints; its agreement with an engine on
      every double is not proved.
    - Strings are lists of ASCII characters; case conversion is the one of
      the letters A-Z.  Country ids are ASCII.
    - [N_to_string] prints a natural number with fuel [S (N.log2 n)], which
      is at least the number of its decimal digits (lemma
      [N_to_string_fuel]).  The reference printer searches with fuel 16
      (17 digits are enough to tell two doubles apart; a rational of the
      exact arithmetic that needs more is printed to 17 digits), finds
      the exponent of a number below 1 with fuel [S (log2 d)] for the
      denominator [d], and cuts at most 400 zeros.  No theorem depends
      on these bounds: the theorems hold for every instance of
      [NumberToString].
    - The data and the resolved map are plain objects: a read by key
      finds the own property or else the member of [Object.prototype] of
      that name, which reads as a record without value, extra or
      percentage.  The upper-cased ids under which the data is read for a
      selection name no member ([DataTypes.inherited_toUpperCase]).  A
      record stored under the key [__proto__] is modelled as any other
      entry; in the program that assignment replaces the prototype of the
      map, so a read of [__proto__] agrees with the model, and reads of
      [value], [extra] and [percentage] would then see the fields of that
      record, which the model does not follow.  Values of the data have
      the types of [data-types.ts].
    - [initializeMap] throws in two places in the model: at line 107,
      where the framework throws its error NG0951 on the read of a
      required view child that is not there, and at line 155, where the
      host element has no child and the assignment reads a property of
      [undefined].  The signal reads, the writes to the styles and to
      the handlers and the emission of the ready event do not throw: an
      exception thrown by a subscriber of an output is not modelled.
      The pass writes the signal [loading] inside the effect (line 106),
      which the framework accepts from version 19 on; an earlier version
      rejects the write, and no pass would run.
    - [step] re-runs the effect on every change of the inputs, and at
      once, as the trigger list of the specification says.  The
      framework re-runs it when an input read by the last run has
      changed, and may run one pass for several changes: that machine
      is [Tracking.lazy_step], for any test [skips] that is sound.
      [Tracking] shows that both differences are invisible in the
      fields and in the select events; the ready and error events of
      the passes that the framework does not run are in the log of
      [step] only, and so is the loading flag they set.  What is proved
      of the ready event is therefore proved on [lazy_step].  The inputs
      are compared by equality of their values in the model, and by
      identity in the framework: a data object replaced by an equal one
      is a change there.  The theorems hold for every test that skips
      on equal values only, so for that one too.

    - Runs are finite lists of events.  [eventually] is an inductive
      predicate over such a list, so progress is proved with a bound: the
      ready state is reached at the latest after the first event of the
      list of which the effect is notified.  No definition of the model
      of the component uses fuel.

    ** What is not modelled

    Every function, method, constant and field of
    [countries-map.component.ts] and every type of [chart-events.ts] is a
    definition of the development.  The lines of the sources that no
    definition translates hold no behaviour of their own:

    - the imports (lines 1-27 of [countries-map.component.ts]) and the
      [@Component] decorator (lines 43-50), which name the selector, the
      template and the style sheet for the framework;
    - [base-map.component.ts], a component without fields or methods
      around the static SVG: the map is any tree of [Dom];
    - [public-api.ts], which re-exports the modules.

    Outside the sources: the HTML template and the style sheet (the
    bindings of the template are the constructors of [Machine.Event]; the
    caption they show is read by no method); the package [country-list],
    whose [getName] is a parameter of the methods; the change detection
    and the scheduling of the framework, and the layout and painting of
    the browser.  The flag [loading] is a two-way binding: the
    notification that the framework sends to the host when the component
    writes it is not in the log of outputs, which holds the events of
    the three outputs of lines 65-67. *)

From Stdlib Require Import List String Bool ZArith Lia Permutation.
Import ListNotations.

Declare Scope js_scope.
Delimit Scope js_scope with js.

(** ** Hint databases *)

Create HintDb js discriminated.
Create Rewrite HintDb js_rw.

(** ** Tactics *)

(** Inversion that cleans up after itself. *)
Ltac inv H := inversion H; subst; clear H.

(** Case analysis on the scrutinee of the first [if] or [match] of the goal. *)
Ltac break_if :=
  match goal with
  | |- context [if ?b then _ else _] => destruct b eqn:?
  end.

Ltac break_match :=
  match goal with
  | |- context [match ?x with _ => _ end] => destruct x eqn:?
  end.

Ltac break_if_hyp :=
  match goal with
  | H : context [if ?b then _ else _] |- _ => destruct b eqn:?
  end.

(** ** Nullish values

    A JavaScript value of type [T | undefined] (or [T | null]) is an
    [option T]; [None] stands for both nullish values, which the program never
    tells apart. *)

(** [exists(item)]: the item is neither [undefined] nor [null]. *)
Definition exists_ {A : Type} (item : option A) : bool :=
  match item with
  | Some _ => true
  | None => false
  end.

(** [a ?? d]. *)
Definition nullish {A : Type} (a : option A) (d : A) : A :=
  match a with
  | Some x => x
  | None => d
  end.

Notation "a ?? d" := (nullish a d) (at level 45, left associativity) : js_scope.

(** ** Lemmas on options *)

Lemma exists_Some {A : Type} (o : option A) :
  exists_ o = true <-> exists x, o = Some x.
Proof.
  destruct o; simpl; split; intros H; eauto; try discriminate.
  destruct H as [x Hx]; discriminate.
Qed.

Lemma exists_None {A : Type} (o : option A) :
  exists_ o = false <-> o = None.
Proof. destruct o; simpl; split; intros H; auto; discriminate. Qed.

Lemma nullish_Some {A : Type} (x d : A) : nullish (Some x) d = x.
Proof. reflexivity. Qed.

Lemma nullish_None {A : Type} (d : A) : nullish None d = d.
Proof. reflexivity. Qed.

#[export] Hint Rewrite @nullish_Some @nullish_None : js_rw.

(** ** Lemmas on folds

    Loops of the program are [fold_left]s over the entries of an object; an
    invariant of the loop body is an invariant of the loop. *)

Section FoldInvariant.
Context {A B : Type} (f : A -> B -> A) (P : A -> Prop).

Lemma fold_left_invariant (l : list B) (a : A) :
  P a -> (forall a b, P a -> In b l -> P (f a b)) -> P (fold_left f l a).
Proof.
  revert a; induction l as [|b l IH]; intros a Ha Hstep; simpl; auto.
  apply IH; [apply Hstep; simpl; auto | intros; apply Hstep; simpl; auto].
Qed.

End FoldInvariant.

Lemma fold_left_snoc {A B : Type} (f : A -> B -> A) (l : list B) (b : B) (a : A) :
  fold_left f (l ++ [b]) a = f (fold_left f l a) b.
Proof. rewrite fold_left_app; reflexivity. Qed.

(** A loop whose body commutes on the elements it visits computes the same
    result in any order of visit. *)
Section FoldPermutation.
Context {A B : Type} (f : A -> B -> A) (P : B -> Prop).
Hypothesis f_comm : forall a x y, P x -> P y -> f (f a x) y = f (f a y) x.

Lemma fold_left_permutation (l l' : list B) :
  Permutation l l' -> Forall P l ->
  forall a, fold_left f l a = fold_left f l' a.
Proof.
  induction 1 as [|x l l' Hp IH|x y l|l l' l'' Hp1 IH1 Hp2 IH2]; intros HP a; simpl.
  - reflexivity.
  - inv HP. auto.
  - inv HP. match goal with H : Forall _ (_ :: _) |- _ => inv H end.
    rewrite f_comm; auto.
  - rewrite IH1 by assumption. apply IH2.
    eapply Permutation_Forall; eassumption.
Qed.

End FoldPermutation.

(** A fold over pairs whose components are updated independently. *)
Lemma fold_left_pair {A1 A2 B : Type} (f1 : A1 -> B -> A1) (f2 : A2 -> B -> A2)
    (l : list B) (a1 : A1) (a2 : A2) :
  fold_left (fun acc b => (f1 (fst acc) b, f2 (snd acc) b)) l (a1, a2)
  = (fold_left f1 l a1, fold_left f2 l a2).
Proof. revert a1 a2; induction l as [|b l IH]; intros; simpl; auto. Qed.

Lemma Permutation_filter {A : Type} (f : A -> bool) (l l' : list A) :
  Permutation l l' -> Permutation (filter f l) (filter f l').
Proof.
  induction 1 as [|x l l' Hp IH|x y l|l l' l'' Hp1 IH1 Hp2 IH2]; simpl.
  - constructor.
  - destruct (f x); auto.
  - destruct (f x), (f y); auto using perm_swap.
  - eapply perm_trans; eassumption.
Qed.

(** ** The monad of handlers

    A method of the component reads and writes the component's fields and
    may throw: it is a function from the state to an outcome, which is a
    result with the state after the method returned, or an exception with
    the state at the throw (assignments made before a throw are kept). *)

Section Handlers.
Context {St Ex : Type}.

Inductive Outcome (A : Type) : Type :=
| Returned (a : A) (s : St)
| Threw (e : Ex) (s : St).

Definition M (A : Type) : Type := St -> Outcome A.

Definition ret {A : Type} (a : A) : M A := fun s => Returned A a s.

Definition bind {A B : Type} (m : M A) (k : A -> M B) : M B :=
  fun s =>
    match m s with
    | Returned _ a s' => k a s'
    | Threw _ e s' => Threw B e s'
    end.

Definition throw {A : Type} (e : Ex) : M A := fun s => Threw A e s.

(** [try { m } catch (e) { h e }]. *)
Definition try_catch {A : Type} (m : M A) (h : Ex -> M A) : M A :=
  fun s =>
    match m s with
    | Returned _ a s' => Returned A a s'
    | Threw _ e s' => h e s'
    end.

Definition gets {A : Type} (f : St -> A) : M A := fun s => Returned A (f s) s.

Definition modify (f : St -> St) : M unit := fun s => Returned unit tt (f s).

(** The state an outcome ends in. *)
Definition final_state {A : Type} (o : Outcome A) : St :=
  match o with
  | Returned _ _ s => s
  | Threw _ _ s => s
  end.

Definition returned {A : Type} (o : Outcome A) : bool :=
  match o with
  | Returned _ _ _ => true
  | Threw _ _ _ => false
  end.

End Handlers.

Arguments Outcome : clear implicits.
Arguments M : clear implicits.
Arguments Returned {St Ex A} a s.
Arguments Threw {St Ex A} e s.

Notation "'let!' x ':=' m 'in' k" := (bind m (fun x => k))
  (at level 10, x name, m at level 100, k at level 200) : js_scope.
Notation "'do!' m 'in' k" := (bind m (fun _ => k))
  (at level 10, m at level 100, k at level 200) : js_scope.

Section HandlerLaws.
Context {St Ex : Type}.
Local Open Scope js_scope.

Lemma bind_ret_l {A B : Type} (a : A) (k : A -> M St Ex B) (s : St) :
  bind (ret a) k s = k a s.
Proof. reflexivity. Qed.

Lemma bind_ret_r {A : Type} (m : M St Ex A) (s : St) : bind m ret s = m s.
Proof. unfold bind, ret. destruct (m s); reflexivity. Qed.

Lemma bind_assoc {A B C : Type} (m : M St Ex A) (k : A -> M St Ex B)
    (k' : B -> M St Ex C) (s : St) :
  bind (bind m k) k' s = bind m (fun a => bind (k a) k') s.
Proof. unfold bind. destruct (m s); reflexivity. Qed.

Lemma bind_throw {A B : Type} (e : Ex) (k : A -> M St Ex B) (s : St) :
  bind (throw e) k s = Threw e s.
Proof. reflexivity. Qed.

Lemma try_catch_ret {A : Type} (a : A) (h : Ex -> M St Ex A) (s : St) :
  try_catch (ret a) h s = Returned a s.
Proof. reflexivity. Qed.

Lemma try_catch_throw {A : Type} (e : Ex) (h : Ex -> M St Ex A) (s : St) :
  try_catch (throw e) h s = h e s.
Proof. reflexivity. Qed.

(** A [try] whose handler does not throw always returns. *)
Lemma try_catch_returns {A : Type} (m : M St Ex A) (h : Ex -> M St Ex A) (s : St) :
  (forall e s', returned (h e s') = true) -> returned (try_catch m h s) = true.
Proof. intros Hh. unfold try_catch. destruct (m s); [reflexivity | apply Hh]. Qed.

End HandlerLaws.
