(* ===== verification/JsNumber.v ===== *)
(** * JsNumber: the JavaScript [number] type as the program uses it

    A [number] is NaN, an infinity, or a finite value, which is a rational
    ([Q]); the two zeros are identified.  The operations are the ones
    [countries-map.component.ts] applies to numbers: [isNaN], [<], [<=], [>],
    [>=], [-], [/], [*] and the truthiness test behind [||].

    The comparisons are exact.  The arithmetic rounds: the result of [-],
    [*] and [/] on finite operands is [round] of the exact result, where
    [round] is the operation of the class [Rounding].  The class holds the
    laws that the theorems need (the rounding is monotone, never NaN, exact
    on the integers up to 2^53, and idempotent); IEEE-754 round-to-nearest
    on binary64 satisfies them, with overflow to an infinity.  Two instances
    compute: [exact_rounding], which neither rounds nor overflows, and
    [fixed_point], which rounds down to a multiple of [1/den] and overflows
    at a bound.

    Two representations of a rational ([1#2] and [2#4]) are the same number:
    [num_eq] is that equivalence, and every operation is [Proper] for it. *)

From Stdlib Require Import QArith Qround Qreduction Lqa ZArith Bool Lia Setoid Morphisms.
From S2P Require Import Prelude.

Local Open Scope Q_scope.

(** ** Data *)

Inductive number : Type :=
| NaN : number
| Fin (q : Q) : number
| Inf (positive : bool) : number.

Definition of_Z (z : Z) : number := Fin (inject_Z z).

(** ** Boolean comparisons on [Q] *)

Definition Qltb (p q : Q) : bool := (Qnum p * QDen q <? Qnum q * QDen p)%Z.

(** ** Operations *)

Definition isNaN (x : number) : bool :=
  match x with
  | NaN => true
  | _ => false
  end.

Definition is_finite (x : number) : bool :=
  match x with
  | Fin _ => true
  | _ => false
  end.

(** [x < y]: false as soon as an operand is NaN. *)
Definition num_lt (x y : number) : bool :=
  match x, y with
  | NaN, _ | _, NaN => false
  | Fin p, Fin q => Qltb p q
  | Fin _, Inf b => b
  | Inf a, Fin _ => negb a
  | Inf a, Inf b => negb a && b
  end.

(** [x <= y]. *)
Definition num_le (x y : number) : bool :=
  match x, y with
  | NaN, _ | _, NaN => false
  | Fin p, Fin q => Qle_bool p q
  | Fin _, Inf b => b
  | Inf a, Fin _ => negb a
  | Inf a, Inf b => negb a || b
  end.

(** [x > y] and [x >= y]. *)
Definition num_gt (x y : number) : bool := num_lt y x.
Definition num_ge (x y : number) : bool := num_le y x.

(** ** Rounding

    [round q] is the number that the platform has for the exact value [q]:
    the nearest one, or an infinity when [q] is out of range. *)
Class Rounding : Type := {
  round : Q -> number;
  round_Proper :: Proper (Qeq ==> eq) round;
  round_not_NaN : forall q, isNaN (round q) = false;
  round_mono : forall p q, p <= q -> num_le (round p) (round q) = true;
  round_integer : forall z : Z, (Z.abs z <= 2 ^ 53)%Z -> round (inject_Z z) = of_Z z;
  round_idem : forall p q, round p = Fin q -> round q = Fin q
}.

(** The number that the platform has for an integer. *)
Definition round_Z `{Rounding} (z : Z) : number := round (inject_Z z).

(** A number that the platform has: the result of a rounding. *)
Definition rounded `{Rounding} (x : number) : Prop := exists q, x = round q.

(** The two instances that compute. *)
Definition exact_round (q : Q) : number := Fin (Qred q).

(** Rounds down to a multiple of [1/den]; the values outside
    [[-bound, bound)] overflow. *)
Definition fixed_point_round (den : positive) (bound : Z) (q : Q) : number :=
  if Qle_bool (inject_Z bound) q then Inf true
  else if Qltb q (inject_Z (- bound)) then Inf false
  else Fin (Qred (Qfloor (q * inject_Z (Zpos den)) # den)).

Section Arithmetic.
Context `{Rounding}.

(** [x - y]. *)
Definition num_sub (x y : number) : number :=
  match x, y with
  | NaN, _ | _, NaN => NaN
  | Fin p, Fin q => round (p - q)
  | Fin _, Inf b => Inf (negb b)
  | Inf a, Fin _ => Inf a
  | Inf a, Inf b => if Bool.eqb a b then NaN else Inf a
  end.

(** [x * y]. *)
Definition num_mul (x y : number) : number :=
  match x, y with
  | NaN, _ | _, NaN => NaN
  | Fin p, Fin q => round (p * q)
  | Fin p, Inf b | Inf b, Fin p =>
      if Qeq_bool p 0 then NaN else Inf (if Qltb 0 p then b else negb b)
  | Inf a, Inf b => Inf (Bool.eqb a b)
  end.

(** [x / y]: a finite non-zero value over zero is an infinity, [0 / 0] and
    [Infinity / Infinity] are NaN. *)
Definition num_div (x y : number) : number :=
  match x, y with
  | NaN, _ | _, NaN => NaN
  | Fin p, Fin q =>
      if Qeq_bool q 0
      then (if Qeq_bool p 0 then NaN else Inf (Qltb 0 p))
      else round (p / q)
  | Fin _, Inf _ => Fin 0
  | Inf a, Fin q => Inf (if Qle_bool 0 q then a else negb a)
  | Inf _, Inf _ => NaN
  end.

End Arithmetic.

(** ToBoolean on a number: NaN and zero are falsy. *)
Definition truthy (x : number) : bool :=
  match x with
  | NaN => false
  | Fin q => negb (Qeq_bool q 0)
  | Inf _ => true
  end.

(** [x || y] on numbers. *)
Definition num_or (x y : number) : number := if truthy x then x else y.

Notation "x - y" := (num_sub x y) : js_scope.
Notation "x * y" := (num_mul x y) : js_scope.
Notation "x / y" := (num_div x y) : js_scope.
Notation "x <? y" := (num_lt x y) : js_scope.
Notation "x <=? y" := (num_le x y) : js_scope.
Notation "x >? y" := (num_gt x y) (at level 70) : js_scope.
Notation "x >=? y" := (num_ge x y) (at level 70) : js_scope.
Notation "x || y" := (num_or x y) : js_scope.

(** ** The equivalence of numbers *)

Definition num_eq (x y : number) : Prop :=
  match x, y with
  | NaN, NaN => True
  | Fin p, Fin q => p == q
  | Inf a, Inf b => a = b
  | _, _ => False
  end.

Infix "=n=" := num_eq (at level 70, no associativity) : js_scope.

(** [x] is a finite value within [[lo, hi]]. *)
Definition num_between (lo hi : Q) (x : number) : Prop :=
  match x with
  | Fin q => lo <= q <= hi
  | _ => False
  end.

(** ** Reflection of the comparisons on [Q] *)

Lemma Qltb_iff (p q : Q) : Qltb p q = true <-> p < q.
Proof. unfold Qltb, Qlt. apply Z.ltb_lt. Qed.

Lemma Qltb_false (p q : Q) : Qltb p q = false <-> q <= p.
Proof. unfold Qltb, Qle. rewrite Z.ltb_ge. reflexivity. Qed.

Lemma Qle_bool_false (p q : Q) : Qle_bool p q = false <-> q < p.
Proof. unfold Qle_bool, Qlt. rewrite Z.leb_gt. reflexivity. Qed.

Lemma Qeq_bool_false (p q : Q) : Qeq_bool p q = false <-> ~ p == q.
Proof.
  split; [apply Qeq_bool_neq|].
  intros H. destruct (Qeq_bool p q) eqn:E; auto.
  apply Qeq_bool_iff in E. contradiction.
Qed.

(** Turns every boolean comparison on [Q] of the context and the goal into
    the proposition it decides. *)
Ltac q_reflect :=
  repeat match goal with
  | H : Qle_bool _ _ = true |- _ => apply Qle_bool_iff in H
  | H : Qle_bool _ _ = false |- _ => apply Qle_bool_false in H
  | H : Qltb _ _ = true |- _ => apply Qltb_iff in H
  | H : Qltb _ _ = false |- _ => apply Qltb_false in H
  | H : Qeq_bool _ _ = true |- _ => apply Qeq_bool_iff in H
  | H : Qeq_bool _ _ = false |- _ => apply Qeq_bool_false in H
  | |- Qle_bool _ _ = true => apply Qle_bool_iff
  | |- Qle_bool _ _ = false => apply Qle_bool_false
  | |- Qltb _ _ = true => apply Qltb_iff
  | |- Qltb _ _ = false => apply Qltb_false
  | |- Qeq_bool _ _ = true => apply Qeq_bool_iff
  | |- Qeq_bool _ _ = false => apply Qeq_bool_false
  end.

(** Case analysis on every boolean comparison on [Q] that the goal tests. *)
Ltac q_cases :=
  repeat match goal with
  | |- context [Qle_bool ?p ?q] => destruct (Qle_bool p q) eqn:?
  | |- context [Qltb ?p ?q] => destruct (Qltb p q) eqn:?
  | |- context [Qeq_bool ?p ?q] => destruct (Qeq_bool p q) eqn:?
  end; q_reflect.

#[export] Instance Qltb_Proper : Proper (Qeq ==> Qeq ==> eq) Qltb.
Proof.
  intros p p' Hp q q' Hq.
  destruct (Qltb p q) eqn:E, (Qltb p' q') eqn:E'; auto; q_reflect;
    rewrite Hp, Hq in E; exfalso; lra.
Qed.

(** ** [num_eq] is an equivalence, and the operations respect it *)

#[export] Instance num_eq_Equivalence : Equivalence num_eq.
Proof.
  split.
  - intros [|p|a]; simpl; auto. reflexivity.
  - intros [|p|a] [|q|b]; simpl; auto. intros H; symmetry; exact H.
  - intros [|p|a] [|q|b] [|r|c]; simpl; auto; try contradiction.
    + intros H1 H2; rewrite H1; exact H2.
    + congruence.
Qed.

Lemma Fin_Proper_eq (p q : Q) : p == q -> num_eq (Fin p) (Fin q).
Proof. intros H; exact H. Qed.

#[export] Instance Fin_Proper : Proper (Qeq ==> num_eq) Fin.
Proof. intros p q H; exact H. Qed.

(** Destructs the numbers related by [num_eq] hypotheses, keeping the
    consistent cases. *)
Ltac num_eq_cases :=
  repeat match goal with
  | H : num_eq ?x ?y |- _ =>
      destruct x, y; simpl in H; try contradiction; subst
  end.

(** Proves that an operation respects [num_eq]: case analysis on the
    operands and on the tests of the operation, which agree on equal
    rationals. *)
Ltac num_proper :=
  repeat (intros ? ? ?); num_eq_cases; simpl;
  repeat break_if; simpl; auto; try reflexivity; q_reflect;
  first [ lra | exfalso; lra | congruence
        | repeat match goal with
                 | H : _ == _ |- _ => try rewrite H; clear H
                 | H : ~ _ == _ |- _ => clear H
                 end; reflexivity ].

#[export] Instance isNaN_Proper : Proper (num_eq ==> eq) isNaN.
Proof. num_proper. Qed.

#[export] Instance is_finite_Proper : Proper (num_eq ==> eq) is_finite.
Proof. num_proper. Qed.

#[export] Instance truthy_Proper : Proper (num_eq ==> eq) truthy.
Proof. num_proper. Qed.

#[export] Instance num_lt_Proper : Proper (num_eq ==> num_eq ==> eq) num_lt.
Proof. num_proper. Qed.

#[export] Instance num_le_Proper : Proper (num_eq ==> num_eq ==> eq) num_le.
Proof. num_proper. Qed.

#[export] Instance num_gt_Proper : Proper (num_eq ==> num_eq ==> eq) num_gt.
Proof. intros x x' Hx y y' Hy; unfold num_gt; rewrite Hx, Hy; reflexivity. Qed.

#[export] Instance num_ge_Proper : Proper (num_eq ==> num_eq ==> eq) num_ge.
Proof. intros x x' Hx y y' Hy; unfold num_ge; rewrite Hx, Hy; reflexivity. Qed.

#[export] Instance num_sub_Proper `{Rounding} :
  Proper (num_eq ==> num_eq ==> num_eq) num_sub.
Proof. num_proper. Qed.

#[export] Instance num_mul_Proper `{Rounding} :
  Proper (num_eq ==> num_eq ==> num_eq) num_mul.
Proof. num_proper. Qed.

#[export] Instance num_div_Proper `{Rounding} :
  Proper (num_eq ==> num_eq ==> num_eq) num_div.
Proof. num_proper. Qed.

#[export] Instance num_or_Proper : Proper (num_eq ==> num_eq ==> num_eq) num_or.
Proof.
  intros x x' Hx y y' Hy. unfold num_or. rewrite Hx.
  destruct (truthy x'); auto.
Qed.

#[export] Instance num_between_Proper :
  Proper (Qeq ==> Qeq ==> num_eq ==> iff) num_between.
Proof.
  intros lo lo' Hlo hi hi' Hhi x y H; num_eq_cases; simpl; try tauto.
  rewrite Hlo, Hhi, H; reflexivity.
Qed.

(** ** Facts on the operations *)

Lemma isNaN_true (x : number) : isNaN x = true <-> x = NaN.
Proof. destruct x; simpl; split; intros; congruence. Qed.

Lemma is_finite_true (x : number) : is_finite x = true <-> exists q, x = Fin q.
Proof.
  destruct x; simpl; split; intros H; eauto; try discriminate;
    destruct H as [q Hq]; discriminate.
Qed.

Lemma is_finite_not_NaN (x : number) : is_finite x = true -> isNaN x = false.
Proof. destruct x; simpl; congruence. Qed.

Lemma is_finite_of_Z (z : Z) : is_finite (of_Z z) = true.
Proof. reflexivity. Qed.

(** Comparisons with NaN are false. *)
Lemma num_lt_NaN_r (x : number) : num_lt x NaN = false.
Proof. destruct x; reflexivity. Qed.

Lemma num_le_NaN_r (x : number) : num_le x NaN = false.
Proof. destruct x; reflexivity. Qed.

Lemma num_le_refl (x : number) : isNaN x = false -> num_le x x = true.
Proof.
  destruct x as [|q|[]]; simpl; intros; try congruence.
  apply Qle_bool_iff. lra.
Qed.

(** On numbers other than NaN, [<] is the negation of [>=]. *)
Lemma num_lt_not_ge (x y : number) :
  isNaN x = false -> isNaN y = false -> num_lt x y = negb (num_ge x y).
Proof.
  unfold num_ge. destruct x as [|p|[]], y as [|q|[]]; simpl; intros; try congruence.
  unfold Qltb, Qle_bool. apply Z.ltb_antisym.
Qed.

Lemma num_le_trans (x y z : number) :
  num_le x y = true -> num_le y z = true -> num_le x z = true.
Proof.
  destruct x as [|p|[]], y as [|q|[]], z as [|r|[]]; simpl; intros; try congruence.
  q_reflect. lra.
Qed.

(** [x || y] is truthy as soon as [y] is: a range [d || 1] is neither zero
    nor NaN. *)
Lemma num_or_truthy (x y : number) : truthy y = true -> truthy (num_or x y) = true.
Proof. unfold num_or. destruct (truthy x) eqn:E; auto. Qed.

Lemma truthy_not_NaN (x : number) : truthy x = true -> isNaN x = false.
Proof. destruct x; simpl; congruence. Qed.

Lemma truthy_Fin (q : Q) : truthy (Fin q) = true <-> ~ q == 0.
Proof. simpl. rewrite negb_true_iff. apply Qeq_bool_false. Qed.

(** Integers *)

Lemma of_Z_inj (a b : Z) : of_Z a = of_Z b -> a = b.
Proof. unfold of_Z, inject_Z. congruence. Qed.

Lemma num_lt_of_Z (a b : Z) : num_lt (of_Z a) (of_Z b) = (a <? b)%Z.
Proof. simpl. unfold Qltb. simpl. rewrite !Z.mul_1_r. reflexivity. Qed.

Lemma num_le_of_Z (a b : Z) : num_le (of_Z a) (of_Z b) = (a <=? b)%Z.
Proof. simpl. unfold Qle_bool. simpl. rewrite !Z.mul_1_r. reflexivity. Qed.

Lemma num_eq_of_Z (a b : Z) : num_eq (of_Z a) (of_Z b) <-> a = b.
Proof. simpl. rewrite inject_Z_injective. reflexivity. Qed.

#[export] Hint Rewrite num_lt_NaN_r num_le_NaN_r num_lt_of_Z num_le_of_Z : js_rw.

(** ** [<] is a strict order on the numbers other than NaN *)

(** Case analysis on numbers, then linear arithmetic on the rationals. *)
Ltac num_cases :=
  repeat match goal with
  | x : number |- _ => destruct x as [|?|[]]
  end; simpl in *; try congruence; q_reflect; try lra.

Lemma num_lt_NaN_l (x : number) : num_lt NaN x = false.
Proof. reflexivity. Qed.

Lemma num_lt_irrefl (x : number) : num_lt x x = false.
Proof. num_cases. Qed.

Lemma num_lt_trans (x y z : number) :
  num_lt x y = true -> num_lt y z = true -> num_lt x z = true.
Proof. intros; num_cases. Qed.

Lemma num_lt_negtrans (x y z : number) :
  isNaN y = false -> num_lt x y = false -> num_lt y z = false -> num_lt x z = false.
Proof. intros; num_cases. Qed.

Lemma num_lt_false_le (x y : number) :
  isNaN x = false -> isNaN y = false -> num_lt x y = false -> num_le y x = true.
Proof. intros; num_cases. Qed.

Lemma num_lt_le (x y : number) : num_lt x y = true -> num_le x y = true.
Proof. intros; num_cases. Qed.

Lemma num_le_antisym_of_Z (a b : Z) :
  num_le (of_Z a) (of_Z b) = true -> num_le (of_Z b) (of_Z a) = true -> a = b.
Proof. rewrite !num_le_of_Z. lia. Qed.

Lemma num_lt_total_of_Z (a b : Z) :
  num_lt (of_Z a) (of_Z b) = false -> num_lt (of_Z b) (of_Z a) = false -> a = b.
Proof. rewrite !num_lt_of_Z. lia. Qed.

#[export] Hint Resolve num_lt_irrefl num_lt_trans num_lt_negtrans : js.

(** ** Rounded arithmetic *)

Section RoundingFacts.
Context `{Rounding}.
Implicit Types (p q : Q) (x y : number).

Lemma round_Z_small (z : Z) : (Z.abs z <= 2 ^ 53)%Z -> round_Z z = of_Z z.
Proof. apply round_integer. Qed.

Lemma round_Z_not_NaN (z : Z) : isNaN (round_Z z) = false.
Proof. apply round_not_NaN. Qed.

Lemma round_0 : round 0 = of_Z 0.
Proof. apply (round_integer 0). vm_compute. discriminate. Qed.

Lemma round_1 : round 1 = of_Z 1.
Proof. apply (round_integer 1). vm_compute. discriminate. Qed.

(** A value between two integers that are exact rounds to a finite number
    between them. *)
Lemma round_between (a b : Z) q :
  (Z.abs a <= 2 ^ 53)%Z -> (Z.abs b <= 2 ^ 53)%Z ->
  inject_Z a <= q <= inject_Z b ->
  num_between (inject_Z a) (inject_Z b) (round q).
Proof.
  intros Ha Hb [Haq Hqb].
  pose proof (round_mono _ _ Haq) as H1. pose proof (round_mono _ _ Hqb) as H2.
  rewrite round_integer in H1, H2 by assumption.
  destruct (round q) as [|r|[]]; simpl in *; try discriminate.
  q_reflect. split; assumption.
Qed.

Lemma rounded_not_NaN x : rounded x -> isNaN x = false.
Proof. intros [q ->]. apply round_not_NaN. Qed.

Lemma rounded_of_Z (z : Z) : (Z.abs z <= 2 ^ 53)%Z -> rounded (of_Z z).
Proof. intros Hz. exists (inject_Z z). symmetry. apply round_integer, Hz. Qed.

(** A finite rounded number is a fixed point of the rounding. *)
Lemma rounded_Fin q : rounded (Fin q) -> round q = Fin q.
Proof. intros [p Hp]. symmetry in Hp. apply (round_idem p q Hp). Qed.

(** Two rounded numbers that are equal as numbers are the same. *)
Lemma rounded_eq x y : rounded x -> rounded y -> num_eq x y -> x = y.
Proof.
  intros Hx Hy. destruct x as [|p|a], y as [|q|b]; simpl; try contradiction; auto.
  - intros Hpq. rewrite <- (rounded_Fin p Hx), <- (rounded_Fin q Hy), Hpq. reflexivity.
  - congruence.
Qed.

(** [<] is total on the rounded numbers. *)
Lemma rounded_lt_total x y :
  rounded x -> rounded y -> num_lt x y = false -> num_lt y x = false -> x = y.
Proof.
  intros Hx Hy H1 H2. apply rounded_eq; auto.
  apply rounded_not_NaN in Hx, Hy.
  destruct x as [|p|[]], y as [|q|[]]; simpl in *; try congruence.
  q_reflect. lra.
Qed.

(** The quotient of [s] by [r] with [0 <= s <= r] is within [[0, 1]]. *)
Lemma num_div_unit (s r : Q) :
  0 <= s <= r -> 0 < r -> num_between 0 1 (num_div (Fin s) (Fin r)).
Proof.
  intros [Hs Hsr] Hr. simpl.
  rewrite (proj2 (Qeq_bool_false r 0)) by lra.
  apply (round_between 0 1); try (vm_compute; discriminate).
  change (inject_Z 0) with 0. change (inject_Z 1) with 1.
  split; [apply Qle_shift_div_l | apply Qle_shift_div_r]; lra.
Qed.

(** A number within [[0, 1]] times a positive exact integer [k] is within
    [[0, k]]. *)
Lemma num_mul_between x (k : Z) :
  (0 <= k <= 2 ^ 53)%Z -> num_between 0 1 x ->
  num_between 0 (inject_Z k) (num_mul x (of_Z k)).
Proof.
  intros Hk Hx. destruct x as [|q|]; simpl in Hx; try contradiction. simpl.
  apply (round_between 0 k); [vm_compute; discriminate | lia |].
  assert (Hk0 : 0 <= inject_Z k) by (change 0 with (inject_Z 0); rewrite <- Zle_Qle; lia).
  destruct Hx as [Hq0 Hq1]. change (inject_Z 0) with 0.
  split; [apply Qmult_le_0_compat; assumption|].
  rewrite <- (Qmult_1_l (inject_Z k)) at 2. apply Qmult_le_compat_r; assumption.
Qed.

(** Division by a positive number and multiplication by one are monotone. *)
Lemma num_div_mono (a b r : Q) :
  0 < r -> a <= b -> num_le (num_div (Fin a) (Fin r)) (num_div (Fin b) (Fin r)) = true.
Proof.
  intros Hr Hab. simpl. rewrite (proj2 (Qeq_bool_false r 0)) by lra.
  apply round_mono. unfold Qdiv. apply Qmult_le_compat_r; [exact Hab|].
  apply Qinv_le_0_compat. lra.
Qed.

Lemma num_mul_mono (a b k : Q) :
  0 <= k -> a <= b -> num_le (num_mul (Fin a) (Fin k)) (num_mul (Fin b) (Fin k)) = true.
Proof. intros Hk Hab. simpl. apply round_mono, Qmult_le_compat_r; assumption. Qed.

Lemma num_sub_mono (a b m : Q) :
  a <= b -> num_le (num_sub (Fin a) (Fin m)) (num_sub (Fin b) (Fin m)) = true.
Proof. intros Hab. simpl. apply round_mono. lra. Qed.

(** The difference of a value and a smaller one is not negative. *)
Lemma num_sub_nonneg (a m : Q) : m <= a -> num_le (of_Z 0) (num_sub (Fin a) (Fin m)) = true.
Proof. intros Hm. rewrite <- round_0. simpl. apply round_mono. lra. Qed.

End RoundingFacts.

(** ** The instances *)

Lemma Qred_inject_Z (z : Z) : Qred (inject_Z z) = inject_Z z.
Proof.
  unfold Qred, inject_Z.
  pose proof (Z.ggcd_gcd z 1) as Hg. pose proof (Z.ggcd_correct_divisors z 1) as Hd.
  destruct (Z.ggcd z 1) as [g [a b]]. simpl in Hg, Hd. rewrite Z.gcd_1_r in Hg. subst g.
  destruct Hd as [-> Hb]. rewrite Z.mul_1_l in Hb. subst b. rewrite Z.mul_1_l. reflexivity.
Qed.

Lemma Qred_Qred (q : Q) : Qred (Qred q) = Qred q.
Proof. apply Qred_complete, Qred_correct. Qed.

Lemma exact_round_Proper : Proper (Qeq ==> eq) exact_round.
Proof. intros p q Hpq. unfold exact_round. f_equal. apply Qred_complete, Hpq. Qed.

Lemma exact_round_mono (p q : Q) :
  p <= q -> num_le (exact_round p) (exact_round q) = true.
Proof. intros Hpq. simpl. apply Qle_bool_iff. rewrite !Qred_correct. exact Hpq. Qed.

Lemma exact_round_integer (z : Z) :
  (Z.abs z <= 2 ^ 53)%Z -> exact_round (inject_Z z) = of_Z z.
Proof. intros _. unfold exact_round, of_Z. f_equal. apply Qred_inject_Z. Qed.

Lemma exact_round_idem (p q : Q) : exact_round p = Fin q -> exact_round q = Fin q.
Proof. unfold exact_round. intros [= <-]. f_equal. apply Qred_Qred. Qed.

(** The rounding that neither rounds nor overflows. *)
Definition exact_rounding : Rounding :=
  {| round := exact_round;
     round_Proper := exact_round_Proper;
     round_not_NaN := fun _ => eq_refl;
     round_mono := exact_round_mono;
     round_integer := exact_round_integer;
     round_idem := exact_round_idem |}.

Section FixedPoint.
Context (den : positive) (bound : Z) (bound_large : (2 ^ 53 < bound)%Z).

Local Abbreviation grid q := (Qfloor (q * inject_Z (Zpos den)) # den).

Lemma grid_le q : grid q <= q.
Proof.
  unfold Qle. simpl. pose proof (Qfloor_le (q * inject_Z (Zpos den))) as Hf.
  unfold Qle in Hf. simpl in Hf. lia.
Qed.

Lemma grid_mono p q : p <= q -> grid p <= grid q.
Proof.
  intros Hpq. unfold Qle. cbn [Qnum Qden]. apply Z.mul_le_mono_nonneg_r; [lia|].
  apply Qfloor_resp_le, Qmult_le_compat_r; [exact Hpq | discriminate].
Qed.

(** A multiple of [1/den] is on the grid. *)
Lemma grid_multiple (n : Z) q : q == n # den -> grid q == q.
Proof.
  intros Hq. rewrite Hq at 2.
  assert (E : q * inject_Z (Zpos den) == inject_Z n).
  { rewrite Hq. unfold Qeq, inject_Z. simpl. lia. }
  rewrite (Qfloor_comp _ _ E), Qfloor_Z. reflexivity.
Qed.

Lemma grid_ge_integer (z : Z) q : inject_Z z <= q -> inject_Z z <= grid q.
Proof.
  intros Hz. rewrite <- (grid_multiple (z * Zpos den) (inject_Z z)).
  - apply grid_mono, Hz.
  - unfold Qeq, inject_Z. simpl. lia.
Qed.

Lemma fixed_point_round_Fin p q :
  fixed_point_round den bound p = Fin q ->
  q = Qred (grid p) /\ inject_Z (- bound) <= p /\ p < inject_Z bound.
Proof.
  unfold fixed_point_round. q_cases; try discriminate. intros [= <-]. auto.
Qed.

Lemma fixed_point_round_inside q :
  inject_Z (- bound) <= q -> q < inject_Z bound ->
  fixed_point_round den bound q = Fin (Qred (grid q)).
Proof.
  intros H1 H2. unfold fixed_point_round.
  rewrite (proj2 (Qle_bool_false _ _)), (proj2 (Qltb_false _ _)) by assumption.
  reflexivity.
Qed.

Lemma fixed_point_round_Proper : Proper (Qeq ==> eq) (fixed_point_round den bound).
Proof.
  intros p q Hpq. unfold fixed_point_round.
  assert (E1 : Qle_bool (inject_Z bound) p = Qle_bool (inject_Z bound) q)
    by (rewrite Hpq; reflexivity).
  assert (E2 : Qltb p (inject_Z (- bound)) = Qltb q (inject_Z (- bound)))
    by (rewrite Hpq; reflexivity).
  assert (E3 : Qfloor (p * inject_Z (Zpos den)) = Qfloor (q * inject_Z (Zpos den)))
    by (apply Qfloor_comp; rewrite Hpq; reflexivity).
  rewrite E1, E2, E3. reflexivity.
Qed.

Lemma fixed_point_round_not_NaN q : isNaN (fixed_point_round den bound q) = false.
Proof. unfold fixed_point_round. repeat break_if; reflexivity. Qed.

Lemma fixed_point_round_mono p q :
  p <= q -> num_le (fixed_point_round den bound p) (fixed_point_round den bound q) = true.
Proof.
  intros Hpq. unfold fixed_point_round.
  q_cases; cbn [num_le negb orb]; try reflexivity; try (exfalso; lra).
  apply Qle_bool_iff. rewrite !Qred_correct. apply grid_mono, Hpq.
Qed.

Lemma fixed_point_round_integer (z : Z) :
  (Z.abs z <= 2 ^ 53)%Z -> fixed_point_round den bound (inject_Z z) = of_Z z.
Proof.
  intros Hz. rewrite fixed_point_round_inside by (rewrite <- ?Zle_Qle, <- ?Zlt_Qlt; lia).
  unfold of_Z. f_equal. transitivity (Qred (inject_Z z)); [|apply Qred_inject_Z].
  apply Qred_complete, (grid_multiple (z * Zpos den)). unfold Qeq, inject_Z. simpl. lia.
Qed.

Lemma fixed_point_round_idem p q :
  fixed_point_round den bound p = Fin q -> fixed_point_round den bound q = Fin q.
Proof.
  intros Hp. apply fixed_point_round_Fin in Hp as (-> & Hlo & Hhi).
  pose proof (grid_le p) as Hle. pose proof (grid_ge_integer (- bound) p Hlo) as Hge.
  rewrite fixed_point_round_inside by (rewrite Qred_correct; lra).
  f_equal. transitivity (Qred (Qred (grid p))); [|apply Qred_Qred].
  apply Qred_complete, (grid_multiple (Qfloor (p * inject_Z (Zpos den)))), Qred_correct.
Qed.

(** The rounding to multiples of [1/den] with overflow outside
    [[-bound, bound)]. *)
Definition fixed_point : Rounding :=
  {| round := fixed_point_round den bound;
     round_Proper := fixed_point_round_Proper;
     round_not_NaN := fixed_point_round_not_NaN;
     round_mono := fixed_point_round_mono;
     round_integer := fixed_point_round_integer;
     round_idem := fixed_point_round_idem |}.

End FixedPoint.
