(* ===== verification/JsFloat.v ===== *)
(** * JsFloat: binary floating-point rounding

    The rounding of IEEE-754 binary formats on the rationals: round to
    nearest, ties to even, with gradual underflow and overflow to an
    infinity.  [binary_round prec emax] is the rounding of the format of
    precision [prec] and maximal exponent [emax]; the exponent of the
    last place is [SpecFloat.fexp] of the Standard Library, the one of
    its specification of binary floats.  [binary64] is the format of the
    numbers of JavaScript.

    The file proves that the rounding meets the laws of
    [JsNumber.Rounding] for every format of precision at least 53, so
    the theorems of the development hold of the arithmetic of the
    platform, and that a difference of two numbers of a format is zero
    only when they are equal ([binary_round_sub_truthy]).  The two zeros
    are identified, as everywhere in the development. *)

From Stdlib Require Import QArith Qround Qreduction Qabs Qpower ZArith Lia Lqa Bool Morphisms List.
Import ListNotations.
From Stdlib Require Import Floats.SpecFloat.
From S2P Require Import Prelude JsNumber.

Local Open Scope Q_scope.

(** ** Definitions *)

(** [2^e], for an exponent of any sign. *)
Definition pow2 (e : Z) : Q := 2 ^ e.
#[global] Arguments pow2 : simpl never.

(** The magnitude of a rational other than zero: the [e] with
    [2^(e-1) <= |q| < 2^e].  The difference of the binary logarithms of
    the numerator and the denominator is [e] or [e - 1]. *)
Definition mag (q : Q) : Z :=
  let e0 := (Z.log2 (Z.abs (Qnum q)) - Z.log2 (Zpos (Qden q)))%Z in
  if Qle_bool (pow2 e0) (Qabs q) then (e0 + 1)%Z else e0.

(** The nearest integer, the even one of two that are as near. *)
Definition rne (x : Q) : Z :=
  let f := Qfloor x in
  match Qcompare (x - inject_Z f) (1 # 2) with
  | Lt => f
  | Gt => (f + 1)%Z
  | Eq => if Z.even f then f else (f + 1)%Z
  end.

(** [x] is a multiple of [2^u]. *)
Definition on_grid (x : Q) (u : Z) : Prop := exists n : Z, x == inject_Z n * pow2 u.

Section Format.
Context (prec emax : Z).

(** The exponent of the last place of the numbers of the magnitude of
    [q]: [mag q - prec], or the least exponent for a subnormal. *)
Definition ulp_exp (q : Q) : Z := fexp prec emax (mag q).

(** The rounding of a positive rational, with no bound on the exponent. *)
Definition round_pos (q : Q) : Q :=
  inject_Z (rne (q / pow2 (ulp_exp q))) * pow2 (ulp_exp q).

(** The rounding is symmetric. *)
Definition round_finite (q : Q) : Q :=
  match Qcompare q 0 with
  | Eq => 0
  | Gt => round_pos q
  | Lt => - round_pos (- q)
  end.

(** A result of magnitude [2^emax] or more overflows; a finite result is
    kept as a fraction in lowest terms. *)
Definition overflow (r : Q) : number :=
  if Qle_bool (pow2 emax) r then Inf true
  else if Qle_bool r (- pow2 emax) then Inf false
  else Fin (Qred r).

Definition binary_round (q : Q) : number := overflow (round_finite q).

End Format.

(** The format of the numbers of JavaScript. *)
Definition binary64_round : Q -> number := binary_round 53 1024.

(** ** The binary floats of the Standard Library

    [SpecFloat] specifies the operations of the primitive floats on
    [spec_float].  [SF2num] is the number that a [spec_float] denotes;
    the two zeros denote the same number. *)
Definition SF2num (x : spec_float) : number :=
  match x with
  | S754_zero _ => Fin 0
  | S754_infinity s => Inf (negb s)
  | S754_nan => NaN
  | S754_finite s m e =>
      Fin (Qred ((if s then - inject_Z (Zpos m) else inject_Z (Zpos m)) * pow2 e))
  end.

(** The binary64 float [m * 2^e], for [m] of at most 53 bits. *)
Definition SF_of (m e : Z) : spec_float := binary_normalize 53 1024 m e false.

(** The rational [m * 2^e]. *)
Definition Q_of (m e : Z) : Q := inject_Z m * pow2 e.

Definition num_same (x y : number) : bool :=
  match x, y with
  | NaN, NaN => true
  | Fin p, Fin q => Qeq_bool p q
  | Inf a, Inf b => Bool.eqb a b
  | _, _ => false
  end.

(** The operation [op_sf] of [SpecFloat] on the floats [a] and [b] gives the
    rounding of the exact operation [op] on the rationals they denote. *)
Definition agree (op_sf : spec_float -> spec_float -> spec_float) (op : Q -> Q -> Q)
    (a b : Z * Z) : bool :=
  num_same (SF2num (op_sf (SF_of (fst a) (snd a)) (SF_of (fst b) (snd b))))
           (binary64_round (op (Q_of (fst a) (snd a)) (Q_of (fst b) (snd b)))).

(** Mantissas and exponents for the comparison: small integers, numbers
    with 53 significant bits, subnormals, and numbers next to the
    overflow threshold. *)
Definition samples : list (Z * Z) :=
  [ (1, 0); (3, 0); (10, 0); (-3, 0); (-7, -4);
    (9007199254740991, 0); (6004799503160661, -54); (4503599627370497, 3);
    (1, -1074); (3, -1074); (4503599627370495, -1074);
    (9007199254740991, 971); (-9007199254740991, 971) ]%Z.

Definition all_pairs : list ((Z * Z) * (Z * Z)) := list_prod samples samples.

(** * Theorems *)

(** ** Powers of two *)

Lemma pow2_pos e : 0 < pow2 e.
Proof. apply Qpower_0_lt. reflexivity. Qed.

Lemma pow2_add a b : pow2 (a + b) == pow2 a * pow2 b.
Proof. apply Qpower_plus. discriminate. Qed.

Lemma pow2_sub a b : pow2 (a - b) == pow2 a / pow2 b.
Proof. apply Qpower_minus. discriminate. Qed.

Lemma pow2_le a b : (a <= b)%Z -> pow2 a <= pow2 b.
Proof. intros H. apply Qpower_le_compat_l; [exact H | discriminate]. Qed.

Lemma pow2_lt a b : (a < b)%Z -> pow2 a < pow2 b.
Proof. intros H. apply Qpower_lt_compat_l; [exact H | reflexivity]. Qed.

Lemma pow2_lt_inv a b : pow2 a < pow2 b -> (a < b)%Z.
Proof. intros H. apply (Qpower_lt_compat_l_inv 2); [exact H | reflexivity]. Qed.

Lemma pow2_Z e : (0 <= e)%Z -> pow2 e == inject_Z (2 ^ e).
Proof. intros H. symmetry. apply (Zpower_Qpower 2 e H). Qed.

Lemma pow2_0 : pow2 0 == 1.
Proof. reflexivity. Qed.

(** ** The magnitude *)

(** A positive integer is between two powers of two. *)
Lemma log2_bounds (n : Z) :
  (0 < n)%Z -> pow2 (Z.log2 n) <= inject_Z n < pow2 (Z.log2 n + 1).
Proof.
  intros Hn. pose proof (Z.log2_nonneg n) as H0.
  destruct (Z.log2_spec n Hn) as [H1 H2].
  rewrite !pow2_Z by lia. rewrite <- Zle_Qle, <- Zlt_Qlt.
  replace (Z.log2 n + 1)%Z with (Z.succ (Z.log2 n)) by lia. auto.
Qed.

Lemma Qabs_frac (q : Q) : Qabs q == inject_Z (Z.abs (Qnum q)) / inject_Z (Zpos (Qden q)).
Proof.
  destruct q as [n d]. unfold Qabs. cbn [Qnum Qden].
  rewrite (Qmake_Qdiv (Z.abs n) d). reflexivity.
Qed.

Lemma Qdiv_lt_div (a b c d : Q) : 0 < b -> 0 < d -> a * d < c * b -> a / b < c / d.
Proof.
  intros Hb Hd H. apply Qlt_shift_div_l; [exact Hd|].
  setoid_replace (a / b * d) with (a * d / b) by (field; lra).
  apply Qlt_shift_div_r; assumption.
Qed.

Lemma mag_spec (q : Q) : ~ q == 0 -> pow2 (mag q - 1) <= Qabs q < pow2 (mag q).
Proof.
  intros Hq. unfold mag.
  set (n := Z.abs (Qnum q)). set (d := Zpos (Qden q)).
  assert (Hn : (0 < n)%Z).
  { unfold n. destruct q as [[|a|a] b]; simpl; try lia. exfalso. apply Hq. reflexivity. }
  assert (Hd : (0 < d)%Z) by (unfold d; lia).
  destruct (log2_bounds n Hn) as [Hn1 Hn2]. destruct (log2_bounds d Hd) as [Hd1 Hd2].
  assert (Hdq : 0 < inject_Z d) by (change 0 with (inject_Z 0); rewrite <- Zlt_Qlt; exact Hd).
  assert (Hnq : 0 < inject_Z n) by (change 0 with (inject_Z 0); rewrite <- Zlt_Qlt; exact Hn).
  assert (Ea : Qabs q == inject_Z n / inject_Z d) by apply Qabs_frac.
  pose proof (pow2_pos (Z.log2 n)) as P1. pose proof (pow2_pos (Z.log2 d)) as P2.
  pose proof (pow2_pos (Z.log2 d + 1)) as P3. pose proof (pow2_pos (Z.log2 n + 1)) as P4.
  set (e0 := (Z.log2 n - Z.log2 d)%Z).
  assert (Hhi : Qabs q < pow2 (e0 + 1)).
  { rewrite Ea. unfold e0. replace (Z.log2 n - Z.log2 d + 1)%Z with (Z.log2 n + 1 - Z.log2 d)%Z by lia.
    rewrite pow2_sub. apply Qdiv_lt_div; try assumption. nra. }
  assert (Hlo : pow2 (e0 - 1) < Qabs q).
  { rewrite Ea. unfold e0. replace (Z.log2 n - Z.log2 d - 1)%Z with (Z.log2 n - (Z.log2 d + 1))%Z by lia.
    rewrite pow2_sub. apply Qdiv_lt_div; try assumption. nra. }
  destruct (Qle_bool (pow2 e0) (Qabs q)) eqn:E.
  - apply Qle_bool_iff in E. replace (e0 + 1 - 1)%Z with e0 by lia. split; assumption.
  - assert (Qabs q < pow2 e0).
    { apply Qnot_le_lt. intros C. apply Qle_bool_iff in C. congruence. }
    split; [apply Qlt_le_weak|]; assumption.
Qed.

Lemma Qabs_0_inv (q : Q) : Qabs q <= 0 -> q == 0.
Proof.
  intros H. destruct (Qlt_le_dec q 0) as [Hn|Hn];
    [rewrite (Qabs_neg q) in H by lra | rewrite (Qabs_pos q) in H by lra]; lra.
Qed.

Lemma mag_unique (q : Q) (e : Z) : pow2 (e - 1) <= Qabs q < pow2 e -> mag q = e.
Proof.
  intros [H1 H2].
  assert (Hq : ~ q == 0).
  { intros E. rewrite E in H1. pose proof (pow2_pos (e - 1)). simpl in H1. lra. }
  destruct (mag_spec q Hq) as [M1 M2].
  assert (mag q - 1 < e)%Z by (apply pow2_lt_inv; lra).
  assert (e - 1 < mag q)%Z by (apply pow2_lt_inv; lra).
  lia.
Qed.

(** On non-zero rationals the magnitude respects equality, and grows with
    the absolute value. *)
Lemma mag_comp (p q : Q) : ~ p == 0 -> p == q -> mag p = mag q.
Proof.
  intros Hp E. symmetry. apply mag_unique. pose proof (Qabs_wd p q E) as Ea.
  destruct (mag_spec p Hp). lra.
Qed.

Lemma mag_le (p q : Q) : ~ p == 0 -> Qabs p <= Qabs q -> (mag p <= mag q)%Z.
Proof.
  intros Hp Hle.
  assert (Hq : ~ q == 0).
  { intros E. apply Hp. pose proof (Qabs_wd q 0 E) as E0. change (Qabs 0) with 0 in E0.
    destruct (Qlt_le_dec p 0) as [Hn|Hn];
      [rewrite (Qabs_neg p) in Hle by lra | rewrite (Qabs_pos p) in Hle by lra]; lra. }
  destruct (mag_spec p Hp) as [P1 _]. destruct (mag_spec q Hq) as [_ Q2].
  assert (mag p - 1 < mag q)%Z by (apply pow2_lt_inv; lra). lia.
Qed.

Lemma mag_lt_pow2 (q : Q) (e : Z) : ~ q == 0 -> Qabs q < pow2 e -> (mag q <= e)%Z.
Proof.
  intros Hq H. destruct (mag_spec q Hq) as [M1 _].
  assert (mag q - 1 < e)%Z by (apply pow2_lt_inv; lra). lia.
Qed.

(** ** Rounding to the nearest integer *)

Lemma rne_bounds (x : Q) : (Qfloor x <= rne x <= Qfloor x + 1)%Z.
Proof. unfold rne. destruct (Qcompare _ _); try destruct (Z.even _); lia. Qed.

Lemma rne_comp (x y : Q) : x == y -> rne x = rne y.
Proof.
  intros E. unfold rne. rewrite (Qfloor_comp x y E).
  assert (E' : x - inject_Z (Qfloor y) == y - inject_Z (Qfloor y)) by (rewrite E; reflexivity).
  rewrite (Qcompare_comp _ _ E' (1#2) (1#2) (Qeq_refl _)). reflexivity.
Qed.

Lemma Qfloor_frac (x : Q) : 0 <= x - inject_Z (Qfloor x) < 1.
Proof.
  pose proof (Qfloor_le x). pose proof (Qlt_floor x) as H1.
  rewrite inject_Z_plus in H1. change (inject_Z 1) with 1 in H1. lra.
Qed.

Lemma rne_Z (z : Z) : rne (inject_Z z) = z.
Proof.
  unfold rne. rewrite Qfloor_Z.
  assert (E : inject_Z z - inject_Z z == 0) by ring.
  rewrite (Qcompare_comp _ _ E (1#2) (1#2) (Qeq_refl _)). reflexivity.
Qed.

Lemma rne_mono (x y : Q) : x <= y -> (rne x <= rne y)%Z.
Proof.
  intros Hxy. pose proof (Qfloor_resp_le x y Hxy) as Hf.
  pose proof (rne_bounds x). pose proof (rne_bounds y).
  destruct (Z.eq_dec (Qfloor x) (Qfloor y)) as [E|NE]; [|lia].
  unfold rne. rewrite E.
  destruct (Qcompare_spec (x - inject_Z (Qfloor y)) (1#2)) as [H1|H1|H1],
           (Qcompare_spec (y - inject_Z (Qfloor y)) (1#2)) as [H2|H2|H2];
    try destruct (Z.even (Qfloor y)); try lia; exfalso; lra.
Qed.

Lemma rne_le_Z (x : Q) (n : Z) : x <= inject_Z n -> (rne x <= n)%Z.
Proof. intros H. rewrite <- (rne_Z n). apply rne_mono, H. Qed.

Lemma rne_ge_Z (x : Q) (n : Z) : inject_Z n <= x -> (n <= rne x)%Z.
Proof. intros H. rewrite <- (rne_Z n). apply rne_mono, H. Qed.

(** ** Multiples of a power of two *)

Lemma on_grid_coarser (x : Q) (u v : Z) : (u <= v)%Z -> on_grid x v -> on_grid x u.
Proof.
  intros Huv [n Hn]. exists (n * 2 ^ (v - u))%Z.
  rewrite Hn, inject_Z_mult, <- (pow2_Z (v - u)) by lia.
  replace v with (v - u + u)%Z at 1 by lia. rewrite pow2_add. ring.
Qed.

Lemma on_grid_pow2 (e u : Z) : (u <= e)%Z -> on_grid (pow2 e) u.
Proof.
  intros Hue. apply (on_grid_coarser _ u e Hue). exists 1%Z. ring.
Qed.

Lemma on_grid_0 (u : Z) : on_grid 0 u.
Proof. exists 0%Z. ring. Qed.

Lemma on_grid_opp (x : Q) (u : Z) : on_grid x u -> on_grid (- x) u.
Proof. intros [n Hn]. exists (- n)%Z. rewrite Hn, inject_Z_opp. ring. Qed.

Lemma on_grid_sub (x y : Q) (u : Z) : on_grid x u -> on_grid y u -> on_grid (x - y) u.
Proof.
  intros [n Hn] [k Hk]. exists (n - k)%Z.
  unfold Z.sub. rewrite Hn, Hk, inject_Z_plus, inject_Z_opp. ring.
Qed.

(** A positive multiple of [2^u] is at least [2^u]. *)
Lemma on_grid_least (x : Q) (u : Z) : on_grid x u -> 0 < x -> pow2 u <= x.
Proof.
  intros [n Hn] Hx. pose proof (pow2_pos u) as Hu. rewrite Hn in *.
  assert (Hn1 : (1 <= n)%Z).
  { destruct (Z_lt_le_dec n 1) as [Hlt|]; [exfalso|assumption].
    assert (Hq : inject_Z n <= 0) by (change 0 with (inject_Z 0); rewrite <- Zle_Qle; lia).
    nra. }
  rewrite Zle_Qle in Hn1. change (inject_Z 1) with 1 in Hn1. nra.
Qed.

(** A multiple of [2^u] divided by [2^u] is an integer. *)
Lemma on_grid_scaled (x : Q) (u : Z) :
  on_grid x u -> exists n : Z, x / pow2 u == inject_Z n.
Proof.
  intros [n Hn]. exists n. rewrite Hn. pose proof (pow2_pos u). field. lra.
Qed.

Lemma Qdiv_le_pos (a b c : Q) : 0 < c -> a <= b -> a / c <= b / c.
Proof.
  intros Hc Hab. apply Qle_shift_div_l; [exact Hc|].
  setoid_replace (a / c * c) with a by (field; lra). exact Hab.
Qed.

(** ** The rounding of a positive rational *)

Section FormatFacts.
Context (prec emax : Z).
Hypothesis prec_large : (53 <= prec)%Z.
Hypothesis emax_large : (prec < emax)%Z.

Local Abbreviation ulp_exp := (ulp_exp prec emax).
Local Abbreviation round_pos := (round_pos prec emax).
Local Abbreviation round_finite := (round_finite prec emax).
Local Abbreviation binary_round := (binary_round prec emax).

Lemma ulp_exp_ge_emin (q : Q) : (emin prec emax <= ulp_exp q)%Z.
Proof. unfold JsFloat.ulp_exp, fexp. lia. Qed.

Lemma ulp_exp_ge_mag (q : Q) : (mag q - prec <= ulp_exp q)%Z.
Proof. unfold JsFloat.ulp_exp, fexp. lia. Qed.

Lemma ulp_exp_comp (p q : Q) : ~ p == 0 -> p == q -> ulp_exp p = ulp_exp q.
Proof. intros Hp E. unfold JsFloat.ulp_exp. rewrite (mag_comp p q Hp E). reflexivity. Qed.

Lemma ulp_exp_le (p q : Q) : 0 < p -> p <= q -> (ulp_exp p <= ulp_exp q)%Z.
Proof.
  intros Hp Hpq. unfold JsFloat.ulp_exp, fexp.
  assert (mag p <= mag q)%Z by (apply mag_le; [lra | rewrite !Qabs_pos by lra; exact Hpq]).
  lia.
Qed.

Lemma round_pos_comp (p q : Q) : 0 < p -> p == q -> round_pos p == round_pos q.
Proof.
  intros Hp E. unfold JsFloat.round_pos. rewrite <- (ulp_exp_comp p q) by (lra || exact E).
  rewrite (rne_comp (q / pow2 (ulp_exp p)) (p / pow2 (ulp_exp p)))
    by (apply Qdiv_comp; [symmetry; exact E | reflexivity]).
  reflexivity.
Qed.

(** The rounding does not cross a multiple of the last place. *)
Lemma round_pos_le_grid (q x : Q) :
  on_grid x (ulp_exp q) -> q <= x -> round_pos q <= x.
Proof.
  intros Hx Hqx. destruct (on_grid_scaled x _ Hx) as [n Hn].
  pose proof (pow2_pos (ulp_exp q)) as Hu. unfold JsFloat.round_pos.
  assert (Hr : (rne (q / pow2 (ulp_exp q)) <= n)%Z)
    by (apply rne_le_Z; rewrite <- Hn; apply Qdiv_le_pos; assumption).
  rewrite Zle_Qle in Hr.
  setoid_replace x with (x / pow2 (ulp_exp q) * pow2 (ulp_exp q)) by (field; lra).
  rewrite Hn. apply Qmult_le_compat_r; lra.
Qed.

Lemma round_pos_ge_grid (q x : Q) :
  on_grid x (ulp_exp q) -> x <= q -> x <= round_pos q.
Proof.
  intros Hx Hqx. destruct (on_grid_scaled x _ Hx) as [n Hn].
  pose proof (pow2_pos (ulp_exp q)) as Hu. unfold JsFloat.round_pos.
  assert (Hr : (n <= rne (q / pow2 (ulp_exp q)))%Z)
    by (apply rne_ge_Z; rewrite <- Hn; apply Qdiv_le_pos; assumption).
  rewrite Zle_Qle in Hr.
  setoid_replace x with (x / pow2 (ulp_exp q) * pow2 (ulp_exp q)) by (field; lra).
  rewrite Hn. apply Qmult_le_compat_r; lra.
Qed.

(** A multiple of its own last place is its own rounding. *)
Lemma round_pos_exact (q : Q) : on_grid q (ulp_exp q) -> round_pos q == q.
Proof.
  intros Hq. apply Qle_antisym;
    [apply round_pos_le_grid | apply round_pos_ge_grid]; auto; lra.
Qed.

Lemma round_pos_nonneg (q : Q) : 0 <= q -> 0 <= round_pos q.
Proof. intros Hq. apply round_pos_ge_grid; [apply on_grid_0 | exact Hq]. Qed.

Lemma round_pos_on_grid (q : Q) : on_grid (round_pos q) (ulp_exp q).
Proof. eexists. reflexivity. Qed.

(** The rounding of positive rationals is monotone: two rationals with
    the same last place are rounded on the same grid, and between two
    rationals of different magnitudes lies a power of two that is on the
    grid of both. *)
Lemma round_pos_mono (p q : Q) : 0 < p -> p <= q -> round_pos p <= round_pos q.
Proof.
  intros Hp Hpq. pose proof (ulp_exp_le p q Hp Hpq) as Hu.
  destruct (Z.eq_dec (ulp_exp p) (ulp_exp q)) as [E|NE].
  - unfold JsFloat.round_pos. rewrite E. pose proof (pow2_pos (ulp_exp q)).
    apply Qmult_le_compat_r; [|lra]. rewrite <- Zle_Qle.
    apply rne_mono, Qdiv_le_pos; assumption.
  - assert (Hm : (mag p < mag q)%Z) by (unfold JsFloat.ulp_exp, fexp in *; lia).
    assert (Hq : (ulp_exp q <= mag q - 1)%Z) by (unfold JsFloat.ulp_exp, fexp in *; lia).
    destruct (mag_spec p) as [_ P2]; [lra|]. destruct (mag_spec q) as [Q1 _]; [lra|].
    rewrite Qabs_pos in P2, Q1 by lra.
    assert (pow2 (mag p) <= pow2 (mag q - 1)) by (apply pow2_le; lia).
    apply (Qle_trans _ (pow2 (mag q - 1))).
    + apply round_pos_le_grid; [apply on_grid_pow2; lia | lra].
    + apply round_pos_ge_grid; [apply on_grid_pow2; lia | lra].
Qed.

Lemma on_grid_comp (x y : Q) (u : Z) : x == y -> on_grid x u -> on_grid y u.
Proof. intros E [n Hn]. exists n. rewrite <- E. exact Hn. Qed.

Lemma round_pos_zero (x : Q) : x == 0 -> round_pos x == 0.
Proof.
  intros E. unfold JsFloat.round_pos. pose proof (pow2_pos (ulp_exp x)).
  rewrite (rne_comp _ (inject_Z 0))
    by (rewrite (Qdiv_comp _ _ E _ _ (Qeq_refl _)); unfold Qdiv; apply Qmult_0_l).
  rewrite rne_Z. ring.
Qed.

(** The scaled rounding has at most [prec] bits, or is [2^prec]. *)
Lemma round_pos_scaled_le (q : Q) :
  0 < q -> (rne (q / pow2 (ulp_exp q)) <= 2 ^ prec)%Z.
Proof.
  intros Hq. apply rne_le_Z. rewrite <- pow2_Z by lia.
  pose proof (pow2_pos (ulp_exp q)) as Hu. pose proof (ulp_exp_ge_mag q) as Hm.
  destruct (mag_spec q) as [_ Q2]; [lra|]. rewrite Qabs_pos in Q2 by lra.
  apply (Qle_trans _ (pow2 (mag q - ulp_exp q))); [|apply pow2_le; lia].
  rewrite pow2_sub. apply Qdiv_le_pos; lra.
Qed.

(** The rounding of a positive rational is on the grid of its own last
    place. *)
Lemma round_pos_representable (q : Q) :
  0 < q -> 0 < round_pos q -> on_grid (round_pos q) (ulp_exp (round_pos q)).
Proof.
  intros Hq Hr. pose proof (round_pos_scaled_le q Hq) as Hm.
  pose proof (pow2_pos (ulp_exp q)) as Hu. pose proof (ulp_exp_ge_emin q) as He.
  set (m := rne (q / pow2 (ulp_exp q))) in *.
  assert (Er : round_pos q == inject_Z m * pow2 (ulp_exp q)) by reflexivity.
  destruct (Z.eq_dec m (2 ^ prec)) as [E|NE].
  - assert (Ep : round_pos q == pow2 (prec + ulp_exp q))
      by (rewrite Er, E, <- pow2_Z, pow2_add by lia; reflexivity).
    assert (Hmag : mag (round_pos q) = (prec + ulp_exp q + 1)%Z).
    { apply mag_unique. rewrite Qabs_pos, Ep by lra.
      replace (prec + ulp_exp q + 1 - 1)%Z with (prec + ulp_exp q)%Z by lia.
      split; [lra | apply pow2_lt; lia]. }
    apply (on_grid_comp (pow2 (prec + ulp_exp q))); [symmetry; exact Ep|].
    apply on_grid_pow2. unfold JsFloat.ulp_exp at 1. rewrite Hmag. unfold fexp. lia.
  - apply (on_grid_coarser _ _ (ulp_exp q)); [|apply round_pos_on_grid].
    assert (Hlt : round_pos q < pow2 (prec + ulp_exp q)).
    { rewrite Er, pow2_add, (pow2_Z prec) by lia. apply Qmult_lt_compat_r; [exact Hu|].
      rewrite <- Zlt_Qlt. lia. }
    assert (mag (round_pos q) <= prec + ulp_exp q)%Z
      by (apply mag_lt_pow2; [lra | rewrite Qabs_pos by lra; exact Hlt]).
    unfold JsFloat.ulp_exp at 1. unfold fexp. lia.
Qed.

Lemma round_pos_idem (q : Q) : 0 < q -> round_pos (round_pos q) == round_pos q.
Proof.
  intros Hq. pose proof (round_pos_nonneg q ltac:(lra)) as H0.
  destruct (Qeq_dec (round_pos q) 0) as [E|NE].
  - rewrite (round_pos_zero _ E). symmetry. exact E.
  - apply round_pos_exact, round_pos_representable; [exact Hq | lra].
Qed.

(** Integers of at most [prec] bits, and [2^prec], are their own
    rounding. *)
Lemma round_pos_Z (z : Z) :
  (0 < z <= 2 ^ prec)%Z -> round_pos (inject_Z z) == inject_Z z.
Proof.
  intros Hz. apply round_pos_exact.
  assert (Hq : 0 < inject_Z z) by (change 0 with (inject_Z 0); rewrite <- Zlt_Qlt; lia).
  destruct (Z.eq_dec z (2 ^ prec)) as [E|NE].
  - assert (Ep : inject_Z z == pow2 prec) by (rewrite E, pow2_Z by lia; reflexivity).
    assert (Hmag : mag (inject_Z z) = (prec + 1)%Z).
    { apply mag_unique. rewrite Qabs_pos, Ep by lra.
      replace (prec + 1 - 1)%Z with prec by lia. split; [lra | apply pow2_lt; lia]. }
    apply (on_grid_comp (pow2 prec)); [symmetry; exact Ep|].
    apply on_grid_pow2. unfold JsFloat.ulp_exp. rewrite Hmag. unfold fexp, emin. lia.
  - apply (on_grid_coarser _ _ 0); [|exists z; rewrite pow2_0; ring].
    assert (mag (inject_Z z) <= prec)%Z.
    { apply mag_lt_pow2; [lra|]. rewrite Qabs_pos by lra. rewrite pow2_Z by lia.
      rewrite <- Zlt_Qlt. lia. }
    unfold JsFloat.ulp_exp, fexp, emin. lia.
Qed.

(** ** The symmetric rounding *)

Lemma round_finite_pos (q : Q) : 0 < q -> round_finite q = round_pos q.
Proof. intros Hq. unfold JsFloat.round_finite. rewrite (proj1 (Qgt_alt q 0) Hq). reflexivity. Qed.

Lemma round_finite_neg (q : Q) : q < 0 -> round_finite q = - round_pos (- q).
Proof. intros Hq. unfold JsFloat.round_finite. rewrite (proj1 (Qlt_alt q 0) Hq). reflexivity. Qed.

Lemma round_finite_zero (q : Q) : q == 0 -> round_finite q = 0.
Proof. intros Hq. unfold JsFloat.round_finite. rewrite (proj1 (Qeq_alt q 0) Hq). reflexivity. Qed.

(** Case analysis on the sign of a rational, with the rounding rewritten
    in each case. *)
Lemma round_finite_cases (q : Q) :
  (q < 0 /\ round_finite q = - round_pos (- q) /\ 0 <= round_pos (- q))
  \/ (q == 0 /\ round_finite q = 0)
  \/ (0 < q /\ round_finite q = round_pos q /\ 0 <= round_pos q).
Proof.
  destruct (Q_dec q 0) as [[Hq|Hq]|Hq].
  - left. repeat split; [exact Hq | apply round_finite_neg, Hq | apply round_pos_nonneg; lra].
  - right; right.
    repeat split; [exact Hq | apply round_finite_pos, Hq | apply round_pos_nonneg; lra].
  - right; left. split; [exact Hq | apply round_finite_zero, Hq].
Qed.

Lemma round_finite_comp (p q : Q) : p == q -> round_finite p == round_finite q.
Proof.
  intros E. unfold JsFloat.round_finite.
  rewrite <- (Qcompare_comp p q E 0 0 (Qeq_refl 0)).
  destruct (Qcompare_spec p 0) as [H0|H0|H0]; [reflexivity|..].
  - apply Qopp_comp, round_pos_comp; [lra | rewrite E; reflexivity].
  - apply round_pos_comp; assumption.
Qed.

Lemma round_finite_mono (p q : Q) : p <= q -> round_finite p <= round_finite q.
Proof.
  intros Hpq.
  destruct (round_finite_cases p) as [(Hp & -> & Rp)|[(Hp & ->)|(Hp & -> & Rp)]],
           (round_finite_cases q) as [(Hq & -> & Rq)|[(Hq & ->)|(Hq & -> & Rq)]];
    try lra.
  - apply Qopp_le_compat, round_pos_mono; lra.
  - apply round_pos_mono; assumption.
Qed.

Lemma round_finite_idem (q : Q) : round_finite (round_finite q) == round_finite q.
Proof.
  destruct (round_finite_cases q) as [(Hq & E & Rq)|[(Hq & E)|(Hq & E & Rq)]]; rewrite E.
  - destruct (Qeq_dec (round_pos (- q)) 0) as [E0|NE].
    + rewrite round_finite_zero by (rewrite E0; reflexivity). rewrite E0. reflexivity.
    + rewrite round_finite_neg by lra. apply Qopp_comp.
      rewrite (round_pos_comp _ (round_pos (- q))) by (lra || ring).
      apply round_pos_idem. lra.
  - reflexivity.
  - destruct (Qeq_dec (round_pos q) 0) as [E0|NE].
    + rewrite round_finite_zero by exact E0. symmetry. exact E0.
    + rewrite round_finite_pos by lra. apply round_pos_idem, Hq.
Qed.

Lemma round_finite_Z (z : Z) :
  (Z.abs z <= 2 ^ prec)%Z -> round_finite (inject_Z z) == inject_Z z.
Proof.
  intros Hz. destruct (Z.lt_trichotomy z 0) as [Hn|[->|Hp]].
  - rewrite round_finite_neg by (change 0 with (inject_Z 0); rewrite <- Zlt_Qlt; exact Hn).
    rewrite (round_pos_comp _ (inject_Z (- z))).
    + rewrite round_pos_Z by lia. rewrite inject_Z_opp. ring.
    + rewrite <- inject_Z_opp. change 0 with (inject_Z 0). rewrite <- Zlt_Qlt. lia.
    + rewrite inject_Z_opp. reflexivity.
  - reflexivity.
  - rewrite round_finite_pos by (change 0 with (inject_Z 0); rewrite <- Zlt_Qlt; exact Hp).
    apply round_pos_Z. lia.
Qed.

(** ** Overflow *)

Lemma overflow_comp (r r' : Q) : r == r' -> overflow emax r = overflow emax r'.
Proof.
  intros E. unfold overflow.
  rewrite (Qleb_comp _ _ (Qeq_refl (pow2 emax)) _ _ E).
  rewrite (Qleb_comp _ _ E _ _ (Qeq_refl (- pow2 emax))).
  rewrite (Qred_complete r r' E). reflexivity.
Qed.

Lemma overflow_mono (r r' : Q) :
  r <= r' -> num_le (overflow emax r) (overflow emax r') = true.
Proof.
  intros Hr. pose proof (pow2_pos emax). unfold overflow.
  q_cases; cbn [num_le negb orb]; try reflexivity; try (exfalso; lra).
  apply Qle_bool_iff. rewrite !Qred_correct. exact Hr.
Qed.

Lemma overflow_inside (r : Q) :
  - pow2 emax < r < pow2 emax -> overflow emax r = Fin (Qred r).
Proof.
  intros [H1 H2]. unfold overflow.
  rewrite !(proj2 (Qle_bool_false _ _)) by assumption. reflexivity.
Qed.

Lemma overflow_Fin (r q : Q) :
  overflow emax r = Fin q -> q = Qred r /\ - pow2 emax < r < pow2 emax.
Proof. unfold overflow. q_cases; try discriminate. intros [= <-]. auto. Qed.

(** ** The laws of [Rounding] *)

Lemma binary_round_Proper : Proper (Qeq ==> eq) binary_round.
Proof. intros p q E. apply overflow_comp, round_finite_comp, E. Qed.

Lemma binary_round_not_NaN (q : Q) : isNaN (binary_round q) = false.
Proof. unfold JsFloat.binary_round, overflow. repeat break_if; reflexivity. Qed.

Lemma binary_round_mono (p q : Q) :
  p <= q -> num_le (binary_round p) (binary_round q) = true.
Proof. intros Hpq. apply overflow_mono, round_finite_mono, Hpq. Qed.

Lemma binary_round_integer (z : Z) :
  (Z.abs z <= 2 ^ 53)%Z -> binary_round (inject_Z z) = of_Z z.
Proof.
  intros Hz. assert (H53 : (2 ^ 53 <= 2 ^ prec)%Z) by (apply Z.pow_le_mono_r; lia).
  unfold JsFloat.binary_round. rewrite (overflow_comp _ (inject_Z z)) by (apply round_finite_Z; lia).
  rewrite overflow_inside; [unfold of_Z; f_equal; apply Qred_inject_Z|].
  assert (H2 : (2 ^ prec < 2 ^ emax)%Z) by (apply Z.pow_lt_mono_r; lia).
  rewrite pow2_Z, <- inject_Z_opp, <- !Zlt_Qlt by lia. lia.
Qed.

Lemma binary_round_idem (p q : Q) : binary_round p = Fin q -> binary_round q = Fin q.
Proof.
  intros Hp. apply overflow_Fin in Hp as [-> Hin]. unfold JsFloat.binary_round.
  rewrite (overflow_comp _ (round_finite p)).
  - apply overflow_inside, Hin.
  - rewrite (round_finite_comp _ (round_finite p)) by apply Qred_correct.
    apply round_finite_idem.
Qed.

(** ** Gradual underflow

    Every number of the format is a multiple of the least positive one,
    [2^emin].  So is the difference of two of them, which is zero or at
    least [2^emin] in magnitude: it does not round to zero. *)

Lemma round_finite_on_grid (q : Q) : on_grid (round_finite q) (emin prec emax).
Proof.
  destruct (round_finite_cases q) as [(_ & -> & _)|[(_ & ->)|(_ & -> & _)]].
  - apply on_grid_opp, (on_grid_coarser _ _ (ulp_exp (- q)));
      [apply ulp_exp_ge_emin | apply round_pos_on_grid].
  - apply on_grid_0.
  - apply (on_grid_coarser _ _ (ulp_exp q));
      [apply ulp_exp_ge_emin | apply round_pos_on_grid].
Qed.

Lemma binary_round_on_grid (q r : Q) :
  binary_round q = Fin r -> on_grid r (emin prec emax).
Proof.
  intros Hq. apply overflow_Fin in Hq as [-> _].
  apply (on_grid_comp (round_finite q));
    [symmetry; apply Qred_correct | apply round_finite_on_grid].
Qed.

(** The least positive number of the format is its own rounding. *)
Lemma round_pos_least : round_pos (pow2 (emin prec emax)) == pow2 (emin prec emax).
Proof.
  pose proof (pow2_pos (emin prec emax)) as Hp.
  apply round_pos_exact, on_grid_pow2. unfold JsFloat.ulp_exp, fexp.
  rewrite (mag_unique _ (emin prec emax + 1)); [lia|].
  rewrite Qabs_pos by lra. replace (emin prec emax + 1 - 1)%Z with (emin prec emax) by lia.
  split; [lra | apply pow2_lt; lia].
Qed.

Lemma round_finite_positive (r : Q) :
  on_grid r (emin prec emax) -> 0 < r -> 0 < round_finite r.
Proof.
  intros Hg Hr. pose proof (pow2_pos (emin prec emax)) as Hp.
  pose proof (round_finite_mono _ _ (on_grid_least _ _ Hg Hr)) as Hle.
  rewrite (round_finite_pos (pow2 _)) in Hle by exact Hp.
  rewrite round_pos_least in Hle. lra.
Qed.

Lemma round_finite_negative (r : Q) :
  on_grid r (emin prec emax) -> r < 0 -> round_finite r < 0.
Proof.
  intros Hg Hr. rewrite round_finite_neg by exact Hr.
  pose proof (round_finite_positive (- r) (on_grid_opp _ _ Hg) ltac:(lra)) as Hpos.
  rewrite round_finite_pos in Hpos by lra. lra.
Qed.

(** The difference of two numbers of the format that are not equal is a
    number that is not zero. *)
Lemma binary_round_sub_truthy (p q x y : Q) :
  binary_round p = Fin x -> binary_round q = Fin y -> ~ x == y ->
  truthy (binary_round (x - y)) = true.
Proof.
  intros Hx Hy Hne.
  pose proof (on_grid_sub _ _ _ (binary_round_on_grid _ _ Hx) (binary_round_on_grid _ _ Hy))
    as Hg.
  assert (Hr : ~ round_finite (x - y) == 0).
  { destruct (Q_dec x y) as [[Hlt|Hgt]|Heq]; [| |contradiction].
    - pose proof (round_finite_negative _ Hg ltac:(lra)). lra.
    - pose proof (round_finite_positive _ Hg ltac:(lra)). lra. }
  unfold JsFloat.binary_round, overflow. q_cases; cbn [truthy]; try reflexivity.
  rewrite (proj2 (Qeq_bool_false _ _)); [reflexivity|]. rewrite Qred_correct. exact Hr.
Qed.

(** The rounding of a binary format of precision at least 53. *)
Definition binary_format : Rounding :=
  {| round := binary_round;
     round_Proper := binary_round_Proper;
     round_not_NaN := binary_round_not_NaN;
     round_mono := binary_round_mono;
     round_integer := binary_round_integer;
     round_idem := binary_round_idem |}.

End FormatFacts.

(** ** binary64 *)

Lemma binary64_prec : (53 <= 53)%Z.
Proof. discriminate. Qed.

Lemma binary64_emax : (53 < 1024)%Z.
Proof. reflexivity. Qed.

(** The numbers of JavaScript: precision 53, exponents up to 1024. *)
Definition binary64 : Rounding := binary_format 53 1024 binary64_prec binary64_emax.

(** ** Agreement with the specification of the Standard Library

    On every pair of the samples, the subtraction, the multiplication and
    the division of [SpecFloat] at precision 53 and maximal exponent 1024
    give the number that [binary64] rounds the exact result to. *)

Example binary64_agrees_sub :
  forallb (fun ab => agree (SFsub 53 1024) Qminus (fst ab) (snd ab)) all_pairs = true.
Proof. vm_cast_no_check (eq_refl true). Qed.

Example binary64_agrees_mul :
  forallb (fun ab => agree (SFmul 53 1024) Qmult (fst ab) (snd ab)) all_pairs = true.
Proof. vm_cast_no_check (eq_refl true). Qed.

Example binary64_agrees_div :
  forallb (fun ab => agree (SFdiv 53 1024) Qdiv (fst ab) (snd ab)) all_pairs = true.
Proof. vm_cast_no_check (eq_refl true). Qed.
