(* ===== verification/JsString.v ===== *)
(** * JsString: strings, case conversion, [parseInt] and [toString]

    Strings are sequences of 8-bit code units; the model is exact for ASCII
    strings (country codes, element ids, decimal numerals), and leaves code
    units above 127 unchanged by case conversion and outside the white-space
    class.

    - [toLowerCase], [toUpperCase]: [String.prototype.toLowerCase] and
      [toUpperCase];
    - [parseInt]: [parseInt(s, 10)] as ECMAScript defines it (leading white
      space skipped, an optional sign, the longest prefix of decimal digits,
      NaN when that prefix is empty); the result is the number that the
      platform has for the integer read ([round_Z]);
    - [Z_to_string]: the decimal numeral of an integer;
    - [number_toString]: [Number.prototype.toString] as ECMAScript defines
      it in radix 10.  The digits and the exponent chosen for a number
      (step 5 of [Number::toString]) are the method [shortest] of the class
      [NumberToString]; their layout in plain or in exponent notation
      (steps 6 to 10) is [print_decimal].  [reference_printer] computes
      step 5 for any [Rounding]: the shortest decimal that rounds to the
      number, of 17 digits at most; for an integer below 2^53 that is
      the integer ([reference_shortest_integer]);
    - what [parseInt] reads in what [number_toString] prints
      ([parseInt_number_toString]): the integer part of the decimal printed
      in plain notation, the leading digit in exponent notation.

    There is no negative zero: [parseInt] of ["-0.5"] is the zero. *)

From Stdlib Require Import String Ascii NArith ZArith QArith Qabs Qround Qpower Lqa Bool Lia List.
From S2P Require Import Prelude JsNumber JsFloat.

Local Open Scope string_scope.

(** ** Characters *)

Definition code (c : ascii) : N := N_of_ascii c.

Definition is_digit (c : ascii) : bool :=
  ((48 <=? code c) && (code c <=? 57))%N.

Definition digit_value (c : ascii) : N := (code c - 48)%N.

Definition digit_char (d : N) : ascii := ascii_of_N (48 + d).

(** White space that [parseInt] skips: TAB, LF, VT, FF, CR and SPACE. *)
Definition is_whitespace (c : ascii) : bool :=
  ((9 <=? code c) && (code c <=? 13) || (code c =? 32))%N.

Definition is_upper (c : ascii) : bool := ((65 <=? code c) && (code c <=? 90))%N.
Definition is_lower (c : ascii) : bool := ((97 <=? code c) && (code c <=? 122))%N.

Definition lower_char (c : ascii) : ascii :=
  if is_upper c then ascii_of_N (code c + 32) else c.

Definition upper_char (c : ascii) : ascii :=
  if is_lower c then ascii_of_N (code c - 32) else c.

(** ** Case conversion *)

Fixpoint map_string (f : ascii -> ascii) (s : string) : string :=
  match s with
  | EmptyString => EmptyString
  | String c s' => String (f c) (map_string f s')
  end.

Definition toLowerCase (s : string) : string := map_string lower_char s.
Definition toUpperCase (s : string) : string := map_string upper_char s.

(** A string is in lower case when no character of it is an upper-case
    letter. *)
Fixpoint is_lower_case (s : string) : bool :=
  match s with
  | EmptyString => true
  | String c s' => negb (is_upper c) && is_lower_case s'
  end.

(** ** [parseInt(s, 10)] *)

Fixpoint trim_start (s : string) : string :=
  match s with
  | String c s' => if is_whitespace c then trim_start s' else s
  | EmptyString => s
  end.

(** The value of the longest prefix of decimal digits of [s], read after the
    digits whose value is [acc]. *)
Fixpoint digits_value (s : string) (acc : N) : N :=
  match s with
  | String c s' =>
      if is_digit c then digits_value s' (10 * acc + digit_value c) else acc
  | EmptyString => acc
  end.

Definition starts_with_digit (s : string) : bool :=
  match s with
  | String c _ => is_digit c
  | EmptyString => false
  end.

Fixpoint all_digits (s : string) : bool :=
  match s with
  | String c s' => is_digit c && all_digits s'
  | EmptyString => true
  end.

(** The sign that [parseInt] reads and the rest of the string. *)
Definition read_sign (s : string) : Z * string :=
  match s with
  | String "-" s' => ((-1)%Z, s')
  | String "+" s' => (1%Z, s')
  | _ => (1%Z, s)
  end.

Definition parseInt `{Rounding} (input : string) : number :=
  let '(sign, rest) := read_sign (trim_start input) in
  if starts_with_digit rest
  then round_Z (sign * Z.of_N (digits_value rest 0))
  else NaN.

(** ** Printing integers *)

Fixpoint N_digits (fuel : nat) (n : N) (rest : string) : string :=
  match fuel with
  | O => rest
  | S fuel' =>
      let rest' := String (digit_char (n mod 10)) rest in
      if (n <? 10)%N then rest' else N_digits fuel' (n / 10) rest'
  end.

(** A numeral has at most as many decimal digits as binary ones. *)
Definition N_to_string (n : N) : string :=
  N_digits (S (N.to_nat (N.log2 n))) n "".

Definition Z_to_string (z : Z) : string :=
  ((if (z <? 0)%Z then "-" else "") ++ N_to_string (Z.abs_N z)).

(** ** [Number.prototype.toString]

    [Number::toString] of ECMAScript in radix 10.  NaN and the infinities
    print by name and zero prints as ["0"].  For a positive number the
    built-in takes (step 5) integers [n], [k] and [s] with [k >= 1] and
    [10^(k-1) <= s < 10^k] such that [s * 10^(n-k)] is the number, that is
    rounds to it, with [k] as small as possible; the digits of [s] are then
    laid out by the position [n] of the point (steps 6 to 10).

    The choice of [s] and [n] depends on the format of the numbers and is
    the one method of the class [NumberToString]; the layout is
    [print_decimal], written out step by step. *)

(** The digits [s] and the exponent [n] that the built-in chooses for a
    positive number (step 5). *)
Class NumberToString : Type := shortest : Q -> positive * Z.

Definition sign_string (q : Q) : string := if Qltb q 0 then "-" else "".

Fixpoint zeros (m : nat) : string :=
  match m with
  | O => ""
  | S m' => String "0" (zeros m')
  end.

(** The first [j] characters of a string, and the others. *)
Fixpoint string_take (j : nat) (s : string) : string :=
  match j, s with
  | S j', String c s' => String c (string_take j' s')
  | _, _ => ""
  end.

Fixpoint string_drop (j : nat) (s : string) : string :=
  match j, s with
  | S j', String _ s' => string_drop j' s'
  | _, _ => s
  end.

(** The digits of [s] and their number [k]. *)
Definition digits_of (s : positive) : string := N_to_string (Npos s).

Definition dec_len (s : positive) : Z := Z.of_nat (String.length (digits_of s)).

(** The letter e, the sign of [n - 1] and its magnitude (steps 7 to 10). *)
Definition exponent_part (n : Z) : string :=
  let e := (n - 1)%Z in
  "e" ++ (if (e <? 0)%Z then "-" else "+") ++ N_to_string (Z.abs_N e).

(** Steps 6 to 10: plain notation when [-5 <= n <= 21], the digits followed
    by zeros (6a), with a point inside (6b) or after ["0."] and zeros (6c);
    exponent notation otherwise, one digit (9) or a digit, a point and the
    other digits (10) before the exponent. *)
Definition print_decimal (s : positive) (n : Z) : string :=
  let ds := digits_of s in
  let k := dec_len s in
  if ((-6 <? n) && (n <=? 21))%Z then
    if (k <=? n)%Z then ds ++ zeros (Z.to_nat (n - k))
    else if (0 <? n)%Z
         then string_take (Z.to_nat n) ds ++ "." ++ string_drop (Z.to_nat n) ds
    else "0." ++ zeros (Z.to_nat (- n)) ++ ds
  else
    match ds with
    | String d EmptyString => String d (exponent_part n)
    | String d rest => String d ("." ++ rest ++ exponent_part n)
    | EmptyString => ""
    end.

Definition number_toString `{NumberToString} (x : number) : string :=
  match x with
  | NaN => "NaN"
  | Inf b => if b then "Infinity" else "-Infinity"
  | Fin q =>
      if Qeq_bool q 0 then "0"
      else let '(s, n) := shortest (Qabs q) in sign_string q ++ print_decimal s n
  end.

(** *** The decimal that is printed

    The value [s * 10^(n-k)] of the digits [s] at the exponent [n], its
    integer part and its leading digit. *)
Definition decimal_value (s : positive) (n : Z) : Q :=
  inject_Z (Zpos s) * 10 ^ (n - dec_len s).

Definition decimal_trunc (s : positive) (n : Z) : Z :=
  if (dec_len s <=? n)%Z then (Zpos s * 10 ^ (n - dec_len s))%Z
  else (Zpos s / 10 ^ (dec_len s - n))%Z.

Definition leading_digit (s : positive) : Z := (Zpos s / 10 ^ (dec_len s - 1))%Z.

(** What [parseInt] reads in the numeral printed for a number: the integer
    part of the decimal in plain notation, the leading digit in exponent
    notation, with the sign. *)
Definition printed_integer `{NumberToString} (q : Q) : Z :=
  if Qeq_bool q 0 then 0%Z
  else
    let '(s, n) := shortest (Qabs q) in
    ((if Qltb q 0 then -1 else 1)
     * (if ((-6 <? n) && (n <=? 21))%Z then decimal_trunc s n else leading_digit s))%Z.

(** *** A reference for step 5

    The least [k] up to 17 for which a decimal of [k] digits rounds to the
    number, and that decimal, the nearest to the number if there are two
    (the rounding is monotone, so one of the two decimals of [k] digits
    next to the number rounds to it if any does); 17 digits are enough for
    every number of binary64.  A rational of the exact arithmetic that has
    no decimal of 17 digits is printed to 17 digits. *)

(** The exponent [n] of a positive rational: [10^(n-1) <= q < 10^n]. *)
Fixpoint exp_below (fuel : nat) (q : Q) (n : Z) : Z :=
  match fuel with
  | O => n
  | S fuel' => if Qle_bool (1 # 10) q then n else exp_below fuel' (q * 10) (n - 1)
  end.

Definition dec_exp (q : Q) : Z :=
  if Qle_bool 1 q then Z.of_nat (String.length (N_to_string (Z.to_N (Qfloor q))))
  else exp_below (S (Z.to_nat (Z.log2 (Zpos (Qden q))))) q 0.

Definition rounds_to `{Rounding} (v q : Q) : bool :=
  match round v with
  | Fin p => Qeq_bool p q
  | _ => false
  end.

(** The two integers next to [x], the nearest first. *)
Definition neighbours (x : Q) : list Z :=
  let f := Qfloor x in
  if (rne x =? f)%Z then f :: (f + 1)%Z :: nil else (f + 1)%Z :: f :: nil.

(** The digits [m] of a decimal of [k] digits that rounds to [q], the one
    nearest to [q] if there are two, for the least [k] from [k0] on that
    has one; after [fuel] tries the nearest decimal of the next [k]. *)
Fixpoint search_digits `{Rounding} (fuel : nat) (k : Z) (q : Q) (n : Z) : Z * Z :=
  let x := q * 10 ^ (k - n) in
  match fuel with
  | O => (rne x, k)
  | S fuel' =>
      match find (fun m => rounds_to (inject_Z m * 10 ^ (n - k)) q) (neighbours x) with
      | Some m => (m, k)
      | None => search_digits fuel' (k + 1) q n
      end
  end.

(** Zeros at the end are no digits of [s]: [m * 10^t] stays the same. *)
Fixpoint strip_zeros (fuel : nat) (m t : Z) : Z * Z :=
  match fuel with
  | O => (m, t)
  | S fuel' =>
      if ((m mod 10 =? 0) && negb (m =? 0))%Z then strip_zeros fuel' (m / 10) (t + 1)
      else (m, t)
  end.

Definition reference_shortest `{Rounding} (q : Q) : positive * Z :=
  let n := dec_exp q in
  let '(m, k) := search_digits 16 1 q n in
  let '(m', t) := strip_zeros 400 m 0 in
  let s := Z.to_pos m' in
  (s, (n - k + t + dec_len s)%Z).

#[export] Instance reference_printer `{Rounding} : NumberToString := reference_shortest.

(** * Theorems *)

(** ** Characters: lemmas *)

Lemma code_ascii_of_N (n : N) : (n < 256)%N -> code (ascii_of_N n) = n.
Proof. intros H. unfold code. apply N_ascii_embedding. exact H. Qed.

Lemma is_digit_digit_char (d : N) : (d < 10)%N -> is_digit (digit_char d) = true.
Proof.
  intros H. unfold is_digit, digit_char. rewrite code_ascii_of_N by lia.
  apply andb_true_intro; split; apply N.leb_le; lia.
Qed.

Lemma digit_value_digit_char (d : N) : (d < 10)%N -> digit_value (digit_char d) = d.
Proof.
  intros H. unfold digit_value, digit_char. rewrite code_ascii_of_N by lia. lia.
Qed.

Lemma digit_value_lt (c : ascii) : is_digit c = true -> (digit_value c < 10)%N.
Proof.
  unfold is_digit, digit_value. intros H.
  apply andb_prop in H as [H1 H2]. apply N.leb_le in H1, H2. lia.
Qed.

(** Facts about one character are checked on the 256 characters. *)
Ltac all_chars c := destruct c as [[] [] [] [] [] [] [] []]; vm_compute; auto.

Lemma lower_char_idempotent (c : ascii) : lower_char (lower_char c) = lower_char c.
Proof. all_chars c. Qed.

Lemma upper_char_idempotent (c : ascii) : upper_char (upper_char c) = upper_char c.
Proof. all_chars c. Qed.

Lemma lower_upper_char (c : ascii) : lower_char (upper_char c) = lower_char c.
Proof. all_chars c. Qed.

Lemma upper_lower_char (c : ascii) : upper_char (lower_char c) = upper_char c.
Proof. all_chars c. Qed.

Lemma lower_char_not_upper (c : ascii) : is_upper (lower_char c) = false.
Proof. all_chars c. Qed.

Lemma lower_char_fix (c : ascii) : is_upper c = false -> lower_char c = c.
Proof. unfold lower_char. intros ->. reflexivity. Qed.

#[export] Hint Rewrite lower_char_idempotent upper_char_idempotent
  lower_upper_char upper_lower_char : js_rw.

(** ** Case conversion: lemmas *)

Section MapString.
Context (f g : ascii -> ascii).

Lemma map_string_length (s : string) : String.length (map_string f s) = String.length s.
Proof. induction s; simpl; congruence. Qed.

Lemma map_string_compose (s : string) :
  map_string f (map_string g s) = map_string (fun c => f (g c)) s.
Proof. induction s; simpl; congruence. Qed.

Lemma map_string_ext (s : string) :
  (forall c, f c = g c) -> map_string f s = map_string g s.
Proof. intros H. induction s; simpl; congruence. Qed.

Lemma map_string_app (s t : string) :
  map_string f (s ++ t) = map_string f s ++ map_string f t.
Proof. induction s; simpl; congruence. Qed.

End MapString.

Lemma toLowerCase_idempotent (s : string) : toLowerCase (toLowerCase s) = toLowerCase s.
Proof.
  unfold toLowerCase. rewrite map_string_compose.
  apply map_string_ext, lower_char_idempotent.
Qed.

Lemma toUpperCase_idempotent (s : string) : toUpperCase (toUpperCase s) = toUpperCase s.
Proof.
  unfold toUpperCase. rewrite map_string_compose.
  apply map_string_ext, upper_char_idempotent.
Qed.

Lemma toLowerCase_toUpperCase (s : string) : toLowerCase (toUpperCase s) = toLowerCase s.
Proof.
  unfold toLowerCase, toUpperCase. rewrite map_string_compose.
  apply map_string_ext, lower_upper_char.
Qed.

Lemma toUpperCase_toLowerCase (s : string) : toUpperCase (toLowerCase s) = toUpperCase s.
Proof.
  unfold toLowerCase, toUpperCase. rewrite map_string_compose.
  apply map_string_ext, upper_lower_char.
Qed.

#[export] Hint Rewrite toLowerCase_idempotent toUpperCase_idempotent
  toLowerCase_toUpperCase toUpperCase_toLowerCase : js_rw.

Lemma toLowerCase_is_lower_case (s : string) : is_lower_case (toLowerCase s) = true.
Proof.
  unfold toLowerCase. induction s as [|c s IH]; simpl; auto.
  rewrite lower_char_not_upper, IH. reflexivity.
Qed.

#[export] Hint Resolve toLowerCase_is_lower_case : js.

Lemma toLowerCase_fix (s : string) : is_lower_case s = true <-> toLowerCase s = s.
Proof.
  split.
  - unfold toLowerCase. induction s as [|c s IH]; simpl; auto.
    intros H. apply andb_prop in H as [Hc Hs].
    apply negb_true_iff in Hc. rewrite (lower_char_fix c Hc), IH; auto.
  - intros <-. apply toLowerCase_is_lower_case.
Qed.

(** ** [parseInt]: lemmas *)

Lemma digit_not_space_nor_sign (c : ascii) :
  is_digit c = true -> is_whitespace c = false /\ c <> "-"%char /\ c <> "+"%char.
Proof. all_chars c; try discriminate; repeat split; discriminate. Qed.

Lemma trim_start_no_space (c : ascii) (s : string) :
  is_whitespace c = false -> trim_start (String c s) = String c s.
Proof. simpl. intros ->. reflexivity. Qed.

Lemma read_sign_digit (c : ascii) (s : string) :
  is_digit c = true -> read_sign (String c s) = (1%Z, String c s).
Proof. all_chars c; discriminate. Qed.

(** [parseInt] on a string that starts with a digit, and on one that starts
    with a minus sign followed by a digit. *)
Lemma parseInt_digits `{Rounding} (s : string) :
  starts_with_digit s = true -> parseInt s = round_Z (Z.of_N (digits_value s 0)).
Proof.
  destruct s as [|c s]; intros Hc; [discriminate|]. simpl in Hc.
  unfold parseInt.
  rewrite trim_start_no_space by (apply digit_not_space_nor_sign, Hc).
  rewrite read_sign_digit by exact Hc. cbv beta iota.
  change (starts_with_digit (String c s)) with (is_digit c).
  rewrite Hc, Z.mul_1_l. reflexivity.
Qed.

Lemma parseInt_minus_digits `{Rounding} (s : string) :
  starts_with_digit s = true ->
  parseInt (String "-" s) = round_Z (- Z.of_N (digits_value s 0)).
Proof.
  intros Hs. unfold parseInt. rewrite trim_start_no_space by reflexivity.
  change (read_sign (String "-" s)) with ((-1)%Z, s). cbv beta iota.
  rewrite Hs. f_equal; lia.
Qed.

(** The result of [parseInt] is NaN or the number of an integer. *)
Lemma parseInt_NaN_or_integer `{Rounding} (s : string) :
  parseInt s = NaN \/ exists z : Z, parseInt s = round_Z z.
Proof.
  unfold parseInt. destruct (read_sign (trim_start s)) as [sign rest].
  destruct (starts_with_digit rest); eauto.
Qed.

(** Leading white space is skipped. *)
Lemma trim_start_idempotent (s : string) : trim_start (trim_start s) = trim_start s.
Proof.
  induction s as [|c s IH]; simpl; auto.
  destruct (is_whitespace c) eqn:E; auto. simpl. rewrite E. reflexivity.
Qed.

Lemma parseInt_skips_space `{Rounding} (c : ascii) (s : string) :
  is_whitespace c = true -> parseInt (String c s) = parseInt s.
Proof. intros Hc. unfold parseInt. simpl. rewrite Hc. reflexivity. Qed.

(** A string with no leading digit after the optional sign is not a number. *)
Lemma parseInt_no_digit `{Rounding} (s : string) :
  starts_with_digit (snd (read_sign (trim_start s))) = false -> parseInt s = NaN.
Proof.
  unfold parseInt. destruct (read_sign (trim_start s)) as [sign rest]. simpl.
  intros ->. reflexivity.
Qed.

(** ** Printing then parsing *)

Lemma N_digits_app (fuel : nat) (n : N) (rest tail : string) :
  N_digits fuel n rest ++ tail = N_digits fuel n (rest ++ tail).
Proof.
  revert n rest; induction fuel as [|fuel IH]; intros n rest; simpl; auto.
  destruct (n <? 10)%N; simpl; auto.
Qed.

Lemma starts_with_digit_N_digits (fuel : nat) (n : N) (rest : string) :
  starts_with_digit (N_digits (S fuel) n rest) = true.
Proof.
  revert n rest; induction fuel as [|fuel IH]; intros n rest.
  - simpl. assert (H : (n mod 10 < 10)%N) by (apply N.mod_lt; lia).
    destruct (n <? 10)%N; simpl; apply is_digit_digit_char, H.
  - change (N_digits (S (S fuel)) n rest)
      with (let rest' := String (digit_char (n mod 10)) rest in
            if (n <? 10)%N then rest' else N_digits (S fuel) (n / 10) rest').
    cbv zeta. destruct (n <? 10)%N; [|apply IH].
    simpl. apply is_digit_digit_char, N.mod_lt. lia.
Qed.

Lemma digits_value_digit_char (d : N) (rest : string) (acc : N) :
  (d < 10)%N ->
  digits_value (String (digit_char d) rest) acc = digits_value rest (10 * acc + d).
Proof.
  intros H. simpl. rewrite is_digit_digit_char, digit_value_digit_char by exact H.
  reflexivity.
Qed.

(** With enough fuel, reading back the digits printed for [n] in front of
    [rest] gives [n] and goes on with [rest]. *)
Lemma digits_value_N_digits (fuel : nat) (n : N) (rest : string) :
  (n < 2 ^ N.of_nat (S fuel))%N ->
  digits_value (N_digits (S fuel) n rest) 0 = digits_value rest n.
Proof.
  revert n rest; induction fuel as [|fuel IH]; intros n rest Hn.
  - simpl in Hn. simpl N_digits.
    replace (n <? 10)%N with true by (symmetry; apply N.ltb_lt; lia).
    rewrite digits_value_digit_char by (apply N.mod_lt; lia).
    rewrite N.mod_small by lia. reflexivity.
  - change (N_digits (S (S fuel)) n rest)
      with (let rest' := String (digit_char (n mod 10)) rest in
            if (n <? 10)%N then rest' else N_digits (S fuel) (n / 10) rest').
    cbv zeta. destruct (n <? 10)%N eqn:E.
    + apply N.ltb_lt in E.
      rewrite digits_value_digit_char by (apply N.mod_lt; lia).
      rewrite N.mod_small by lia. reflexivity.
    + rewrite IH.
      * rewrite digits_value_digit_char by (apply N.mod_lt; lia).
        f_equal. symmetry. apply N.div_mod. lia.
      * rewrite Nat2N.inj_succ, N.pow_succ_r' in Hn.
        apply N.Div0.div_lt_upper_bound. lia.
Qed.

Lemma N_to_string_fuel (n : N) : (n < 2 ^ N.of_nat (S (N.to_nat (N.log2 n))))%N.
Proof.
  rewrite Nat2N.inj_succ, N2Nat.id.
  destruct n as [|p]; [reflexivity|].
  apply N.log2_spec. lia.
Qed.

Lemma digits_value_N_to_string (n : N) (tail : string) :
  starts_with_digit tail = false ->
  digits_value (N_to_string n ++ tail) 0 = n.
Proof.
  intros Htail. unfold N_to_string. rewrite N_digits_app.
  rewrite digits_value_N_digits by apply N_to_string_fuel.
  destruct tail as [|c tail]; simpl in *; auto. rewrite Htail. reflexivity.
Qed.

Lemma starts_with_digit_N_to_string (n : N) (tail : string) :
  starts_with_digit (N_to_string n ++ tail) = true.
Proof.
  unfold N_to_string. rewrite N_digits_app. apply starts_with_digit_N_digits.
Qed.

(** Parsing the numeral printed for an integer, followed by anything that
    does not start with a digit, gives the number of the integer. *)
Lemma parseInt_Z_to_string_app `{Rounding} (z : Z) (tail : string) :
  starts_with_digit tail = false ->
  parseInt (Z_to_string z ++ tail) = round_Z z.
Proof.
  intros Htail. unfold Z_to_string. destruct (z <? 0)%Z eqn:E.
  - apply Z.ltb_lt in E. simpl append.
    rewrite parseInt_minus_digits by apply starts_with_digit_N_to_string.
    rewrite digits_value_N_to_string by exact Htail. f_equal. lia.
  - apply Z.ltb_ge in E. simpl append.
    rewrite parseInt_digits by apply starts_with_digit_N_to_string.
    rewrite digits_value_N_to_string by exact Htail. f_equal. lia.
Qed.

Lemma append_empty_r (s : string) : s ++ "" = s.
Proof. induction s; simpl; congruence. Qed.

Lemma parseInt_Z_to_string `{Rounding} (z : Z) : parseInt (Z_to_string z) = round_Z z.
Proof.
  rewrite <- (append_empty_r (Z_to_string z)).
  apply parseInt_Z_to_string_app. reflexivity.
Qed.

Lemma Qltb_0_num (q : Q) : Qltb q 0 = (Qnum q <? 0)%Z.
Proof. unfold Qltb. simpl. rewrite Z.mul_1_r. reflexivity. Qed.

(** ** Strings of digits *)

Lemma digits_value_stop (t : string) (acc : N) :
  starts_with_digit t = false -> digits_value t acc = acc.
Proof. destruct t as [|c t]; simpl; [reflexivity|]. intros ->. reflexivity. Qed.

(** The digits read after [acc] shift it to the left. *)
Lemma digits_value_acc (a : string) (acc : N) :
  all_digits a = true ->
  digits_value a acc = (acc * 10 ^ N.of_nat (String.length a) + digits_value a 0)%N.
Proof.
  revert acc. induction a as [|c a IH]; intros acc Ha;
    cbn [digits_value String.length all_digits] in *.
  - rewrite N.pow_0_r. lia.
  - apply andb_prop in Ha as [Hc Ha]. rewrite Hc.
    rewrite (IH (10 * acc + digit_value c)%N), (IH (10 * 0 + digit_value c)%N) by exact Ha.
    rewrite Nat2N.inj_succ, N.pow_succ_r'. lia.
Qed.

Lemma digits_value_app (a t : string) (acc : N) :
  all_digits a = true -> digits_value (a ++ t) acc = digits_value t (digits_value a acc).
Proof.
  revert acc. induction a as [|c a IH]; intros acc Ha;
    cbn [digits_value append all_digits] in *; [reflexivity|].
  apply andb_prop in Ha as [Hc Ha]. rewrite Hc. apply IH, Ha.
Qed.

(** A string of [k] digits reads as a number below [10^k]. *)
Lemma digits_value_bound (a : string) :
  all_digits a = true -> (digits_value a 0 < 10 ^ N.of_nat (String.length a))%N.
Proof.
  induction a as [|c a IH]; intros Ha;
    cbn [digits_value String.length all_digits] in *; [rewrite N.pow_0_r; lia|].
  apply andb_prop in Ha as [Hc Ha]. rewrite Hc, digits_value_acc by exact Ha.
  specialize (IH Ha). pose proof (digit_value_lt c Hc).
  rewrite Nat2N.inj_succ, N.pow_succ_r'. nia.
Qed.

Lemma all_digits_app (a b : string) :
  all_digits (a ++ b) = all_digits a && all_digits b.
Proof. induction a as [|c a IH]; simpl; [reflexivity|]. rewrite IH, andb_assoc. reflexivity. Qed.

Lemma string_length_app (a b : string) :
  String.length (a ++ b) = (String.length a + String.length b)%nat.
Proof. induction a as [|c a IH]; simpl; congruence. Qed.

Lemma all_digits_zeros (m : nat) : all_digits (zeros m) = true.
Proof. induction m; simpl; auto. Qed.

Lemma string_length_zeros (m : nat) : String.length (zeros m) = m.
Proof. induction m; simpl; congruence. Qed.

Lemma digits_value_zeros (m : nat) (acc : N) :
  digits_value (zeros m) acc = (acc * 10 ^ N.of_nat m)%N.
Proof.
  revert acc. induction m as [|m IH]; intros acc; cbn [zeros digits_value].
  - rewrite N.pow_0_r. lia.
  - change (is_digit "0") with true. cbv iota.
    rewrite IH, Nat2N.inj_succ, N.pow_succ_r'. change (digit_value "0") with 0%N. lia.
Qed.

(** *** [string_take] and [string_drop] *)

Lemma string_take_drop (j : nat) (s : string) : string_take j s ++ string_drop j s = s.
Proof.
  revert s. induction j as [|j IH]; intros [|c s]; simpl; try reflexivity.
  rewrite IH. reflexivity.
Qed.

Lemma string_length_take (j : nat) (s : string) :
  (j <= String.length s)%nat -> String.length (string_take j s) = j.
Proof.
  revert s. induction j as [|j IH]; intros [|c s]; simpl; intros Hj; try lia.
  rewrite IH by lia. reflexivity.
Qed.

Lemma all_digits_take_drop (j : nat) (s : string) :
  all_digits s = true ->
  all_digits (string_take j s) = true /\ all_digits (string_drop j s) = true.
Proof.
  intros Hs. rewrite <- (string_take_drop j s), all_digits_app in Hs.
  apply andb_prop in Hs. exact Hs.
Qed.

Lemma starts_with_digit_take (j : nat) (s : string) (t : string) :
  starts_with_digit s = true -> starts_with_digit (string_take (S j) s ++ t) = true.
Proof. destruct s as [|c s]; simpl; [discriminate | auto]. Qed.

(** *** The digits of a numeral *)

Lemma all_digits_N_digits (fuel : nat) (n : N) (rest : string) :
  all_digits rest = true -> all_digits (N_digits fuel n rest) = true.
Proof.
  revert n rest. induction fuel as [|fuel IH]; intros n rest Hr; simpl; [exact Hr|].
  assert (Hd : all_digits (String (digit_char (n mod 10)) rest) = true).
  { simpl. rewrite is_digit_digit_char by (apply N.mod_lt; lia). exact Hr. }
  destruct (n <? 10)%N; [exact Hd | apply IH, Hd].
Qed.

Lemma all_digits_N_to_string (n : N) : all_digits (N_to_string n) = true.
Proof. apply all_digits_N_digits. reflexivity. Qed.

Lemma digits_value_N_to_string_0 (n : N) : digits_value (N_to_string n) 0 = n.
Proof.
  rewrite <- (append_empty_r (N_to_string n)). apply digits_value_N_to_string. reflexivity.
Qed.

(** A numeral has no zero in front: with [j + 1] digits it is at least
    [10^j]. *)
Lemma N_digits_length (fuel : nat) (n : N) (rest : string) :
  (n < 2 ^ N.of_nat (S fuel))%N -> (1 <= n)%N ->
  exists j : nat, String.length (N_digits (S fuel) n rest) = (String.length rest + S j)%nat
                  /\ (10 ^ N.of_nat j <= n)%N.
Proof.
  revert n rest. induction fuel as [|fuel IH]; intros n rest Hn H1.
  - exists O. simpl in Hn. simpl N_digits.
    replace (n <? 10)%N with true by (symmetry; apply N.ltb_lt; lia).
    simpl. split; [lia | exact H1].
  - change (N_digits (S (S fuel)) n rest)
      with (let rest' := String (digit_char (n mod 10)) rest in
            if (n <? 10)%N then rest' else N_digits (S fuel) (n / 10) rest').
    cbv zeta. destruct (N.ltb_spec n 10) as [Hlt|Hge].
    + exists O. simpl. split; [lia | exact H1].
    + destruct (IH (n / 10)%N (String (digit_char (n mod 10)) rest)) as (j & Hl & Hj).
      * rewrite Nat2N.inj_succ, N.pow_succ_r' in Hn. apply N.Div0.div_lt_upper_bound. lia.
      * apply N.div_le_lower_bound; lia.
      * exists (S j). rewrite Hl. cbn [String.length]. split; [lia|].
        rewrite Nat2N.inj_succ, N.pow_succ_r'.
        pose proof (N.Div0.mul_div_le n 10). lia.
Qed.

(** The digits [s] at [k] places: [10^(k-1) <= s < 10^k]. *)
Lemma dec_len_bounds (s : positive) :
  (1 <= dec_len s)%Z /\ (10 ^ (dec_len s - 1) <= Zpos s < 10 ^ dec_len s)%Z.
Proof.
  unfold dec_len, digits_of.
  pose proof (digits_value_bound _ (all_digits_N_to_string (Npos s))) as Hup.
  rewrite digits_value_N_to_string_0 in Hup.
  destruct (N_digits_length (N.to_nat (N.log2 (Npos s))) (Npos s) "") as (j & Hl & Hj);
    [apply N_to_string_fuel | lia |].
  fold (N_to_string (Npos s)) in Hl. rewrite Hl in *. cbn [String.length plus] in *.
  replace (Z.of_nat (S j) - 1)%Z with (Z.of_nat j) by lia.
  apply N2Z.inj_le in Hj. rewrite N2Z.inj_pow, nat_N_Z in Hj.
  apply N2Z.inj_lt in Hup. rewrite N2Z.inj_pow, nat_N_Z in Hup.
  change (Z.of_N 10) with 10%Z in *. change (Z.of_N (N.pos s)) with (Z.pos s) in *.
  split; [lia|]. split; assumption.
Qed.

Lemma leading_digit_range (s : positive) : (1 <= leading_digit s <= 9)%Z.
Proof.
  unfold leading_digit. destruct (dec_len_bounds s) as (Hk & Hlo & Hup).
  assert (Hp : (0 < 10 ^ (dec_len s - 1))%Z) by (apply Z.pow_pos_nonneg; lia).
  assert (E : (10 ^ dec_len s = 10 * 10 ^ (dec_len s - 1))%Z)
    by (rewrite <- Z.pow_succ_r by lia; f_equal; lia).
  rewrite E in Hup. split.
  - apply Z.div_le_lower_bound; lia.
  - apply Z.lt_succ_r, Z.div_lt_upper_bound; lia.
Qed.

(** The digits of [s]: its leading digit and [k - 1] others. *)
Lemma digits_of_cons (s : positive) :
  exists (c : ascii) (rest : string),
    digits_of s = String c rest /\ is_digit c = true /\ all_digits rest = true
    /\ Z.of_N (digit_value c) = leading_digit s.
Proof.
  pose proof (all_digits_N_to_string (Npos s)) as Ha.
  pose proof (digits_value_N_to_string_0 (Npos s)) as Hv.
  unfold leading_digit, dec_len, digits_of. destruct (N_to_string (Npos s)) as [|c rest].
  - discriminate Hv.
  - cbn [all_digits digits_value String.length] in *. apply andb_prop in Ha as [Hc Ha].
    rewrite Hc, digits_value_acc in Hv by exact Ha.
    pose proof (digits_value_bound rest Ha) as Hb.
    exists c, rest. repeat split; try assumption.
    replace (Z.of_nat (S (String.length rest)) - 1)%Z with (Z.of_nat (String.length rest)) by lia.
    apply N2Z.inj_lt in Hb. rewrite N2Z.inj_pow, nat_N_Z in Hb.
    apply (f_equal Z.of_N) in Hv.
    rewrite N2Z.inj_add, N2Z.inj_mul, N2Z.inj_pow, nat_N_Z in Hv.
    change (Z.of_N 10) with 10%Z in *. change (Z.of_N (N.pos s)) with (Z.pos s) in *.
    apply (Z.div_unique _ _ _ (Z.of_N (digits_value rest 0))); lia.
Qed.

Lemma starts_with_digit_digits_of (s : positive) : starts_with_digit (digits_of s) = true.
Proof. destruct (digits_of_cons s) as (c & rest & -> & Hc & _). exact Hc. Qed.

(** ** Parsing what [toString] prints *)

(** A sign and a body that starts with a digit. *)
Lemma parseInt_signed `{Rounding} (neg : bool) (body : string) :
  starts_with_digit body = true ->
  parseInt ((if neg then "-" else "") ++ body)
  = round_Z ((if neg then -1 else 1) * Z.of_N (digits_value body 0)).
Proof.
  intros Hb. destruct neg; simpl append.
  - rewrite parseInt_minus_digits by exact Hb. f_equal; lia.
  - rewrite parseInt_digits by exact Hb. f_equal; lia.
Qed.

(** In plain notation the digits before the point are the integer part of
    the decimal. *)
Lemma print_decimal_plain (s : positive) (n : Z) :
  (-6 < n <= 21)%Z ->
  starts_with_digit (print_decimal s n) = true
  /\ Z.of_N (digits_value (print_decimal s n) 0) = decimal_trunc s n.
Proof.
  intros Hn. unfold print_decimal, decimal_trunc.
  replace ((-6 <? n) && (n <=? 21))%Z with true by (symmetry; apply andb_true_intro; lia).
  destruct (dec_len_bounds s) as (Hk & Hlo & Hup).
  pose proof (all_digits_N_to_string (Npos s)) as Ha. fold (digits_of s) in Ha.
  pose proof (digits_value_N_to_string_0 (Npos s)) as Hv. fold (digits_of s) in Hv.
  destruct (Z.leb_spec (dec_len s) n) as [Hkn|Hkn]; [|destruct (Z.ltb_spec 0 n) as [Hpos|Hneg]].
  - split; [apply starts_with_digit_N_to_string|].
    rewrite digits_value_app, digits_value_zeros, Hv by exact Ha.
    rewrite N2Z.inj_mul, N2Z.inj_pow, nat_N_Z, Z2Nat.id by lia. reflexivity.
  - destruct (all_digits_take_drop (Z.to_nat n) (digits_of s) Ha) as [Ht Hd].
    assert (Hl : String.length (string_take (Z.to_nat n) (digits_of s)) = Z.to_nat n)
      by (apply string_length_take; unfold dec_len in Hkn; lia).
    pose proof (f_equal String.length (string_take_drop (Z.to_nat n) (digits_of s))) as Hlen.
    rewrite string_length_app, Hl in Hlen.
    split.
    + destruct (Z.to_nat n) as [|j] eqn:Ej; [lia|]. apply starts_with_digit_take.
      apply starts_with_digit_digits_of.
    + rewrite digits_value_app, digits_value_stop by (exact Ht || reflexivity).
      rewrite <- (string_take_drop (Z.to_nat n) (digits_of s)) in Hv.
      rewrite digits_value_app, digits_value_acc in Hv by assumption.
      pose proof (digits_value_bound _ Hd) as Hb.
      replace (dec_len s - n)%Z with (Z.of_nat (String.length (string_drop (Z.to_nat n) (digits_of s))))
        by (unfold dec_len; lia).
      apply N2Z.inj_lt in Hb. rewrite N2Z.inj_pow, nat_N_Z in Hb.
      apply (f_equal Z.of_N) in Hv.
      rewrite N2Z.inj_add, N2Z.inj_mul, N2Z.inj_pow, nat_N_Z in Hv.
      change (Z.of_N 10) with 10%Z in *. change (Z.of_N (N.pos s)) with (Z.pos s) in *.
      apply (Z.div_unique _ _ _ (Z.of_N (digits_value (string_drop (Z.to_nat n) (digits_of s)) 0)));
        lia.
  - split; [reflexivity|]. change (Z.of_N (digits_value ("0." ++ _) 0)) with 0%Z.
    symmetry. apply Z.div_small. split; [lia|].
    apply (Z.lt_le_trans _ _ _ Hup), Z.pow_le_mono_r; lia.
Qed.

(** In exponent notation the digit before the point or the letter e is
    the leading digit. *)
Lemma print_decimal_exponent (s : positive) (n : Z) :
  ((-6 <? n) && (n <=? 21))%Z = false ->
  starts_with_digit (print_decimal s n) = true
  /\ Z.of_N (digits_value (print_decimal s n) 0) = leading_digit s.
Proof.
  intros Hn. unfold print_decimal. rewrite Hn.
  destruct (digits_of_cons s) as (c & rest & -> & Hc & _ & <-).
  assert (Hv : forall tail, starts_with_digit tail = false ->
                 digits_value (String c tail) 0 = digit_value c).
  { intros tail Ht. cbn [digits_value]. rewrite Hc. apply digits_value_stop, Ht. }
  destruct rest; (split; [exact Hc | rewrite Hv by reflexivity; reflexivity]).
Qed.

(** [parseInt] of the numeral that [toString] prints for a number. *)
Lemma parseInt_number_toString `{Rounding, NumberToString} (q : Q) :
  parseInt (number_toString (Fin q)) = round_Z (printed_integer q).
Proof.
  unfold number_toString, printed_integer. destruct (Qeq_bool q 0); [reflexivity|].
  destruct (shortest (Qabs q)) as [s n]. unfold sign_string.
  destruct ((-6 <? n) && (n <=? 21))%Z eqn:Hn.
  - apply andb_prop in Hn as [H1 H2]. apply Z.ltb_lt in H1. apply Z.leb_le in H2.
    destruct (print_decimal_plain s n (conj H1 H2)) as [Hs <-].
    apply parseInt_signed, Hs.
  - destruct (print_decimal_exponent s n Hn) as [Hs <-]. apply parseInt_signed, Hs.
Qed.

Lemma parseInt_number_toString_not_finite `{Rounding, NumberToString} (x : number) :
  is_finite x = false -> parseInt (number_toString x) = NaN.
Proof. destruct x as [|q|[]]; simpl; intros Hx; try discriminate; reflexivity. Qed.

(** [decimal_trunc] is the integer part of the decimal. *)
Lemma decimal_trunc_floor (s : positive) (n : Z) :
  decimal_trunc s n = Qfloor (decimal_value s n).
Proof.
  unfold decimal_trunc, decimal_value.
  destruct (Z.leb_spec (dec_len s) n) as [Hkn|Hkn].
  - rewrite <- (Qfloor_Z (Z.pos s * 10 ^ (n - dec_len s))). apply Qfloor_comp.
    rewrite inject_Z_mult, Zpower_Qpower by lia. reflexivity.
  - rewrite Zdiv_Qdiv. apply Qfloor_comp.
    replace (n - dec_len s)%Z with (- (dec_len s - n))%Z by lia.
    rewrite Qpower_opp. change 10%Q with (inject_Z 10).
    rewrite <- Zpower_Qpower by lia. reflexivity.
Qed.

(** The integer part of a decimal with [n] digits before the point. *)
Lemma decimal_trunc_lower (s : positive) (n : Z) :
  (1 <= n)%Z -> (10 ^ (n - 1) <= decimal_trunc s n)%Z.
Proof.
  intros Hn. unfold decimal_trunc. destruct (dec_len_bounds s) as (Hk & Hlo & _).
  destruct (Z.leb_spec (dec_len s) n) as [Hkn|Hkn].
  - replace (n - 1)%Z with ((dec_len s - 1) + (n - dec_len s))%Z by lia.
    rewrite Z.pow_add_r by lia. apply Z.mul_le_mono_nonneg_r; [apply Z.pow_nonneg|]; lia.
  - assert (Hp : (0 < 10 ^ (dec_len s - n))%Z) by (apply Z.pow_pos_nonneg; lia).
    apply Z.div_le_lower_bound; [exact Hp|].
    rewrite <- Z.pow_add_r by lia.
    replace (dec_len s - n + (n - 1))%Z with (dec_len s - 1)%Z by lia. exact Hlo.
Qed.

Lemma decimal_trunc_small (s : positive) (n : Z) : (n <= 0)%Z -> decimal_trunc s n = 0%Z.
Proof.
  intros Hn. unfold decimal_trunc. destruct (dec_len_bounds s) as (Hk & _ & Hup).
  replace (dec_len s <=? n)%Z with false by (symmetry; apply Z.leb_gt; lia).
  apply Z.div_small. split; [lia|].
  apply (Z.lt_le_trans _ _ _ Hup), Z.pow_le_mono_r; lia.
Qed.

(** An integer below [10^21] whose decimal is exact is read back. *)
Lemma printed_integer_exact `{NumberToString} (z : Z) (s : positive) (n : Z) :
  (0 < Z.abs z < 10 ^ 21)%Z ->
  shortest (Qabs (inject_Z z)) = (s, n) -> decimal_value s n == inject_Z (Z.abs z) ->
  printed_integer (inject_Z z) = z.
Proof.
  intros Hz Hs Hv. unfold printed_integer. rewrite Hs.
  assert (Ht : decimal_trunc s n = Z.abs z)
    by (rewrite decimal_trunc_floor, <- (Qfloor_Z (Z.abs z)); apply Qfloor_comp, Hv).
  replace (Qeq_bool (inject_Z z) 0) with false
    by (symmetry; apply Qeq_bool_false; unfold Qeq; simpl; lia).
  rewrite Qltb_0_num. cbn [Qnum inject_Z].
  assert (Hn : (-6 < n <= 21)%Z).
  { destruct (Z.le_gt_cases n 0) as [H0|H0]; [rewrite decimal_trunc_small in Ht; lia|].
    pose proof (decimal_trunc_lower s n ltac:(lia)) as Hlo.
    assert (n - 1 < 21)%Z by (apply (Z.pow_lt_mono_r_iff 10); lia). lia. }
  replace ((-6 <? n) && (n <=? 21))%Z with true by (symmetry; apply andb_true_intro; lia).
  rewrite Ht. destruct (Z.ltb_spec z 0); lia.
Qed.

(** ** The reference printer on integers

    An integer below [2^53] is printed digit by digit, for every rounding:
    a decimal of fewer digits is another integer, which rounds to itself. *)

Lemma strip_zeros_value (fuel : nat) (m t m' t' : Z) :
  strip_zeros fuel m t = (m', t') -> (0 < m)%Z -> (0 <= t)%Z ->
  (m' * 10 ^ t' = m * 10 ^ t)%Z /\ (0 < m')%Z /\ (0 <= t')%Z.
Proof.
  revert m t. induction fuel as [|fuel IH]; intros m t; cbn [strip_zeros].
  - intros [= <- <-]. auto.
  - destruct ((m mod 10 =? 0) && negb (m =? 0))%Z eqn:E; [|intros [= <- <-]; auto].
    apply andb_prop in E as [E _]. apply Z.eqb_eq in E.
    intros Hs Hm Ht.
    assert (Hd : m = (10 * (m / 10))%Z) by (rewrite (Z.div_mod m 10) at 1; lia).
    destruct (IH _ _ Hs) as (Hv & Hm' & Ht'); [lia..|].
    rewrite Hv, Z.pow_add_r by lia. repeat split; lia.
Qed.

(** The decimal of the digits [s] with [e] zeros after them. *)
Lemma decimal_value_shift (s : positive) (e : Z) :
  (0 <= e)%Z -> decimal_value s (e + dec_len s) == inject_Z (Zpos s * 10 ^ e).
Proof.
  intros He. unfold decimal_value. replace (e + dec_len s - dec_len s)%Z with e by lia.
  rewrite inject_Z_mult, Zpower_Qpower by exact He. reflexivity.
Qed.

Section ReferenceIntegers.
Context `{Rounding}.

(** An integer that rounds to an integer below [2^53] is that integer. *)
Lemma rounds_to_integer (v z : Z) :
  (0 <= v)%Z -> (0 < z < 2 ^ 53)%Z -> rounds_to (inject_Z v) (inject_Z z) = true -> v = z.
Proof.
  intros Hv Hz. unfold rounds_to. destruct (Z.le_gt_cases v (2 ^ 53)) as [Hs|Hl].
  - rewrite round_integer by lia. unfold of_Z. intros E. apply Qeq_bool_iff in E.
    unfold Qeq in E. simpl in E. lia.
  - pose proof (round_mono (inject_Z (2 ^ 53)) (inject_Z v)) as Hm.
    rewrite round_integer in Hm by (simpl; lia).
    destruct (round (inject_Z v)) as [|p|b]; try discriminate.
    intros E. apply Qeq_bool_iff in E. cbn [num_le of_Z] in Hm.
    assert (Hle : inject_Z (2 ^ 53) <= p)
      by (apply Qle_bool_iff, Hm; rewrite <- Zle_Qle; lia).
    rewrite E, <- Zle_Qle in Hle. lia.
Qed.

Lemma search_digits_integer (fuel : nat) (k z n m k' : Z) :
  (0 < z < 2 ^ 53)%Z -> (1 <= k <= n)%Z -> (n - k < Z.of_nat fuel)%Z ->
  search_digits fuel k (inject_Z z) n = (m, k') ->
  (k' <= n)%Z /\ (m * 10 ^ (n - k') = z)%Z /\ (0 < m)%Z.
Proof.
  intros Hz. revert k. induction fuel as [|fuel IH]; intros k Hk Hf; [lia|].
  cbn [search_digits].
  destruct (find _ (neighbours _)) as [m0|] eqn:Ef.
  - intros [= <- <-]. apply find_some in Ef as [Hin Hr].
    assert (Hm0 : (0 <= m0)%Z).
    { assert (H0 : (0 <= Qfloor (inject_Z z * 10 ^ (k - n)))%Z).
      { rewrite <- (Qfloor_Z 0). apply Qfloor_resp_le, Qmult_le_0_compat.
        - change (inject_Z 0 <= inject_Z z). rewrite <- Zle_Qle. lia.
        - apply Qpower_0_le. discriminate. }
      unfold neighbours in Hin. destruct (_ =? _)%Z; cbn [In] in Hin; lia. }
    assert (Ev : inject_Z m0 * 10 ^ (n - k) == inject_Z (m0 * 10 ^ (n - k)))
      by (rewrite inject_Z_mult, Zpower_Qpower by lia; reflexivity).
    unfold rounds_to in Hr. rewrite Ev in Hr.
    apply (rounds_to_integer _ z) in Hr; [|apply Z.mul_nonneg_nonneg; [|apply Z.pow_nonneg]; lia|lia].
    split; [lia|]. split; [exact Hr|].
    destruct (Z.eq_dec m0 0) as [->|]; lia.
  - destruct (Z.eq_dec k n) as [->|Hne]; [|apply IH; lia].
    intros _. exfalso. replace (n - n)%Z with 0%Z in Ef by lia.
    assert (E1 : inject_Z z * 10 ^ 0 == inject_Z z) by (simpl; ring).
    assert (Hin : In z (neighbours (inject_Z z * 10 ^ 0))).
    { unfold neighbours. rewrite (Qfloor_comp _ _ E1), Qfloor_Z.
      destruct (_ =? _)%Z; cbn [In]; auto. }
    pose proof (find_none _ _ Ef z Hin) as Hfalse. cbv beta in Hfalse.
    unfold rounds_to in Hfalse. rewrite E1, round_integer in Hfalse by lia.
    unfold of_Z in Hfalse. rewrite (proj2 (Qeq_bool_iff _ _)) in Hfalse; [discriminate|].
    reflexivity.
Qed.

(** The decimal that the reference printer takes for an integer below
    [2^53] is the integer. *)
Theorem reference_shortest_integer (z : Z) :
  (0 < z < 2 ^ 53)%Z ->
  decimal_value (fst (reference_shortest (inject_Z z)))
                (snd (reference_shortest (inject_Z z))) == inject_Z z.
Proof.
  intros Hz. unfold reference_shortest.
  assert (En : dec_exp (inject_Z z) = dec_len (Z.to_pos z)).
  { unfold dec_exp, dec_len, digits_of.
    replace (Qle_bool 1 (inject_Z z)) with true
      by (symmetry; apply Qle_bool_iff; rewrite <- (Zle_Qle 1); lia).
    rewrite Qfloor_Z. destruct z; try lia. reflexivity. }
  rewrite En. destruct (dec_len_bounds (Z.to_pos z)) as (Hk & Hlo & _).
  rewrite Z2Pos.id in Hlo by lia.
  assert (Hn : (dec_len (Z.to_pos z) - 1 < 16)%Z)
    by (apply (Z.pow_lt_mono_r_iff 10); lia).
  destruct (search_digits 16 1 (inject_Z z) _) as [m k] eqn:Es.
  apply search_digits_integer in Es as (Hkn & Hv & Hm); [|lia..].
  destruct (strip_zeros 400 m 0) as [m' t] eqn:Et.
  apply strip_zeros_value in Et as (Hv' & Hm' & Ht); [|lia..].
  cbn [fst snd].
  replace (dec_len (Z.to_pos z) - k + t + dec_len (Z.to_pos m'))%Z
    with ((dec_len (Z.to_pos z) - k + t) + dec_len (Z.to_pos m'))%Z by lia.
  rewrite decimal_value_shift, Z2Pos.id by lia.
  rewrite Z.pow_add_r, (Z.mul_comm (10 ^ _)), Z.mul_assoc, Hv' by lia.
  rewrite Z.pow_0_r, Z.mul_1_r, Hv. reflexivity.
Qed.

End ReferenceIntegers.
