(* ===== verification/DataTypes.v ===== *)
(** * DataTypes: the data exchanged by the component

    The types of [data-types.ts] (country records, drawable records, the
    selection) and of [chart-events.ts] (the events the component emits),
    and JavaScript objects used as dictionaries.

    An object is the list of its own enumerable string-keyed properties in
    the order [Object.keys], [Object.values] and [Object.entries] enumerate
    them; a well-formed object has no key twice.  The program reads objects
    by key and by enumeration and never writes to the ones it is given.
    A read by key also finds what a plain object inherits from
    [Object.prototype] ([inherited], [data_get]). *)

From Stdlib Require Import String List Bool.
From S2P Require Import Prelude JsNumber JsString.
Import ListNotations.

Local Open Scope string_scope.

(** ** Objects as dictionaries *)

Definition JsObject (V : Type) : Type := list (string * V).

Section Objects.
Context {V : Type}.

(** [o[k]]: [None] is [undefined]. *)
Fixpoint obj_get (o : JsObject V) (k : string) : option V :=
  match o with
  | [] => None
  | (k', v) :: o' => if String.eqb k k' then Some v else obj_get o' k
  end.

(** [Object.keys(o)], [Object.values(o)] and [Object.entries(o)]. *)
Definition obj_keys (o : JsObject V) : list string := map fst o.
Definition obj_values (o : JsObject V) : list V := map snd o.
Definition obj_entries (o : JsObject V) : list (string * V) := o.

Definition obj_wf (o : JsObject V) : Prop := NoDup (obj_keys o).

End Objects.

(** ** [data-types.ts] *)

(** A value of a record or of its extra fields: a number or a string. *)
Inductive ValidExtraData : Type :=
| VNumber (n : number)
| VString (s : string).

Definition CountryExtraData : Type := JsObject ValidExtraData.

(** [{ value, extra? }]: an absent value is [None]. *)
Record CountryData : Type := mkCountryData {
  cd_value : option ValidExtraData;
  cd_extra : option CountryExtraData
}.

Definition CountriesData : Type := JsObject CountryData.

(** [{ ...countryVal, percentage }]. *)
Record DrawableCountry : Type := mkDrawableCountry {
  dc_data : CountryData;
  percentage : number
}.

Record SelectionExtra : Type := mkSelectionExtra {
  se_key : string;
  se_val : option ValidExtraData
}.

Record Selection : Type := mkSelection {
  countryId : string;
  countryName : string;
  sel_extra : option (list SelectionExtra)
}.

(** ** [chart-events.ts] *)

Record ChartSelectEvent : Type := mkChartSelectEvent {
  ev_selected : bool;
  ev_value : option number;
  ev_country : string;
  ev_extra : option CountryExtraData
}.

Inductive ChartErrorCode : Type :=
| Loading.

(** The string an error code is at run time. *)
Definition ChartErrorCode_value (c : ChartErrorCode) : string :=
  match c with
  | Loading => "loading"
  end.

Record ChartErrorEvent : Type := mkChartErrorEvent {
  err_id : string;
  err_message : string;
  err_detailedMessage : option string
}.

(** ** Exceptions

    What the program can throw: a [TypeError], when a property of
    [undefined] or [null] is read, and the framework's error for a required
    input or query that is not available. *)

Inductive Exception : Type :=
| TypeError
| RuntimeError (code : string).

(** ToBoolean on a string: the empty string is falsy. *)
Definition string_truthy (s : string) : bool :=
  match s with
  | EmptyString => false
  | String _ _ => true
  end.

(** ** Inherited properties

    The objects the program reads by key are plain objects: a key that the
    object does not hold itself is looked up in [Object.prototype].  What is
    found there is a function or, under [__proto__], the prototype: a value
    that is truthy and has no property [value], [extra] or [percentage]. *)

Definition Object_prototype : list string :=
  ["constructor"; "hasOwnProperty"; "isPrototypeOf"; "propertyIsEnumerable";
   "toLocaleString"; "toString"; "valueOf"; "__proto__";
   "__defineGetter__"; "__defineSetter__"; "__lookupGetter__"; "__lookupSetter__"].

Definition inherited (k : string) : bool :=
  existsb (String.eqb k) Object_prototype.

(** [o[k]], from the own property when there is one: [member] is how a
    value of the prototype reads at the type of the properties. *)
Definition own_or_inherited {V : Type} (member : V) (own : option V) (k : string)
  : option V :=
  match own with
  | Some v => Some v
  | None => if inherited k then Some member else None
  end.

(** A member of the prototype read as a record: no value, no extra. *)
Definition prototype_member : CountryData :=
  {| cd_value := None; cd_extra := None |}.

(** Read as a drawable record, its percentage is [undefined], which
    compares like [NaN]. *)
Definition prototype_drawable : DrawableCountry :=
  {| dc_data := prototype_member; percentage := NaN |}.

(** [data[k]] on the input of the component. *)
Definition data_get (data : CountriesData) (k : string) : option CountryData :=
  own_or_inherited prototype_member (obj_get data k) k.

(** ** Objects: lemmas *)

Section ObjectLemmas.
Context {V : Type}.
Implicit Types (o : JsObject V) (k : string) (v : V).

Lemma obj_get_cons_eq o k v : obj_get ((k, v) :: o) k = Some v.
Proof. simpl. rewrite String.eqb_refl. reflexivity. Qed.

Lemma obj_get_cons_ne o k k' v : k <> k' -> obj_get ((k', v) :: o) k = obj_get o k.
Proof. intros H. simpl. apply String.eqb_neq in H. rewrite H. reflexivity. Qed.

Lemma obj_get_Some_In o k v : obj_get o k = Some v -> In (k, v) o.
Proof.
  induction o as [|[k' v'] o IH]; simpl; [discriminate|].
  destruct (String.eqb_spec k k') as [->|Hne].
  - intros [= ->]. auto.
  - auto.
Qed.

Lemma obj_get_None o k : obj_get o k = None <-> ~ In k (obj_keys o).
Proof.
  induction o as [|[k' v'] o IH]; simpl; [tauto|].
  destruct (String.eqb_spec k k') as [->|Hne].
  - split; [discriminate | intros H; exfalso; auto].
  - rewrite IH. intuition congruence.
Qed.

(** In a well-formed object a key has one value. *)
Lemma obj_get_In o k v : obj_wf o -> In (k, v) o -> obj_get o k = Some v.
Proof.
  unfold obj_wf. induction o as [|[k' v'] o IH]; simpl; [tauto|].
  intros Hwf [[= -> ->]|Hin]; [rewrite String.eqb_refl; reflexivity|].
  apply NoDup_cons_iff in Hwf as [Hk' Hwf].
  destruct (String.eqb_spec k k') as [->|Hne]; auto.
  exfalso. apply Hk'. unfold obj_keys. apply (in_map fst) in Hin. exact Hin.
Qed.

Lemma obj_values_In o v : In v (obj_values o) <-> exists k, In (k, v) o.
Proof.
  unfold obj_values. rewrite in_map_iff. split.
  - intros [[k v'] [Hv Hin]]. simpl in Hv. subst. eauto.
  - intros [k Hin]. exists (k, v). auto.
Qed.

End ObjectLemmas.

(** ** Inherited properties: lemmas *)

Lemma inherited_In (k : string) : inherited k = true <-> In k Object_prototype.
Proof.
  unfold inherited. rewrite existsb_exists. split.
  - intros [k' [Hin Hk]]. apply String.eqb_eq in Hk. subst. exact Hin.
  - intros Hin. exists k. split; [exact Hin | apply String.eqb_refl].
Qed.

(** Every inherited key has a lower-case letter: no upper-cased string is
    one of them. *)
Lemma inherited_toUpperCase (s : string) : inherited (toUpperCase s) = false.
Proof.
  destruct (inherited (toUpperCase s)) eqn:E; [|reflexivity].
  pose proof (toUpperCase_idempotent s) as Hidem.
  apply inherited_In in E. simpl in E.
  repeat (destruct E as [E|E]; [rewrite <- E in Hidem; discriminate Hidem|]).
  destruct E.
Qed.

Section Inherited.
Context {V : Type}.
Implicit Types (member v : V) (own : option V) (k : string).

Lemma own_or_inherited_own member own k v :
  own = Some v -> own_or_inherited member own k = Some v.
Proof. intros ->. reflexivity. Qed.

Lemma own_or_inherited_absent member own k :
  inherited k = false -> own_or_inherited member own k = own.
Proof. intros Hk. unfold own_or_inherited. rewrite Hk. destruct own; reflexivity. Qed.

Lemma own_or_inherited_member member k :
  inherited k = true -> own_or_inherited member None k = Some member.
Proof. intros Hk. unfold own_or_inherited. rewrite Hk. reflexivity. Qed.

Lemma own_or_inherited_None member own k :
  own_or_inherited member own k = None <-> own = None /\ inherited k = false.
Proof.
  unfold own_or_inherited. destruct own; [|destruct (inherited k)];
    intuition congruence.
Qed.

End Inherited.

(** The records the component selects are read under upper-cased keys,
    where nothing is inherited. *)
Lemma data_get_toUpperCase (data : CountriesData) (s : string) :
  data_get data (toUpperCase s) = obj_get data (toUpperCase s).
Proof. apply own_or_inherited_absent, inherited_toUpperCase. Qed.
