(* ===== verification/Normalizer.v ===== *)
(** * Normalizer: from the input data to the resolved map

    The first half of [initializeMap] in [countries-map.component.ts]
    (lines 109-152): the numeric value of a record ([countryNum]), the scan
    that finds the bounds that were not given, the range, the percentage of
    every record and the map [mapData] from lower-cased country ids to
    drawable records.

    [mapData] is a [gmap]: the program reads it by key only. *)

From stdpp Require Import gmap strings.
From Stdlib Require Import QArith Qabs Lqa.
From S2P Require Import Prelude JsNumber JsString DataTypes.

Local Open Scope string_scope.

Section Normalizer.
Context `{Rounding, NumberToString}.

(** ** [countryNum] *)

(** [item.value?.toString()]: [undefined] for an absent value. *)
Definition value_toString (v : option ValidExtraData) : option string :=
  match v with
  | None => None
  | Some (VNumber n) => Some (number_toString n)
  | Some (VString s) => Some s
  end.

(** [parseInt(a, 10)], which first converts its argument to a string. *)
Definition parseInt_of (a : option string) : number :=
  parseInt (nullish a "undefined").

Definition countryNum (item : CountryData) : number :=
  parseInt_of (value_toString (cd_value item)).

(** ** The bounds *)

(** A bound that is [undefined] compares as NaN. *)
Definition bound_number (b : option number) : number := nullish b NaN.

(** Line 119: the running minimum after a parseable value. *)
Definition lower_min (minVal : option number) (numVal : number) : option number :=
  if negb (exists_ minVal) || num_lt numVal (bound_number minVal)
  then Some numVal else minVal.

(** Line 120: the running maximum after a parseable value. *)
Definition raise_max (maxVal : option number) (numVal : number) : option number :=
  if negb (exists_ maxVal) || num_gt numVal (bound_number maxVal)
  then Some numVal else maxVal.

(** The body of the scan loop (lines 117-121). *)
Definition scan_step (acc : option number * option number) (countryVal : CountryData)
  : option number * option number :=
  let numVal := countryNum countryVal in
  if negb (isNaN numVal)
  then (lower_min (fst acc) numVal, raise_max (snd acc) numVal)
  else acc.

(** Lines 112-123: the scan runs when a bound is not given. *)
Definition scan_bounds (data : CountriesData) (minValue maxValue : option number)
  : option number * option number :=
  if negb (exists_ minValue) || negb (exists_ maxValue)
  then fold_left scan_step (obj_values data) (minValue, maxValue)
  else (minValue, maxValue).

Record Bounds : Type := mkBounds {
  minVal : number;
  maxVal : number;
  range : number
}.

(** Lines 125-127. *)
Definition bounds_of (scanned : option number * option number) : Bounds :=
  let minVal := nullish (fst scanned) (of_Z 0) in
  let maxVal := nullish (snd scanned) (of_Z 1) in
  {| minVal := minVal; maxVal := maxVal;
     range := num_or (num_sub maxVal minVal) (of_Z 1) |}.

Definition bounds (data : CountriesData) (minValue maxValue : option number) : Bounds :=
  bounds_of (scan_bounds data minValue maxValue).

(** ** The percentage (lines 133-143) *)

Definition percentage_of (b : Bounds) (numVal : number) : number :=
  if isNaN numVal then of_Z (-1)
  else if num_le numVal (minVal b) then of_Z 0
  else if num_ge numVal (maxVal b) then of_Z 100
  else num_mul (num_div (num_sub numVal (minVal b)) (range b)) (of_Z 100).

(** ** The resolved map (lines 130-149) *)

Definition drawable (b : Bounds) (countryVal : CountryData) : DrawableCountry :=
  {| dc_data := countryVal; percentage := percentage_of b (countryNum countryVal) |}.

Definition draw_step (b : Bounds) (mapData : gmap string DrawableCountry)
    (entry : string * CountryData) : gmap string DrawableCountry :=
  <[toLowerCase (fst entry) := drawable b (snd entry)]> mapData.

Definition build_mapData (b : Bounds) (data : CountriesData) : gmap string DrawableCountry :=
  fold_left (draw_step b) (obj_entries data) ∅.

(** Lines 109-152: [data] is [None] when the input is not an object. *)
Definition normalize (data : option CountriesData) (minValue maxValue : option number)
  : gmap string DrawableCountry :=
  match data with
  | Some data => build_mapData (bounds data minValue maxValue) data
  | None => ∅
  end.

(** ** Specification predicates *)

(** A percentage is the exception marker [-1] or lies in [[0, 100]]. *)
Definition pct_ok (p : number) : Prop :=
  p = of_Z (-1) \/ num_between 0 100 p.

(** Bounds whose range was computed from them, and finite bounds. *)
Definition bounds_wf (b : Bounds) : Prop :=
  range b = num_or (num_sub (maxVal b) (minVal b)) (of_Z 1).

Definition bounds_finite (b : Bounds) : Prop :=
  is_finite (minVal b) = true /\ is_finite (maxVal b) = true.

(** Bounds that are numbers and whose range did not overflow. *)
Definition bounds_ok (b : Bounds) : Prop :=
  isNaN (minVal b) = false /\ isNaN (maxVal b) = false /\ is_finite (range b) = true.

(** The update of a running extremum, for any strict order [better]:
    lines 119 and 120 are its instances at [<] and [>]. *)
Definition running_best (better : number -> number -> bool)
    (best : option number) (numVal : number) : option number :=
  if negb (exists_ best) || better numVal (bound_number best)
  then Some numVal else best.

(** The values of the records that parse, in enumeration order. *)
Definition numeric_values (data : CountriesData) : list number :=
  List.filter (fun v => negb (isNaN v)) (map countryNum (obj_values data)).

(** [r] is a least (greatest) element of [l]. *)
Definition is_min_of (r : number) (l : list number) : Prop :=
  In r l /\ forall x, In x l -> num_le r x = true.

Definition is_max_of (r : number) (l : list number) : Prop :=
  In r l /\ forall x, In x l -> num_le x r = true.

(** The record that the resolved map holds for a lower-case id, read off
    the data: the last record whose id is [k] up to case. *)
Definition lower_keys (data : CountriesData) : CountriesData :=
  map (fun entry => (toLowerCase (fst entry), snd entry)) data.

Definition resolve (data : CountriesData) (k : string) : option CountryData :=
  obj_get (rev (lower_keys data)) k.

(** A bound given by the host that has the property [P], or not given. *)
Definition given (P : number -> Prop) (v : option number) : Prop :=
  match v with
  | Some x => P x
  | None => True
  end.

(** A bound given by the host that is a number, or not given. *)
Definition given_number (v : option number) : Prop := given (fun x => isNaN x = false) v.

(** An integer of magnitude at most [2^52]: two of them are at most [2^53]
    apart. *)
Definition small (x : number) : Prop := exists z : Z, x = of_Z z /\ (Z.abs z <= 2 ^ 52)%Z.

Definition given_small (v : option number) : Prop := given small v.

(** The colour scale of a pass is defined: the bounds given are numbers,
    and the range of the bounds of the data is finite. *)
Definition scale_ok (data : option CountriesData) (minValue maxValue : option number)
  : Prop :=
  given_number minValue /\ given_number maxValue /\
  match data with
  | Some data => is_finite (range (bounds data minValue maxValue)) = true
  | None => True
  end.

End Normalizer.

(** * Theorems *)

Section PercentageFacts.
Context `{Rounding}.
Implicit Types (b : Bounds) (v : number).
Local Open Scope Q_scope.

Lemma bounds_of_wf (scanned : option number * option number) :
  bounds_wf (bounds_of scanned).
Proof. reflexivity. Qed.

(** The range is never zero and never NaN, whatever the bounds. *)
Lemma range_truthy b : bounds_wf b -> truthy (range b) = true.
Proof. intros ->. apply num_or_truthy. reflexivity. Qed.

(** A finite range of finite bounds is positive and not below the rounded
    difference of the bounds. *)
Lemma range_inv b (m M : Q) :
  bounds_wf b -> is_finite (range b) = true ->
  minVal b = Fin m -> maxVal b = Fin M -> m <= M ->
  exists r, range b = Fin r /\ 0 < r /\ num_le (round (M - m)) (Fin r) = true.
Proof.
  intros Hwf Hfin Hm HM Hle. rewrite Hwf, Hm, HM in *. cbn [num_sub] in *.
  assert (H0 : num_le (of_Z 0) (round (M - m)) = true)
    by (rewrite <- round_0; apply round_mono; lra).
  unfold num_or in *. destruct (round (M - m)) as [|r|[]]; simpl in *; try discriminate.
  q_reflect. destruct (Qeq_bool r 0) eqn:E; simpl in *; q_reflect.
  - exists (inject_Z 1). split; [reflexivity|]. split; [reflexivity|].
    q_reflect. rewrite E. discriminate.
  - exists r. unfold inject_Z in H0. split; [reflexivity|]. split; [|q_reflect]; lra.
Qed.

(** Bounds that are integers at most [2^53] apart have a finite range. *)
Lemma range_finite_integers b (m M : Z) :
  bounds_wf b -> minVal b = of_Z m -> maxVal b = of_Z M ->
  (Z.abs (M - m) <= 2 ^ 53)%Z -> is_finite (range b) = true.
Proof.
  intros Hwf Hm HM Hd. rewrite Hwf, Hm, HM. cbn [num_sub of_Z].
  assert (E : inject_Z M - inject_Z m == inject_Z (M - m))
    by (unfold Qminus; rewrite <- inject_Z_opp, <- inject_Z_plus; reflexivity).
  rewrite E, round_integer by exact Hd. unfold num_or. destruct (truthy _); reflexivity.
Qed.

(** Bounds whose distance is within a magnitude that the platform has
    have a finite range. *)
Lemma range_finite_within b (m M B : Q) :
  bounds_wf b -> minVal b = Fin m -> maxVal b = Fin M ->
  - B <= M - m <= B -> is_finite (round B) = true -> is_finite (round (- B)) = true ->
  is_finite (range b) = true.
Proof.
  intros Hwf Hm HM [H1 H2] HB HB'. rewrite Hwf, Hm, HM. cbn [num_sub].
  pose proof (round_mono _ _ H1) as Hlo. pose proof (round_mono _ _ H2) as Hhi.
  unfold num_or. destruct (round (M - m)) as [|r|[]], (round B), (round (- B));
    try discriminate; simpl; destruct (negb _); reflexivity.
Qed.

(** The rounded distance of a value from the minimum is within the range. *)
Lemma difference_inv (m M q r : Q) :
  m <= q <= M -> num_le (round (M - m)) (Fin r) = true ->
  exists s, num_sub (Fin q) (Fin m) = Fin s /\ 0 <= s <= r.
Proof.
  intros [H1 H2] Hr. cbn [num_sub].
  assert (Hlo : num_le (of_Z 0) (round (q - m)) = true)
    by (rewrite <- round_0; apply round_mono; lra).
  assert (Hhi : num_le (round (q - m)) (Fin r) = true)
    by (eapply num_le_trans; [apply round_mono|exact Hr]; lra).
  destruct (round (q - m)) as [|s|[]]; simpl in *; try discriminate.
  exists s. q_reflect. auto.
Qed.

(** The interpolation of a value between finite bounds is within
    [[0, 100]]. *)
Lemma interpolation_between b (m M q : Q) :
  bounds_wf b -> is_finite (range b) = true ->
  minVal b = Fin m -> maxVal b = Fin M -> m <= q <= M ->
  num_between 0 100
    (num_mul (num_div (num_sub (Fin q) (minVal b)) (range b)) (of_Z 100)).
Proof.
  intros Hwf Hfin Hm HM Hq.
  destruct (range_inv b m M Hwf Hfin Hm HM) as (r & -> & Hr & Hle); [lra|].
  destruct (difference_inv m M q r Hq Hle) as (s & Hs & Hsr). rewrite Hm, Hs.
  apply (num_mul_between _ 100); [vm_compute; split; discriminate|].
  apply num_div_unit; assumption.
Qed.

(** The percentage of a value that parses is within [[0, 100]]. *)
Lemma percentage_of_between b v :
  bounds_wf b -> bounds_ok b -> isNaN v = false ->
  num_between 0 100 (percentage_of b v).
Proof.
  intros Hwf (Hm & HM & Hfin) Hv. unfold percentage_of. rewrite Hv.
  destruct (num_le v (minVal b)) eqn:H1; [vm_compute; split; discriminate|].
  destruct (num_ge v (maxVal b)) eqn:H2; [vm_compute; split; discriminate|].
  destruct (minVal b) as [|m|[]] eqn:Em, (maxVal b) as [|M|[]] eqn:EM,
    v as [|q|[]]; try discriminate;
    try (rewrite Hwf, Em, EM in Hfin; discriminate).
  rewrite <- Em. unfold num_ge in H2. simpl in H1, H2. q_reflect.
  apply (interpolation_between b m M q); auto. lra.
Qed.

(** Every percentage is [-1] or within [[0, 100]]. *)
Lemma percentage_of_ok b v : bounds_wf b -> bounds_ok b -> pct_ok (percentage_of b v).
Proof.
  intros Hwf Hok. destruct (isNaN v) eqn:Hv.
  - left. unfold percentage_of. rewrite Hv. reflexivity.
  - right. apply percentage_of_between; assumption.
Qed.

(** An exception is marked [-1], and only an exception is. *)
Lemma percentage_of_NaN b : percentage_of b NaN = of_Z (-1).
Proof. reflexivity. Qed.

Lemma percentage_of_exception_iff b v :
  bounds_wf b -> bounds_ok b -> percentage_of b v = of_Z (-1) <-> v = NaN.
Proof.
  intros Hwf Hok. split; [|intros ->; reflexivity].
  destruct (isNaN v) eqn:Hv; [intros _; apply isNaN_true, Hv|].
  pose proof (percentage_of_between b v Hwf Hok Hv) as Hb. intros E.
  rewrite E in Hb. vm_compute in Hb. destruct Hb as [Hb _]. exfalso. apply Hb. reflexivity.
Qed.

(** A value at or below the minimum is at 0. *)
Lemma percentage_of_le_min b v :
  isNaN v = false -> num_le v (minVal b) = true -> percentage_of b v = of_Z 0.
Proof. unfold percentage_of. intros -> ->. reflexivity. Qed.

(** A value above the minimum and at or above the maximum is at 100. *)
Lemma percentage_of_ge_max b v :
  isNaN v = false -> num_le v (minVal b) = false -> num_ge v (maxVal b) = true ->
  percentage_of b v = of_Z 100.
Proof. unfold percentage_of. intros -> -> ->. reflexivity. Qed.

(** Strictly between the bounds the percentage is the interpolation. *)
Lemma percentage_of_interpolated b v :
  isNaN v = false -> num_le v (minVal b) = false -> num_ge v (maxVal b) = false ->
  percentage_of b v = num_mul (num_div (num_sub v (minVal b)) (range b)) (of_Z 100).
Proof. unfold percentage_of. intros -> -> ->. reflexivity. Qed.

(** C36: when the distance of a value from the minimum overflows, the range
    overflows as well and the percentage of the value is NaN: neither -1
    nor within [[0, 100]]. *)
Theorem percentage_of_overflow b (m M q : Q) :
  bounds_wf b -> minVal b = Fin m -> maxVal b = Fin M -> m < q < M ->
  is_finite (num_sub (Fin q) (Fin m)) = false ->
  range b = Inf true /\ percentage_of b (Fin q) = NaN.
Proof.
  intros Hwf Hm HM [H1 H2] Hover. cbn [num_sub] in Hover.
  assert (Hs : round (q - m) = Inf true).
  { pose proof (round_mono 0 (q - m) ltac:(lra)) as H0. rewrite round_0 in H0.
    pose proof (round_not_NaN (q - m)) as Hn.
    destruct (round (q - m)) as [|s|[]]; try discriminate. reflexivity. }
  assert (Hr : round (M - m) = Inf true).
  { pose proof (round_mono (q - m) (M - m) ltac:(lra)) as Hle. rewrite Hs in Hle.
    destruct (round (M - m)) as [|r|[]]; try discriminate. reflexivity. }
  assert (Er : range b = Inf true) by (rewrite Hwf, Hm, HM; cbn [num_sub]; rewrite Hr; reflexivity).
  split; [exact Er|]. unfold percentage_of, num_ge. rewrite Hm, HM, Er. cbn [isNaN num_le num_sub].
  rewrite (proj2 (Qle_bool_false q m)), (proj2 (Qle_bool_false M q)), Hs by assumption.
  reflexivity.
Qed.

(** A maximum that is NaN compares false with every value and gives the
    range 1: above the minimum the percentage is a hundred times the
    distance from the minimum, and nothing holds it within [[0, 100]]. *)
Lemma percentage_of_NaN_max b (m q : Q) :
  bounds_wf b -> minVal b = Fin m -> maxVal b = NaN -> m < q ->
  range b = of_Z 1
  /\ percentage_of b (Fin q)
     = num_mul (num_div (num_sub (Fin q) (Fin m)) (of_Z 1)) (of_Z 100).
Proof.
  intros Hwf Hm HM Hq.
  assert (Er : range b = of_Z 1) by (rewrite Hwf, Hm, HM; reflexivity).
  split; [exact Er|]. unfold percentage_of, num_ge. rewrite Hm, HM, Er.
  cbn [isNaN num_le]. rewrite (proj2 (Qle_bool_false q m)) by assumption. reflexivity.
Qed.

(** A minimum that is NaN: a value below the maximum has the percentage
    NaN. *)
Lemma percentage_of_NaN_min b v :
  minVal b = NaN -> isNaN v = false -> num_ge v (maxVal b) = false ->
  percentage_of b v = NaN.
Proof.
  intros Hm Hv HM. unfold percentage_of. rewrite Hv, HM, Hm.
  destruct v as [|q|[]]; try discriminate; reflexivity.
Qed.

(** When the maximum is not above the minimum no value is interpolated:
    the percentage does not depend on the range. *)
Lemma percentage_of_crossed b b' v :
  minVal b' = minVal b -> maxVal b' = maxVal b ->
  num_le (maxVal b) (minVal b) = true -> percentage_of b v = percentage_of b' v.
Proof.
  intros Em EM Hle. unfold percentage_of, num_ge. rewrite Em, EM.
  destruct (isNaN v) eqn:Hv; [reflexivity|].
  destruct (num_le v (minVal b)) eqn:Hmin; [reflexivity|].
  replace (num_le (maxVal b) v) with true; [reflexivity|].
  symmetry. revert Hv Hmin Hle. generalize (minVal b) (maxVal b). intros m M.
  destruct v as [|q|[]], m as [|p|[]], M as [|r|[]]; simpl; intros; try congruence;
    q_reflect; lra.
Qed.

(** Equal finite bounds have the range 1. *)
Lemma range_degenerate b :
  bounds_wf b -> bounds_finite b -> num_eq (minVal b) (maxVal b) -> range b = of_Z 1.
Proof.
  intros Hwf [Hm HM] Heq. apply is_finite_true in Hm as [m Hm], HM as [M HM].
  rewrite Hwf, Hm, HM in *. simpl in Heq. cbn [num_sub].
  assert (E : M - m == 0) by lra. rewrite E, round_0. reflexivity.
Qed.

(** C38: when the two bounds are equal the range is 1 and every percentage
    is -1, 0 or 100: no division by zero, no NaN. *)
Lemma percentage_of_degenerate b v :
  bounds_wf b -> bounds_finite b -> num_eq (minVal b) (maxVal b) ->
  range b = of_Z 1 /\
  (percentage_of b v = of_Z (-1) \/ percentage_of b v = of_Z 0
   \/ percentage_of b v = of_Z 100).
Proof.
  intros Hwf Hfin Heq. split; [apply range_degenerate; assumption|].
  destruct Hfin as [Hm HM]. apply is_finite_true in Hm as [m Hm], HM as [M HM].
  unfold percentage_of. rewrite Hm, HM in *. simpl in Heq.
  destruct v as [|q|[]]; simpl; auto. unfold num_ge. simpl. q_cases; auto. lra.
Qed.

(** The three steps of the interpolation are monotone in the value. *)
Lemma interpolation_monotone b (m M p q : Q) :
  bounds_wf b -> is_finite (range b) = true ->
  minVal b = Fin m -> maxVal b = Fin M -> m <= p -> p <= q -> q <= M ->
  num_le (num_mul (num_div (num_sub (Fin p) (minVal b)) (range b)) (of_Z 100))
         (num_mul (num_div (num_sub (Fin q) (minVal b)) (range b)) (of_Z 100)) = true.
Proof.
  intros Hwf Hfin Hm HM H1 H2 H3.
  destruct (range_inv b m M Hwf Hfin Hm HM) as (r & Er & Hr & Hle); [lra|].
  destruct (difference_inv m M p r) as (s & Hs & Hsr); [lra | exact Hle |].
  destruct (difference_inv m M q r) as (s' & Hs' & Hsr'); [lra | exact Hle |].
  pose proof (num_sub_mono p q m H2) as Hss. rewrite Hs, Hs' in Hss. simpl in Hss.
  q_reflect. rewrite Er, Hm, Hs, Hs'.
  pose proof (num_div_unit s r Hsr Hr) as Hd. pose proof (num_div_unit s' r Hsr' Hr) as Hd'.
  pose proof (num_div_mono s s' r Hr Hss) as Hdd.
  destruct (num_div (Fin s) (Fin r)) as [|d|]; try contradiction.
  destruct (num_div (Fin s') (Fin r)) as [|d'|]; try contradiction.
  simpl in Hdd. q_reflect. apply num_mul_mono; [discriminate | exact Hdd].
Qed.

(** C34: the percentage is monotone in the value. *)
Lemma percentage_of_monotone b (p q : Q) :
  bounds_wf b -> bounds_finite b -> is_finite (range b) = true -> p <= q ->
  num_le (percentage_of b (Fin p)) (percentage_of b (Fin q)) = true.
Proof.
  intros Hwf [Hm HM] Hfin Hpq.
  assert (Hok : bounds_ok b) by (repeat split; auto using is_finite_not_NaN).
  pose proof (percentage_of_between b (Fin p) Hwf Hok eq_refl) as Hp.
  pose proof (percentage_of_between b (Fin q) Hwf Hok eq_refl) as Hq.
  apply is_finite_true in Hm as [m Hm], HM as [M HM].
  revert Hp Hq. unfold percentage_of. rewrite Hm, HM. unfold num_ge. cbn [isNaN num_le].
  destruct (Qle_bool p m) eqn:E1, (Qle_bool q m) eqn:E2,
    (Qle_bool M p) eqn:E3, (Qle_bool M q) eqn:E4; q_reflect; try (exfalso; lra);
    intros Hp Hq; try reflexivity;
    try (destruct (num_mul _ _); try contradiction; simpl in *; q_reflect;
         unfold inject_Z in *; lra).
  rewrite <- Hm. apply (interpolation_monotone b m M); auto; lra.
Qed.

End PercentageFacts.

(** ** The numeric value of a record *)

Section CountryNumFacts.
Context `{Rounding, NumberToString}.
Implicit Types (extra : option CountryExtraData).

Lemma countryNum_string (s : string) extra :
  countryNum (mkCountryData (Some (VString s)) extra) = parseInt s.
Proof. reflexivity. Qed.

(** A record without a value is an exception: ["undefined"] is no numeral. *)
Lemma countryNum_undefined extra : countryNum (mkCountryData None extra) = NaN.
Proof. reflexivity. Qed.

(** A number is printed and the numeral is parsed. *)
Lemma countryNum_printed (q : Q) extra :
  countryNum (mkCountryData (Some (VNumber (Fin q))) extra) = round_Z (printed_integer q).
Proof. apply parseInt_number_toString. Qed.

(** C40: the numeric value of a record whose value is a number is read
    off the numeral that the platform prints for it: the integer part of
    the decimal printed, toward zero, when the numeral is in plain notation
    (exponent from -5 to 21), and its leading digit when the numeral is in
    exponent notation. *)
Theorem countryNum_number (q : Q) extra (s : positive) (n : Z) :
  ~ q == 0 -> shortest (Qabs q) = (s, n) ->
  countryNum (mkCountryData (Some (VNumber (Fin q))) extra)
  = round_Z ((if Qltb q 0 then -1 else 1)
             * (if ((-6 <? n) && (n <=? 21))%Z then decimal_trunc s n
                else leading_digit s)).
Proof.
  intros Hq Hs. rewrite countryNum_printed. unfold printed_integer. rewrite Hs.
  replace (Qeq_bool q 0) with false by (symmetry; apply Qeq_bool_false, Hq).
  reflexivity.
Qed.

Lemma countryNum_zero (q : Q) extra :
  q == 0 -> countryNum (mkCountryData (Some (VNumber (Fin q))) extra) = round_Z 0.
Proof.
  intros Hq. rewrite countryNum_printed. unfold printed_integer.
  apply Qeq_bool_iff in Hq. rewrite Hq. reflexivity.
Qed.

(** A number printed in exponent notation has a digit from 1 to 9, with
    the sign, as numeric value. *)
Lemma countryNum_leading_digit (q : Q) extra (s : positive) (n : Z) :
  ~ q == 0 -> shortest (Qabs q) = (s, n) -> (n <= -6 \/ 21 < n)%Z ->
  countryNum (mkCountryData (Some (VNumber (Fin q))) extra)
  = of_Z ((if Qltb q 0 then -1 else 1) * leading_digit s)
  /\ (1 <= leading_digit s <= 9)%Z.
Proof.
  intros Hq Hs Hn. pose proof (leading_digit_range s) as Hd. split; [|exact Hd].
  rewrite countryNum_printed. unfold printed_integer. rewrite Hs.
  replace (Qeq_bool q 0) with false by (symmetry; apply Qeq_bool_false, Hq).
  replace ((-6 <? n) && (n <=? 21))%Z with false
    by (symmetry; apply andb_false_iff; rewrite Z.ltb_ge, Z.leb_gt; lia).
  apply round_Z_small. destruct (Qltb q 0); lia.
Qed.

(** An integer below [10^21] in absolute value that is printed digit by
    digit, as the platform prints every integer up to [2^53], is parsed
    back to itself. *)
Lemma countryNum_integer (z : Z) extra (s : positive) (n : Z) :
  (Z.abs z < 10 ^ 21)%Z -> rounded (of_Z z) ->
  shortest (Qabs (inject_Z z)) = (s, n) -> decimal_value s n == inject_Z (Z.abs z) ->
  countryNum (mkCountryData (Some (VNumber (of_Z z))) extra) = of_Z z.
Proof.
  intros Hz Hr Hs Hv. destruct (Z.eq_dec z 0) as [->|Hnz].
  - unfold of_Z at 1. rewrite countryNum_zero by reflexivity. apply round_Z_small. simpl. lia.
  - unfold of_Z at 1.
    rewrite countryNum_printed, (printed_integer_exact z s n) by (lia || assumption).
    apply rounded_Fin, Hr.
Qed.

Lemma countryNum_not_finite (x : number) extra :
  is_finite x = false -> countryNum (mkCountryData (Some (VNumber x)) extra) = NaN.
Proof. apply parseInt_number_toString_not_finite. Qed.

(** The numeric value of a record is NaN or the number of an integer. *)
Lemma countryNum_NaN_or_integer (item : CountryData) :
  countryNum item = NaN \/ exists z : Z, countryNum item = round_Z z.
Proof. apply parseInt_NaN_or_integer. Qed.

Lemma countryNum_rounded (item : CountryData) :
  isNaN (countryNum item) = false -> rounded (countryNum item).
Proof.
  destruct (countryNum_NaN_or_integer item) as [->|[z ->]]; [discriminate|].
  intros _. exists (inject_Z z). reflexivity.
Qed.

End CountryNumFacts.

(** With the reference printer, in every rounding: an integer below
    [2^53] in absolute value is its own numeric value. *)
Theorem countryNum_safe_integer `{Rounding} (z : Z) (extra : option CountryExtraData) :
  (Z.abs z < 2 ^ 53)%Z ->
  countryNum (mkCountryData (Some (VNumber (of_Z z))) extra) = of_Z z.
Proof.
  intros Hz. destruct (Z.eq_dec z 0) as [->|Hnz].
  { unfold of_Z at 1. rewrite countryNum_zero by reflexivity. apply round_Z_small. simpl. lia. }
  destruct (shortest (Qabs (inject_Z z))) as [s n] eqn:Hs.
  apply (countryNum_integer z extra s n); [lia | apply rounded_of_Z; lia | exact Hs |].
  pose proof (reference_shortest_integer (Z.abs z) ltac:(lia)) as Hv.
  change (Qabs (inject_Z z)) with (inject_Z (Z.abs z)) in Hs.
  unfold shortest, reference_printer in Hs. rewrite Hs in Hv. exact Hv.
Qed.

(** ** Running extrema

    The facts on the scan are proved once, for a strict order [better] on
    numbers that is total on the values scanned, and used at [<] for the
    minimum and at [>] for the maximum. *)

Section RunningBest.
Context (better : number -> number -> bool) (P : number -> Prop).
Hypothesis better_NaN_r : forall x, better x NaN = false.
Hypothesis better_irrefl : forall x, better x x = false.
Hypothesis better_trans : forall x y z,
  better x y = true -> better y z = true -> better x z = true.
Hypothesis better_negtrans : forall x y z,
  isNaN y = false -> better x y = false -> better y z = false -> better x z = false.
Hypothesis better_total : forall x y,
  P x -> P y -> better x y = false -> better y x = false -> x = y.
Hypothesis P_not_NaN : forall x, P x -> isNaN x = false.

Local Abbreviation rb := (running_best better).

Lemma running_best_None x : rb None x = Some x.
Proof. reflexivity. Qed.

Lemma running_best_Some e x : rb (Some e) x = if better x e then Some x else Some e.
Proof. reflexivity. Qed.

Lemma better_asym x y : better x y = true -> better y x = false.
Proof.
  intros Hxy. destruct (better y x) eqn:Hyx; auto.
  rewrite <- (better_irrefl x). symmetry. eapply better_trans; eassumption.
Qed.

(** Two updates commute. *)
Lemma running_best_comm best x y : P x -> P y -> rb (rb best x) y = rb (rb best y) x.
Proof.
  intros Px Py. destruct best as [e|]; rewrite ?running_best_None, !running_best_Some.
  - destruct (better x e) eqn:Hx, (better y e) eqn:Hy; rewrite ?running_best_Some, ?Hx, ?Hy; auto.
    + destruct (better y x) eqn:Hyx; [rewrite (better_asym _ _ Hyx); reflexivity|].
      destruct (better x y) eqn:Hxy; [reflexivity|]. f_equal. symmetry. auto.
    + destruct (better y x) eqn:Hyx; auto.
      rewrite (better_trans _ _ _ Hyx Hx) in Hy. discriminate.
    + destruct (better x y) eqn:Hxy; auto.
      rewrite (better_trans _ _ _ Hxy Hy) in Hx. discriminate.
  - destruct (better y x) eqn:Hyx; [rewrite (better_asym _ _ Hyx); reflexivity|].
    destruct (better x y) eqn:Hxy; [reflexivity|]. f_equal. symmetry. auto.
Qed.

Lemma fold_running_best_Some l e : exists r, fold_left rb l (Some e) = Some r.
Proof.
  revert e; induction l as [|x l IH]; intros e; simpl; eauto.
  rewrite running_best_Some. destruct (better x e); apply IH.
Qed.

Lemma fold_running_best_None l best :
  fold_left rb l best = None <-> best = None /\ l = [].
Proof.
  split; [|intros [-> ->]; reflexivity].
  destruct l as [|x l]; simpl; [auto|]. intros Hf. exfalso.
  destruct best as [e|]; rewrite ?running_best_None, ?running_best_Some in Hf.
  - destruct (better x e); destruct (fold_running_best_Some l x) as [r Hr];
      destruct (fold_running_best_Some l e) as [r' Hr']; congruence.
  - destruct (fold_running_best_Some l x) as [r Hr]; congruence.
Qed.

(** The result is the start value or one of the values visited. *)
Lemma fold_running_best_In l best r :
  fold_left rb l best = Some r -> best = Some r \/ In r l.
Proof.
  revert best; induction l as [|x l IH]; intros best; simpl; [auto|].
  intros Hf. apply IH in Hf as [Hf|Hf]; [|auto].
  destruct best as [e|]; rewrite ?running_best_None, ?running_best_Some in Hf.
  - destruct (better x e); inv Hf; auto.
  - inv Hf; auto.
Qed.

(** The start value is not better than the result. *)
Lemma fold_running_best_start l e r :
  fold_left rb l (Some e) = Some r -> better e r = false.
Proof.
  revert e; induction l as [|x l IH]; intros e; simpl.
  - intros [= ->]. apply better_irrefl.
  - rewrite running_best_Some. destruct (better x e) eqn:Hx; intros Hf; [|auto].
    apply IH in Hf. destruct (better e r) eqn:He; auto.
    rewrite (better_trans _ _ _ Hx He) in Hf. discriminate.
Qed.

Definition start_ok (best : option number) : Prop :=
  match best with
  | Some e => isNaN e = false
  | None => True
  end.

Lemma running_best_start_ok best x : start_ok best -> P x -> start_ok (rb best x).
Proof.
  destruct best as [e|]; rewrite ?running_best_None, ?running_best_Some; simpl; auto.
  destruct (better x e); simpl; auto.
Qed.

(** No value visited is better than the result. *)
Lemma fold_running_best_no_better l best r x :
  Forall P l -> start_ok best ->
  fold_left rb l best = Some r -> In x l -> better x r = false.
Proof.
  revert best; induction l as [|y l IH]; intros best HP Hok Hf Hin; [inv Hin|].
  inv HP. simpl in Hf. destruct Hin as [->|Hin].
  - destruct best as [e|]; rewrite ?running_best_None, ?running_best_Some in Hf.
    + destruct (better x e) eqn:Hx; [eapply fold_running_best_start; eassumption|].
      apply fold_running_best_start in Hf. apply (better_negtrans x e r Hok Hx Hf).
    + eapply fold_running_best_start; eassumption.
  - apply (IH (rb best y)); auto using running_best_start_ok.
Qed.

(** The scan gives the same result in any order of the values. *)
Lemma fold_running_best_permutation l l' best :
  Permutation l l' -> Forall P l -> fold_left rb l best = fold_left rb l' best.
Proof.
  intros Hp HP. apply (fold_left_permutation rb P); auto.
  intros; apply running_best_comm; assumption.
Qed.

End RunningBest.

(** ** The scan for the bounds *)

Section ScanFacts.
Context `{Rounding, NumberToString}.
Implicit Types (data : CountriesData) (acc : option number * option number).

Lemma lower_min_running : lower_min = running_best num_lt.
Proof. reflexivity. Qed.

Lemma raise_max_running : raise_max = running_best num_gt.
Proof. reflexivity. Qed.

Lemma rounded_gt_total (x y : number) :
  rounded x -> rounded y -> num_gt x y = false -> num_gt y x = false -> x = y.
Proof. unfold num_gt. intros. apply rounded_lt_total; assumption. Qed.

#[local] Hint Resolve rounded_not_NaN rounded_lt_total rounded_gt_total : js.

(** The values scanned are numbers of the platform. *)
Lemma numeric_values_rounded data : Forall rounded (numeric_values data).
Proof.
  unfold numeric_values. apply List.Forall_forall. intros x Hx.
  apply List.filter_In in Hx as [Hx Hnan]. apply List.in_map_iff in Hx as (item & <- & _).
  apply countryNum_rounded, negb_true_iff, Hnan.
Qed.

#[local] Hint Resolve numeric_values_rounded : js.

(** The loop updates the two bounds separately, on the values that parse. *)
Lemma fold_scan_step (vals : list CountryData) acc :
  fold_left scan_step vals acc =
  (fold_left lower_min (List.filter (fun v => negb (isNaN v)) (map countryNum vals)) (fst acc),
   fold_left raise_max (List.filter (fun v => negb (isNaN v)) (map countryNum vals)) (snd acc)).
Proof.
  revert acc; induction vals as [|v vals IH]; intros [mn mx]; simpl; [reflexivity|].
  rewrite IH. unfold scan_step. destruct (isNaN (countryNum v)); reflexivity.
Qed.

Lemma scan_bounds_scan data (minValue maxValue : option number) :
  minValue = None \/ maxValue = None ->
  scan_bounds data minValue maxValue =
  (fold_left lower_min (numeric_values data) minValue,
   fold_left raise_max (numeric_values data) maxValue).
Proof.
  intros Hnone. unfold scan_bounds.
  replace (negb (exists_ minValue) || negb (exists_ maxValue)) with true
    by (destruct Hnone as [-> | ->]; simpl; auto using orb_true_r).
  apply fold_scan_step.
Qed.

(** When both bounds are given they are used as they are. *)
Lemma scan_bounds_given data (mn mx : number) :
  scan_bounds data (Some mn) (Some mx) = (Some mn, Some mx).
Proof. reflexivity. Qed.

(** The running minimum, from a start that is not NaN: the result is the
    start or a value scanned, and it is below every value scanned. *)
Lemma fold_lower_min_spec (nums : list number) (mn : option number) (r : number) :
  Forall rounded nums -> start_ok mn ->
  fold_left lower_min nums mn = Some r ->
  (mn = Some r \/ In r nums) /\ forall x, In x nums -> num_le r x = true.
Proof.
  rewrite lower_min_running. intros Hint Hok Hf.
  assert (Hin : mn = Some r \/ In r nums) by (eapply fold_running_best_In, Hf).
  split; [exact Hin|]. intros x Hx.
  assert (Hr : isNaN r = false).
  { destruct Hin as [->|Hin]; [exact Hok|].
    eapply rounded_not_NaN, List.Forall_forall; eassumption. }
  apply num_lt_false_le; auto.
  - eapply rounded_not_NaN, List.Forall_forall; eassumption.
  - eapply (fold_running_best_no_better num_lt rounded);
      eauto with js.
Qed.

Lemma fold_raise_max_spec (nums : list number) (mx : option number) (r : number) :
  Forall rounded nums -> start_ok mx ->
  fold_left raise_max nums mx = Some r ->
  (mx = Some r \/ In r nums) /\ forall x, In x nums -> num_le x r = true.
Proof.
  rewrite raise_max_running. intros Hint Hok Hf.
  assert (Hin : mx = Some r \/ In r nums) by (eapply fold_running_best_In, Hf).
  split; [exact Hin|]. intros x Hx.
  assert (Hr : isNaN r = false).
  { destruct Hin as [->|Hin]; [exact Hok|].
    eapply rounded_not_NaN, List.Forall_forall; eassumption. }
  apply num_lt_false_le; auto.
  - eapply rounded_not_NaN, List.Forall_forall; eassumption.
  - change (num_gt x r = false).
    eapply (fold_running_best_no_better num_gt rounded); unfold num_gt;
      eauto with js.
Qed.

(** With no bound given and a value that parses, the scan returns the
    least and the greatest of the values that parse. *)
Theorem scan_bounds_extrema data :
  numeric_values data <> [] ->
  exists m M : number,
    scan_bounds data None None = (Some m, Some M) /\
    is_min_of m (numeric_values data) /\ is_max_of M (numeric_values data).
Proof.
  intros Hne. rewrite scan_bounds_scan by auto.
  pose proof (numeric_values_rounded data) as Hint.
  destruct (fold_left lower_min (numeric_values data) None) as [m|] eqn:Em;
    [|rewrite lower_min_running in Em; apply fold_running_best_None in Em as [_ E];
      contradiction].
  destruct (fold_left raise_max (numeric_values data) None) as [M|] eqn:EM;
    [|rewrite raise_max_running in EM; apply fold_running_best_None in EM as [_ E];
      contradiction].
  exists m, M. split; [reflexivity|].
  apply fold_lower_min_spec in Em as [[Em|Em] Hm]; simpl; auto; try discriminate.
  apply fold_raise_max_spec in EM as [[EM|EM] HM]; simpl; auto; try discriminate.
  split; split; assumption.
Qed.

(** With no value that parses, a bound that is not given stays so. *)
Lemma scan_bounds_no_value data (minValue maxValue : option number) :
  numeric_values data = [] ->
  scan_bounds data minValue maxValue = (minValue, maxValue).
Proof.
  intros Hnil. destruct minValue as [mn|], maxValue as [mx|];
    rewrite ?scan_bounds_given, ?scan_bounds_scan, ?Hnil by auto; reflexivity.
Qed.

(** The scan does not depend on the order in which the object enumerates
    its records. *)
Theorem scan_bounds_permutation data data' (minValue maxValue : option number) :
  Permutation data data' ->
  scan_bounds data minValue maxValue = scan_bounds data' minValue maxValue.
Proof.
  intros Hp.
  assert (Hnums : Permutation (numeric_values data) (numeric_values data')).
  { unfold numeric_values, obj_values.
    apply Permutation_filter. do 2 apply Permutation_map. exact Hp. }
  destruct minValue as [mn|], maxValue as [mx|]; [reflexivity|..];
    rewrite !scan_bounds_scan by auto; f_equal;
    rewrite ?lower_min_running, ?raise_max_running;
    (apply (fold_running_best_permutation _ rounded);
       [ eauto with js
       | unfold num_gt; eauto with js
       | auto with js
       | exact Hnums
       | apply numeric_values_rounded ]).
Qed.

(** C39: a minimum given without a maximum is replaced by any smaller value of
    the data. *)
Theorem given_min_lowered data (e x : number) :
  isNaN e = false -> In x (numeric_values data) -> num_lt x e = true ->
  exists r, fst (scan_bounds data (Some e) None) = Some r /\ num_lt r e = true.
Proof.
  intros He Hx Hlt. rewrite scan_bounds_scan by auto. simpl fst.
  destruct (fold_running_best_Some num_lt (numeric_values data) e) as [r Hr].
  rewrite lower_min_running, Hr. exists r. split; [reflexivity|].
  rewrite <- lower_min_running in Hr.
  apply fold_lower_min_spec in Hr as [_ Hle]; auto with js.
  specialize (Hle x Hx). clear -Hle Hlt He. num_cases.
Qed.

End ScanFacts.

#[export] Hint Resolve rounded_not_NaN numeric_values_rounded : js.

(** ** The resolved map *)

Section MapDataFacts.
Context `{Rounding, NumberToString}.
Implicit Types (b : Bounds) (data : CountriesData) (k id : string).

Lemma build_mapData_snoc b data (entry : string * CountryData) :
  build_mapData b (data ++ [entry])%list
  = <[toLowerCase (fst entry) := drawable b (snd entry)]> (build_mapData b data).
Proof.
  unfold build_mapData, obj_entries. rewrite (fold_left_snoc (draw_step b)). reflexivity.
Qed.

Lemma resolve_snoc data (entry : string * CountryData) k :
  resolve (data ++ [entry])%list k
  = if decide (toLowerCase (fst entry) = k) then Some (snd entry) else resolve data k.
Proof.
  unfold resolve, lower_keys. rewrite map_app, rev_app_distr. simpl.
  destruct (String.eqb_spec k (toLowerCase (fst entry))); case_decide; congruence.
Qed.

(** The resolved map holds, for a key, the drawable record of the last
    record of the data whose id is the key up to case. *)
Lemma build_mapData_lookup b data k :
  build_mapData b data !! k = drawable b <$> resolve data k.
Proof.
  induction data as [|entry data IH] using rev_ind; [apply lookup_empty|].
  rewrite build_mapData_snoc, resolve_snoc, lookup_insert.
  case_decide; [reflexivity | exact IH].
Qed.

Lemma resolve_Some data k (v : CountryData) :
  resolve data k = Some v -> exists id, In (id, v) data /\ toLowerCase id = k.
Proof.
  unfold resolve, lower_keys. intros Hg. apply obj_get_Some_In in Hg.
  apply List.in_rev, List.in_map_iff in Hg as ([id v'] & [= <- <-] & Hin). eauto.
Qed.

Lemma resolve_None data k :
  resolve data k = None <-> forall id, In id (obj_keys data) -> toLowerCase id <> k.
Proof.
  unfold resolve. rewrite obj_get_None. unfold obj_keys, lower_keys.
  rewrite List.map_rev, <- List.in_rev, List.map_map. simpl. rewrite List.in_map_iff. split.
  - intros Hn id Hin E. apply List.in_map_iff in Hin as ([id' v] & <- & Hin).
    apply Hn. exists (id', v). auto.
  - intros Hn ([id v] & E & Hin). apply (Hn id); [|exact E].
    apply List.in_map_iff. exists (id, v). auto.
Qed.

(** When no two ids of the data are equal up to case, every record is
    found under its lower-cased id. *)
Lemma resolve_In data id (v : CountryData) :
  List.NoDup (map toLowerCase (obj_keys data)) -> In (id, v) data ->
  resolve data (toLowerCase id) = Some v.
Proof.
  intros Hnd Hin. unfold resolve. apply obj_get_In.
  - unfold obj_wf, obj_keys, lower_keys. rewrite List.map_rev, List.map_map. simpl.
    apply List.NoDup_rev.
    unfold obj_keys in Hnd. rewrite List.map_map in Hnd. exact Hnd.
  - apply -> List.in_rev. apply List.in_map_iff. exists (id, v). auto.
Qed.

(** Every key of the resolved map is in lower case. *)
Theorem build_mapData_keys_lower b data k :
  is_Some (build_mapData b data !! k) -> is_lower_case k = true.
Proof.
  rewrite build_mapData_lookup. intros [d Hd].
  destruct (resolve data k) as [v|] eqn:E; [|discriminate].
  apply resolve_Some in E as (id & _ & <-). apply toLowerCase_is_lower_case.
Qed.

(** C37: an id of the data in any case and an element id in lower case join. *)
Theorem build_mapData_join b data id (v : CountryData) :
  List.NoDup (map toLowerCase (obj_keys data)) -> In (id, v) data ->
  build_mapData b data !! toLowerCase id = Some (drawable b v).
Proof.
  intros Hnd Hin. rewrite build_mapData_lookup, (resolve_In data id v); auto.
Qed.

(** An element whose id matches no record has no entry. *)
Theorem build_mapData_absent b data k :
  (forall id, In id (obj_keys data) -> toLowerCase id <> k) ->
  build_mapData b data !! k = None.
Proof.
  intros Hn. rewrite build_mapData_lookup, (proj2 (resolve_None data k) Hn). reflexivity.
Qed.

(** Every entry is the drawable record of a record of the data. *)
Lemma build_mapData_Some b data k (d : DrawableCountry) :
  build_mapData b data !! k = Some d ->
  exists id v, In (id, v) data /\ toLowerCase id = k /\ d = drawable b v.
Proof.
  rewrite build_mapData_lookup. destruct (resolve data k) as [v|] eqn:E; [|discriminate].
  intros [= <-]. apply resolve_Some in E as (id & Hin & Hk). eauto.
Qed.

End MapDataFacts.

(** ** The bounds and the whole pass *)

Section NormalizeFacts.
Context `{Rounding, NumberToString}.
Implicit Types (data : CountriesData) (minValue maxValue : option number).

(** What the scan keeps: a property of the bounds given and of the values
    scanned is a property of the bounds found. *)
Lemma fold_running_best_keeps (P : number -> Prop) (better : number -> number -> bool)
    (nums : list number) (start : option number) :
  Forall P nums -> given P start -> given P (fold_left (running_best better) nums start).
Proof.
  intros Hnums Hstart.
  destruct (fold_left _ nums start) as [r|] eqn:E; simpl; [|exact I].
  apply fold_running_best_In in E as [->|Hin]; [exact Hstart|].
  eapply List.Forall_forall; eassumption.
Qed.

Lemma scan_bounds_keeps (P : number -> Prop) data minValue maxValue :
  given P minValue -> given P maxValue -> Forall P (numeric_values data) ->
  given P (fst (scan_bounds data minValue maxValue))
  /\ given P (snd (scan_bounds data minValue maxValue)).
Proof.
  intros Hmin Hmax Hs. destruct minValue as [mn|], maxValue as [mx|];
    [simpl; auto|..]; rewrite scan_bounds_scan by auto; simpl;
    split; apply fold_running_best_keeps; auto.
Qed.

Lemma bounds_keeps (P : number -> Prop) data minValue maxValue :
  P (of_Z 0) -> P (of_Z 1) ->
  given P minValue -> given P maxValue -> Forall P (numeric_values data) ->
  P (minVal (bounds data minValue maxValue)) /\ P (maxVal (bounds data minValue maxValue)).
Proof.
  intros P0 P1 Hmin Hmax Hs.
  destruct (scan_bounds_keeps P data minValue maxValue Hmin Hmax Hs) as [Hm HM].
  unfold bounds, bounds_of. simpl.
  destruct (fst (scan_bounds _ _ _)), (snd (scan_bounds _ _ _)); simpl; auto.
Qed.

Lemma numeric_values_not_NaN data :
  Forall (fun x => isNaN x = false) (numeric_values data).
Proof.
  eapply List.Forall_impl; [|apply numeric_values_rounded]. apply rounded_not_NaN.
Qed.

Lemma bounds_wf_bounds data minValue maxValue : bounds_wf (bounds data minValue maxValue).
Proof. reflexivity. Qed.

(** Bounds that are given as numbers, or not given, give bounds that are
    numbers: the scan never takes a NaN. *)
Lemma bounds_not_NaN data minValue maxValue :
  given_number minValue -> given_number maxValue ->
  isNaN (minVal (bounds data minValue maxValue)) = false
  /\ isNaN (maxVal (bounds data minValue maxValue)) = false.
Proof.
  intros Hmin Hmax.
  apply (bounds_keeps (fun x => isNaN x = false));
    auto using numeric_values_not_NaN.
Qed.

Lemma scale_ok_bounds data minValue maxValue :
  scale_ok (Some data) minValue maxValue -> bounds_ok (bounds data minValue maxValue).
Proof.
  intros (Hmin & Hmax & Hfin).
  destruct (bounds_not_NaN data minValue maxValue Hmin Hmax). repeat split; assumption.
Qed.

#[local] Hint Resolve bounds_wf_bounds scale_ok_bounds : js.

Lemma small_not_NaN (x : number) : small x -> isNaN x = false.
Proof. intros (z & -> & _). reflexivity. Qed.

Lemma given_impl (P P' : number -> Prop) (v : option number) :
  (forall x, P x -> P' x) -> given P v -> given P' v.
Proof. destruct v; simpl; auto. Qed.

Lemma small_of_Z (z : Z) : (Z.abs z <= 2 ^ 52)%Z -> small (of_Z z).
Proof. intros Hz. exists z. auto. Qed.

(** The scale is defined when the bounds given and the values of the data
    are integers of magnitude at most [2^52]: the range is exact. *)
Theorem scale_ok_small data minValue maxValue :
  given_small minValue -> given_small maxValue -> Forall small (numeric_values data) ->
  scale_ok (Some data) minValue maxValue.
Proof.
  intros Hmin Hmax Hs. repeat split; try (eapply given_impl; [apply small_not_NaN|eassumption]).
  destruct (bounds_keeps small data minValue maxValue) as [(m & Em & Hm) (M & EM & HM)];
    auto using small_of_Z; try (apply small_of_Z; vm_compute; discriminate).
  apply (range_finite_integers _ m M); auto with js. lia.
Qed.

(** C3: with no bound given, the bounds are the least and the greatest value
    that parses, and the range is their difference, or 1 when they are equal. *)
Theorem bounds_auto data :
  numeric_values data <> [] ->
  exists m M : number,
    is_min_of m (numeric_values data) /\ is_max_of M (numeric_values data) /\
    bounds data None None
    = {| minVal := m; maxVal := M; range := num_or (num_sub M m) (of_Z 1) |}.
Proof.
  intros Hne. destruct (scan_bounds_extrema data Hne) as (m & M & E & Hm & HM).
  exists m, M. unfold bounds. rewrite E. auto.
Qed.

(** With no value that parses and no bound given, the bounds are 0 and 1. *)
Theorem bounds_default data :
  numeric_values data = [] ->
  bounds data None None = {| minVal := of_Z 0; maxVal := of_Z 1; range := of_Z 1 |}.
Proof.
  intros Hnil. unfold bounds. rewrite scan_bounds_no_value by exact Hnil.
  unfold bounds_of. cbn [fst snd nullish num_sub of_Z]. f_equal.
  change (inject_Z 1 - inject_Z 0)%Q with (1 - 0)%Q.
  assert (E : (1 - 0 == 1)%Q) by reflexivity. rewrite E, round_1. reflexivity.
Qed.

(** Two given bounds are used as given. *)
Theorem bounds_given data (mn mx : number) :
  bounds data (Some mn) (Some mx)
  = {| minVal := mn; maxVal := mx; range := num_or (num_sub mx mn) (of_Z 1) |}.
Proof. reflexivity. Qed.

(** C33: the bounds do not depend on the enumeration order of the data. *)
Theorem bounds_permutation data data' minValue maxValue :
  Permutation data data' -> bounds data minValue maxValue = bounds data' minValue maxValue.
Proof. intros Hp. unfold bounds. rewrite (scan_bounds_permutation data data'); auto. Qed.

(** Every entry of the resolved map is the drawable record of a record of
    the data, under the bounds of the data. *)
Lemma normalize_Some (data : option CountriesData) minValue maxValue
    (k : string) (d : DrawableCountry) :
  normalize data minValue maxValue !! k = Some d ->
  exists data0 id v, data = Some data0 /\ In (id, v) data0 /\ toLowerCase id = k
    /\ d = drawable (bounds data0 minValue maxValue) v.
Proof.
  destruct data as [data|]; simpl; [|rewrite lookup_empty; discriminate].
  intros Hk. apply build_mapData_Some in Hk as (id & v & Hin & Hid & ->). eauto 7.
Qed.

(** The percentage of a record when the scale is defined. *)
Lemma drawable_percentage_ok data minValue maxValue (v : CountryData) :
  scale_ok (Some data) minValue maxValue ->
  pct_ok (percentage (drawable (bounds data minValue maxValue) v)).
Proof. intros Hok. simpl. apply percentage_of_ok; auto with js. Qed.

(** C1: every record of the resolved map has a percentage that is -1 or
    within [[0, 100]], whenever the bounds given are numbers and the range
    is finite. *)
Theorem normalize_percentage_ok (data : option CountriesData) minValue maxValue
    (k : string) (d : DrawableCountry) :
  scale_ok data minValue maxValue ->
  normalize data minValue maxValue !! k = Some d -> pct_ok (percentage d).
Proof.
  intros Hok Hk. apply normalize_Some in Hk as (data0 & id & v & -> & _ & _ & ->).
  apply drawable_percentage_ok, Hok.
Qed.

(** C2: the resolved map of some data holds, under a key, the drawable
    record of the last record of the data whose id is the key up to case:
    the loop that fills the map implements the lookup [resolve]. *)
Theorem normalize_resolve (data : CountriesData) minValue maxValue (k : string) :
  normalize (Some data) minValue maxValue !! k
  = drawable (bounds data minValue maxValue) <$> resolve data k.
Proof. apply build_mapData_lookup. Qed.

(** C35: the exception marker is on the records that do not parse, and on them only. *)
Theorem normalize_exception_iff (data : CountriesData) minValue maxValue
    (v : CountryData) :
  scale_ok (Some data) minValue maxValue ->
  percentage (drawable (bounds data minValue maxValue) v) = of_Z (-1)
  <-> countryNum v = NaN.
Proof. intros Hok. simpl. apply percentage_of_exception_iff; auto with js. Qed.

End NormalizeFacts.

#[export] Hint Resolve bounds_wf_bounds scale_ok_bounds drawable_percentage_ok : js.
