(* ===== verification/Doubles.v ===== *)
(** * Doubles: the normalisation in the arithmetic of JavaScript

    The theorems of [Normalizer] hold for every rounding that meets the
    laws of [JsNumber.Rounding], under the hypothesis that the range of
    the bounds is finite.  This file takes the rounding [binary64] of
    [JsFloat], the one of the numbers of JavaScript, and shows when that
    hypothesis holds: bounds and values of magnitude at most [2^1022]
    (about 4.49e307) are at most [2^1023] apart, which is a number of the
    format.  Values further apart can make the range overflow.

    It also shows what the guard of the range (line 127) does there:
    with gradual underflow a difference of two numbers is zero only when
    they are equal, so the guard is taken on equal bounds only, and
    [unguarded], the bounds without it, give the same percentages. *)

From stdpp Require Import gmap strings.
From Stdlib Require Import QArith Qabs Lqa.
From S2P Require Import Prelude JsNumber JsFloat JsString DataTypes Normalizer.

#[local] Existing Instance binary64.

(** A finite number of magnitude at most [2^1022]. *)
Definition moderate (x : number) : Prop :=
  match x with
  | Fin q => (Qabs q <= pow2 1022)%Q
  | _ => False
  end.

(** The bounds with the range of line 127 taken without its guard. *)
Definition unguarded (b : Bounds) : Bounds :=
  {| minVal := minVal b; maxVal := maxVal b;
     range := num_sub (maxVal b) (minVal b) |}.

(** * Theorems *)

Section DoubleFacts.
Context `{NumberToString}.
Implicit Types (data : CountriesData) (minValue maxValue : option number).

Lemma moderate_not_NaN (x : number) : moderate x -> isNaN x = false.
Proof. destruct x; simpl; auto. contradiction. Qed.

Lemma moderate_0 : moderate (of_Z 0).
Proof. vm_compute. discriminate. Qed.

Lemma moderate_1 : moderate (of_Z 1).
Proof. vm_compute. discriminate. Qed.

(** [2^1023] and its opposite are numbers of the format. *)
Lemma binary64_finite_1023 :
  is_finite (round (pow2 1023)) = true /\ is_finite (round (- pow2 1023)) = true.
Proof. vm_compute. split; reflexivity. Qed.

(** Two moderate numbers are at most [2^1023] apart. *)
Lemma moderate_distance (m M : Q) :
  moderate (Fin m) -> moderate (Fin M) -> (- pow2 1023 <= M - m <= pow2 1023)%Q.
Proof.
  unfold moderate. intros Hm HM. apply Qabs_Qle_condition in Hm, HM.
  assert (E : (pow2 1023 == 2 * pow2 1022)%Q) by reflexivity.
  rewrite E. clear E. revert Hm HM. generalize (pow2 1022). intros B Hm HM. lra.
Qed.

(** The scale is defined for moderate bounds and values. *)
Lemma binary64_scale_ok data minValue maxValue :
  given moderate minValue -> given moderate maxValue ->
  Forall moderate (numeric_values data) ->
  scale_ok (Some data) minValue maxValue.
Proof.
  intros Hmin Hmax Hs.
  repeat split; try (eapply given_impl; [apply moderate_not_NaN|eassumption]).
  destruct (bounds_keeps moderate data minValue maxValue) as [Hm HM];
    auto using moderate_0, moderate_1.
  destruct (minVal _) as [|m|] eqn:Em, (maxVal _) as [|M|] eqn:EM; try contradiction.
  destruct binary64_finite_1023 as [F1 F2].
  apply (range_finite_within _ m M (pow2 1023)); auto with js.
  apply moderate_distance; assumption.
Qed.

(** C5: in the arithmetic of JavaScript, when the bounds given and the
    values of the data are of magnitude at most [2^1022], every record of
    the resolved map has a percentage that is -1 or within [[0, 100]]. *)
Theorem binary64_percentage_ok data minValue maxValue (k : string) (d : DrawableCountry) :
  given moderate minValue -> given moderate maxValue ->
  Forall moderate (numeric_values data) ->
  normalize (Some data) minValue maxValue !! k = Some d -> pct_ok (percentage d).
Proof.
  intros Hmin Hmax Hs Hk.
  apply normalize_Some in Hk as (data0 & id & v & [= <-] & _ & _ & ->).
  apply drawable_percentage_ok, binary64_scale_ok; assumption.
Qed.

(** ** The guard of the range

    With gradual underflow the difference of two numbers is zero only when
    they are equal.  The guard [|| 1] of line 127 is therefore taken on
    equal bounds only, where every value is at a bound and none is
    interpolated. *)

Lemma binary64_sub_truthy (m M : Q) :
  rounded (Fin m) -> rounded (Fin M) -> ~ (M == m)%Q ->
  truthy (num_sub (Fin M) (Fin m)) = true.
Proof.
  intros [p Hp] [q Hq] Hne.
  exact (binary_round_sub_truthy 53 1024 binary64_prec q p M m
           (eq_sym Hq) (eq_sym Hp) Hne).
Qed.

(** A difference of numbers that is falsy comes from bounds that are not
    apart. *)
Lemma binary64_sub_falsy (m M : number) :
  rounded m -> rounded M -> truthy (num_sub M m) = false -> num_le M m = true.
Proof.
  intros Hm HM. pose proof (rounded_not_NaN _ Hm). pose proof (rounded_not_NaN _ HM).
  destruct m as [|m|[]], M as [|M|[]]; try discriminate; try reflexivity.
  intros Hf. apply Qle_bool_iff. destruct (Qeq_dec M m) as [E|NE]; [lra|].
  rewrite (binary64_sub_truthy m M Hm HM NE) in Hf. discriminate.
Qed.

(** C22: in the arithmetic of JavaScript the guard of the range changes no
    percentage: for bounds that are numbers, the percentages are those of
    the bounds with the plain difference as their range. *)
Theorem binary64_guard_redundant (b : Bounds) (v : number) :
  bounds_wf b -> rounded (minVal b) -> rounded (maxVal b) ->
  percentage_of b v = percentage_of (unguarded b) v.
Proof.
  intros Hwf Hm HM. destruct (truthy (num_sub (maxVal b) (minVal b))) eqn:Ht.
  - unfold percentage_of, unguarded. cbn [minVal maxVal range].
    rewrite Hwf. unfold num_or. rewrite Ht. reflexivity.
  - apply percentage_of_crossed; [reflexivity..|].
    apply binary64_sub_falsy; assumption.
Qed.

End DoubleFacts.
