(* ===== verification/Dom.v ===== *)
(** * Dom: the element tree the component draws on

    The part of the DOM that [countries-map.component.ts] reads and writes:
    elements with an id, a class list, four inline style properties and the
    two mouse handlers the component installs; their children; the chain of
    ancestors of the host element up to the document.

    An element is addressed by its path, the list of child indices from the
    root of the tree to the element.  [querySelectorAll] lists the proper
    descendants that carry a class, in document order; [update] is the
    assignment to properties of one element; the parent of the element at
    [p ++ [i]] is the element at [p]. *)

From stdpp Require Import list strings.
From S2P Require Import Prelude JsString.

(** ** Data *)

(** Inline style: [None] is a property that was never assigned. *)
Record Style : Type := mkStyle {
  backgroundColor : option string;
  fill : option string;
  stroke : option string;
  strokeWidth : option string
}.

Definition no_style : Style :=
  {| backgroundColor := None; fill := None; stroke := None; strokeWidth := None |}.

(** [this.countryHover.bind(this, item, hovered)], installed on [item]. *)
Inductive Handler : Type :=
| CountryHover (hovered : bool).

Record ElementData : Type := mkElementData {
  el_id : string;
  classList : list string;
  style : Style;
  onmouseenter : option Handler;
  onmouseleave : option Handler
}.

#[warnings="-register-all"]
Inductive Element : Type :=
| Elem (data : ElementData) (children : list Element).

Definition el_data (e : Element) : ElementData :=
  match e with Elem d _ => d end.

Definition el_children (e : Element) : list Element :=
  match e with Elem _ cs => cs end.

Definition path : Type := list nat.

(** A node on the way from an element to the top: an element, or a node
    that has no class list (the document). *)
Inductive ChainNode : Type :=
| ChainElement (id : string) (classes : list string)
| ChainDocument.

(** The host element of the map with the chain of its ancestors, nearest
    first.  An empty chain is a host that is not attached to a document. *)
Record Page : Type := mkPage {
  page_host : Element;
  page_outer : list ChainNode
}.

(** ** Reading *)

(** [classList.contains(c)]. *)
Definition contains (classes : list string) (c : string) : bool :=
  bool_decide (c ∈ classes).

Definition has_class (c : string) (e : Element) : bool :=
  contains (classList (el_data e)) c.

(** The element at a path. *)
Fixpoint get (e : Element) (p : path) : option Element :=
  match p with
  | [] => Some e
  | i :: p' =>
      match el_children e !! i with
      | Some c => get c p'
      | None => None
      end
  end.

Definition data_at (e : Element) (p : path) : option ElementData :=
  el_data <$> get e p.

(** [children[0]]. *)
Definition first_child (e : Element) : option Element := el_children e !! 0.

(** The proper descendants of an element, in document order. *)
Fixpoint descendants (e : Element) : list path :=
  match e with
  | Elem _ cs =>
      (fix go (i : nat) (cs : list Element) : list path :=
         match cs with
         | [] => []
         | c :: cs' => ([i] :: (cons i <$> descendants c)) ++ go (S i) cs'
         end) 0 cs
  end.

Fixpoint descendants_from (i : nat) (cs : list Element) : list path :=
  match cs with
  | [] => []
  | c :: cs' => ([i] :: (cons i <$> descendants c)) ++ descendants_from (S i) cs'
  end.

(** [e.querySelectorAll('.' + c)]. *)
Definition querySelectorAll (c : string) (e : Element) : list path :=
  List.filter (fun p => match get e p with
                        | Some x => has_class c x
                        | None => false
                        end) (descendants e).

(** The nodes from the element at [p] up to the root of the tree,
    nearest first. *)
Fixpoint ancestors_or_self (e : Element) (p : path) : list Element :=
  match p with
  | [] => [e]
  | i :: p' =>
      match el_children e !! i with
      | Some c => ancestors_or_self c p' ++ [e]
      | None => []
      end
  end.

(** The elements from the element at [q] up to [e], [e] excluded. *)
Definition below (e : Element) (q : path) : list Element :=
  take (length q) (ancestors_or_self e q).

Definition chain_node (e : Element) : ChainNode :=
  ChainElement (el_id (el_data e)) (classList (el_data e)).

(** The [parentNode] chain of the element at [p] of the host's tree. *)
Definition parent_chain (pg : Page) (p : path) : list ChainNode :=
  (chain_node <$> ancestors_or_self (page_host pg) p) ++ page_outer pg.

(** ** Writing *)

(** Assignment to properties of the element at a path. *)
Fixpoint update (f : ElementData -> ElementData) (p : path) (e : Element) : Element :=
  match p, e with
  | [], Elem d cs => Elem (f d) cs
  | i :: p', Elem d cs => Elem d (alter (update f p') i cs)
  end.

(** Replaces the subtree at a path. *)
Fixpoint put (p : path) (sub : Element) (e : Element) : Element :=
  match p, e with
  | [], _ => sub
  | i :: p', Elem d cs => Elem d (alter (put p' sub) i cs)
  end.

(** The same assignment to every element of the tree, and to every proper
    descendant. *)
Fixpoint tree_map (f : ElementData -> ElementData) (e : Element) : Element :=
  match e with
  | Elem d cs => Elem (f d) (map (tree_map f) cs)
  end.

Definition map_descendants (f : ElementData -> ElementData) (e : Element) : Element :=
  match e with
  | Elem d cs => Elem d (map (tree_map f) cs)
  end.

(** Setters of the style properties. *)
Definition set_backgroundColor (v : string) (s : Style) : Style :=
  {| backgroundColor := Some v; fill := fill s; stroke := stroke s;
     strokeWidth := strokeWidth s |}.

Definition set_fill (v : string) (s : Style) : Style :=
  {| backgroundColor := backgroundColor s; fill := Some v; stroke := stroke s;
     strokeWidth := strokeWidth s |}.

Definition set_stroke (v : string) (s : Style) : Style :=
  {| backgroundColor := backgroundColor s; fill := fill s; stroke := Some v;
     strokeWidth := strokeWidth s |}.

Definition set_strokeWidth (v : string) (s : Style) : Style :=
  {| backgroundColor := backgroundColor s; fill := fill s; stroke := stroke s;
     strokeWidth := Some v |}.

Definition with_style (f : Style -> Style) (d : ElementData) : ElementData :=
  {| el_id := el_id d; classList := classList d; style := f (style d);
     onmouseenter := onmouseenter d; onmouseleave := onmouseleave d |}.

Definition with_handlers (enter leave : Handler) (d : ElementData) : ElementData :=
  {| el_id := el_id d; classList := classList d; style := style d;
     onmouseenter := Some enter; onmouseleave := Some leave |}.

(** ** Induction on trees *)

Section ElementInd.
Context (P : Element -> Prop).
Hypothesis P_Elem : forall d cs, Forall P cs -> P (Elem d cs).

Fixpoint Element_forall_ind (e : Element) : P e :=
  match e with
  | Elem d cs =>
      P_Elem d cs
        ((fix go (cs : list Element) : Forall P cs :=
            match cs with
            | [] => @List.Forall_nil _ P
            | c :: cs' => @List.Forall_cons _ P c cs' (Element_forall_ind c) (go cs')
            end) cs)
  end.

End ElementInd.

(** ** Lemmas *)

Lemma descendants_Elem d cs : descendants (Elem d cs) = descendants_from 0 cs.
Proof.
  simpl. generalize 0. induction cs as [|c cs IH]; intros i; simpl; [reflexivity|].
  rewrite IH. reflexivity.
Qed.

Lemma get_nil e : get e [] = Some e.
Proof. reflexivity. Qed.

Lemma get_cons e i p : get e (i :: p) = el_children e !! i ≫= fun c => get c p.
Proof. simpl. destruct (el_children e !! i); reflexivity. Qed.

Lemma get_app e p q : get e (p ++ q) = get e p ≫= fun x => get x q.
Proof.
  revert e; induction p as [|i p IH]; intros e; simpl; [reflexivity|].
  destruct (el_children e !! i); simpl; auto.
Qed.

Lemma data_at_nil e : data_at e [] = Some (el_data e).
Proof. reflexivity. Qed.

Lemma data_at_cons d cs i p :
  data_at (Elem d cs) (i :: p) = cs !! i ≫= fun c => data_at c p.
Proof. unfold data_at. simpl. destruct (cs !! i); reflexivity. Qed.

(** An assignment changes the data of one element and nothing else. *)
Lemma data_at_update f q e p :
  data_at (update f q e) p
  = if decide (p = q) then f <$> data_at e p else data_at e p.
Proof.
  revert e p; induction q as [|j q IH]; intros [d cs] p; simpl update.
  - destruct p as [|i p]; [reflexivity|]. rewrite !data_at_cons. reflexivity.
  - destruct p as [|i p]; [reflexivity|]. rewrite !data_at_cons.
    destruct (decide (i = j)) as [->|Hij].
    + rewrite list_lookup_alter_eq. destruct (cs !! j) as [c|]; simpl.
      * rewrite IH. repeat case_decide; congruence.
      * case_decide; reflexivity.
    + rewrite list_lookup_alter_ne by auto. case_decide; congruence.
Qed.

Lemma data_at_update_eq f p e : data_at (update f p e) p = f <$> data_at e p.
Proof. rewrite data_at_update. case_decide; congruence. Qed.

Lemma data_at_update_ne f q e p : p ≠ q -> data_at (update f q e) p = data_at e p.
Proof. intros Hne. rewrite data_at_update. case_decide; congruence. Qed.

(** Assignments in sequence: an element is changed if its path is among
    the paths assigned to. *)
Lemma data_at_fold_update f qs e p :
  (forall d, f (f d) = f d) ->
  data_at (fold_left (fun t q => update f q t) qs e) p
  = if decide (p ∈ qs) then f <$> data_at e p else data_at e p.
Proof.
  intros Hf. revert e; induction qs as [|q qs IH]; intros e; cbn [fold_left].
  - rewrite decide_False by apply not_elem_of_nil. reflexivity.
  - rewrite IH, data_at_update.
    repeat case_decide; subst; try reflexivity;
      try (destruct (data_at e _); simpl; rewrite ?Hf; reflexivity);
      exfalso;
      repeat match goal with
      | H : _ ∈ _ :: _ |- _ => apply elem_of_cons in H
      | H : _ ∉ _ :: _ |- _ => apply not_elem_of_cons in H
      end; tauto.
Qed.

(** Two trees with the same data at every path are equal. *)
Lemma tree_ext e1 e2 : (forall p, data_at e1 p = data_at e2 p) -> e1 = e2.
Proof.
  revert e2; induction e1 as [d1 cs1 IH] using Element_forall_ind.
  intros [d2 cs2] Hext. f_equal.
  - specialize (Hext []). rewrite !data_at_nil in Hext. simpl in Hext. congruence.
  - apply list_eq. intros i.
    assert (Hi : forall p, cs1 !! i ≫= (fun c => data_at c p)
                           = cs2 !! i ≫= (fun c => data_at c p))
      by (intros p; rewrite <- (data_at_cons d1 cs1), <- (data_at_cons d2 cs2); apply Hext).
    destruct (cs1 !! i) as [c1|] eqn:E1, (cs2 !! i) as [c2|] eqn:E2; simpl in Hi.
    + f_equal. rewrite List.Forall_forall in IH.
      apply IH; [|exact Hi]. apply list_elem_of_In, list_elem_of_lookup. eauto.
    + specialize (Hi []). discriminate.
    + specialize (Hi []). discriminate.
    + reflexivity.
Qed.

Lemma data_at_tree_map f e p : data_at (tree_map f e) p = f <$> data_at e p.
Proof.
  revert p; induction e as [d cs IH] using Element_forall_ind.
  intros [|i p]; [reflexivity|]. simpl tree_map. rewrite !data_at_cons.
  change (map (tree_map f) cs) with (tree_map f <$> cs). rewrite list_lookup_fmap.
  destruct (cs !! i) as [c|] eqn:E; simpl; [|reflexivity].
  rewrite List.Forall_forall in IH. apply IH.
  apply list_elem_of_In, list_elem_of_lookup. eauto.
Qed.

Lemma data_at_map_descendants f e p :
  data_at (map_descendants f e) p
  = if decide (p = []) then data_at e p else f <$> data_at e p.
Proof.
  destruct e as [d cs], p as [|i p]; [reflexivity|].
  simpl map_descendants. rewrite !data_at_cons.
  change (map (tree_map f) cs) with (tree_map f <$> cs). rewrite list_lookup_fmap.
  destruct (cs !! i) as [c|]; simpl; [apply data_at_tree_map | reflexivity].
Qed.

(** The descendants are the non-empty paths of the tree. *)
Lemma elem_of_descendants_from i cs p :
  p ∈ descendants_from i cs <->
  exists j c p', p = (i + j) :: p' /\ cs !! j = Some c /\ (p' = [] \/ p' ∈ descendants c).
Proof.
  revert i; induction cs as [|c cs IH]; intros i; simpl.
  - split; [intros Hin; inv Hin | intros (j & c & p' & _ & Hc & _); discriminate].
  - rewrite elem_of_cons, elem_of_app, list_elem_of_fmap, IH. split.
    + intros [->|[(p' & -> & Hp')|(j & c' & p' & -> & Hc & Hp')]].
      * exists 0, c, []. rewrite Nat.add_0_r. auto.
      * exists 0, c, p'. rewrite Nat.add_0_r. auto.
      * exists (S j), c', p'. rewrite Nat.add_succ_r. auto.
    + intros ([|j] & c' & p' & -> & Hc & Hp'); simpl in Hc.
      * inv Hc. rewrite Nat.add_0_r. destruct Hp' as [->|Hp']; eauto.
      * right; right. exists j, c', p'. rewrite Nat.add_succ_r. auto.
Qed.

Lemma elem_of_descendants e p : p ∈ descendants e <-> p ≠ [] /\ is_Some (get e p).
Proof.
  revert p; induction e as [d cs IH] using Element_forall_ind. intros p.
  rewrite descendants_Elem, elem_of_descendants_from. rewrite List.Forall_forall in IH.
  split.
  - intros (j & c & p' & -> & Hc & Hp'). split; [discriminate|]. simpl. rewrite Hc.
    destruct Hp' as [->|Hp']; [eauto|].
    apply IH in Hp' as [_ Hp']; [exact Hp'|].
    apply list_elem_of_In, list_elem_of_lookup. eauto.
  - intros [Hne Hget]. destruct p as [|j p']; [contradiction|]. simpl in Hget.
    destruct (cs !! j) as [c|] eqn:Hc; [|destruct Hget; discriminate].
    exists j, c, p'. repeat split; auto.
    destruct p' as [|k p'']; [auto|right].
    apply IH; [apply list_elem_of_In, list_elem_of_lookup; eauto|].
    split; [discriminate | exact Hget].
Qed.

(** [querySelectorAll] lists the proper descendants that carry the class. *)
Lemma elem_of_querySelectorAll c e p :
  p ∈ querySelectorAll c e <->
  p ≠ [] /\ exists x, get e p = Some x /\ has_class c x = true.
Proof.
  unfold querySelectorAll. rewrite list_elem_of_In, List.filter_In, <- list_elem_of_In.
  rewrite elem_of_descendants. split.
  - intros [[Hne _] Hc]. split; [exact Hne|].
    destruct (get e p) as [x|]; [eauto | discriminate].
  - intros [Hne (x & Hx & Hc)]. rewrite Hx. eauto.
Qed.

(** ** What depends on the shape and the classes only *)

(** Two trees with the same shape and the same classes at every path. *)
Definition same_classes (e1 e2 : Element) : Prop :=
  forall p, classList <$> data_at e1 p = classList <$> data_at e2 p.

#[export] Instance same_classes_Equivalence : Equivalence same_classes.
Proof.
  split.
  - intros e p. reflexivity.
  - intros e1 e2 H p. symmetry. apply H.
  - intros e1 e2 e3 H1 H2 p. rewrite H1. apply H2.
Qed.

Lemma same_classes_child d1 cs1 d2 cs2 i c1 c2 :
  same_classes (Elem d1 cs1) (Elem d2 cs2) ->
  cs1 !! i = Some c1 -> cs2 !! i = Some c2 -> same_classes c1 c2.
Proof.
  intros Hs H1 H2 p. specialize (Hs (i :: p)).
  rewrite !data_at_cons, H1, H2 in Hs. exact Hs.
Qed.

Lemma same_classes_lookup d1 cs1 d2 cs2 i :
  same_classes (Elem d1 cs1) (Elem d2 cs2) ->
  is_Some (cs1 !! i) <-> is_Some (cs2 !! i).
Proof.
  intros Hs. specialize (Hs [i]). rewrite !data_at_cons in Hs.
  destruct (cs1 !! i), (cs2 !! i); simpl in Hs; try discriminate;
    split; intros [? ?]; eauto; discriminate.
Qed.

Lemma descendants_from_ext k cs1 cs2 :
  Forall (fun c1 => forall c2, same_classes c1 c2 -> descendants c1 = descendants c2) cs1 ->
  (forall i, is_Some (cs1 !! i) <-> is_Some (cs2 !! i)) ->
  (forall i c1 c2, cs1 !! i = Some c1 -> cs2 !! i = Some c2 -> same_classes c1 c2) ->
  descendants_from k cs1 = descendants_from k cs2.
Proof.
  intros HF. revert k cs2. induction HF as [|c1 cs1 Hc1 _ IH]; intros k cs2 Hlen Hsame.
  - destruct cs2 as [|c2 cs2]; [reflexivity|].
    destruct (proj2 (Hlen 0)) as [? ?]; [eauto | discriminate].
  - destruct cs2 as [|c2 cs2]; [destruct (proj1 (Hlen 0)) as [? ?]; [eauto | discriminate]|].
    simpl. rewrite (Hc1 c2) by (apply (Hsame 0); reflexivity).
    rewrite (IH (S k) cs2); [reflexivity | |].
    + intros i. apply (Hlen (S i)).
    + intros i x y Hx Hy. apply (Hsame (S i)); assumption.
Qed.

Lemma descendants_ext e1 e2 : same_classes e1 e2 -> descendants e1 = descendants e2.
Proof.
  revert e2; induction e1 as [d1 cs1 IH] using Element_forall_ind.
  intros [d2 cs2] Hs. rewrite !descendants_Elem.
  apply descendants_from_ext; [exact IH | |].
  - intros i. eapply same_classes_lookup, Hs.
  - intros i c1 c2. eapply same_classes_child, Hs.
Qed.

Lemma has_class_at c e p :
  match get e p with Some x => has_class c x | None => false end
  = match classList <$> data_at e p with Some cl => contains cl c | None => false end.
Proof. unfold data_at. destruct (get e p); reflexivity. Qed.

(** [querySelectorAll] depends on the shape and the classes only. *)
Lemma querySelectorAll_ext c e1 e2 :
  same_classes e1 e2 -> querySelectorAll c e1 = querySelectorAll c e2.
Proof.
  intros Hs. unfold querySelectorAll. rewrite (descendants_ext e1 e2 Hs).
  apply List.filter_ext. intros p. rewrite !has_class_at, (Hs p). reflexivity.
Qed.

(** An assignment that keeps the class list keeps the classes of the tree. *)
Lemma same_classes_update f q e :
  (forall d, classList (f d) = classList d) -> same_classes (update f q e) e.
Proof.
  intros Hf p. rewrite data_at_update. case_decide; [|reflexivity].
  destruct (data_at e p); simpl; rewrite ?Hf; reflexivity.
Qed.

Lemma same_classes_fold_update f qs e :
  (forall d, classList (f d) = classList d) ->
  same_classes (fold_left (fun t q => update f q t) qs e) e.
Proof.
  intros Hf. revert e; induction qs as [|q qs IH]; intros e; simpl; [reflexivity|].
  rewrite IH. apply same_classes_update, Hf.
Qed.

(** The data of a subtree are the data of the tree under its path. *)
Lemma data_at_app e p sub q : get e p = Some sub -> data_at sub q = data_at e (p ++ q).
Proof. intros Hp. unfold data_at. rewrite get_app, Hp. reflexivity. Qed.

Lemma same_classes_get e1 e2 p :
  same_classes e1 e2 ->
  match get e1 p, get e2 p with
  | Some s1, Some s2 => same_classes s1 s2
  | None, None => True
  | _, _ => False
  end.
Proof.
  intros Hs. pose proof (Hs p) as Hp. unfold data_at in Hp.
  destruct (get e1 p) as [s1|] eqn:E1, (get e2 p) as [s2|] eqn:E2; try discriminate; auto.
  intros q. rewrite (data_at_app e1 p s1 q E1), (data_at_app e2 p s2 q E2). apply Hs.
Qed.

(** Replacing a subtree. *)
Lemma get_put_eq p sub e : is_Some (get e p) -> get (put p sub e) p = Some sub.
Proof.
  revert e; induction p as [|i p IH]; intros [d cs]; simpl; [reflexivity|].
  intros Hget. rewrite list_lookup_alter_eq. destruct (cs !! i) as [c|]; simpl.
  - apply IH, Hget.
  - destruct Hget; discriminate.
Qed.

Lemma first_child_is_Some e : is_Some (first_child e) <-> is_Some (data_at e [0]).
Proof.
  destruct e as [d cs]. unfold first_child. rewrite data_at_cons. simpl.
  destruct (cs !! 0); simpl; split; intros [? ?]; eauto; discriminate.
Qed.

Lemma first_child_put sub e :
  is_Some (first_child e) -> first_child (put [0] sub e) = Some sub.
Proof.
  destruct e as [d cs]. unfold first_child. simpl. intros [c Hc].
  rewrite list_lookup_alter_eq, Hc. reflexivity.
Qed.

(** ** The chain of ancestors *)

Lemma ancestors_or_self_length e p :
  is_Some (get e p) -> length (ancestors_or_self e p) = S (length p).
Proof.
  revert e; induction p as [|i p IH]; intros e; simpl; [reflexivity|].
  destruct (el_children e !! i) as [c|]; [|intros [? [=]]].
  intros Hc. rewrite length_app, (IH c Hc). simpl. lia.
Qed.

(** The chain of an element ends in the root of the tree. *)
Lemma ancestors_or_self_below e q :
  is_Some (get e q) -> ancestors_or_self e q = below e q ++ [e].
Proof.
  unfold below. destruct q as [|i q]; simpl; [reflexivity|].
  destruct (el_children e !! i) as [c|]; [|intros [? [=]]].
  intros Hc. rewrite <- (ancestors_or_self_length c q Hc), take_app_length. reflexivity.
Qed.

(** The chain of an element below [sub] goes through the chain of [sub]. *)
Lemma ancestors_or_self_app e p q sub :
  get e p = Some sub ->
  exists above, ancestors_or_self e (p ++ q) = ancestors_or_self sub q ++ above.
Proof.
  revert e; induction p as [|i p IH]; intros e; simpl.
  - intros [= ->]. exists []. rewrite app_nil_r. reflexivity.
  - destruct (el_children e !! i) as [c|]; [|discriminate].
    intros Hc. destruct (IH c Hc) as [above ->]. exists (above ++ [e]).
    rewrite app_assoc. reflexivity.
Qed.

(** The chain of the element at [p ++ q]: the elements below the one at
    [p], then that element, then what is above it. *)
Lemma parent_chain_app pg p q sub :
  get (page_host pg) p = Some sub -> is_Some (get sub q) ->
  exists above,
    parent_chain pg (p ++ q) = (chain_node <$> below sub q) ++ chain_node sub :: above.
Proof.
  intros Hp Hq. unfold parent_chain.
  destruct (ancestors_or_self_app (page_host pg) p q sub Hp) as [above ->].
  rewrite (ancestors_or_self_below sub q Hq), !fmap_app. simpl.
  rewrite <- !app_assoc. simpl. eauto.
Qed.
