(* ===== verification/Render.v ===== *)
(** * Render: colouring the countries and the hover handlers

    The second half of [initializeMap] in [countries-map.component.ts]
    (lines 154-178) and [countryHover] (lines 186-193): the background of the
    map, the fill of every element of class [countryxx] by one of three
    policies (exception, data, no data), the two mouse handlers installed on
    each of them, and what the handlers do when they run.  The resolved
    map is read as a plain object ([mapData_get]). *)

From stdpp Require Import gmap list strings.
From Stdlib Require Import QArith.
From S2P Require Import Prelude JsNumber JsString DataTypes Normalizer Dom.

Local Close Scope Q_scope.

(** ** Constants (lines 34-37) *)

Definition COUNTRY_CLASS : string := "countryxx".
Definition OCEAN_ID : string := "ocean".
Definition LAND_CLASS : string := "landxx".

Definition getStrokeWidth (isHovered : bool) : string :=
  if isHovered then "0.2%"%string else "0.1%"%string.

Definition getStrokeColor (isHovered : bool) : string :=
  if isHovered then "#888"%string else "#afafaf"%string.

(** ** The palette (inputs of lines 59-63) *)

Record Palette : Type := mkPalette {
  minColor : string;
  maxColor : string;
  paletteBackground : string;
  noDataColor : string;
  exceptionColor : string
}.

Definition default_palette : Palette :=
  {| minColor := "oklch(100% 0 0)"; maxColor := "oklch(55% 0.25 25)";
     paletteBackground := "white"; noDataColor := "#CFCFCF";
     exceptionColor := "#FFEE58" |}.

Section Render.
Context `{NumberToString}.

(** ** The fill of a country (lines 163-174) *)

(** [this.mapData[k]]: the record held under [k], or what a plain object
    inherits under that key. *)
Definition mapData_get (mapData : gmap string DrawableCountry) (k : string)
  : option DrawableCountry :=
  own_or_inherited prototype_drawable (mapData !! k) k.

(** The template literal of line 171. *)
Definition color_mix (maxColor : string) (pct : number) (minColor : string) : string :=
  ("color-mix(in oklch, " ++ maxColor ++ " " ++ number_toString pct ++ "%, "
   ++ minColor ++ ")")%string.

Definition fill_for (mapData : gmap string DrawableCountry) (pal : Palette)
    (id : string) : string :=
  let mapItem := mapData_get mapData (toLowerCase id) in
  let isException :=
    match mapItem with
    | Some m => num_lt (percentage m) (of_Z 0)
    | None => false
    end in
  let hasData :=
    match mapItem with
    | Some m => num_ge (percentage m) (of_Z 0)
    | None => false
    end in
  if isException then exceptionColor pal
  else if hasData then
    match mapItem with
    | Some m => color_mix (maxColor pal) (percentage m) (minColor pal)
    | None => noDataColor pal
    end
  else noDataColor pal.

(** The body of the [forEach] of lines 162-178, on one element. *)
Definition paint_country (mapData : gmap string DrawableCountry) (pal : Palette)
    (item : ElementData) : ElementData :=
  with_handlers (CountryHover true) (CountryHover false)
    (with_style (set_fill (fill_for mapData pal (el_id item))) item).

(** Lines 155-178 on the [svg] element: the background, then the countries
    one after the other in document order. *)
Definition draw (mapData : gmap string DrawableCountry) (pal : Palette)
    (svgMap : Element) : Element :=
  let svgMap := update (with_style (set_backgroundColor (paletteBackground pal))) [] svgMap in
  fold_left (fun tree item => update (paint_country mapData pal) item tree)
            (querySelectorAll COUNTRY_CLASS svgMap) svgMap.

(** Lines 154-178 on the host element: [None] when it has no child, where
    line 155 throws. *)
Definition render (mapData : gmap string DrawableCountry) (pal : Palette)
    (mapEl : Element) : option Element :=
  match first_child mapEl with
  | Some svgMap => Some (put [0] (draw mapData pal svgMap) mapEl)
  | None => None
  end.

(** The same pass written as one traversal of the tree. *)
Definition paint_if_country (mapData : gmap string DrawableCountry) (pal : Palette)
    (d : ElementData) : ElementData :=
  if contains (classList d) COUNTRY_CLASS then paint_country mapData pal d else d.

Definition draw_spec (mapData : gmap string DrawableCountry) (pal : Palette)
    (svgMap : Element) : Element :=
  map_descendants (paint_if_country mapData pal)
    (update (with_style (set_backgroundColor (paletteBackground pal))) [] svgMap).

End Render.

(** ** [countryHover] (lines 186-193) *)

Definition set_hover (hovered : bool) (d : ElementData) : ElementData :=
  with_style (fun s => set_stroke (getStrokeColor hovered)
                         (set_strokeWidth (getStrokeWidth hovered) s)) d.

(** [item.querySelectorAll('.landxx')], as paths of the whole tree. *)
Definition lands_of (tree : Element) (item : path) : list path :=
  match get tree item with
  | Some sub => (fun p => item ++ p) <$> querySelectorAll LAND_CLASS sub
  | None => []
  end.

Definition countryHover (item : path) (hovered : bool) (tree : Element) : Element :=
  let tree := update (set_hover hovered) item tree in
  fold_left (fun t i => update (set_hover hovered) i t) (lands_of tree item) tree.

(** The mouse enters or leaves the element at a path: its handler runs, if
    it has one. *)
Definition run_handler (h : option Handler) (item : path) (tree : Element) : Element :=
  match h with
  | Some (CountryHover hovered) => countryHover item hovered tree
  | None => tree
  end.

Definition mouseenter (item : path) (tree : Element) : Element :=
  match data_at tree item with
  | Some d => run_handler (onmouseenter d) item tree
  | None => tree
  end.

Definition mouseleave (item : path) (tree : Element) : Element :=
  match data_at tree item with
  | Some d => run_handler (onmouseleave d) item tree
  | None => tree
  end.

(** [n] times entering and leaving an item. *)
Fixpoint hover_cycles (n : nat) (item : path) (tree : Element) : Element :=
  match n with
  | O => tree
  | S n' => countryHover item false (countryHover item true (hover_cycles n' item tree))
  end.

(** Two elements that differ in the stroke and its width at most. *)
Definition same_but_stroke (d d' : ElementData) : Prop :=
  el_id d = el_id d' /\ classList d = classList d'
  /\ fill (style d) = fill (style d')
  /\ backgroundColor (style d) = backgroundColor (style d')
  /\ onmouseenter d = onmouseenter d' /\ onmouseleave d = onmouseleave d'.

(** * Theorems *)

Section FillFacts.
Context `{NumberToString}.
Implicit Types (mapData : gmap string DrawableCountry) (pal : Palette) (id : string).

Lemma mapData_get_own mapData (k : string) (m : DrawableCountry) :
  mapData !! k = Some m -> mapData_get mapData k = Some m.
Proof. apply own_or_inherited_own. Qed.

Lemma mapData_get_absent mapData (k : string) :
  inherited k = false -> mapData_get mapData k = mapData !! k.
Proof. apply own_or_inherited_absent. Qed.

Lemma mapData_get_inherited mapData (k : string) :
  mapData !! k = None -> inherited k = true ->
  mapData_get mapData k = Some prototype_drawable.
Proof. unfold mapData_get. intros ->. apply own_or_inherited_member. Qed.

(** What is inherited has no percentage: an element whose id names a member
    of the prototype is coloured as one without a record. *)
Lemma fill_for_not_own mapData pal id :
  mapData !! toLowerCase id = None -> fill_for mapData pal id = noDataColor pal.
Proof.
  unfold fill_for, mapData_get, own_or_inherited. intros ->.
  destruct (inherited (toLowerCase id)); reflexivity.
Qed.

(** The three policies of the fill. *)
Lemma fill_for_no_data mapData pal id :
  mapData_get mapData (toLowerCase id) = None -> fill_for mapData pal id = noDataColor pal.
Proof. unfold fill_for. intros ->. reflexivity. Qed.

Lemma fill_for_exception mapData pal id (m : DrawableCountry) :
  mapData !! toLowerCase id = Some m -> percentage m = of_Z (-1) ->
  fill_for mapData pal id = exceptionColor pal.
Proof.
  unfold fill_for. intros Hm Hp. rewrite (mapData_get_own _ _ m Hm), Hp. reflexivity.
Qed.

Lemma fill_for_data mapData pal id (m : DrawableCountry) :
  mapData !! toLowerCase id = Some m -> num_between 0%Q 100%Q (percentage m) ->
  fill_for mapData pal id = color_mix (maxColor pal) (percentage m) (minColor pal).
Proof.
  unfold fill_for. intros Hm Hb. rewrite (mapData_get_own _ _ m Hm).
  destruct (percentage m) as [|q|]; try contradiction.
  simpl in *. unfold num_ge. simpl.
  replace (Qltb q (inject_Z 0)) with false
    by (symmetry; apply Qltb_false; unfold inject_Z; tauto).
  replace (Qle_bool (inject_Z 0) q) with true
    by (symmetry; apply Qle_bool_iff; unfold inject_Z; tauto).
  reflexivity.
Qed.

(** C21: an element with a record is filled with the exception colour when
    its percentage is -1 and with the mix of the two colours at its
    percentage otherwise; an element without a record has the no-data
    colour. *)
Theorem fill_for_policy mapData pal id :
  fill_for mapData pal id =
    match mapData !! toLowerCase id with
    | None => noDataColor pal
    | Some m =>
        if isNaN (percentage m) then noDataColor pal
        else if num_lt (percentage m) (of_Z 0) then exceptionColor pal
        else color_mix (maxColor pal) (percentage m) (minColor pal)
    end.
Proof.
  destruct (mapData !! toLowerCase id) as [m|] eqn:E; [|apply fill_for_not_own, E].
  unfold fill_for. rewrite (mapData_get_own _ _ m E).
  destruct (percentage m) as [|q|[]]; try reflexivity.
  unfold num_lt, num_ge, num_le, isNaN, of_Z.
  destruct (Qltb q (inject_Z 0)) eqn:Hlt; [reflexivity|].
  apply Qltb_false in Hlt. apply Qle_bool_iff in Hlt. rewrite Hlt. reflexivity.
Qed.

(** A percentage that is NaN gives the no-data colour although the element
    has a record. *)
Lemma fill_for_NaN mapData pal id (m : DrawableCountry) :
  mapData !! toLowerCase id = Some m -> percentage m = NaN ->
  fill_for mapData pal id = noDataColor pal.
Proof.
  unfold fill_for. intros Hm Hp. rewrite (mapData_get_own _ _ m Hm), Hp. reflexivity.
Qed.

(** The id of the element is compared up to case. *)
Lemma fill_for_case mapData pal id id' :
  toLowerCase id = toLowerCase id' -> fill_for mapData pal id = fill_for mapData pal id'.
Proof. unfold fill_for. intros ->. reflexivity. Qed.

End FillFacts.

Section DrawFacts.
Context `{NumberToString}.
Implicit Types (mapData : gmap string DrawableCountry) (pal : Palette).
Implicit Types (svgMap : Element) (p : path) (d : ElementData).

Lemma paint_country_idempotent mapData pal d :
  paint_country mapData pal (paint_country mapData pal d) = paint_country mapData pal d.
Proof. reflexivity. Qed.

Lemma paint_country_id mapData pal d : el_id (paint_country mapData pal d) = el_id d.
Proof. reflexivity. Qed.

Lemma paint_country_classList mapData pal d :
  classList (paint_country mapData pal d) = classList d.
Proof. reflexivity. Qed.

(** The data of every element after the pass: the root gets the
    background, a proper descendant of class [countryxx] is painted. *)
Lemma data_at_draw mapData pal svgMap p :
  data_at (draw mapData pal svgMap) p
  = (if decide (p = [])
     then with_style (set_backgroundColor (paletteBackground pal))
     else paint_if_country mapData pal) <$> data_at svgMap p.
Proof.
  unfold draw. set (svg1 := update _ [] svgMap).
  rewrite data_at_fold_update by apply paint_country_idempotent.
  assert (Hget : data_at svg1 p
                 = (if decide (p = [])
                    then with_style (set_backgroundColor (paletteBackground pal))
                    else id) <$> data_at svgMap p).
  { unfold svg1. rewrite data_at_update.
    repeat case_decide; try congruence; destruct (data_at svgMap p); reflexivity. }
  destruct (decide (p = [])) as [->|Hne].
  - rewrite decide_False; [exact Hget|]. rewrite elem_of_querySelectorAll. tauto.
  - rewrite Hget. unfold data_at in *. destruct (get svg1 p) as [x|] eqn:Hx; simpl in *.
    + destruct (get svgMap p) as [x0|]; [|discriminate]. simpl in *.
      injection Hget as Hget. unfold paint_if_country. rewrite <- Hget.
      fold (has_class COUNTRY_CLASS x).
      destruct (has_class COUNTRY_CLASS x) eqn:Hc.
      * rewrite decide_True; [reflexivity|]. apply elem_of_querySelectorAll. eauto.
      * rewrite decide_False; [reflexivity|].
        rewrite elem_of_querySelectorAll. intros [_ (y & Hy & Hcy)]. congruence.
    + destruct (get svgMap p); [discriminate|]. case_decide; reflexivity.
Qed.

Lemma data_at_draw_spec mapData pal svgMap p :
  data_at (draw_spec mapData pal svgMap) p
  = (if decide (p = [])
     then with_style (set_backgroundColor (paletteBackground pal))
     else paint_if_country mapData pal) <$> data_at svgMap p.
Proof.
  unfold draw_spec. rewrite data_at_map_descendants, data_at_update.
  repeat case_decide; solve [reflexivity | congruence].
Qed.

(** C4: the loop over the countries computes the same tree as one traversal
    that paints every descendant of class [countryxx]. *)
Theorem draw_equiv mapData pal svgMap :
  draw mapData pal svgMap = draw_spec mapData pal svgMap.
Proof. apply tree_ext. intros p. rewrite data_at_draw, data_at_draw_spec. reflexivity. Qed.

(** After the pass an element of class [countryxx] has the fill of its
    id and the two hover handlers. *)
Theorem draw_country mapData pal svgMap p d :
  p <> [] -> data_at svgMap p = Some d -> contains (classList d) COUNTRY_CLASS = true ->
  data_at (draw mapData pal svgMap) p = Some (paint_country mapData pal d).
Proof.
  intros Hne Hd Hc. rewrite data_at_draw, Hd, decide_False by exact Hne.
  simpl. unfold paint_if_country. rewrite Hc. reflexivity.
Qed.

(** The pass leaves every other descendant as it was. *)
Theorem draw_other mapData pal svgMap p d :
  p <> [] -> data_at svgMap p = Some d -> contains (classList d) COUNTRY_CLASS = false ->
  data_at (draw mapData pal svgMap) p = Some d.
Proof.
  intros Hne Hd Hc. rewrite data_at_draw, Hd, decide_False by exact Hne.
  simpl. unfold paint_if_country. rewrite Hc. reflexivity.
Qed.

Lemma draw_root mapData pal svgMap :
  el_data (draw mapData pal svgMap)
  = with_style (set_backgroundColor (paletteBackground pal)) (el_data svgMap).
Proof.
  pose proof (data_at_draw mapData pal svgMap []) as Hd.
  rewrite !data_at_nil in Hd. simpl in Hd. congruence.
Qed.

(** The pass keeps the shape, the ids and the classes of the tree. *)
Lemma draw_same_classes mapData pal svgMap :
  same_classes (draw mapData pal svgMap) svgMap.
Proof.
  intros p. rewrite data_at_draw. destruct (data_at svgMap p) as [d|]; simpl; [|reflexivity].
  case_decide; [reflexivity|]. unfold paint_if_country.
  destruct (contains _ _); reflexivity.
Qed.

Lemma draw_ids mapData pal svgMap p :
  el_id <$> data_at (draw mapData pal svgMap) p = el_id <$> data_at svgMap p.
Proof.
  rewrite data_at_draw. destruct (data_at svgMap p) as [d|]; simpl; [|reflexivity].
  case_decide; [reflexivity|]. unfold paint_if_country.
  destruct (contains _ _); reflexivity.
Qed.

(** Drawing the map twice with the same resolved map and palette
    gives the tree of drawing it once. *)
Theorem draw_idempotent mapData pal svgMap :
  draw mapData pal (draw mapData pal svgMap) = draw mapData pal svgMap.
Proof.
  apply tree_ext. intros p. rewrite !data_at_draw.
  destruct (data_at svgMap p) as [d|]; simpl; [|reflexivity].
  case_decide; [reflexivity|]. unfold paint_if_country.
  destruct (contains (classList d) COUNTRY_CLASS) eqn:E; simpl; rewrite E; reflexivity.
Qed.

(** A pass replaces the colours of an earlier pass with other data: what
    is drawn depends on the last data only. *)
Theorem draw_draw mapData mapData' pal pal' svgMap :
  draw mapData' pal' (draw mapData pal svgMap) = draw mapData' pal' svgMap.
Proof.
  apply tree_ext. intros p. rewrite !data_at_draw.
  destruct (data_at svgMap p) as [d|]; simpl; [|reflexivity].
  case_decide; [reflexivity|]. unfold paint_if_country.
  destruct (contains (classList d) COUNTRY_CLASS) eqn:E; simpl; rewrite E; reflexivity.
Qed.

(** The pass on the host element. *)
Lemma render_Some mapData pal mapEl svgMap :
  first_child mapEl = Some svgMap ->
  render mapData pal mapEl = Some (put [0] (draw mapData pal svgMap) mapEl).
Proof. unfold render. intros ->. reflexivity. Qed.

Lemma render_None mapData pal mapEl :
  first_child mapEl = None -> render mapData pal mapEl = None.
Proof. unfold render. intros ->. reflexivity. Qed.

End DrawFacts.

Section HoverFacts.
Implicit Types (tree : Element) (item p : path) (hovered : bool).

Lemma set_hover_classList hovered d : classList (set_hover hovered d) = classList d.
Proof. reflexivity. Qed.

(** The last hover state written wins. *)
Lemma set_hover_set_hover hovered hovered' d :
  set_hover hovered' (set_hover hovered d) = set_hover hovered' d.
Proof. reflexivity. Qed.

(** The sub-regions of an item depend on the shape and classes only. *)
Lemma lands_of_ext tree tree' item :
  same_classes tree tree' -> lands_of tree item = lands_of tree' item.
Proof.
  intros Hs. unfold lands_of. pose proof (same_classes_get tree tree' item Hs) as Hg.
  destruct (get tree item) as [s|], (get tree' item) as [s'|]; try contradiction; auto.
  rewrite (querySelectorAll_ext LAND_CLASS s s' Hg). reflexivity.
Qed.

(** [countryHover] as one sequence of assignments. *)
Lemma countryHover_fold item hovered tree :
  countryHover item hovered tree
  = fold_left (fun t i => update (set_hover hovered) i t) (item :: lands_of tree item) tree.
Proof.
  unfold countryHover. simpl.
  rewrite (lands_of_ext (update (set_hover hovered) item tree) tree); [reflexivity|].
  apply same_classes_update, set_hover_classList.
Qed.

(** The data of every element after a hover. *)
Lemma data_at_countryHover item hovered tree p :
  data_at (countryHover item hovered tree) p
  = if decide (p ∈ item :: lands_of tree item)
    then set_hover hovered <$> data_at tree p else data_at tree p.
Proof.
  rewrite countryHover_fold. apply data_at_fold_update.
  intros d. apply set_hover_set_hover.
Qed.

Lemma countryHover_same_classes item hovered tree :
  same_classes (countryHover item hovered tree) tree.
Proof.
  rewrite countryHover_fold. apply same_classes_fold_update, set_hover_classList.
Qed.

(** A hover state written over another replaces it: entering then
    leaving an item is leaving it. *)
Theorem countryHover_countryHover item hovered hovered' tree :
  countryHover item hovered' (countryHover item hovered tree)
  = countryHover item hovered' tree.
Proof.
  apply tree_ext. intros p. rewrite !data_at_countryHover.
  rewrite (lands_of_ext _ tree) by apply countryHover_same_classes.
  case_decide; [|reflexivity].
  destruct (data_at tree p); reflexivity.
Qed.

(** C23: any number of enter and leave cycles ends in the state of one leave. *)
Theorem hover_cycles_leave n item tree :
  hover_cycles (S n) item tree = countryHover item false tree.
Proof.
  induction n as [|n IH]; simpl in *.
  - apply countryHover_countryHover.
  - rewrite IH. rewrite !countryHover_countryHover. reflexivity.
Qed.

(** A hover writes the stroke and its width of the item and of its
    sub-regions, and nothing else. *)
Theorem countryHover_frame item hovered tree p :
  p ∉ item :: lands_of tree item ->
  data_at (countryHover item hovered tree) p = data_at tree p.
Proof. intros Hp. rewrite data_at_countryHover, decide_False by exact Hp. reflexivity. Qed.

Theorem countryHover_keeps item hovered tree p d :
  data_at tree p = Some d ->
  exists d', data_at (countryHover item hovered tree) p = Some d' /\ same_but_stroke d d'.
Proof.
  intros Hd. rewrite data_at_countryHover, Hd.
  case_decide; eexists; (split; [reflexivity|]); repeat split.
Qed.

(** Conversely, the data of an element after a hover is its data before,
    up to the stroke. *)
Lemma countryHover_from item hovered tree p d' :
  data_at (countryHover item hovered tree) p = Some d' ->
  exists d, data_at tree p = Some d /\ same_but_stroke d d'.
Proof.
  rewrite data_at_countryHover.
  case_decide; destruct (data_at tree p) as [d|]; simpl; intros [= <-];
    exists d; repeat split.
Qed.

Lemma same_but_stroke_refl d : same_but_stroke d d.
Proof. repeat split. Qed.

Lemma run_handler_from (h : option Handler) item tree p d' :
  data_at (run_handler h item tree) p = Some d' ->
  exists d, data_at tree p = Some d /\ same_but_stroke d d'.
Proof.
  destruct h as [[hovered]|]; simpl; eauto using countryHover_from, same_but_stroke_refl.
Qed.

(** The mouse handlers change the stroke only, on any tree. *)
Lemma mouseenter_from item tree p d' :
  data_at (mouseenter item tree) p = Some d' ->
  exists d, data_at tree p = Some d /\ same_but_stroke d d'.
Proof.
  unfold mouseenter. destruct (data_at tree item);
    eauto using run_handler_from, same_but_stroke_refl.
Qed.

Lemma mouseleave_from item tree p d' :
  data_at (mouseleave item tree) p = Some d' ->
  exists d, data_at tree p = Some d /\ same_but_stroke d d'.
Proof.
  unfold mouseleave. destruct (data_at tree item);
    eauto using run_handler_from, same_but_stroke_refl.
Qed.

(** A hover and the mouse handlers keep the shape of the tree. *)
Lemma countryHover_shape item hovered tree p :
  is_Some (data_at (countryHover item hovered tree) p) <-> is_Some (data_at tree p).
Proof. rewrite data_at_countryHover. case_decide; [rewrite fmap_is_Some|]; reflexivity. Qed.

Lemma run_handler_shape (h : option Handler) item tree p :
  is_Some (data_at (run_handler h item tree) p) <-> is_Some (data_at tree p).
Proof. destruct h as [[hovered]|]; simpl; [apply countryHover_shape | reflexivity]. Qed.

Lemma mouseenter_shape item tree p :
  is_Some (data_at (mouseenter item tree) p) <-> is_Some (data_at tree p).
Proof.
  unfold mouseenter. destruct (data_at tree item); [apply run_handler_shape | reflexivity].
Qed.

Lemma mouseleave_shape item tree p :
  is_Some (data_at (mouseleave item tree) p) <-> is_Some (data_at tree p).
Proof.
  unfold mouseleave. destruct (data_at tree item); [apply run_handler_shape | reflexivity].
Qed.

(** After a hover, the item and each of its descendants of class
    [landxx] have the stroke colour and the stroke width of the hover
    state. *)
Theorem countryHover_stroke item hovered tree p d :
  p ∈ item :: lands_of tree item -> data_at tree p = Some d ->
  exists d', data_at (countryHover item hovered tree) p = Some d'
    /\ stroke (style d') = Some (getStrokeColor hovered)
    /\ strokeWidth (style d') = Some (getStrokeWidth hovered).
Proof.
  intros Hp Hd. rewrite data_at_countryHover, Hd, decide_True by exact Hp.
  eexists. split; [reflexivity|]. split; reflexivity.
Qed.

End HoverFacts.
