(* ===== verification/Selection.v ===== *)
(** * Selection: from a click to the country it selects

    The parts of [onMapSelect] and [getExtraSelected] in
    [countries-map.component.ts] that do not touch the state of the
    component: the walk from the target of a click up its ancestors to the
    nearest element of class [countryxx] (lines 217-220), the event a click
    emits (lines 205-210 and 225-228) and the extra fields of a selection as
    a list of key and value pairs (line 90).  The contract of the selection
    ([SelState], [click_state], [click_event]) is the two-state machine that
    the methods of [Component] are proved to implement. *)

From stdpp Require Import gmap list strings.
From S2P Require Import Prelude JsNumber JsString DataTypes Normalizer Dom Render.

(** ** The walk up the ancestors (lines 217-220)

    [chain] is the target followed by its ancestors.  The loop stops at the
    first element of class [countryxx] and returns its id; it ends with no
    element when a node has no parent; it throws when it reaches a node that
    has no class list. *)
Fixpoint walk_up (chain : list ChainNode) : Exception + option string :=
  match chain with
  | [] => inr None
  | ChainDocument :: _ => inl TypeError
  | ChainElement id classes :: parents =>
      if contains classes COUNTRY_CLASS then inr (Some id) else walk_up parents
  end.

(** [(ev.target as SVGElement)?.id === OCEAN_ID] (line 214). *)
Definition is_ocean (chain : list ChainNode) : bool :=
  match chain with
  | ChainElement id _ :: _ => String.eqb id OCEAN_ID
  | _ => false
  end.

(** Lines 212-221: the element the click resolves to, by its id. *)
Definition resolve_target (chain : list ChainNode) : Exception + option string :=
  if is_ocean chain then inr None else walk_up chain.

(** ** Events (lines 205-210, 225-228) *)

Definition unselected_event : ChartSelectEvent :=
  {| ev_selected := false; ev_value := None; ev_extra := None; ev_country := "" |}.

Section Events.
Context `{Rounding, NumberToString}.

Definition selected_event (id : string) (country : DrawableCountry) : ChartSelectEvent :=
  {| ev_selected := true;
     ev_value := Some (countryNum (dc_data country));
     ev_country := toUpperCase id;
     ev_extra := cd_extra (dc_data country) |}.

(** ** The contract of the selection

    The selection is in one of two states, and a click moves it by what
    the click resolves to: a country element with its resolved record, or
    nothing. *)
Inductive SelState : Type :=
| Unselected
| Selected (id : string).

Definition click_state (r : option (string * DrawableCountry)) : SelState :=
  match r with
  | Some (id, _) => Selected (toUpperCase id)
  | None => Unselected
  end.

Definition click_event (r : option (string * DrawableCountry)) : ChartSelectEvent :=
  match r with
  | Some (id, country) => selected_event id country
  | None => unselected_event
  end.

End Events.

(** ** The extra fields of a selection (line 90) *)

Definition extra_pairs (extra : CountryExtraData) : list SelectionExtra :=
  map (fun key => {| se_key := key; se_val := obj_get extra key |}) (obj_keys extra).

(** A node the walk goes past: an element that is not of class
    [countryxx]. *)
Definition passed (n : ChainNode) : Prop :=
  match n with
  | ChainElement _ classes => contains classes COUNTRY_CLASS = false
  | ChainDocument => False
  end.

(** * Theorems *)

Section WalkFacts.
Implicit Types (chain pre post : list ChainNode) (id : string).

Lemma walk_up_app_passed pre post : Forall passed pre -> walk_up (pre ++ post) = walk_up post.
Proof.
  induction 1 as [|[id cl|] pre Hn _ IH]; simpl in *; [reflexivity| |contradiction].
  rewrite Hn. exact IH.
Qed.

(** The walk returns an id exactly when the chain holds an element of
    class [countryxx] before which every node is an element of another
    class: the id is the one of the nearest such element. *)
Theorem walk_up_found chain id :
  walk_up chain = inr (Some id) <->
  exists pre classes post,
    chain = pre ++ ChainElement id classes :: post
    /\ Forall passed pre /\ contains classes COUNTRY_CLASS = true.
Proof.
  split.
  - induction chain as [|[id' cl|] chain IH]; simpl; try discriminate.
    destruct (contains cl COUNTRY_CLASS) eqn:E.
    + intros [= ->]. exists [], cl, chain. auto.
    + intros Hw. destruct (IH Hw) as (pre & classes & post & -> & Hpre & Hc).
      exists (ChainElement id' cl :: pre), classes, post. repeat split; auto.
  - intros (pre & classes & post & -> & Hpre & Hc).
    rewrite walk_up_app_passed by exact Hpre. simpl. rewrite Hc. reflexivity.
Qed.

(** The walk ends without an element when every node up to the top is an
    element of another class. *)
Theorem walk_up_none chain : walk_up chain = inr None <-> Forall passed chain.
Proof.
  split.
  - induction chain as [|[id cl|] chain IH]; simpl; try discriminate; [constructor|].
    destruct (contains cl COUNTRY_CLASS) eqn:E; [discriminate|]. auto.
  - intros Hp. rewrite <- (app_nil_r chain). rewrite walk_up_app_passed by exact Hp.
    reflexivity.
Qed.

(** The walk throws when it reaches the document before an element of
    class [countryxx]. *)
Theorem walk_up_throws chain :
  walk_up chain = inl TypeError <->
  exists pre post, chain = pre ++ ChainDocument :: post /\ Forall passed pre.
Proof.
  split.
  - induction chain as [|[id cl|] chain IH]; simpl; try discriminate.
    + destruct (contains cl COUNTRY_CLASS) eqn:E; [discriminate|].
      intros Hw. destruct (IH Hw) as (pre & post & -> & Hpre).
      exists (ChainElement id cl :: pre), post. auto.
    + intros _. exists [], chain. auto.
  - intros (pre & post & -> & Hpre). rewrite walk_up_app_passed by exact Hpre.
    reflexivity.
Qed.

(** The walk over a chain that passes elements of other classes and then
    meets an element of class [countryxx]. *)
Lemma walk_up_passed_country (nodes above : list ChainNode) id (classes : list string) :
  Forall passed nodes -> contains classes COUNTRY_CLASS = true ->
  walk_up (nodes ++ ChainElement id classes :: above) = inr (Some id).
Proof. intros Hp Hc. rewrite walk_up_app_passed by exact Hp. simpl. rewrite Hc. reflexivity. Qed.

(** The walk from an element of the tree below a country element. *)
Lemma walk_up_below (pg : Page) (p q : path) (sub : Element) :
  get (page_host pg) p = Some sub -> is_Some (get sub q) ->
  has_class COUNTRY_CLASS sub = true ->
  Forall (fun x => has_class COUNTRY_CLASS x = false) (below sub q) ->
  walk_up (parent_chain pg (p ++ q)) = inr (Some (el_id (el_data sub))).
Proof.
  intros Hp Hq Hc Hbelow. destruct (parent_chain_app pg p q sub Hp Hq) as [above ->].
  apply walk_up_passed_country; [apply Forall_fmap; exact Hbelow | exact Hc].
Qed.

(** C20: a click on an element inside a country element resolves to the
    nearest enclosing element of class [countryxx], whatever is above it in
    the page, unless the element clicked is the ocean. *)
Theorem resolve_target_nearest (pg : Page) (p q : path) (sub : Element) :
  get (page_host pg) p = Some sub -> is_Some (get sub q) ->
  has_class COUNTRY_CLASS sub = true ->
  Forall (fun x => has_class COUNTRY_CLASS x = false) (below sub q) ->
  is_ocean (parent_chain pg (p ++ q)) = false ->
  resolve_target (parent_chain pg (p ++ q)) = inr (Some (el_id (el_data sub))).
Proof.
  intros Hp Hq Hc Hbelow Hocean. unfold resolve_target. rewrite Hocean.
  apply walk_up_below; assumption.
Qed.

(** The walk on a chain with no document in it does not throw. *)
Lemma walk_up_no_document chain :
  ChainDocument ∉ chain -> exists r, walk_up chain = inr r.
Proof.
  induction chain as [|[id cl|] chain IH]; intros Hdoc; simpl; [eauto|..].
  - destruct (contains cl COUNTRY_CLASS); [eauto|].
    apply IH. intros Hin. apply Hdoc. right. exact Hin.
  - exfalso. apply Hdoc. left.
Qed.

(** A click on the ocean resolves to no element, whatever is above it. *)
Lemma resolve_target_ocean classes parents :
  resolve_target (ChainElement OCEAN_ID classes :: parents) = inr None.
Proof. reflexivity. Qed.

Lemma resolve_target_no_target : resolve_target [] = inr None.
Proof. reflexivity. Qed.

End WalkFacts.

(** In a well-formed object every key has its value: the pairs of a
    selection are the entries of the extra fields, in their order. *)
Lemma extra_pairs_entries (extra : CountryExtraData) :
  obj_wf extra ->
  extra_pairs extra
  = map (fun entry => {| se_key := fst entry; se_val := Some (snd entry) |}) extra.
Proof.
  intros Hwf. unfold extra_pairs, obj_keys. rewrite List.map_map.
  apply List.map_ext_in. intros [k v] Hin. simpl.
  rewrite (obj_get_In extra k v Hwf Hin). reflexivity.
Qed.

Lemma extra_pairs_length (extra : CountryExtraData) :
  length (extra_pairs extra) = length extra.
Proof. unfold extra_pairs, obj_keys. rewrite !length_map. reflexivity. Qed.
