(* ===== verification/Component.v ===== *)
(** * Component: the state of the map component and its methods

    [CountriesMapComponent] of [countries-map.component.ts]: its inputs
    (lines 52-63), outputs (65-67) and fields (69-74), the computed
    [selectionValue] (76-80), and the methods [getExtraSelected] (88-91),
    [selectCountry] (93-103), [initializeMap] (105-184), [onChartReady]
    (195-198), [onChartError] (200-202) and [onMapSelect] (204-234), in the
    monad of handlers of [Prelude].

    The outputs are a log of the events emitted, oldest first.  The effect
    of the constructor (82-86) is [run_effect]. *)

From stdpp Require Import gmap list strings.
From S2P Require Import Prelude JsNumber JsString DataTypes Normalizer Dom Render Selection.

Local Open Scope js_scope.

(** ** State *)

(** The inputs (lines 52-63).  [in_data] is [None] when the host binds
    [null] or [undefined]. *)
Record Inputs : Type := mkInputs {
  in_data : option CountriesData;
  countryLabel : string;
  valueLabel : string;
  showCaption : bool;
  captionBelow : bool;
  minValue : option number;
  maxValue : option number;
  palette : Palette
}.

(** The events emitted on the three outputs (lines 65-67). *)
Inductive Output : Type :=
| ChartReady
| ChartError (e : ChartErrorEvent)
| ChartSelect (e : ChartSelectEvent).

(** The fields (lines 69-74).  [mapContent] is [None] while the view child
    is not available. *)
Record Component : Type := mkComponent {
  inputs : Inputs;
  outputs : list Output;
  mapContent : option Page;
  loading : bool;
  selection : option Selection;
  mapData : gmap string DrawableCountry
}.

(** The defaults of the inputs and the initial values of the fields. *)
Definition default_inputs (data : option CountriesData) : Inputs :=
  {| in_data := data; countryLabel := "Country"; valueLabel := "Value";
     showCaption := true; captionBelow := true;
     minValue := None; maxValue := None; palette := default_palette |}.

Definition new_component (i : Inputs) (view : option Page) : Component :=
  {| inputs := i; outputs := []; mapContent := view; loading := true;
     selection := None; mapData := ∅ |}.

(** Setters of the fields. *)
Definition set_loading (b : bool) (c : Component) : Component :=
  {| inputs := inputs c; outputs := outputs c; mapContent := mapContent c;
     loading := b; selection := selection c; mapData := mapData c |}.

Definition set_selection (s : option Selection) (c : Component) : Component :=
  {| inputs := inputs c; outputs := outputs c; mapContent := mapContent c;
     loading := loading c; selection := s; mapData := mapData c |}.

Definition set_mapData (m : gmap string DrawableCountry) (c : Component) : Component :=
  {| inputs := inputs c; outputs := outputs c; mapContent := mapContent c;
     loading := loading c; selection := selection c; mapData := m |}.

Definition set_mapContent (v : option Page) (c : Component) : Component :=
  {| inputs := inputs c; outputs := outputs c; mapContent := v;
     loading := loading c; selection := selection c; mapData := mapData c |}.

Definition set_inputs (i : Inputs) (c : Component) : Component :=
  {| inputs := i; outputs := outputs c; mapContent := mapContent c;
     loading := loading c; selection := selection c; mapData := mapData c |}.

Definition set_outputs (os : list Output) (c : Component) : Component :=
  {| inputs := inputs c; outputs := os; mapContent := mapContent c;
     loading := loading c; selection := selection c; mapData := mapData c |}.

Definition emit (o : Output) (c : Component) : Component :=
  {| inputs := inputs c; outputs := outputs c ++ [o]; mapContent := mapContent c;
     loading := loading c; selection := selection c; mapData := mapData c |}.

Definition set_host (mapEl : Element) (pg : Page) : Page :=
  {| page_host := mapEl; page_outer := page_outer pg |}.

(** Methods are computations on the component that may throw. *)
Definition Method (A : Type) : Type := M Component Exception A.

(** Lifts a result that may be an exception. *)
Definition lift {A : Type} (r : Exception + A) : Method A :=
  match r with
  | inl e => throw e
  | inr a => ret a
  end.

Section Methods.
Context `{Rounding, NumberToString}.
(** [getName] of the package [country-list]. *)
Context (getName : string -> option string).

(** Lines 39-41. *)
Definition countryNameOf (countryCode : string) : string :=
  nullish (getName countryCode) countryCode.

(** ** [selectionValue] (lines 76-80)

    Reading a property of a [data] that is [null] throws. *)
Definition selectionValue (c : Component) : Exception + option ValidExtraData :=
  match selection c with
  | None => inr None
  | Some sel =>
      match in_data (inputs c) with
      | None => inl TypeError
      | Some data => inr (data_get data (countryId sel) ≫= cd_value)
      end
  end.

(** ** [getExtraSelected] (lines 88-91)

    The destructuring of line 89 throws when [data] has nothing under
    [country]. *)
Definition getExtraSelected (country : string) : Method (option (list SelectionExtra)) :=
  let! data := gets (fun c => in_data (inputs c)) in
  match data ≫= (fun data => data_get data country) with
  | None => throw TypeError
  | Some record => ret (extra_pairs <$> cd_extra record)
  end.

(** ** [selectCountry] (lines 93-103) *)
Definition selectCountry (country : option string) : Method unit :=
  match country with
  | Some country =>
      if string_truthy country then
        let! extra := getExtraSelected country in
        modify (set_selection
                  (Some {| countryId := country;
                           countryName := countryNameOf country;
                           sel_extra := extra |}))
      else modify (set_selection None)
  | None => modify (set_selection None)
  end.

(** ** [onChartReady] and [onChartError] (lines 195-202) *)
Definition onChartReady : Method unit :=
  do! modify (set_loading false) in
  modify (emit ChartReady).

Definition onChartError (error : ChartErrorEvent) : Method unit :=
  modify (emit (ChartError error)).

Definition loading_error : ChartErrorEvent :=
  {| err_id := ChartErrorCode_value Loading; err_message := "Could not load";
     err_detailedMessage := None |}.

(** ** [initializeMap] (lines 105-184)

    The view child is read before the [try]: when it is not available the
    method throws (the error NG0951 of the framework for a required view
    child).  Inside the [try], the resolved map is rebuilt from the
    inputs, then the tree is drawn; drawing throws when the host element
    has no child (line 155 reads a property of [undefined]).  Nothing
    else throws in the model: the reads of the inputs, the writes to the
    elements and the emission of the ready event return. *)
Definition initializeMap : Method unit :=
  do! modify (set_loading true) in
  let! view := gets mapContent in
  match view with
  | None => throw (RuntimeError "NG0951")
  | Some page =>
      let mapEl := page_host page in
      try_catch
        (let! i := gets inputs in
         do! modify (set_mapData (normalize (in_data i) (minValue i) (maxValue i))) in
         let! mapData := gets mapData in
         match render mapData (palette i) mapEl with
         | None => throw TypeError
         | Some mapEl' =>
             do! modify (set_mapContent (Some (set_host mapEl' page))) in
             onChartReady
         end)
        (fun _ => onChartError loading_error)
  end.

(** ** [onMapSelect] (lines 204-234)

    [target] is the target of the click followed by its ancestors; it is
    empty when the event has no target. *)
Definition onMapSelect (target : list ChainNode) : Method unit :=
  let! newItem :=
    if is_ocean target
    then do! selectCountry None in ret None
    else lift (walk_up target) in
  let! mapData := gets mapData in
  match newItem ≫= (fun id => (fun country => (id, country)) <$> mapData_get mapData id) with
  | Some (id, country) =>
      let event := selected_event id country in
      do! selectCountry (Some (ev_country event)) in
      modify (emit (ChartSelect event))
  | None =>
      do! selectCountry None in
      modify (emit (ChartSelect unselected_event))
  end.

(** ** The effect of the constructor *)

(** Lines 82-86: one run of the effect.  An exception that leaves
    [initializeMap] is reported by the framework; the fields keep the
    values they had at the throw. *)
Definition run_effect (c : Component) : Component :=
  final_state (initializeMap c).

End Methods.

(** * Specifications

    What the methods compute, by cases, without the monad. *)

Section Outcomes.
Context `{Rounding, NumberToString} (getName : string -> option string).
Implicit Types (c : Component) (page : Page).

(** The resolved map of the current inputs. *)
Definition resolved (c : Component) : gmap string DrawableCountry :=
  normalize (in_data (inputs c)) (minValue (inputs c)) (maxValue (inputs c)).

(** The state after a pass that drew the tree, and after one that found
    the host without a child. *)
Definition drawn_state c page svgMap : Component :=
  emit ChartReady
    (set_loading false
       (set_mapContent
          (Some (set_host (put [0] (draw (resolved c) (palette (inputs c)) svgMap)
                               (page_host page)) page))
          (set_mapData (resolved c) (set_loading true c)))).

Definition failed_state c : Component :=
  emit (ChartError loading_error) (set_mapData (resolved c) (set_loading true c)).

(** The outcome of a pass, by cases on the view child and on the first
    child of the host. *)
Definition initializeMap_outcome c : Outcome Component Exception unit :=
  match mapContent c with
  | None => Threw (RuntimeError "NG0951") (set_loading true c)
  | Some page =>
      match first_child (page_host page) with
      | Some svgMap => Returned tt (drawn_state c page svgMap)
      | None => Returned tt (failed_state c)
      end
  end.

(** The selection a country gets. *)
Definition selection_of (country : string) (record : CountryData) : Selection :=
  {| countryId := country; countryName := countryNameOf getName country;
     sel_extra := extra_pairs <$> cd_extra record |}.

(** The element a click resolves to and what the resolved map has under
    its id, when it has something. *)
Definition clicked (c : Component) (target : list ChainNode)
  : Exception + option (string * DrawableCountry) :=
  match resolve_target target with
  | inl e => inl e
  | inr newItem =>
      inr (newItem ≫= fun id => (fun country => (id, country)) <$> mapData_get (mapData c) id)
  end.

(** The outcome of a click, by cases on what it resolves to. *)
Definition onMapSelect_outcome (c : Component) (target : list ChainNode)
  : Outcome Component Exception unit :=
  match clicked c target with
  | inl e => Threw e c
  | inr None => Returned tt (emit (ChartSelect unselected_event) (set_selection None c))
  | inr (Some (id, country)) =>
      let event := ChartSelect (selected_event id country) in
      if string_truthy (toUpperCase id) then
        match in_data (inputs c) ≫= (fun data => obj_get data (toUpperCase id)) with
        | Some record =>
            Returned tt
              (emit event (set_selection (Some (selection_of (toUpperCase id) record)) c))
        | None => Threw TypeError c
        end
      else Returned tt (emit event (set_selection None c))
  end.

(** The state of the selection, as the contract of [Selection] sees it. *)
Definition sel_state (c : Component) : SelState :=
  match selection c with
  | Some sel => Selected (countryId sel)
  | None => Unselected
  end.

(** [selectCountry] writes the selection only. *)
Definition same_but_selection (c c' : Component) : Prop :=
  inputs c' = inputs c /\ mapData c' = mapData c /\ mapContent c' = mapContent c
  /\ loading c' = loading c /\ outputs c' = outputs c.

End Outcomes.

(** * Theorems *)

(** Unfolds the monad in a goal about a method. *)
Ltac run_method :=
  unfold lift; unfold bind, gets, modify, ret, throw, try_catch, final_state, returned;
  cbn beta iota.

Section InitializeOutcome.
Context `{Rounding, NumberToString}.
Implicit Types (c : Component).

Lemma initializeMap_eq c : initializeMap c = initializeMap_outcome c.
Proof.
  unfold initializeMap, initializeMap_outcome, onChartReady, onChartError.
  run_method. simpl. destruct (mapContent c) as [page|]; [|reflexivity].
  cbn beta iota. simpl.
  destruct (first_child (page_host page)) as [svgMap|] eqn:Hchild.
  - rewrite (render_Some _ _ _ svgMap Hchild). reflexivity.
  - rewrite (render_None _ _ _ Hchild). reflexivity.
Qed.

End InitializeOutcome.

(** Rewrites a pass to its outcome and splits the cases. *)
Ltac pass_cases c :=
  rewrite ?(initializeMap_eq c); unfold initializeMap_outcome;
  let page := fresh "page" in
  let svgMap := fresh "svgMap" in
  destruct (mapContent c) as [page|] eqn:Hview;
    [destruct (first_child (page_host page)) as [svgMap|] eqn:Hchild|].

Section InitializeFacts.
Context `{Rounding, NumberToString}.
Implicit Types (c : Component) (page : Page).

(** C12: a pass on a host that has a child returns with the resolved map
    rebuilt from the inputs, the tree drawn, the loading flag cleared and
    the ready event emitted. *)
Theorem initializeMap_ready c page svgMap :
  mapContent c = Some page -> first_child (page_host page) = Some svgMap ->
  initializeMap c = Returned tt (drawn_state c page svgMap).
Proof.
  intros Hview Hchild. rewrite initializeMap_eq. unfold initializeMap_outcome.
  rewrite Hview, Hchild. reflexivity.
Qed.

(** C13: a pass on a host without a child catches the exception, emits the
    loading error and leaves the loading flag set. *)
Theorem initializeMap_error c page :
  mapContent c = Some page -> first_child (page_host page) = None ->
  initializeMap c = Returned tt (failed_state c).
Proof.
  intros Hview Hchild. rewrite initializeMap_eq. unfold initializeMap_outcome.
  rewrite Hview, Hchild. reflexivity.
Qed.

(** C31: without a view child the pass throws before the [try]: nothing
    catches the exception, no event is emitted and the flag stays set. *)
Theorem initializeMap_no_view c :
  mapContent c = None ->
  initializeMap c = Threw (RuntimeError "NG0951") (set_loading true c).
Proof.
  intros Hview. rewrite initializeMap_eq. unfold initializeMap_outcome.
  rewrite Hview. reflexivity.
Qed.

(** C16: with a view child [initializeMap] never throws and never ends in
    silence: it returns having emitted exactly one event, the ready event
    with the loading flag cleared when the host element has a child, and
    otherwise the loading error of line 182 with the flag left set: the
    exception of the drawing is caught and reported on the error output. *)
Theorem initializeMap_returns c page :
  mapContent c = Some page ->
  exists c' o,
    initializeMap c = Returned tt c' /\ outputs c' = outputs c ++ [o]
    /\ (is_Some (first_child (page_host page)) /\ o = ChartReady /\ loading c' = false
        \/ first_child (page_host page) = None /\ o = ChartError loading_error
           /\ loading c' = true).
Proof.
  intros Hv. rewrite initializeMap_eq. unfold initializeMap_outcome. rewrite Hv.
  destruct (first_child (page_host page)) as [svgMap|] eqn:Hc; do 2 eexists;
    (split; [reflexivity|]); (split; [reflexivity|]); [left | right]; eauto 6.
Qed.

(** The flag is cleared by a pass exactly when the pass succeeds. *)
Theorem run_effect_loading c :
  loading (run_effect c) = false <->
  exists page svgMap, mapContent c = Some page /\ first_child (page_host page) = Some svgMap.
Proof.
  unfold run_effect. pass_cases c; simpl.
  - split; eauto.
  - split; [discriminate|]. intros (page' & svgMap & [= <-] & Hc'). congruence.
  - split; [discriminate|]. intros (page' & svgMap & Hp & _). discriminate.
Qed.

(** After a pass with a view child, the resolved map is the one of the
    inputs, whatever it held before. *)
Lemma run_effect_mapData c :
  mapContent c <> None -> mapData (run_effect c) = resolved c.
Proof. intros Hv. unfold run_effect. pass_cases c; [reflexivity..|contradiction]. Qed.

(** What a pass leaves alone: the inputs and the selection. *)
Lemma run_effect_frame c :
  inputs (run_effect c) = inputs c /\ selection (run_effect c) = selection c
  /\ (mapContent c = None -> mapContent (run_effect c) = None /\ mapData (run_effect c) = mapData c)
  /\ (mapContent c <> None -> mapContent (run_effect c) <> None).
Proof.
  unfold run_effect. pass_cases c; simpl;
    repeat split; solve [discriminate | congruence].
Qed.

End InitializeFacts.

Section SelectFacts.
Context `{Rounding, NumberToString} (getName : string -> option string).
Implicit Types (c : Component) (target : list ChainNode) (id : string).

Lemma toUpperCase_truthy id : id <> ""%string -> string_truthy (toUpperCase id) = true.
Proof. destruct id; [congruence | reflexivity]. Qed.

Lemma selectCountry_None c :
  selectCountry getName None c = Returned tt (set_selection None c).
Proof. reflexivity. Qed.

Lemma selectCountry_Some c (country : string) (data : CountriesData) (record : CountryData) :
  string_truthy country = true ->
  in_data (inputs c) = Some data -> obj_get data country = Some record ->
  selectCountry getName (Some country) c
  = Returned tt (set_selection (Some (selection_of getName country record)) c).
Proof.
  intros Ht Hd Hr. unfold selectCountry, getExtraSelected. rewrite Ht. run_method.
  rewrite Hd. simpl. unfold data_get. rewrite Hr. reflexivity.
Qed.

Lemma selectCountry_throws c (country : string) :
  string_truthy country = true ->
  in_data (inputs c) ≫= (fun data => data_get data country) = None ->
  selectCountry getName (Some country) c = Threw TypeError c.
Proof.
  intros Ht Hd. unfold selectCountry, getExtraSelected. rewrite Ht. run_method.
  rewrite Hd. reflexivity.
Qed.

(** Under an upper-cased key the data is read as it is held. *)
Lemma data_upper_case (data : option CountriesData) id :
  data ≫= (fun data => data_get data (toUpperCase id))
  = data ≫= (fun data => obj_get data (toUpperCase id)).
Proof. destruct data; [apply data_get_toUpperCase | reflexivity]. Qed.

(** The handler computes the outcome of the table. *)
Lemma onMapSelect_eq c target :
  onMapSelect getName target c = onMapSelect_outcome getName c target.
Proof.
  unfold onMapSelect_outcome, clicked, resolve_target, onMapSelect. run_method.
  destruct (is_ocean target); [rewrite !selectCountry_None; reflexivity|].
  destruct (walk_up target) as [e|newItem]; [reflexivity|]. cbn beta iota.
  destruct (newItem ≫= (fun id => (fun country => (id, country)) <$> mapData_get (mapData c) id))
    as [[id country]|]; [|rewrite selectCountry_None; reflexivity]. cbn beta iota zeta.
  change (ev_country (selected_event id country)) with (toUpperCase id).
  unfold selectCountry, getExtraSelected. run_method.
  destruct (string_truthy (toUpperCase id)); [|reflexivity].
  rewrite data_upper_case.
  destruct (in_data (inputs c) ≫= (fun data => obj_get data (toUpperCase id)));
    reflexivity.
Qed.

(** C11: a click that resolves to the ocean, to no element, or to a country
    without a record clears the selection and emits the unselected event. *)
Theorem onMapSelect_unselect c target :
  clicked c target = inr None ->
  onMapSelect getName target c
  = Returned tt (emit (ChartSelect unselected_event) (set_selection None c)).
Proof. intros Hc. rewrite onMapSelect_eq. unfold onMapSelect_outcome. rewrite Hc. reflexivity. Qed.

(** C10: a click that resolves to a country with a record under a non-empty
    id, whose upper-cased id is a key of the data, selects the country and
    emits the selected event. *)
Theorem onMapSelect_select c target id (country : DrawableCountry)
    (data : CountriesData) (record : CountryData) :
  clicked c target = inr (Some (id, country)) -> id <> ""%string ->
  in_data (inputs c) = Some data -> obj_get data (toUpperCase id) = Some record ->
  onMapSelect getName target c
  = Returned tt
      (emit (ChartSelect (selected_event id country))
         (set_selection (Some (selection_of getName (toUpperCase id) record)) c)).
Proof.
  intros Hc Hid Hd Hr. rewrite onMapSelect_eq. unfold onMapSelect_outcome.
  rewrite Hc, Hd, (toUpperCase_truthy id Hid). simpl. rewrite Hr. reflexivity.
Qed.

(** C7: a click that returns implements the contract of the selection: the
    state moves to the country the click resolves to, or to unselected, and
    the event of the contract is the one event emitted. *)
Theorem onMapSelect_refines c target (r : option (string * DrawableCountry)) :
  clicked c target = inr r -> (forall country, r <> Some (""%string, country)) ->
  returned (onMapSelect getName target c) = true ->
  sel_state (final_state (onMapSelect getName target c)) = click_state r
  /\ outputs (final_state (onMapSelect getName target c))
     = outputs c ++ [ChartSelect (click_event r)].
Proof.
  intros Hc Hne. rewrite onMapSelect_eq. unfold onMapSelect_outcome. rewrite Hc.
  destruct r as [[id country]|]; [|split; reflexivity]. cbn zeta.
  rewrite toUpperCase_truthy by (intros ->; exact (Hne country eq_refl)).
  destruct (in_data (inputs c) ≫= (fun data => obj_get data (toUpperCase id)));
    [split; reflexivity | discriminate].
Qed.

(** After a click that selects a country, [selectionValue] is the
    value of the record of the current data under the upper-cased id of
    the element. *)
Theorem selectionValue_selected c target id (country : DrawableCountry)
    (data : CountriesData) (record : CountryData) :
  clicked c target = inr (Some (id, country)) -> id <> ""%string ->
  in_data (inputs c) = Some data -> obj_get data (toUpperCase id) = Some record ->
  selectionValue (final_state (onMapSelect getName target c)) = inr (cd_value record).
Proof.
  intros Hc Hid Hd Hr. rewrite onMapSelect_eq. unfold onMapSelect_outcome.
  rewrite Hc, Hd, (toUpperCase_truthy id Hid). simpl. rewrite Hr.
  unfold selectionValue. simpl. rewrite Hd, data_get_toUpperCase, Hr. reflexivity.
Qed.

(** With a selection and a data that is [null], reading the value throws. *)
Lemma selectionValue_null_data c (sel : Selection) :
  selection c = Some sel -> in_data (inputs c) = None -> selectionValue c = inl TypeError.
Proof. unfold selectionValue. intros -> ->. reflexivity. Qed.

(** When the upper-cased id is not a key of the data, the click throws:
    no event is emitted and the selection is not changed. *)
Theorem onMapSelect_throws_key c target id (country : DrawableCountry) :
  clicked c target = inr (Some (id, country)) -> id <> ""%string ->
  in_data (inputs c) ≫= (fun data => obj_get data (toUpperCase id)) = None ->
  onMapSelect getName target c = Threw TypeError c.
Proof.
  intros Hc Hid Hd. rewrite onMapSelect_eq. unfold onMapSelect_outcome.
  rewrite Hc, Hd, (toUpperCase_truthy id Hid). reflexivity.
Qed.

(** C28: the exceptions of a click, all of them: [onMapSelect] throws when the
    walk up the ancestors throws, with that exception, and when the click
    resolves to an element that has a record under a non-empty id while
    the data has none under the upper-cased id, with a [TypeError], and in
    no other case; no event is emitted then and no field is written. *)
Theorem onMapSelect_throws c target (e : Exception) (c' : Component) :
  onMapSelect getName target c = Threw e c' <->
  c' = c
  /\ (clicked c target = inl e
      \/ e = TypeError
         /\ exists id country,
              clicked c target = inr (Some (id, country)) /\ id <> ""%string
              /\ in_data (inputs c) ≫= (fun data => obj_get data (toUpperCase id)) = None).
Proof.
  rewrite onMapSelect_eq. unfold onMapSelect_outcome.
  destruct (clicked c target) as [e0|[[id country]|]]; cbn zeta.
  - split; [intros [= <- <-]; auto|].
    intros [-> [[= ->]|(_ & id & country & [=] & _)]]. reflexivity.
  - destruct id as [|a id]; [cbn [toUpperCase map_string string_truthy]|].
    + split; [discriminate|].
      intros [_ [[=]|(_ & id & country' & [= <- _] & Hid & _)]]. contradiction.
    + rewrite toUpperCase_truthy by discriminate.
      destruct (in_data (inputs c) ≫= (fun data => obj_get data (toUpperCase (String a id))))
        as [record|] eqn:Hd.
      * split; [discriminate|].
        intros [_ [[=]|(_ & id' & country' & [= <- _] & _ & Hd')]]. congruence.
      * split; [intros [= <- <-]|intros [-> [[=]|[-> _]]]; reflexivity].
        split; [reflexivity|]. right. split; [reflexivity|].
        exists (String a id), country. repeat split; [discriminate | exact Hd].
  - split; [discriminate|]. intros [_ [[=]|(_ & id & country & [=] & _)]].
Qed.

(** An id that names a member of the prototype always finds something in
    the resolved map. *)
Lemma clicked_inherited c target id :
  resolve_target target = inr (Some id) -> inherited id = true ->
  exists country, clicked c target = inr (Some (id, country)).
Proof.
  intros Ht Hid. unfold clicked. rewrite Ht. simpl.
  unfold mapData_get, own_or_inherited. rewrite Hid.
  destruct (mapData c !! id); eauto.
Qed.

(** C30: a click on an element whose id names a member of [Object.prototype]
    takes that member for the record of a country: unless the data has a
    record under the upper-cased id, the click throws, no event is emitted
    and the selection is not changed. *)
Theorem onMapSelect_inherited_id c target id :
  resolve_target target = inr (Some id) -> inherited id = true ->
  in_data (inputs c) ≫= (fun data => obj_get data (toUpperCase id)) = None ->
  onMapSelect getName target c = Threw TypeError c.
Proof.
  intros Ht Hid Hd. destruct (clicked_inherited c target id Ht Hid) as [country Hc].
  rewrite onMapSelect_eq. unfold onMapSelect_outcome. rewrite Hc, Hd.
  rewrite toUpperCase_truthy by (intros ->; discriminate Hid). reflexivity.
Qed.

(** When the data has such a record, the country is selected, and the
    event carries the value and the extra of the member, not of the
    record: [NaN] and none. *)
Theorem onMapSelect_inherited_select c target id
    (data : CountriesData) (record : CountryData) :
  resolve_target target = inr (Some id) -> inherited id = true ->
  mapData c !! id = None ->
  in_data (inputs c) = Some data -> obj_get data (toUpperCase id) = Some record ->
  onMapSelect getName target c
  = Returned tt
      (emit (ChartSelect {| ev_selected := true; ev_value := Some NaN;
                            ev_country := toUpperCase id; ev_extra := None |})
         (set_selection (Some (selection_of getName (toUpperCase id) record)) c)).
Proof.
  intros Ht Hid Hown Hd Hr. rewrite onMapSelect_eq. unfold onMapSelect_outcome, clicked.
  rewrite Ht. simpl. rewrite (mapData_get_inherited _ _ Hown Hid), Hd. simpl.
  rewrite toUpperCase_truthy by (intros ->; discriminate Hid). rewrite Hr. reflexivity.
Qed.

(** A click whose walk up the ancestors throws leaves [onMapSelect]
    by that exception: no event is emitted and no field is written. *)
Theorem onMapSelect_throws_walk c target (e : Exception) :
  clicked c target = inl e -> onMapSelect getName target c = Threw e c.
Proof. intros Hc. rewrite onMapSelect_eq. unfold onMapSelect_outcome. rewrite Hc. reflexivity. Qed.

(** A click on an element whose id is empty and has a record emits a
    selected event and clears the selection. *)
Theorem onMapSelect_empty_id c target (country : DrawableCountry) :
  clicked c target = inr (Some (""%string, country)) ->
  onMapSelect getName target c
  = Returned tt (emit (ChartSelect (selected_event "" country)) (set_selection None c)).
Proof. intros Hc. rewrite onMapSelect_eq. unfold onMapSelect_outcome. rewrite Hc. reflexivity. Qed.

Lemma selectCountry_frame c (country : option string) :
  same_but_selection c (final_state (selectCountry getName country c)).
Proof.
  unfold same_but_selection, selectCountry, getExtraSelected.
  destruct country as [country|]; [destruct (string_truthy country)|]; run_method;
    [|simpl; tauto..].
  destruct (in_data (inputs c) ≫= (fun data => data_get data country)); simpl; tauto.
Qed.

(** A click writes the selection and the log of events only, and the log
    grows by at most one select event. *)
Lemma onMapSelect_frame c target :
  let c' := final_state (onMapSelect getName target c) in
  same_but_selection c (set_outputs (outputs c) c')
  /\ (outputs c' = outputs c \/ exists e, outputs c' = outputs c ++ [ChartSelect e]).
Proof.
  cbv zeta. rewrite onMapSelect_eq. unfold onMapSelect_outcome, same_but_selection.
  repeat case_match; simpl; repeat split; eauto.
Qed.

(** The selection after a click: cleared, kept, or the one of a country
    under a non-empty upper-cased id. *)
Lemma onMapSelect_selection c target :
  let c' := final_state (onMapSelect getName target c) in
  selection c' = None \/ selection c' = selection c
  \/ exists id record, string_truthy (toUpperCase id) = true
       /\ selection c' = Some (selection_of getName (toUpperCase id) record).
Proof.
  cbv zeta. rewrite onMapSelect_eq. unfold onMapSelect_outcome.
  repeat case_match; simpl; eauto 7.
Qed.

End SelectFacts.
