(* ===== verification/Machine.v ===== *)
(** * Machine: the component as a state machine, and its invariants

    What the host and the pointer can cause on a mounted
    [CountriesMapComponent] ([Event]) and what the component does then
    ([step]): a change of the inputs re-runs the effect of the constructor,
    a click runs [onMapSelect], the mouse runs the handlers that the drawing
    pass installed.  [reachable] is the set of states the component can be
    in.

    The invariants of the reachable states: the resolved map is the one of
    the current inputs whenever the view exists, the colours and handlers
    of the tree are those of the resolved map, a selection carries a
    non-empty upper-cased id, and the log of emitted events only grows. *)

From stdpp Require Import gmap list strings.
From S2P Require Import Prelude JsNumber JsString DataTypes Normalizer Dom Render Selection Component.

Local Open Scope js_scope.

Section Machine.
Context `{Rounding, NumberToString}.
(** [getName] of the package [country-list]. *)
Context (getName : string -> option string).

(** ** Events and steps *)

(** What can happen to a mounted component. *)
Inductive Event : Type :=
| InputsChange (i : Inputs)       (* the host binds inputs the effect reads *)
| CaptionChange (countryLabel valueLabel : string) (showCaption captionBelow : bool)
| ViewInit (page : Page)          (* the view child becomes available *)
| Click (target : option path)    (* a click on an element of the host's tree *)
| MouseEnter (item : path)
| MouseLeave (item : path)
| LoadingChange (b : bool).       (* the host writes the two-way bound flag *)

(** The inputs that [initializeMap] does not read: the effect does not run
    when they change. *)
Definition set_caption (label value : string) (show below : bool) (i : Inputs) : Inputs :=
  {| in_data := in_data i; countryLabel := label; valueLabel := value;
     showCaption := show; captionBelow := below;
     minValue := minValue i; maxValue := maxValue i; palette := palette i |}.

Definition click_chain (c : Component) (target : option path) : list ChainNode :=
  match target, mapContent c with
  | Some p, Some page => parent_chain page p
  | _, _ => []
  end.

Definition on_tree (f : Element -> Element) (c : Component) : Component :=
  match mapContent c with
  | Some page => set_mapContent (Some (set_host (f (page_host page)) page)) c
  | None => c
  end.

Definition step (c : Component) (ev : Event) : Component :=
  match ev with
  | InputsChange i => run_effect (set_inputs i c)
  | CaptionChange label value show below =>
      set_inputs (set_caption label value show below (inputs c)) c
  | ViewInit page => run_effect (set_mapContent (Some page) c)
  | Click target => final_state (onMapSelect getName (click_chain c target) c)
  | MouseEnter item => on_tree (mouseenter item) c
  | MouseLeave item => on_tree (mouseleave item) c
  | LoadingChange b => set_loading b c
  end.

Definition run (c : Component) (evs : list Event) : Component :=
  fold_left step evs c.

End Machine.

(** The states a component can be in: the initial one and those a step
    leads to. *)
Inductive reachable `{Rounding, NumberToString} (getName : string -> option string)
    : Component -> Prop :=
| reachable_new (i : Inputs) :
    reachable getName (new_component i None)
| reachable_step (c : Component) (ev : Event) :
    reachable getName c -> reachable getName (step getName c ev).

Section Invariants.
Context `{Rounding, NumberToString} (getName : string -> option string).
Implicit Types (c : Component) (ev : Event) (page : Page) (p : path) (d : ElementData).

(** ** The invariants *)

(** The resolved map is the one of the inputs when the view exists, and
    empty before. *)
Definition view_consistent c : Prop :=
  match mapContent c with
  | Some _ => mapData c = resolved c
  | None => mapData c = ∅
  end.

(** A selection carries the upper-cased id of an element, which is not
    empty, and the name of that id. *)
Definition selection_ok c : Prop :=
  forall sel, selection c = Some sel ->
    string_truthy (countryId sel) = true
    /\ (exists id, countryId sel = toUpperCase id)
    /\ countryName sel = countryNameOf getName (countryId sel).

(** The map has the background of the palette, and an element of the map
    that is of class [countryxx] is filled by the policy for its id and
    carries the two hover handlers.  The map is the first child of the
    host; its elements are at the paths [0 :: p]. *)
Definition painted_with (mapData : gmap string DrawableCountry) (pal : Palette)
    (host : Element) : Prop :=
  (forall d, data_at host [0] = Some d ->
     backgroundColor (style d) = Some (paletteBackground pal))
  /\ forall p d, p <> [] -> data_at host (0 :: p) = Some d ->
       contains (classList d) COUNTRY_CLASS = true ->
       fill (style d) = Some (fill_for mapData pal (el_id d))
       /\ onmouseenter d = Some (CountryHover true)
       /\ onmouseleave d = Some (CountryHover false).

(** The ids of the data are in upper case, as the click looks them up. *)
Definition upper_keyed (i : Inputs) : Prop :=
  match in_data i with
  | Some data => List.Forall (fun k => toUpperCase k = k) (obj_keys data)
  | None => True
  end.

(** A page in a document: above the host there are elements of other
    classes, and then the document. *)
Definition attached (page : Page) : Prop :=
  exists outer rest,
    page_outer page = outer ++ ChainDocument :: rest /\ Forall passed outer.

Definition painted c : Prop :=
  forall page, mapContent c = Some page ->
    painted_with (mapData c) (palette (inputs c)) (page_host page).

Record invariant c : Prop := mkInvariant {
  inv_view : view_consistent c;
  inv_selection : selection_ok c;
  inv_painted : painted c
}.

End Invariants.

(** * Theorems *)

(** ** The tree after a pass and after a hover *)

Section PaintedFacts.
Context `{Rounding, NumberToString}.
Implicit Types (mapData : gmap string DrawableCountry) (pal : Palette).
Implicit Types (host svgMap : Element) (p : path) (d : ElementData).

Lemma data_at_put_child host svgMap sub p :
  first_child host = Some svgMap -> data_at (put [0] sub host) (0 :: p) = data_at sub p.
Proof.
  intros Hc. symmetry. apply (data_at_app _ [0]), get_put_eq.
  rewrite get_cons. fold (first_child host). rewrite Hc. simpl. eauto.
Qed.

Lemma put_first_child host svgMap : first_child host = Some svgMap -> put [0] svgMap host = host.
Proof.
  destruct host as [d [|x cs]]; unfold first_child; simpl; [discriminate|].
  intros [= ->]. reflexivity.
Qed.

Lemma data_at_first_child host svgMap (p : path) :
  first_child host = Some svgMap -> data_at host (0 :: p) = data_at svgMap p.
Proof.
  intros Hc. symmetry. apply (data_at_app host [0]). rewrite get_cons.
  fold (first_child host). rewrite Hc. reflexivity.
Qed.

Lemma data_at_no_child host p : first_child host = None -> data_at host (0 :: p) = None.
Proof. destruct host as [d cs]. unfold first_child. simpl. rewrite data_at_cons. now intros ->. Qed.

(** A pass paints the map on the host. *)
Lemma painted_with_draw mapData pal host svgMap :
  first_child host = Some svgMap ->
  painted_with mapData pal (put [0] (draw mapData pal svgMap) host).
Proof.
  intros Hc. split.
  - intros d. rewrite (data_at_put_child host svgMap _ [] Hc), data_at_nil, draw_root.
    intros [= <-]. reflexivity.
  - intros p d Hne. rewrite (data_at_put_child host svgMap _ p Hc), data_at_draw.
    rewrite decide_False by exact Hne. unfold paint_if_country.
    destruct (data_at svgMap p) as [d0|]; [simpl|discriminate].
    destruct (contains (classList d0) COUNTRY_CLASS) eqn:E; intros [= <-]; [auto|congruence].
Qed.

Lemma painted_with_no_child mapData pal host :
  first_child host = None -> painted_with mapData pal host.
Proof.
  intros Hc. split; [intros d | intros p d _];
    rewrite (data_at_no_child host _ Hc); discriminate.
Qed.

(** Writing the stroke keeps the map painted. *)
Lemma painted_with_stroke mapData pal host host' :
  (forall p d', data_at host' p = Some d' ->
     exists d, data_at host p = Some d /\ same_but_stroke d d') ->
  painted_with mapData pal host -> painted_with mapData pal host'.
Proof.
  intros Hfrom [Hb Hp]. split.
  - intros d' Hd'. destruct (Hfrom _ _ Hd') as (d & Hd & _ & _ & _ & Hbg & _).
    rewrite <- Hbg. apply (Hb d Hd).
  - intros p d' Hne Hd' Hc.
    destruct (Hfrom _ _ Hd') as (d & Hd & Hid & Hcl & Hfill & _ & Hen & Hle).
    rewrite <- Hid, <- Hfill, <- Hen, <- Hle. apply (Hp p d Hne Hd). congruence.
Qed.

End PaintedFacts.

(** ** Every step keeps the invariant *)

Section StepFacts.
Context `{Rounding, NumberToString} (getName : string -> option string).
Implicit Types (c : Component) (ev : Event) (page : Page).

Lemma invariant_new (i : Inputs) : invariant getName (new_component i None).
Proof. split; [reflexivity | intros sel | intros page]; discriminate. Qed.

(** The invariant reads the inputs that [initializeMap] reads, the view,
    the resolved map and the selection. *)
Lemma invariant_ext c c' :
  in_data (inputs c') = in_data (inputs c) -> minValue (inputs c') = minValue (inputs c) ->
  maxValue (inputs c') = maxValue (inputs c) -> palette (inputs c') = palette (inputs c) ->
  mapContent c' = mapContent c -> mapData c' = mapData c -> selection c' = selection c ->
  invariant getName c -> invariant getName c'.
Proof.
  intros Hd Hmn Hmx Hpal Hv Hm Hs [Iv Is Ip].
  split; unfold view_consistent, selection_ok, painted, resolved in *.
  - rewrite Hv, Hm, Hd, Hmn, Hmx. exact Iv.
  - rewrite Hs. exact Is.
  - rewrite Hv, Hm, Hpal. exact Ip.
Qed.

(** A pass establishes the first and the third invariant and keeps the
    second. *)
Lemma run_effect_invariant c :
  (mapContent c = None -> mapData c = ∅) -> selection_ok getName c ->
  invariant getName (run_effect c).
Proof.
  intros Hnv Hs. unfold run_effect. pass_cases c; simpl;
    (split; [unfold view_consistent; simpl; rewrite ?Hview; auto | exact Hs |]);
    intros page'; simpl; rewrite ?Hview; intros [= <-]; simpl.
  - apply painted_with_draw. assumption.
  - apply painted_with_no_child. assumption.
Qed.

(** A click keeps the tree and the resolved map; the selection it writes
    is well formed. *)
Lemma onMapSelect_invariant c (target : list ChainNode) :
  invariant getName c -> invariant getName (final_state (onMapSelect getName target c)).
Proof.
  intros Hinv.
  destruct (onMapSelect_frame getName c target) as [(Hi & Hm & Hv & _) _].
  pose proof (onMapSelect_selection getName c target) as Hsel. simpl in *.
  destruct Hinv as [Iv Is Ip].
  split; unfold view_consistent, selection_ok, painted, resolved in *.
  - rewrite Hv, Hm, Hi. exact Iv.
  - intros sel Hs. destruct Hsel as [E|[E|(id & record & Ht & E)]];
      rewrite E in Hs; [discriminate | auto |].
    injection Hs as <-. simpl. eauto.
  - rewrite Hv, Hm, Hi. exact Ip.
Qed.

(** A handler that writes the stroke keeps the invariant. *)
Lemma on_tree_invariant (f : Element -> Element) c :
  (forall tree p d', data_at (f tree) p = Some d' ->
     exists d, data_at tree p = Some d /\ same_but_stroke d d') ->
  invariant getName c -> invariant getName (on_tree f c).
Proof.
  intros Hf [Iv Is Ip]. unfold on_tree.
  destruct (mapContent c) as [page|] eqn:Hv; [|split; assumption].
  split; unfold view_consistent, selection_ok, painted in *; simpl.
  - rewrite Hv in Iv. exact Iv.
  - exact Is.
  - intros page' [= <-]. simpl. eapply painted_with_stroke; [apply Hf|]. apply Ip, Hv.
Qed.

Lemma step_invariant c ev : invariant getName c -> invariant getName (step getName c ev).
Proof.
  intros Hinv. destruct ev; simpl.
  - apply run_effect_invariant; [|apply Hinv].
    destruct Hinv as [Iv _ _]. unfold view_consistent in Iv. simpl.
    intros Hv. rewrite Hv in Iv. exact Iv.
  - revert Hinv. apply invariant_ext; reflexivity.
  - apply run_effect_invariant; [discriminate | apply Hinv].
  - apply onMapSelect_invariant, Hinv.
  - apply on_tree_invariant; [apply mouseenter_from | exact Hinv].
  - apply on_tree_invariant; [apply mouseleave_from | exact Hinv].
  - revert Hinv. apply invariant_ext; reflexivity.
Qed.

Lemma reachable_invariant c : reachable getName c -> invariant getName c.
Proof. induction 1; auto using invariant_new, step_invariant. Qed.

Lemma run_reachable c (evs : list Event) :
  reachable getName c -> reachable getName (run getName c evs).
Proof.
  revert c; induction evs as [|ev evs IH]; intros c Hc; simpl; [exact Hc|].
  apply IH. constructor. exact Hc.
Qed.

End StepFacts.

(** ** The reachable states *)

Section ReachableFacts.
Context `{Rounding, NumberToString} (getName : string -> option string).
Implicit Types (c : Component) (ev : Event) (page : Page) (p : path) (d : ElementData).

(** C24: in every reachable state the resolved map is the one of the current
    inputs when the view exists, and empty before. *)
Theorem reachable_mapData c :
  reachable getName c ->
  mapData c = match mapContent c with Some _ => resolved c | None => ∅ end.
Proof.
  intros Hr. destruct (reachable_invariant getName c Hr) as [Iv _ _].
  unfold view_consistent in Iv. destruct (mapContent c); exact Iv.
Qed.

(** C6: in every reachable state, every element of class [countryxx] of the
    map on screen is filled by the policy for its id under the resolved map
    of the current inputs, and carries the two hover handlers, whatever
    passes, hovers and clicks came before. *)
Theorem reachable_painted c page p d :
  reachable getName c -> mapContent c = Some page -> p <> [] ->
  data_at (page_host page) (0 :: p) = Some d ->
  contains (classList d) COUNTRY_CLASS = true ->
  fill (style d) = Some (fill_for (resolved c) (palette (inputs c)) (el_id d))
  /\ onmouseenter d = Some (CountryHover true)
  /\ onmouseleave d = Some (CountryHover false).
Proof.
  intros Hr Hv Hne Hd Hc. destruct (reachable_invariant getName c Hr) as [Iv _ Ip].
  unfold view_consistent in Iv. rewrite Hv in Iv. rewrite <- Iv.
  exact (proj2 (Ip page Hv) p d Hne Hd Hc).
Qed.

(** Every key of the resolved map is in lower case. *)
Lemma reachable_keys_lower c (k : string) :
  reachable getName c -> is_Some (mapData c !! k) -> is_lower_case k = true.
Proof.
  intros Hr [m Hk]. destruct (reachable_invariant getName c Hr) as [Iv _ _].
  unfold view_consistent, resolved in Iv.
  destruct (mapContent c); rewrite Iv in Hk; [|rewrite lookup_empty in Hk; discriminate].
  apply normalize_Some in Hk as (data0 & id & v & _ & _ & <- & _). auto with js.
Qed.

(** C29: an element whose id is not in lower case is never selected: in
    every reachable state a click that resolves to it unselects, although
    the drawing pass looks its record up in lower case and paints it.  The
    ids that name a member of the prototype are apart: they find the
    member. *)
Theorem onMapSelect_upper_case_id c (target : list ChainNode) (id : string) :
  reachable getName c -> resolve_target target = inr (Some id) ->
  is_lower_case id = false -> inherited id = false ->
  onMapSelect getName target c
  = Returned tt (emit (ChartSelect unselected_event) (set_selection None c)).
Proof.
  intros Hr Ht Hid Hin. rewrite onMapSelect_eq. unfold onMapSelect_outcome, clicked.
  rewrite Ht. simpl. rewrite (mapData_get_absent _ _ Hin).
  destruct (mapData c !! id) as [m|] eqn:E; [|reflexivity].
  rewrite (reachable_keys_lower c id Hr) in Hid by eauto. discriminate.
Qed.

(** In every reachable state whose scale is defined (the bounds given
    are numbers and the range is finite), every key of the resolved map is
    in lower case and every percentage is -1 or within [[0, 100]]. *)
Theorem reachable_percentage_ok c (k : string) (m : DrawableCountry) :
  reachable getName c ->
  scale_ok (in_data (inputs c)) (minValue (inputs c)) (maxValue (inputs c)) ->
  mapData c !! k = Some m -> is_lower_case k = true /\ pct_ok (percentage m).
Proof.
  intros Hr Hok Hk. split; [apply (reachable_keys_lower c k Hr); eauto|].
  destruct (reachable_invariant getName c Hr) as [Iv _ _].
  unfold view_consistent, resolved in Iv.
  destruct (mapContent c); rewrite Iv in Hk; [|rewrite lookup_empty in Hk; discriminate].
  apply normalize_Some in Hk as (data0 & id & v & E & _ & _ & ->). rewrite E in Hok.
  auto with js.
Qed.

(** With data keyed in upper case, every record of the resolved map has
    its record of the data under the upper-cased key. *)
Lemma reachable_record c (id : string) (country : DrawableCountry) :
  reachable getName c -> upper_keyed (inputs c) -> mapData c !! id = Some country ->
  is_Some (in_data (inputs c) ≫= fun data => obj_get data (toUpperCase id)).
Proof.
  intros Hr Hup Hk. destruct (reachable_invariant getName c Hr) as [Iv _ _].
  unfold view_consistent, resolved in Iv.
  destruct (mapContent c); rewrite Iv in Hk; [|rewrite lookup_empty in Hk; discriminate].
  apply normalize_Some in Hk as (data0 & id0 & v & Hd & Hin & <- & _).
  unfold upper_keyed in Hup. rewrite Hd in *. simpl.
  assert (Hkey : In id0 (obj_keys data0))
    by (unfold obj_keys; apply List.in_map_iff; exists (id0, v); auto).
  rewrite toUpperCase_toLowerCase, (proj1 (List.Forall_forall _ _) Hup id0 Hkey).
  destruct (obj_get data0 id0) eqn:E; [eauto|]. apply obj_get_None in E. contradiction.
Qed.

(** C17: with data keyed in upper case, in every reachable state a click
    whose walk up the ancestors does not throw, and does not end on an
    element whose id names a member of the prototype, returns: it selects
    or unselects and emits its event. *)
Theorem click_returns c (target : list ChainNode) (r : option string) :
  reachable getName c -> upper_keyed (inputs c) -> resolve_target target = inr r ->
  (forall id, r = Some id -> inherited id = false) ->
  returned (onMapSelect getName target c) = true.
Proof.
  intros Hr Hup Ht Hin. rewrite onMapSelect_eq. unfold onMapSelect_outcome, clicked.
  rewrite Ht. destruct r as [id|]; [simpl|reflexivity].
  rewrite (mapData_get_absent _ _ (Hin id eq_refl)).
  destruct (mapData c !! id) as [country|] eqn:E; [simpl|reflexivity].
  destruct (string_truthy _); [|reflexivity].
  destruct (reachable_record c id country Hr Hup E) as [record ->]. reflexivity.
Qed.

(** End to end: with data keyed in upper case, a click on an element
    inside a country element that has a resolved record selects that
    country and emits the selected event. *)
Theorem click_selects c page (p q : path) (sub : Element) (country : DrawableCountry) :
  reachable getName c -> upper_keyed (inputs c) -> mapContent c = Some page ->
  get (page_host page) p = Some sub -> is_Some (get sub q) ->
  has_class COUNTRY_CLASS sub = true ->
  Forall (fun x => has_class COUNTRY_CLASS x = false) (below sub q) ->
  is_ocean (parent_chain page (p ++ q)) = false ->
  el_id (el_data sub) <> ""%string ->
  mapData c !! el_id (el_data sub) = Some country ->
  exists record,
    step getName c (Click (Some (p ++ q)))
    = emit (ChartSelect (selected_event (el_id (el_data sub)) country))
        (set_selection
           (Some (selection_of getName (toUpperCase (el_id (el_data sub))) record)) c).
Proof.
  intros Hr Hup Hv Hp Hq Hc Hbelow Hocean Hid Hk.
  destruct (reachable_record c _ country Hr Hup Hk) as [record Hrec].
  exists record. simpl. unfold click_chain. rewrite Hv, onMapSelect_eq.
  unfold onMapSelect_outcome, clicked, resolve_target.
  rewrite Hocean, (walk_up_below page p q sub Hp Hq Hc Hbelow). simpl.
  rewrite (mapData_get_own _ _ _ Hk). simpl. rewrite (toUpperCase_truthy _ Hid), Hrec. reflexivity.
Qed.

(** The round trip of a selection: a click inside a country element that
    has a record, then a click on the ocean, emit the selected event of
    the country and then the unselected event, and leave nothing
    selected. *)
Theorem select_then_ocean c page (p q o : path) (sub : Element) (country : DrawableCountry) :
  reachable getName c -> upper_keyed (inputs c) -> mapContent c = Some page ->
  get (page_host page) p = Some sub -> is_Some (get sub q) ->
  has_class COUNTRY_CLASS sub = true ->
  Forall (fun x => has_class COUNTRY_CLASS x = false) (below sub q) ->
  is_ocean (parent_chain page (p ++ q)) = false ->
  el_id (el_data sub) <> ""%string ->
  mapData c !! el_id (el_data sub) = Some country ->
  is_ocean (parent_chain page o) = true ->
  let c' := run getName c [Click (Some (p ++ q)); Click (Some o)] in
  selection c' = None
  /\ outputs c' = outputs c ++ [ChartSelect (selected_event (el_id (el_data sub)) country);
                                ChartSelect unselected_event].
Proof.
  intros Hr Hup Hv Hp Hq Hc Hbelow Hocean Hid Hk Ho.
  destruct (click_selects c page p q sub country Hr Hup Hv Hp Hq Hc Hbelow Hocean Hid Hk)
    as [record E].
  unfold run. cbn [fold_left]. rewrite E. unfold step, click_chain.
  cbn [mapContent emit set_selection]. rewrite Hv, onMapSelect_eq.
  unfold onMapSelect_outcome, clicked, resolve_target. rewrite Ho.
  cbn. rewrite <- app_assoc. auto.
Qed.

(** C18: in a page that is in a document, a click on an element that is not
    the ocean and is in no country element throws: the walk up the
    ancestors meets no element of class [countryxx] and reaches the
    document.  No event is emitted and the selection stays. *)
Theorem click_outside_throws c page (p : path) :
  mapContent c = Some page -> attached page ->
  Forall (fun x => has_class COUNTRY_CLASS x = false)
         (ancestors_or_self (page_host page) p) ->
  is_ocean (parent_chain page p) = false ->
  onMapSelect getName (click_chain c (Some p)) c = Threw TypeError c
  /\ step getName c (Click (Some p)) = c.
Proof.
  intros Hv (outer & rest & Houter & Hpassed) Hinside Hocean.
  assert (E : onMapSelect getName (click_chain c (Some p)) c = Threw TypeError c).
  { unfold click_chain. rewrite Hv, onMapSelect_eq.
    unfold onMapSelect_outcome, clicked, resolve_target. rewrite Hocean.
    unfold parent_chain. rewrite Houter.
    rewrite !walk_up_app_passed by (try apply Forall_fmap; assumption). reflexivity. }
  split; [exact E|]. unfold step. rewrite E. reflexivity.
Qed.

(** C27: in every reachable state a selection carries an id that is not
    empty and is in upper case, with the name of that id. *)
Theorem reachable_selection c (sel : Selection) :
  reachable getName c -> selection c = Some sel ->
  countryId sel <> ""%string /\ toUpperCase (countryId sel) = countryId sel
  /\ countryName sel = countryNameOf getName (countryId sel).
Proof.
  intros Hr Hs. destruct (reachable_invariant getName c Hr) as [_ Is _].
  destruct (Is sel Hs) as (Ht & (id & Hid) & Hn). repeat split; [| |exact Hn].
  - intros E. rewrite E in Ht. discriminate.
  - rewrite Hid. apply toUpperCase_idempotent.
Qed.

(** The log of events of a step extends the log before it. *)
Lemma step_outputs c ev : outputs c `prefix_of` outputs (step getName c ev).
Proof.
  destruct ev; simpl; try reflexivity.
  1,2: unfold run_effect; match goal with |- context [initializeMap ?c'] => pass_cases c' end;
    simpl; solve [reflexivity | apply prefix_app_r; reflexivity].
  - destruct (onMapSelect_frame getName c (click_chain c target)) as [_ [->|[e ->]]];
      [reflexivity | apply prefix_app_r; reflexivity].
  - unfold on_tree. destruct (mapContent c); reflexivity.
  - unfold on_tree. destruct (mapContent c); reflexivity.
Qed.

(** Events emitted are never retracted: the log after any sequence of
    events extends the log before it. *)
Theorem run_outputs_prefix c (evs : list Event) :
  outputs c `prefix_of` outputs (run getName c evs).
Proof.
  revert c; induction evs as [|ev evs IH]; intros c; simpl; [reflexivity|].
  etrans; [apply step_outputs | apply IH].
Qed.

End ReachableFacts.
