(* ===== verification/Traces.v ===== *)
(** * Traces: what holds along sequences of events

    The component of [countries-map.component.ts] over whole runs of
    [Machine.step]:

    - progress: [eventually] along the events of a machine, and the pass
      that ends in the state [ready] on a map that is in the view
      ([step_ready]); the progress of the framework's effect is in
      [Tracking];
    - the log of emitted events is well formed ([reachable_outputs_wf]);
    - the selection and the select events of a run are those of the
      contract of [Selection], a two-state machine that moves on the
      clicks that return ([run_refines]);
    - the value read for the selection follows the data
      ([selectionValue_live]);
    - the component writes styles and handlers only: the elements of the
      document, their ids and their classes are those of the view it was
      given ([run_keeps_structure]). *)

From stdpp Require Import gmap list strings.
From S2P Require Import Prelude JsNumber JsString DataTypes Normalizer Dom Render Selection Component Machine.

Section Traces.
Context `{Rounding, NumberToString}.
(** [getName] of the package [country-list]. *)
Context (getName : string -> option string).
Implicit Types (c : Component) (ev : Event) (evs : list Event).

(** ** Progress *)

(** [P] holds now or after some of the events of [evs], on the machine
    that moves by [next]. *)
Inductive eventually (next : Component -> Event -> Component) (P : Component -> Prop)
  : Component -> list Event -> Prop :=
| eventually_now c evs : P c -> eventually next P c evs
| eventually_later c ev evs :
    eventually next P (next c ev) evs -> eventually next P c (ev :: evs).

(** The state after a pass that succeeded: lines 196-197. *)
Definition ready c : Prop :=
  loading c = false /\ last (outputs c) = Some ChartReady.

(** The map is in the view: the view child exists and its host element
    has a child. *)
Definition mounted c : Prop :=
  exists page, mapContent c = Some page /\ is_Some (first_child (page_host page)).

(** The events that re-run the effect. *)
Definition reruns ev : bool :=
  match ev with
  | InputsChange _ | ViewInit _ => true
  | _ => false
  end.

(** A view that comes with its map. *)
Definition well_hosted ev : Prop :=
  match ev with
  | ViewInit page => is_Some (first_child (page_host page))
  | _ => True
  end.

(** ** Well-formed events

    What the host can rely on when it reads an event: an unselected event
    has no payload; a selected event carries a value that is NaN or the
    number of an integer, and a country code in upper case; an error is
    the loading error. *)
Definition event_wf (e : ChartSelectEvent) : Prop :=
  if ev_selected e
  then (exists v, ev_value e = Some v /\ (v = NaN \/ exists z : Z, v = round_Z z))
       /\ toUpperCase (ev_country e) = ev_country e
  else e = unselected_event.

Definition output_wf (o : Output) : Prop :=
  match o with
  | ChartReady => True
  | ChartError e => e = loading_error
  | ChartSelect e => event_wf e
  end.

(** ** The contract along a run

    The contract of [Selection] moves on the clicks that return, by what
    they resolve to; every other event, and a click that throws, leave it
    where it is. *)
Inductive Label : Type :=
| Tau
| Clicked (r : option (string * DrawableCountry)).

Definition label_of c ev : Label :=
  match ev with
  | Click target =>
      match clicked c (click_chain c target) with
      | inr r =>
          if returned (onMapSelect getName (click_chain c target) c)
          then Clicked r else Tau
      | inl _ => Tau
      end
  | _ => Tau
  end.

Fixpoint labels c evs : list Label :=
  match evs with
  | [] => []
  | ev :: evs' => label_of c ev :: labels (step getName c ev) evs'
  end.

Definition spec_step (s : SelState) (l : Label) : SelState :=
  match l with
  | Tau => s
  | Clicked r => click_state r
  end.

Definition spec_emit (l : Label) : list ChartSelectEvent :=
  match l with
  | Tau => []
  | Clicked r => [click_event r]
  end.

(** The select events of a log. *)
Definition select_events (os : list Output) : list ChartSelectEvent :=
  omap (fun o => match o with ChartSelect e => Some e | _ => None end) os.

(** No click of the run resolves to an element with an empty id. *)
Definition proper_label (l : Label) : Prop :=
  forall country, l <> Clicked (Some (""%string, country)).

Fixpoint proper c evs : Prop :=
  match evs with
  | [] => True
  | ev :: evs' => proper_label (label_of c ev) /\ proper (step getName c ev) evs'
  end.

(** ** Events that are not clicks *)
Definition quiet ev : bool :=
  match ev with
  | Click _ => false
  | _ => true
  end.

(** What one event appends to the log: at most one output. *)
Definition appends c ev (l : list Output) : Prop :=
  outputs (step getName c ev) = outputs c ++ l.

End Traces.

(** ** The structure of the document *)

(** Two trees with the same elements: the same shape, and the same id and
    the same classes at every path. *)
Definition same_structure (e1 e2 : Element) : Prop :=
  forall p : path,
    (fun d => (el_id d, classList d)) <$> data_at e1 p
    = (fun d => (el_id d, classList d)) <$> data_at e2 p.

(** The events that keep the view: all but the arrival of a view. *)
Definition keeps_view `{Rounding, NumberToString} (ev : Event) : bool :=
  match ev with
  | ViewInit _ => false
  | _ => true
  end.

(** The view after events that keep it: the same outer element, a host
    with the same structure. *)
Definition view_kept (c c' : Component) : Prop :=
  match mapContent c with
  | Some page =>
      exists page', mapContent c' = Some page' /\ page_outer page' = page_outer page
                    /\ same_structure (page_host page) (page_host page')
  | None => mapContent c' = None
  end.

(** * Theorems *)

(** ** Eventually *)

Section EventuallyFacts.
Context (next : Component -> Event -> Component).
Implicit Types (c : Component) (ev : Event) (evs : list Event) (P Q : Component -> Prop).

Lemma eventually_mono P Q c evs :
  (forall c', P c' -> Q c') -> eventually next P c evs -> eventually next Q c evs.
Proof. intros HPQ. induction 1; [apply eventually_now | apply eventually_later]; auto. Qed.

(** [P] holds eventually when it holds after a prefix of the events. *)
Lemma eventually_take P c evs :
  eventually next P c evs <-> exists n, P (fold_left next (take n evs) c).
Proof.
  split.
  - induction 1 as [c evs HP|c ev evs _ [n Hn]]; [exists 0 | exists (S n)]; assumption.
  - intros [n Hn]. revert c evs Hn.
    induction n as [|n IH]; intros c [|ev evs] Hn; simpl in Hn;
      try (apply eventually_now; exact Hn).
    apply eventually_later, IH, Hn.
Qed.

Lemma eventually_app P c evs evs' :
  eventually next P c evs -> eventually next P c (evs ++ evs').
Proof. induction 1; [apply eventually_now | apply eventually_later]; assumption. Qed.

Lemma eventually_run P c evs evs' :
  eventually next P (fold_left next evs c) evs' -> eventually next P c (evs ++ evs').
Proof.
  revert c; induction evs as [|ev evs IH]; intros c; simpl; [tauto|].
  intros Hev. apply eventually_later, IH, Hev.
Qed.

End EventuallyFacts.

(** ** Progress of the render pass *)

Section ProgressFacts.
Context `{Rounding, NumberToString} (getName : string -> option string).
Implicit Types (c : Component) (ev : Event) (evs : list Event) (page : Page).

(** A pass on a map that is in the view succeeds and leaves it there. *)
Lemma run_effect_ready c : mounted c -> ready (run_effect c) /\ mounted (run_effect c).
Proof.
  intros (page & Hv & [svgMap Hc]). unfold run_effect. rewrite initializeMap_eq.
  unfold initializeMap_outcome. rewrite Hv, Hc. split.
  - split; [reflexivity | simpl; apply last_snoc].
  - eexists. split; [reflexivity|]. cbn [page_host set_host].
    rewrite first_child_put; eauto.
Qed.

Lemma on_tree_mounted (f : Element -> Element) c :
  (forall tree p, is_Some (data_at (f tree) p) <-> is_Some (data_at tree p)) ->
  mounted c -> mounted (on_tree f c).
Proof.
  intros Hf (page & Hv & Hc). unfold on_tree. rewrite Hv. eexists. split; [reflexivity|].
  cbn [page_host set_host]. apply first_child_is_Some, Hf, first_child_is_Some, Hc.
Qed.

(** Only a view that comes without its map takes the map out of the view. *)
Lemma step_mounted c ev : well_hosted ev -> mounted c -> mounted (step getName c ev).
Proof.
  intros Hev Hm. destruct ev; simpl.
  - apply run_effect_ready. exact Hm.
  - exact Hm.
  - apply run_effect_ready. eexists. split; [reflexivity | exact Hev].
  - destruct (onMapSelect_frame getName c (click_chain c target)) as [(_ & _ & Hv & _) _].
    simpl in Hv. unfold mounted. rewrite Hv. exact Hm.
  - apply on_tree_mounted; [apply mouseenter_shape | exact Hm].
  - apply on_tree_mounted; [apply mouseleave_shape | exact Hm].
  - exact Hm.
Qed.

(** An event that re-runs the effect on a map that is in the view ends in
    the ready state. *)
Lemma step_ready c ev :
  reruns ev = true -> well_hosted ev -> mounted c -> ready (step getName c ev).
Proof.
  intros Hr Hev Hm. destruct ev; try discriminate; simpl.
  - apply run_effect_ready. exact Hm.
  - apply run_effect_ready. eexists. split; [reflexivity | exact Hev].
Qed.

(** The first view that comes with its map ends in the ready state,
    whatever happened before. *)
Lemma ready_after_view c page :
  is_Some (first_child (page_host page)) -> ready (step getName c (ViewInit page)).
Proof.
  intros Hc. simpl. apply run_effect_ready. eexists. split; [reflexivity | exact Hc].
Qed.

End ProgressFacts.

(** ** The log of events *)

Section LogFacts.
Context `{Rounding, NumberToString} (getName : string -> option string).
Implicit Types (c : Component) (ev : Event) (evs : list Event).

Lemma selected_event_wf (id : string) (country : DrawableCountry) :
  event_wf (selected_event id country).
Proof.
  unfold event_wf. simpl. split; [|apply toUpperCase_idempotent].
  eexists. split; [reflexivity | apply countryNum_NaN_or_integer].
Qed.

Lemma unselected_event_wf : event_wf unselected_event.
Proof. reflexivity. Qed.

(** A run of the effect appends the ready event, the loading error, or
    nothing. *)
Lemma run_effect_emits c :
  exists l, outputs (run_effect c) = outputs c ++ l
    /\ (l = [ChartReady] \/ l = [ChartError loading_error] \/ l = []).
Proof.
  unfold run_effect. pass_cases c; simpl; eexists;
    (split; [try reflexivity; symmetry; apply app_nil_r | auto]).
Qed.

(** A click appends its select event, or nothing when it throws. *)
Lemma onMapSelect_emits c (target : list ChainNode) :
  exists l, outputs (final_state (onMapSelect getName target c)) = outputs c ++ l
    /\ (l = [] \/ exists e, l = [ChartSelect e] /\ event_wf e).
Proof.
  rewrite onMapSelect_eq. unfold onMapSelect_outcome.
  repeat case_match; simpl; eexists;
    (split; [try reflexivity; symmetry; apply app_nil_r|]);
    eauto using selected_event_wf, unselected_event_wf.
Qed.

(** Every step appends outputs that are well formed. *)
Lemma step_emits c ev : exists l, appends getName c ev l /\ Forall output_wf l.
Proof.
  unfold appends. destruct ev; simpl;
    try (exists []; split; [symmetry; apply app_nil_r | constructor]).
  1,2: match goal with |- context [run_effect ?c'] =>
         destruct (run_effect_emits c') as (l & -> & [-> | [-> | ->]]) end;
       eexists; (split; [reflexivity|]); repeat constructor.
  1: destruct (onMapSelect_emits c (click_chain c target)) as (l & -> & [-> | (e & -> & He)]);
       eexists; (split; [reflexivity|]); repeat constructor; exact He.
  all: exists []; split; [|constructor]; unfold on_tree;
    destruct (mapContent c); simpl; symmetry; apply app_nil_r.
Qed.

(** C15: in every reachable state the log of emitted events is well
    formed: every error is the loading error, every unselected event has
    no payload, and every selected event carries a value that is NaN or
    the number of an integer, and a country code in upper case. *)
Theorem reachable_outputs_wf c : reachable getName c -> Forall output_wf (outputs c).
Proof.
  induction 1 as [i|c ev _ IH]; [constructor|].
  destruct (step_emits c ev) as (l & -> & Hl). apply Forall_app; auto.
Qed.

End LogFacts.

(** ** The selection contract along a run *)

Section RefinementFacts.
Context `{Rounding, NumberToString} (getName : string -> option string).
Implicit Types (c : Component) (ev : Event) (evs : list Event).

Lemma select_events_app (os os' : list Output) :
  select_events (os ++ os') = select_events os ++ select_events os'.
Proof. apply omap_app. Qed.

Lemma string_truthy_upper_false (id : string) :
  string_truthy (toUpperCase id) = false -> id = ""%string.
Proof. destruct id; [reflexivity | discriminate]. Qed.

(** An event that is not a click keeps the selection. *)
Lemma step_quiet_selection c ev :
  quiet ev = true -> selection (step getName c ev) = selection c.
Proof.
  destruct ev; try discriminate; intros _; simpl; try reflexivity.
  1,2: match goal with |- context [run_effect ?c'] =>
         exact (proj1 (proj2 (run_effect_frame c'))) end.
  all: unfold on_tree; destruct (mapContent c); reflexivity.
Qed.

(** An event that is not a click emits no select event. *)
Lemma step_quiet_select_events c ev :
  quiet ev = true ->
  select_events (outputs (step getName c ev)) = select_events (outputs c).
Proof.
  destruct ev; try discriminate; intros _; simpl; try reflexivity.
  1,2: match goal with |- context [run_effect ?c'] =>
         destruct (run_effect_emits c') as (l & -> & [-> | [-> | ->]]) end;
       rewrite select_events_app; apply app_nil_r.
  all: unfold on_tree; destruct (mapContent c); reflexivity.
Qed.

(** A click moves the selection and emits as the contract says. *)
Lemma click_refines c (target : option path) :
  proper_label (label_of getName c (Click target)) ->
  sel_state (step getName c (Click target))
  = spec_step (sel_state c) (label_of getName c (Click target))
  /\ select_events (outputs (step getName c (Click target)))
     = select_events (outputs c) ++ spec_emit (label_of getName c (Click target)).
Proof.
  unfold proper_label. simpl. rewrite onMapSelect_eq. unfold onMapSelect_outcome.
  destruct (clicked c (click_chain c target)) as [e|[[id country]|]]; cbn beta iota zeta.
  - intros _. split; [reflexivity | symmetry; apply app_nil_r].
  - destruct (string_truthy (toUpperCase id)) eqn:Hid.
    + destruct (in_data (inputs c) ≫= (fun data => obj_get data (toUpperCase id)));
        intros _; simpl; (split; [reflexivity|]);
        [apply select_events_app | symmetry; apply app_nil_r].
    + apply string_truthy_upper_false in Hid as ->. intros Hp.
      destruct (Hp country eq_refl).
  - intros _. split; [reflexivity | apply select_events_app].
Qed.

(** One step of the component is one step of the contract, or none. *)
Lemma step_refines c ev :
  proper_label (label_of getName c ev) ->
  sel_state (step getName c ev) = spec_step (sel_state c) (label_of getName c ev)
  /\ select_events (outputs (step getName c ev))
     = select_events (outputs c) ++ spec_emit (label_of getName c ev).
Proof.
  destruct (quiet ev) eqn:Hq; [intros _|destruct ev; try discriminate; apply click_refines].
  unfold sel_state. rewrite (step_quiet_selection c ev Hq), (step_quiet_select_events c ev Hq).
  destruct ev; try discriminate; split; reflexivity || (symmetry; apply app_nil_r).
Qed.

(** C8: along a run in which no click resolves to an element with an
    empty id, the selection of the component is the state of the contract
    after the clicks that returned, and the select events emitted are
    those of the contract, in order. *)
Theorem run_refines c evs :
  proper getName c evs ->
  sel_state (run getName c evs)
  = fold_left spec_step (labels getName c evs) (sel_state c)
  /\ select_events (outputs (run getName c evs))
     = select_events (outputs c) ++ (labels getName c evs ≫= spec_emit).
Proof.
  revert c; induction evs as [|ev evs IH]; intros c; simpl.
  - intros _. split; [reflexivity | symmetry; apply app_nil_r].
  - intros [Hp Hps]. destruct (step_refines c ev Hp) as [Hs Ho].
    destruct (IH _ Hps) as [-> ->]. rewrite Hs, Ho, <- app_assoc. split; reflexivity.
Qed.

End RefinementFacts.

(** ** The value of the selection follows the data *)

Section LiveFacts.
Context `{Rounding, NumberToString} (getName : string -> option string).
Implicit Types (c : Component) (ev : Event) (evs : list Event).

Lemma run_quiet_selection c evs :
  Forall (fun ev => quiet ev = true) evs -> selection (run getName c evs) = selection c.
Proof.
  intros Hq. revert c. induction Hq as [|ev evs Hev _ IH]; intros c; simpl; [reflexivity|].
  rewrite IH. apply step_quiet_selection, Hev.
Qed.

(** C32: a selection survives every event that is not a click, and the
    value read for it is looked up in the data the component holds then:
    the value of the record under the selected id, nothing when the data
    has no such record, and an exception when the data is [null]. *)
Theorem selectionValue_live c evs (sel : Selection) :
  selection c = Some sel -> Forall (fun ev => quiet ev = true) evs ->
  selectionValue (run getName c evs)
  = match in_data (inputs (run getName c evs)) with
    | Some data => inr (data_get data (countryId sel) ≫= cd_value)
    | None => inl TypeError
    end.
Proof.
  intros Hs Hq. unfold selectionValue. rewrite (run_quiet_selection c evs Hq), Hs.
  reflexivity.
Qed.

End LiveFacts.


(** ** The structure of the document *)

Section StructureFacts.
Context `{Rounding, NumberToString} (getName : string -> option string).
Implicit Types (c : Component) (ev : Event) (evs : list Event) (page : Page).
Implicit Types (host svgMap tree : Element).

#[export] Instance same_structure_Equivalence : Equivalence same_structure.
Proof.
  split.
  - intros e p. reflexivity.
  - intros e1 e2 H12 p. symmetry. apply H12.
  - intros e1 e2 e3 H12 H23 p. rewrite H12. apply H23.
Qed.

(** A pass keeps the structure of the host: it writes the style and the
    handlers of elements of the map. *)
Lemma put_draw_structure mapData pal host svgMap :
  first_child host = Some svgMap ->
  same_structure host (put [0] (draw mapData pal svgMap) host).
Proof.
  intros Hc [|[|i] q].
  - destruct host. reflexivity.
  - rewrite (data_at_put_child host svgMap _ q Hc), (data_at_first_child host svgMap q Hc).
    pose proof (draw_ids mapData pal svgMap q) as Hid.
    pose proof (draw_same_classes mapData pal svgMap q) as Hcl.
    destruct (data_at (draw mapData pal svgMap) q), (data_at svgMap q);
      simpl in *; congruence.
  - destruct host as [d cs]. simpl. rewrite !data_at_cons.
    rewrite list_lookup_alter_ne by discriminate. reflexivity.
Qed.

(** A tree whose elements come from another one with another stroke at
    most has its structure. *)
Lemma same_structure_from tree tree' :
  (forall p d', data_at tree' p = Some d' ->
     exists d, data_at tree p = Some d /\ same_but_stroke d d') ->
  (forall p, is_Some (data_at tree' p) <-> is_Some (data_at tree p)) ->
  same_structure tree tree'.
Proof.
  intros Hfrom Hshape p. destruct (data_at tree' p) as [d'|] eqn:Hd'.
  - destruct (Hfrom p d' Hd') as (d & -> & Hid & Hcl & _). simpl. congruence.
  - destruct (data_at tree p) as [d|] eqn:Hd; [|reflexivity].
    assert (Hs : is_Some (data_at tree' p)) by (apply Hshape; rewrite Hd; eauto).
    rewrite Hd' in Hs. destruct Hs. discriminate.
Qed.

Lemma view_kept_same c c' : mapContent c' = mapContent c -> view_kept c c'.
Proof.
  unfold view_kept. intros ->. destruct (mapContent c) as [page|]; [|reflexivity].
  exists page. repeat split.
Qed.

Lemma run_effect_view_kept c : view_kept c (run_effect c).
Proof.
  unfold view_kept, run_effect. rewrite initializeMap_eq. unfold initializeMap_outcome.
  destruct (mapContent c) as [page|] eqn:Hv; [|simpl; exact Hv].
  destruct (first_child (page_host page)) as [svgMap|] eqn:Hc; simpl.
  - eexists. repeat split. simpl. apply put_draw_structure, Hc.
  - rewrite Hv. exists page. repeat split.
Qed.

Lemma on_tree_view_kept (f : Element -> Element) c :
  (forall tree, same_structure tree (f tree)) -> view_kept c (on_tree f c).
Proof.
  intros Hf. unfold view_kept, on_tree. destruct (mapContent c) as [page|] eqn:Hv;
    [|exact Hv].
  eexists. repeat split. simpl. apply Hf.
Qed.

Lemma step_view_kept c ev : keeps_view ev = true -> view_kept c (step getName c ev).
Proof.
  destruct ev; try discriminate; intros _; cbn [step].
  - pose proof (run_effect_view_kept (set_inputs i c)) as Hk. exact Hk.
  - apply view_kept_same. reflexivity.
  - destruct (onMapSelect_frame getName c (click_chain c target)) as [(_ & _ & Hv & _) _].
    apply view_kept_same. exact Hv.
  - apply on_tree_view_kept. intros tree.
    apply same_structure_from; [apply mouseenter_from | apply mouseenter_shape].
  - apply on_tree_view_kept. intros tree.
    apply same_structure_from; [apply mouseleave_from | apply mouseleave_shape].
  - apply view_kept_same. reflexivity.
Qed.

Lemma view_kept_trans c1 c2 c3 : view_kept c1 c2 -> view_kept c2 c3 -> view_kept c1 c3.
Proof.
  unfold view_kept. destruct (mapContent c1) as [page1|].
  - intros (page2 & -> & Ho2 & Hs2) (page3 & -> & Ho3 & Hs3).
    exists page3. repeat split; [congruence | etrans; eassumption].
  - intros ->. auto.
Qed.

(** C19: the component writes styles and handlers only: after any events other
    than the arrival of a view, the host element has the elements it
    had, with their ids and their classes, under the same ancestors. *)
Theorem run_keeps_structure c evs page :
  Forall (fun ev => keeps_view ev = true) evs -> mapContent c = Some page ->
  exists page', mapContent (run getName c evs) = Some page'
    /\ page_outer page' = page_outer page
    /\ same_structure (page_host page) (page_host page').
Proof.
  intros Hk Hv. assert (Hkept : view_kept c (run getName c evs)).
  { clear Hv. revert c. induction Hk as [|ev evs Hev _ IH]; intros c.
    - apply view_kept_same. reflexivity.
    - eapply view_kept_trans; [apply step_view_kept, Hev | apply IH]. }
  unfold view_kept in Hkept. rewrite Hv in Hkept. exact Hkept.
Qed.

End StructureFacts.
