(* ===== verification/Tracking.v ===== *)
(** * Tracking: what a pass reads, and the passes that can be skipped

    The effect of the constructor (lines 82-86 of
    [countries-map.component.ts]) is re-run by the framework when an input
    that its last run has read changes.  [reads] is the list of the inputs
    that [initializeMap] reads, in the order of lines 107-161: the data
    always, the two bounds when the data is an object, the five colours
    when the host element has a child (line 155 throws before the first
    colour is read otherwise).

    The file shows that this list is sound.  A pass depends on the inputs
    it reads only ([pass_reads_only]); in a reachable state a pass with the
    inputs of the last one changes no field but the loading flag and emits
    one event ([pass_fixpoint]); so a change of inputs that the last pass
    has not read is a change that a pass would not see ([untracked_change]).
    [Machine.step] re-runs the pass on every change of the inputs; a
    machine that skips the pass when the inputs read are unchanged, by any
    test that is sound, and runs one pass for several changes in a row
    ([lazy_run], [coalesce]), goes through the same inputs, view, resolved
    map, selection and select events ([scheduled_run_same_fields]).

    The two machines differ in the ready and error events they emit.
    Progress to the ready state is proved on the machine that skips: a
    run that holds a new view, or a change of an input that the last pass
    has read, reaches the state where loading is cleared and the ready
    event is the last one emitted ([ready_after_notification]). *)

From stdpp Require Import gmap list strings.
From Stdlib Require Import QArith.
From S2P Require Import Prelude JsNumber JsString DataTypes Normalizer Dom Render Selection Component Machine Traces.

Local Close Scope Q_scope.
Local Open Scope js_scope.

(** ** The inputs of a pass *)

(** The inputs that [initializeMap] reads. *)
Inductive Signal : Type :=
| SData
| SMinValue
| SMaxValue
| SBackgroundColor
| SNoDataColor
| SExceptionColor
| SMinColor
| SMaxColor.

(** Two input records hold the same value of an input. *)
Definition signal_agree (i i' : Inputs) (s : Signal) : Prop :=
  match s with
  | SData => in_data i = in_data i'
  | SMinValue => minValue i = minValue i'
  | SMaxValue => maxValue i = maxValue i'
  | SBackgroundColor => paletteBackground (palette i) = paletteBackground (palette i')
  | SNoDataColor => noDataColor (palette i) = noDataColor (palette i')
  | SExceptionColor => exceptionColor (palette i) = exceptionColor (palette i')
  | SMinColor => minColor (palette i) = minColor (palette i')
  | SMaxColor => maxColor (palette i) = maxColor (palette i')
  end.

(** The inputs that a pass reads in a state, in the order of the reads:
    none without a view child (line 107 throws), the data (line 109), the
    bounds when the data is not [null] (lines 112-113), the colours when
    the host has a child (lines 155-160). *)
Definition reads (c : Component) : list Signal :=
  match mapContent c with
  | None => []
  | Some page =>
      SData
      :: match in_data (inputs c) with
         | Some _ => [SMinValue; SMaxValue]
         | None => []
         end
      ++ match first_child (page_host page) with
         | Some _ => [SBackgroundColor; SNoDataColor; SExceptionColor; SMinColor; SMaxColor]
         | None => []
         end
  end.

(** The inputs [i] hold what the last pass has read. *)
Definition unchanged (c : Component) (i : Inputs) : Prop :=
  Forall (signal_agree (inputs c) i) (reads c).

(** ** Equality of inputs is decidable *)

#[export] Instance Signal_eq_dec : EqDecision Signal.
Proof. solve_decision. Defined.

#[export] Instance Q_eq_dec : EqDecision Q.
Proof. solve_decision. Defined.

#[export] Instance number_eq_dec : EqDecision number.
Proof. solve_decision. Defined.

#[export] Instance ValidExtraData_eq_dec : EqDecision ValidExtraData.
Proof. solve_decision. Defined.

#[export] Instance CountryData_eq_dec : EqDecision CountryData.
Proof. solve_decision. Defined.

#[export] Instance signal_agree_dec (i i' : Inputs) (s : Signal) :
  Decision (signal_agree i i' s).
Proof. destruct s; simpl; apply _. Defined.

#[export] Instance unchanged_dec (c : Component) (i : Inputs) : Decision (unchanged c i).
Proof. unfold unchanged. apply _. Defined.

(** ** The machine that skips passes *)

(** What the pass of a state emits, and the flag it leaves: the ready
    event and [false] on a host with a child, the loading error and
    [true] on a host without. *)
Definition pass_result (page : Page) : Output * bool :=
  match first_child (page_host page) with
  | Some _ => (ChartReady, false)
  | None => (ChartError loading_error, true)
  end.

Section Lazy.
Context `{Rounding, NumberToString}.
Context (getName : string -> option string).
(** The test by which the framework skips a pass. *)
Context (skips : Component -> Inputs -> bool).

(** A change of the inputs re-runs the pass unless the test says that the
    inputs read are unchanged. *)
Definition lazy_step (c : Component) (ev : Event) : Component :=
  match ev with
  | InputsChange i =>
      if skips c i then set_inputs i c else run_effect (set_inputs i c)
  | _ => step getName c ev
  end.

Definition lazy_run (c : Component) (evs : list Event) : Component :=
  fold_left lazy_step evs c.

(** A run that holds an event of which the effect is notified: a view
    that arrives, or a change of an input that the last pass has read. *)
Inductive notified : Component -> list Event -> Prop :=
| notified_view c page evs : notified c (ViewInit page :: evs)
| notified_change c i evs : ~ unchanged c i -> notified c (InputsChange i :: evs)
| notified_later c ev evs : notified (lazy_step c ev) evs -> notified c (ev :: evs).

End Lazy.

(** The events of a framework that runs one pass for several changes of
    the inputs: a change that is followed at once by another one runs no
    pass, and its inputs are never read. *)
Fixpoint coalesce (evs : list Event) : list Event :=
  match evs with
  | [] => []
  | ev :: rest =>
      match ev, rest with
      | InputsChange _, InputsChange _ :: _ => coalesce rest
      | _, _ => ev :: coalesce rest
      end
  end.

(** The test that compares every input read. *)
Definition skips_unchanged (c : Component) (i : Inputs) : bool :=
  bool_decide (unchanged c i).

(** Two states with the same inputs, view, selection, resolved map and
    select events: they differ in the loading flag and in the ready and
    error events at most. *)
Definition same_fields (c c' : Component) : Prop :=
  inputs c = inputs c' /\ mapContent c = mapContent c' /\ selection c = selection c'
  /\ mapData c = mapData c' /\ select_events (outputs c) = select_events (outputs c').

(** * Theorems *)

(** Reads a field of a state through the setters. *)
Ltac fields :=
  cbn [final_state emit set_loading set_selection set_mapData set_mapContent set_inputs
       set_outputs inputs mapContent selection mapData outputs loading].

Section PassFacts.
Context `{Rounding, NumberToString}.
Implicit Types (c : Component) (i : Inputs) (page : Page).

Lemma palette_agree i i' :
  Forall (signal_agree i i')
         [SBackgroundColor; SNoDataColor; SExceptionColor; SMinColor; SMaxColor] ->
  palette i = palette i'.
Proof.
  rewrite !Forall_cons. simpl. destruct (palette i), (palette i'). simpl.
  intros (-> & -> & -> & -> & -> & _). reflexivity.
Qed.

(** The resolved map of two input records that agree on the data, and on
    the bounds when the data is not [null]. *)
Lemma normalize_agree i i' :
  Forall (signal_agree i i')
         (SData :: match in_data i with Some _ => [SMinValue; SMaxValue] | None => [] end) ->
  normalize (in_data i) (minValue i) (maxValue i)
  = normalize (in_data i') (minValue i') (maxValue i').
Proof.
  rewrite Forall_cons. simpl. intros [<- Hb].
  destruct (in_data i); [|reflexivity].
  rewrite !Forall_cons in Hb. simpl in Hb. destruct Hb as (-> & -> & _). reflexivity.
Qed.

(** The inputs read are themselves a function of the inputs read: the
    data says whether the bounds are read. *)
Lemma reads_agree c i i' :
  Forall (signal_agree i i') (reads (set_inputs i c)) ->
  reads (set_inputs i' c) = reads (set_inputs i c).
Proof.
  unfold reads. cbn [mapContent set_inputs inputs].
  destruct (mapContent c); [|reflexivity].
  rewrite Forall_cons. cbn [signal_agree]. intros [<- _]. reflexivity.
Qed.

Lemma run_effect_agree c i i' :
  Forall (signal_agree i i') (reads (set_inputs i c)) ->
  run_effect (set_inputs i' c) = set_inputs i' (run_effect (set_inputs i c)).
Proof.
  unfold run_effect, reads. rewrite !initializeMap_eq. unfold initializeMap_outcome.
  cbn [mapContent set_inputs inputs]. destruct (mapContent c) as [page|] eqn:Hv;
    [|reflexivity].
  rewrite app_comm_cons, Forall_app. intros [Hn Hp].
  apply normalize_agree in Hn.
  destruct (first_child (page_host page)) as [svgMap|] eqn:Hc.
  - apply palette_agree in Hp. unfold drawn_state, resolved. cbn. rewrite Hn, Hp. reflexivity.
  - unfold failed_state, resolved. cbn. rewrite Hn. reflexivity.
Qed.

(** C26: a pass depends on the inputs it reads only: bound to other inputs
    that hold the same values of these, the component reads the same
    inputs, computes the same fields and emits the same event. *)
Theorem pass_reads_only c i i' :
  Forall (signal_agree i i') (reads (set_inputs i c)) ->
  reads (set_inputs i' c) = reads (set_inputs i c)
  /\ run_effect (set_inputs i' c) = set_inputs i' (run_effect (set_inputs i c)).
Proof. intros Ha. split; [apply reads_agree | apply run_effect_agree]; exact Ha. Qed.

End PassFacts.

(** ** A pass on a map that is painted *)

Section PassFixpoint.
Context `{Rounding, NumberToString}.
Context (getName : string -> option string).
Implicit Types (c : Component) (i : Inputs) (page : Page) (host svgMap : Element).
Implicit Types (mapData : gmap string DrawableCountry) (pal : Palette).

(** An element that has its fill and its handlers is painted to itself. *)
Lemma paint_country_fixpoint mapData pal (d : ElementData) :
  fill (style d) = Some (fill_for mapData pal (el_id d)) ->
  onmouseenter d = Some (CountryHover true) -> onmouseleave d = Some (CountryHover false) ->
  paint_country mapData pal d = d.
Proof.
  destruct d as [id cl [bg fl st sw] en le]. simpl. intros -> -> ->. reflexivity.
Qed.

(** Drawing a map that is painted by the same resolved map and palette
    changes nothing, whatever the strokes are. *)
Lemma draw_fixpoint mapData pal host svgMap :
  painted_with mapData pal host -> first_child host = Some svgMap ->
  draw mapData pal svgMap = svgMap.
Proof.
  intros [Hb Hp] Hc. apply tree_ext. intros p. rewrite data_at_draw.
  destruct (data_at svgMap p) as [d|] eqn:Hd; [simpl|reflexivity]. f_equal.
  rewrite <- (data_at_first_child host svgMap p Hc) in Hd. case_decide as Hnil.
  - subst p. specialize (Hb d Hd).
    destruct d as [id cl [bg fl st sw] en le]. simpl in *. subst bg. reflexivity.
  - unfold paint_if_country.
    destruct (contains (classList d) COUNTRY_CLASS) eqn:E; [|reflexivity].
    destruct (Hp p d Hnil Hd E) as (Hf & Hen & Hle). apply paint_country_fixpoint; assumption.
Qed.

(** In a reachable state a pass finds everything done: it sets the
    loading flag and emits its event, and changes no other field.  The
    normalisation is recomputed to the map it replaces and the drawing
    writes the colours that are there. *)
Lemma run_effect_done c page :
  reachable getName c -> mapContent c = Some page ->
  run_effect c = emit (fst (pass_result page)) (set_loading (snd (pass_result page)) c).
Proof.
  intros Hr Hv. destruct (reachable_invariant getName c Hr) as [Iv _ Ip].
  unfold view_consistent in Iv. rewrite Hv in Iv. specialize (Ip page Hv).
  unfold run_effect, pass_result. rewrite initializeMap_eq. unfold initializeMap_outcome.
  rewrite Hv. destruct (first_child (page_host page)) as [svgMap|] eqn:Hc.
  - unfold drawn_state. rewrite <- Iv, (draw_fixpoint _ _ _ _ Ip Hc), (put_first_child _ _ Hc).
    destruct c, page. simpl in *. subst. reflexivity.
  - unfold failed_state. rewrite <- Iv. destruct c. reflexivity.
Qed.

(** A change of the inputs that the last pass has not read: the pass that
    [step] runs sets the loading flag and emits its event, and changes no
    other field. *)
Lemma untracked_change c i page :
  reachable getName c -> mapContent c = Some page -> unchanged c i ->
  step getName c (InputsChange i)
  = emit (fst (pass_result page)) (set_loading (snd (pass_result page)) (set_inputs i c)).
Proof.
  intros Hr Hv Hu. cbn [step].
  rewrite (run_effect_agree c (inputs c) i) by exact Hu.
  replace (set_inputs (inputs c) c) with c by (destruct c; reflexivity).
  rewrite (run_effect_done c page Hr Hv). reflexivity.
Qed.

(** C25: the passes that nothing calls for: in a reachable state, binding the
    inputs that are bound and initialising the view that is there run a
    pass that sets the loading flag, emits its event (ready on a host
    with a child, the loading error on a host without) and changes no
    other field, whatever hovers and clicks came before. *)
Theorem pass_fixpoint c page :
  reachable getName c -> mapContent c = Some page ->
  step getName c (InputsChange (inputs c))
  = emit (fst (pass_result page)) (set_loading (snd (pass_result page)) c)
  /\ step getName c (ViewInit page)
     = emit (fst (pass_result page)) (set_loading (snd (pass_result page)) c).
Proof.
  intros Hr Hv. cbn [step].
  replace (set_inputs (inputs c) c) with c by (destruct c; reflexivity).
  replace (set_mapContent (Some page) c) with c
    by (destruct c; simpl in Hv; subst; reflexivity).
  split; apply run_effect_done; assumption.
Qed.

End PassFixpoint.

(** ** The machine that skips passes goes through the same fields *)

Section SameFields.
Context `{Rounding, NumberToString}.
Context (getName : string -> option string).
Implicit Types (c l : Component) (i : Inputs) (ev : Event).

#[export] Instance same_fields_Equivalence : Equivalence same_fields.
Proof.
  unfold same_fields. split.
  - intros c. tauto.
  - intros c l. intuition congruence.
  - intros c l m. intuition congruence.
Qed.

Lemma same_fields_emit c l (o : Output) :
  same_fields c l -> same_fields (emit o c) (emit o l).
Proof.
  unfold same_fields. fields.
  rewrite !select_events_app. intuition congruence.
Qed.

(** An event that is not a select event is not seen. *)
Lemma same_fields_emit_l c (o : Output) (b : bool) :
  (forall e, o <> ChartSelect e) -> same_fields (emit o (set_loading b c)) c.
Proof.
  intros Ho. unfold same_fields. fields.
  rewrite select_events_app. destruct o; [| |exfalso; eapply Ho; reflexivity];
    cbn [select_events omap]; rewrite app_nil_r; tauto.
Qed.

Lemma run_effect_same_fields c l :
  same_fields c l -> same_fields (run_effect c) (run_effect l).
Proof.
  intros (Hi & Hv & Hs & Hm & Ho). unfold run_effect, same_fields.
  rewrite !initializeMap_eq. unfold initializeMap_outcome, drawn_state, failed_state, resolved.
  rewrite <- Hv, <- Hi. destruct (mapContent c) as [page|] eqn:Hvc;
    [|fields; intuition congruence].
  destruct (first_child (page_host page)); fields; rewrite !select_events_app, Ho;
    intuition congruence.
Qed.

Lemma onMapSelect_same_fields c l (target : list ChainNode) :
  same_fields c l ->
  same_fields (final_state (onMapSelect getName target c))
              (final_state (onMapSelect getName target l)).
Proof.
  intros Hsf. pose proof Hsf as (Hi & Hv & Hs & Hm & Ho).
  rewrite !onMapSelect_eq. unfold onMapSelect_outcome, clicked. rewrite <- Hm, <- Hi.
  repeat case_match; cbn [final_state]; try assumption;
    apply same_fields_emit; unfold same_fields; fields; tauto.
Qed.

Lemma on_tree_same_fields (f : Element -> Element) c l :
  same_fields c l -> same_fields (on_tree f c) (on_tree f l).
Proof.
  intros (Hi & Hv & Hs & Hm & Ho). unfold on_tree, same_fields. rewrite <- Hv.
  destruct (mapContent c) eqn:Hvc; fields; intuition congruence.
Qed.

(** Every event takes states with the same fields to states with the
    same fields. *)
Lemma step_same_fields c l ev :
  same_fields c l -> same_fields (step getName c ev) (step getName l ev).
Proof.
  intros Hsf. pose proof Hsf as (Hi & Hv & Hs & Hm & Ho). destruct ev; cbn [step].
  - apply run_effect_same_fields. unfold same_fields. fields. tauto.
  - unfold same_fields. fields. rewrite Hi. tauto.
  - apply run_effect_same_fields. unfold same_fields. fields. tauto.
  - unfold click_chain. rewrite <- Hv. apply onMapSelect_same_fields, Hsf.
  - apply on_tree_same_fields, Hsf.
  - apply on_tree_same_fields, Hsf.
  - unfold same_fields. fields. tauto.
Qed.

Lemma run_same_fields c l (evs : list Event) :
  same_fields c l -> same_fields (run getName c evs) (run getName l evs).
Proof.
  revert c l. induction evs as [|ev evs IH]; intros c l Hsf; [exact Hsf|].
  apply IH, step_same_fields, Hsf.
Qed.

Lemma put_put (x y host : Element) : put [0] x (put [0] y host) = put [0] x host.
Proof. destruct host as [d [|z cs]]; reflexivity. Qed.

(** Two changes of the inputs in a row: the pass of the first is undone
    by the pass of the second, which recomputes the resolved map and
    redraws every colour. *)
Lemma batched_change c i i' :
  same_fields (step getName (step getName c (InputsChange i)) (InputsChange i'))
              (step getName c (InputsChange i')).
Proof.
  cbn [step]. unfold run_effect, same_fields. rewrite !initializeMap_eq.
  unfold initializeMap_outcome, drawn_state, failed_state, resolved. fields.
  destruct (mapContent c) as [page|] eqn:Hv; [|fields; rewrite Hv; fields; tauto].
  destruct (first_child (page_host page)) as [svgMap|] eqn:Hc; fields.
  - cbn [page_host set_host]. rewrite first_child_put by eauto. fields.
    cbn [page_host set_host page_outer].
    rewrite draw_draw, put_put, !select_events_app. cbn [select_events omap].
    rewrite !app_nil_r. tauto.
  - rewrite Hv, Hc. fields.
    rewrite !select_events_app. cbn [select_events omap]. rewrite !app_nil_r. tauto.
Qed.

(** Dropping the changes of the inputs that are batched with the next
    one changes no field at the end of the run. *)
Lemma coalesce_same_fields c (evs : list Event) :
  same_fields (run getName c evs) (run getName c (coalesce evs)).
Proof.
  revert c. induction evs as [|ev rest IH]; intros c; [reflexivity|].
  assert (Hcons : forall e, same_fields (run getName c (e :: rest))
                                        (run getName c (e :: coalesce rest)))
    by (intros e; exact (IH (step getName c e))).
  destruct ev as [i| | | | | |]; try apply Hcons.
  destruct rest as [|[i'| | | | | |] rest']; try apply Hcons.
  etrans; [|exact (IH c)].
  exact (run_same_fields _ _ rest' (batched_change c i i')).
Qed.

Section Skips.
(** The test by which passes are skipped, and what makes it sound: it
    skips a pass only when the inputs read by the last one are
    unchanged. *)
Context (skips : Component -> Inputs -> bool).
Hypothesis skips_sound : forall c i, skips c i = true -> unchanged c i.

Lemma unchanged_same_fields c l i : same_fields c l -> unchanged l i -> unchanged c i.
Proof. intros (Hi & Hv & _). unfold unchanged, reads. rewrite Hi, Hv. auto. Qed.

(** A pass that the test skips would have changed the loading flag and
    the log of ready and error events only. *)
Lemma skipped_change c i :
  reachable getName c -> unchanged c i ->
  same_fields (step getName c (InputsChange i)) (set_inputs i c).
Proof.
  intros Hr Hu. destruct (mapContent c) as [page|] eqn:Hv.
  - rewrite (untracked_change getName c i page Hr Hv Hu). unfold pass_result.
    destruct (first_child (page_host page)); apply same_fields_emit_l; discriminate.
  - cbn [step]. unfold run_effect. rewrite initializeMap_eq. unfold initializeMap_outcome.
    cbn [mapContent set_inputs]. rewrite Hv. unfold same_fields. fields. tauto.
Qed.

(** One event: the machine that re-runs every pass and the one that
    skips passes stay in states with the same fields. *)
Theorem lazy_step_same_fields c l ev :
  reachable getName c -> same_fields c l ->
  same_fields (step getName c ev) (lazy_step getName skips l ev).
Proof.
  intros Hr Hsf. destruct ev as [i| | | | | |]; try apply step_same_fields, Hsf.
  cbn [lazy_step]. destruct (skips l i) eqn:Hskip;
    [|apply (step_same_fields c l (InputsChange i)), Hsf].
  etrans; [apply skipped_change; eauto using unchanged_same_fields|].
  destruct Hsf as (Hi & Hv & Hs & Hm & Ho). unfold same_fields. fields. tauto.
Qed.

Lemma lazy_run_simulates c l (evs : list Event) :
  reachable getName c -> same_fields c l ->
  same_fields (run getName c evs) (lazy_run getName skips l evs).
Proof.
  revert c l. induction evs as [|ev evs IH]; intros c l Hr Hsf; [exact Hsf|].
  apply IH; [constructor; exact Hr | apply lazy_step_same_fields; assumption].
Qed.

(** C9: over a run: whatever passes the framework skips, by a test that is
    sound, and whatever changes of the inputs it batches into one pass,
    the component goes through the same inputs, view, selection and
    resolved map, and emits the same select events, as the machine of
    [Machine.step], which runs a pass at once on every change of the
    inputs. *)
Theorem scheduled_run_same_fields c l (evs : list Event) :
  reachable getName c -> same_fields c l ->
  same_fields (run getName c evs) (lazy_run getName skips l (coalesce evs)).
Proof.
  intros Hr Hsf. etrans; [apply coalesce_same_fields|].
  apply lazy_run_simulates; assumption.
Qed.

(** The map stays in the view on the machine that skips passes. *)
Lemma lazy_step_mounted c ev :
  well_hosted ev -> mounted c -> mounted (lazy_step getName skips c ev).
Proof.
  intros Hev Hm. destruct ev as [i| | | | | |]; try apply (step_mounted getName c _ Hev Hm).
  cbn [lazy_step]. destruct (skips c i); [exact Hm|].
  apply (step_mounted getName c (InputsChange i) Hev Hm).
Qed.

(** An event of which the effect is notified runs the pass. *)
Lemma lazy_step_ready c ev :
  well_hosted ev -> mounted c ->
  match ev with
  | ViewInit _ => True
  | InputsChange i => ~ unchanged c i
  | _ => False
  end ->
  ready (lazy_step getName skips c ev).
Proof.
  intros Hev Hm Hn. destruct ev as [i| |page| | | |]; try contradiction.
  - cbn [lazy_step]. destruct (skips c i) eqn:Hskip; [destruct (Hn (skips_sound c i Hskip))|].
    apply (step_ready getName c (InputsChange i)); auto.
  - apply (step_ready getName c (ViewInit page)); auto.
Qed.

(** C14: on the machine of the framework, whatever passes it skips by a
    test that is sound: once the map is in the view, a run in which every
    new view comes with its map and which holds a new view or a change of
    an input that the last pass has read reaches a state where the loading
    flag is cleared and the ready event is the last one emitted. *)
Theorem ready_after_notification c evs :
  mounted c -> Forall well_hosted evs -> notified getName skips c evs ->
  eventually (lazy_step getName skips) ready c evs.
Proof.
  intros Hm Hwh Hn. revert Hm Hwh.
  induction Hn as [c page evs|c i evs Hi|c ev evs _ IH]; intros Hm Hwh;
    apply Forall_cons_1 in Hwh as [Hev Hwh]; apply eventually_later.
  - apply eventually_now, lazy_step_ready; auto.
  - apply eventually_now, lazy_step_ready; auto.
  - apply IH; [apply lazy_step_mounted|]; assumption.
Qed.

End Skips.

(** The test that compares the inputs read is sound. *)
Lemma skips_unchanged_sound c i : skips_unchanged c i = true -> unchanged c i.
Proof. apply bool_decide_eq_true_1. Qed.

End SameFields.
