(* ===== verification/Examples.v ===== *)
(** * Examples: the model on concrete inputs

    A small map (an ocean, four countries, one of them made of two land
    paths) and the data of the examples of the specification, run through
    the model with the reference printer of [JsString] and the exact
    rounding of [JsNumber] (the bounded rounding where an example is about
    overflow).  Every theorem of
    the development that has hypotheses is applied here to one of these
    inputs, with its hypotheses discharged by computation: the hypotheses
    can be met, and the conclusion is the value the program computes. *)

From stdpp Require Import gmap list strings.
From Stdlib Require Import QArith Lia.
From S2P Require Import Prelude JsNumber JsFloat JsString DataTypes Normalizer Doubles Dom Render Selection Component Machine Traces Tracking.

Local Close Scope Q_scope.
Local Open Scope string_scope.

(** The examples compute in exact arithmetic. *)
#[local] Existing Instance exact_rounding.

(** ** The inputs *)

Definition node (id : string) (classes : list string) (children : list Element) : Element :=
  Elem {| el_id := id; classList := classes; style := no_style;
          onmouseenter := None; onmouseleave := None |} children.

(** The map: the [svg] element with the ocean and the countries, one of
    them under an id in upper case. *)
Definition example_svg : Element :=
  node "" []
    [ node "ocean" [] [];
      node "fr" ["countryxx"] [node "" ["landxx"] []; node "" ["landxx"] []];
      node "de" ["countryxx"] [];
      node "xx" ["countryxx"] [];
      node "zz" ["countryxx"] [];
      node "IT" ["countryxx"] [] ].

(** The host element in a document, and a host without the map. *)
Definition example_page : Page :=
  {| page_host := node "" [] [example_svg];
     page_outer := [ChainElement "" []; ChainDocument] |}.

Definition empty_page : Page :=
  {| page_host := node "" [] []; page_outer := [ChainDocument] |}.

Definition record_of (z : Z) : CountryData :=
  {| cd_value := Some (VNumber (of_Z z));
     cd_extra := Some [("capital", VString "Paris"); ("population", VNumber (of_Z 67))] |}.

Definition record_str (s : string) : CountryData :=
  {| cd_value := Some (VString s); cd_extra := None |}.

(** The data of the example of the specification, and the same data with
    one id in lower case. *)
Definition example_data : CountriesData :=
  [("FR", record_of 10); ("DE", record_of 90); ("XX", record_str "n/a")].

Definition lower_data : CountriesData :=
  [("fr", record_of 10); ("DE", record_of 90); ("XX", record_str "n/a")].

Definition case_data : CountriesData := [("It", record_of 50)].

Definition example_getName (code : string) : option string :=
  if String.eqb code "FR" then Some "France" else None.

(** The component after the view is there and the first pass has run. *)
Definition mounted (data : CountriesData) : Component :=
  run example_getName (new_component (default_inputs (Some data)) None)
      [ViewInit example_page].

Definition fr_drawable : DrawableCountry :=
  {| dc_data := record_of 10; percentage := of_Z 0 |}.

(** The chain of a click on the first land path of France. *)
Definition fr_click : list ChainNode := click_chain (mounted example_data) (Some [0; 1; 0]).

Lemma mounted_reachable (data : CountriesData) : reachable example_getName (mounted data).
Proof. apply run_reachable. constructor. Defined.

(** ** The examples of the specification *)

(** Data [FR: 10, DE: 90, XX: 'n/a'] without bounds: bounds 10 and 90,
    percentages 0, 100 and -1. *)
Example example_bounds :
  bounds example_data None None
  = {| minVal := of_Z 10; maxVal := of_Z 90; range := of_Z 80 |}.
Proof. reflexivity. Qed.

Example example_percentages :
  (percentage <$> normalize (Some example_data) None None !! "fr",
   percentage <$> normalize (Some example_data) None None !! "de",
   percentage <$> normalize (Some example_data) None None !! "xx")
  = (Some (of_Z 0), Some (of_Z 100), Some (of_Z (-1))).
Proof. reflexivity. Qed.

(** Explicit bounds 0 and 0 on [FR: 5]: the range is 1 and the percentage
    is 100. *)
Example example_degenerate :
  let b := bounds [("FR", record_of 5)] (Some (of_Z 0)) (Some (of_Z 0)) in
  range b = of_Z 1 /\ percentage_of b (countryNum (record_of 5)) = of_Z 100.
Proof. split; reflexivity. Qed.

(** A click on France and then on the ocean: a selected event for [FR]
    with value 10, then the unselected event. *)
Example example_round_trip :
  let c := run example_getName (mounted example_data)
               [Click (Some [0; 1; 0]); Click (Some [0; 0])] in
  outputs c
  = [ChartReady; ChartSelect (selected_event "fr" fr_drawable); ChartSelect unselected_event]
  /\ selection c = None.
Proof. split; reflexivity. Qed.

(** ** The theorems of [Normalizer] on the example *)

Lemma example_keys_NoDup : List.NoDup (map toLowerCase (obj_keys example_data)).
Proof. vm_compute. repeat constructor; simpl; intuition discriminate. Defined.

Lemma normalize_percentage_ok_witness : pct_ok (percentage fr_drawable).
Proof.
  apply (normalize_percentage_ok (Some example_data) None None "fr" fr_drawable);
    [repeat split | reflexivity].
Defined.

Lemma bounds_auto_witness :
  exists m M : number,
    is_min_of m (numeric_values example_data) /\ is_max_of M (numeric_values example_data) /\
    bounds example_data None None
    = {| minVal := m; maxVal := M; range := num_or (num_sub M m) (of_Z 1) |}.
Proof. apply bounds_auto. vm_compute. discriminate. Defined.

Lemma bounds_permutation_witness :
  bounds example_data None None = bounds (rev example_data) None None.
Proof. apply bounds_permutation, Permutation_rev. Defined.

Lemma percentage_of_monotone_witness :
  num_le (percentage_of (bounds example_data None None) (of_Z 20))
         (percentage_of (bounds example_data None None) (of_Z 50)) = true.
Proof.
  apply percentage_of_monotone;
    [reflexivity | split; reflexivity | reflexivity | vm_compute; discriminate].
Defined.

Lemma normalize_exception_iff_witness :
  percentage (drawable (bounds example_data None None) (record_str "n/a")) = of_Z (-1)
  <-> countryNum (record_str "n/a") = NaN.
Proof. apply normalize_exception_iff. repeat split. Defined.

Lemma build_mapData_join_witness :
  build_mapData (bounds example_data None None) example_data !! toLowerCase "FR"
  = Some (drawable (bounds example_data None None) (record_of 10)).
Proof.
  apply build_mapData_join; [exact example_keys_NoDup | left; reflexivity].
Defined.

Lemma percentage_of_degenerate_witness :
  let b := bounds [("FR", record_of 5)] (Some (of_Z 0)) (Some (of_Z 0)) in
  range b = of_Z 1 /\
  (percentage_of b (of_Z 5) = of_Z (-1) \/ percentage_of b (of_Z 5) = of_Z 0
   \/ percentage_of b (of_Z 5) = of_Z 100).
Proof.
  apply percentage_of_degenerate; [reflexivity | split; reflexivity | reflexivity].
Defined.

(** The arithmetic that is exact up to [2^1024] in magnitude and overflows
    beyond, as binary64 does. *)
Lemma bound_1024 : (2 ^ 53 < 2 ^ 1024)%Z.
Proof. reflexivity. Defined.

Definition overflowing : Rounding := fixed_point 1 (2 ^ 1024) bound_1024.

(** Bounds of about [-9e307] and [9e307] and a value near the maximum: the
    distance of the value from the minimum is beyond [2^1024]. *)
Lemma percentage_of_overflow_witness :
  let m := inject_Z (- 2 ^ 1023 - 2) in
  let M := inject_Z (2 ^ 1023) in
  let b := @bounds_of overflowing (Some (Fin m), Some (Fin M)) in
  range b = Inf true /\ @percentage_of overflowing b (Fin (M - 1)%Q) = NaN.
Proof.
  intros m M b. apply (@percentage_of_overflow overflowing b m M (M - 1)%Q);
    [reflexivity | reflexivity | reflexivity | vm_compute; split; reflexivity
    | vm_compute; reflexivity].
Defined.

(** The same on data: numerals of 308 and 309 digits, about [-1e308],
    [1e308] and [9e307].  The country in between has a record, gets the
    percentage NaN and is painted in the no-data colour. *)
Fixpoint zeros (n : nat) : string :=
  match n with
  | O => ""
  | S n' => "0" ++ zeros n'
  end.

Definition wide_data : CountriesData :=
  [("LO", record_str ("-1" ++ zeros 308)); ("HI", record_str ("1" ++ zeros 308));
   ("MID", record_str ("9" ++ zeros 307))].

Example wide_data_overflow :
  let mapData := @normalize overflowing _ (Some wide_data) None None in
  percentage <$> mapData !! "mid" = Some NaN
  /\ fill_for mapData default_palette "MID" = noDataColor default_palette.
Proof. vm_compute. split; reflexivity. Qed.

(** A maximum given as NaN stops nothing: the range is 1 and the country
    80 above the least value is mixed at 8000 percent. *)
Example example_NaN_max :
  let mapData := normalize (Some example_data) None (Some NaN) in
  percentage <$> mapData !! "de" = Some (of_Z 8000)
  /\ fill_for mapData default_palette "DE"
     = "color-mix(in oklch, oklch(55% 0.25 25) 8000%, oklch(100% 0 0))".
Proof. vm_compute. split; reflexivity. Qed.

(** A minimum given as NaN: every country but the greatest is shown
    without data. *)
Example example_NaN_min :
  let mapData := normalize (Some example_data) (Some NaN) None in
  percentage <$> mapData !! "fr" = Some NaN
  /\ percentage <$> mapData !! "de" = Some (of_Z 100)
  /\ fill_for mapData default_palette "FR" = noDataColor default_palette.
Proof. vm_compute. repeat split; reflexivity. Qed.

(** ** The numbers of JavaScript *)

(** In binary64 the example of the specification has the same percentages
    as in exact arithmetic. *)
Example binary64_example :
  let mapData := @normalize binary64 _ (Some example_data) None None in
  percentage <$> mapData !! "fr" = Some (of_Z 0)
  /\ percentage <$> mapData !! "de" = Some (of_Z 100)
  /\ percentage <$> mapData !! "xx" = Some (of_Z (-1)).
Proof. vm_compute. repeat split; reflexivity. Qed.

(** A third of the scale: the quotient and the product are rounded, and
    the percentage is the double that JavaScript prints as
    33.33333333333333, below the exact 100/3. *)
Definition thirds_data : CountriesData :=
  [("A", record_of 0); ("B", record_of 3); ("C", record_of 1)].

Example binary64_third :
  percentage <$> @normalize binary64 _ (Some thirds_data) None None !! "c"
  = Some (Fin (2345624805922133 # 70368744177664))
  /\ percentage <$> @normalize exact_rounding _ (Some thirds_data) None None !! "c"
     = Some (Fin (100 # 3)).
Proof. vm_compute. split; reflexivity. Qed.

(** The numerals of [wide_data] are numbers of binary64, and two of them
    are further apart than the greatest one: the range is infinite and the
    percentage of the record in between is NaN. *)
Example binary64_overflow :
  let b := @bounds binary64 _ wide_data None None in
  is_finite (minVal b) = true /\ is_finite (maxVal b) = true /\ range b = Inf true
  /\ percentage <$> @normalize binary64 _ (Some wide_data) None None !! "mid" = Some NaN.
Proof. vm_compute. repeat split; reflexivity. Qed.

Lemma example_data_moderate : Forall moderate (@numeric_values binary64 _ example_data).
Proof.
  replace (@numeric_values binary64 _ example_data) with [of_Z 10; of_Z 90]
    by (vm_compute; reflexivity).
  repeat constructor; vm_compute; discriminate.
Defined.

Lemma binary64_percentage_ok_witness :
  pct_ok (percentage (@drawable binary64 _ (@bounds binary64 _ example_data None None)
                                 (record_of 10))).
Proof.
  apply (binary64_percentage_ok example_data None None "fr");
    [exact I | exact I | exact example_data_moderate | vm_compute; reflexivity].
Defined.

(** One record: the bounds are equal and the guard gives the range 1,
    where the plain difference is 0; the percentages are the same. *)
Definition single_data : CountriesData := [("FR", record_of 10)].

Example single_data_range :
  let b := @bounds binary64 _ single_data None None in
  range b = of_Z 1 /\ range (unguarded b) = of_Z 0.
Proof. vm_compute. split; reflexivity. Qed.

(** The one country is at both bounds, and at 0 percent. *)
Example single_data_percentage :
  percentage <$> @normalize binary64 _ (Some single_data) None None !! "fr"
  = Some (of_Z 0).
Proof. vm_compute. reflexivity. Qed.

Lemma binary64_guard_redundant_witness :
  @percentage_of binary64 (@bounds binary64 _ single_data None None) (of_Z 10)
  = @percentage_of binary64
      (unguarded (@bounds binary64 _ single_data None None)) (of_Z 10).
Proof.
  apply binary64_guard_redundant;
    [apply bounds_wf_bounds | exists 10%Q; vm_compute; reflexivity..].
Defined.

Lemma given_min_lowered_witness :
  exists r, fst (scan_bounds example_data (Some (of_Z 50)) None) = Some r
            /\ num_lt r (of_Z 50) = true.
Proof.
  apply (given_min_lowered example_data (of_Z 50) (of_Z 10));
    [reflexivity | left; reflexivity | reflexivity].
Defined.

Lemma countryNum_integer_witness :
  countryNum (mkCountryData (Some (VNumber (of_Z 42))) None) = of_Z 42.
Proof.
  apply (countryNum_integer 42 None 42%positive 2);
    [vm_compute; reflexivity | | vm_compute; reflexivity | vm_compute; reflexivity].
  apply rounded_of_Z. vm_compute. discriminate.
Defined.

(** ** Printing and parsing the numbers of binary64 *)

(** The number of binary64 nearest to a rational. *)
Definition double (q : Q) : Q :=
  match @round binary64 q with
  | Fin p => p
  | _ => 0
  end.

Definition double_toString (q : Q) : string :=
  @number_toString (@reference_printer binary64) (Fin (double q)).

Definition double_countryNum (q : Q) : number :=
  @countryNum binary64 (@reference_printer binary64)
    (mkCountryData (Some (VNumber (Fin (double q)))) None).

(** What the built-in prints: the shortest numeral that rounds to the
    number, in plain notation from 1e-6 up to 1e21 and in exponent
    notation outside. *)
Example double_toString_examples :
  double_toString (1 # 10) = "0.1"
  /\ double_toString (1 # 3) = "0.3333333333333333"
  /\ double_toString (-123456 # 1000) = "-123.456"
  /\ double_toString (1 # 1000000) = "0.000001"
  /\ double_toString (1 # 10000000) = "1e-7"
  /\ double_toString (15 # 100000000) = "1.5e-7"
  /\ double_toString (inject_Z (10 ^ 21 - 1)) = "1e+21"
  /\ double_toString (inject_Z (2 ^ 53)) = "9007199254740992"
  /\ double_toString (inject_Z (2 ^ 60)) = "1152921504606847000"
  /\ double_toString (1 # 2 ^ 1074) = "5e-324".
Proof. vm_compute. repeat split. Qed.

(** What line 32 makes of them: a fraction is cut, a number in exponent
    notation gives its leading digit. *)
Example double_countryNum_examples :
  double_countryNum (-123456 # 1000) = of_Z (-123)
  /\ double_countryNum (1 # 1000000) = of_Z 0
  /\ double_countryNum (1 # 10000000) = of_Z 1
  /\ double_countryNum (15 # 100000000) = of_Z 1
  /\ double_countryNum (inject_Z (10 ^ 21)) = of_Z 1
  /\ double_countryNum (inject_Z (2 ^ 60)) = of_Z (2 ^ 60)
  /\ double_countryNum (inject_Z (-7 * 10 ^ 22)) = of_Z (-7).
Proof. vm_compute. repeat split. Qed.

Lemma countryNum_number_witness :
  double_countryNum (15 # 100000000)
  = @round_Z binary64
      ((if Qltb (double (15 # 100000000)) 0 then -1 else 1)
       * (if ((-6 <? -6) && (-6 <=? 21))%Z then decimal_trunc 15 (-6) else leading_digit 15)).
Proof.
  apply (@countryNum_number binary64 (@reference_printer binary64));
    [intros E; vm_compute in E; discriminate E | vm_compute; reflexivity].
Defined.

(** ** The theorems of [Render] and [Selection] on the example *)

Definition fr_element : ElementData :=
  {| el_id := "fr"; classList := ["countryxx"]; style := no_style;
     onmouseenter := None; onmouseleave := None |}.

Definition land_element : ElementData :=
  {| el_id := ""; classList := ["landxx"]; style := no_style;
     onmouseenter := None; onmouseleave := None |}.

Definition example_mapData : gmap string DrawableCountry :=
  normalize (Some example_data) None None.

Lemma fill_for_policy_witness :
  fill_for example_mapData default_palette "FR"
  = match example_mapData !! toLowerCase "FR" with
    | None => noDataColor default_palette
    | Some m =>
        if isNaN (percentage m) then noDataColor default_palette
        else if num_lt (percentage m) (of_Z 0) then exceptionColor default_palette
        else color_mix (maxColor default_palette) (percentage m) (minColor default_palette)
    end.
Proof. apply fill_for_policy. Defined.

Lemma draw_country_witness :
  data_at (draw example_mapData default_palette example_svg) [1]
  = Some (paint_country example_mapData default_palette fr_element).
Proof. apply draw_country; [discriminate | reflexivity | reflexivity]. Defined.

Lemma countryHover_stroke_witness :
  exists d', data_at (countryHover [1] true example_svg) [1; 0] = Some d'
    /\ stroke (style d') = Some (getStrokeColor true)
    /\ strokeWidth (style d') = Some (getStrokeWidth true).
Proof.
  apply (countryHover_stroke [1] true example_svg [1; 0] land_element);
    [apply (bool_decide_unpack _); vm_compute; exact I | reflexivity].
Defined.

Lemma countryHover_frame_witness :
  data_at (countryHover [1] true example_svg) [2] = data_at example_svg [2].
Proof.
  apply countryHover_frame. apply (bool_decide_unpack _). vm_compute. exact I.
Defined.

Lemma extra_pairs_entries_witness :
  extra_pairs [("capital", VString "Paris"); ("population", VNumber (of_Z 67))]
  = map (fun entry => {| se_key := fst entry; se_val := Some (snd entry) |})
        [("capital", VString "Paris"); ("population", VNumber (of_Z 67))].
Proof.
  apply extra_pairs_entries. vm_compute.
  repeat constructor; simpl; intuition discriminate.
Defined.

(** ** The theorems of [Component] on the example *)

(** The component with its view, before the first pass. *)
Definition with_view (page : Page) : Component :=
  new_component (default_inputs (Some example_data)) (Some page).

Definition without_view : Component :=
  new_component (default_inputs (Some example_data)) None.

Lemma initializeMap_ready_witness :
  initializeMap (with_view example_page)
  = Returned tt (drawn_state (with_view example_page) example_page example_svg).
Proof. apply initializeMap_ready; reflexivity. Defined.

Lemma initializeMap_error_witness :
  initializeMap (with_view empty_page) = Returned tt (failed_state (with_view empty_page)).
Proof. apply (initializeMap_error _ empty_page); reflexivity. Defined.

Lemma initializeMap_no_view_witness :
  initializeMap without_view = Threw (RuntimeError "NG0951") (set_loading true without_view).
Proof. apply initializeMap_no_view. reflexivity. Defined.

Lemma initializeMap_returns_witness :
  exists c' o,
    initializeMap (with_view empty_page) = Returned tt c'
    /\ outputs c' = (outputs (with_view empty_page) ++ [o])%list
    /\ (is_Some (first_child (page_host empty_page)) /\ o = ChartReady /\ loading c' = false
        \/ first_child (page_host empty_page) = None /\ o = ChartError loading_error
           /\ loading c' = true).
Proof. apply initializeMap_returns. reflexivity. Defined.

Lemma onMapSelect_select_witness :
  onMapSelect example_getName fr_click (mounted example_data)
  = Returned tt
      (emit (ChartSelect (selected_event "fr" fr_drawable))
         (set_selection
            (Some (selection_of example_getName (toUpperCase "fr") (record_of 10)))
            (mounted example_data))).
Proof.
  apply (onMapSelect_select example_getName _ _ "fr" fr_drawable example_data);
    [reflexivity | discriminate | reflexivity | reflexivity].
Defined.

Lemma onMapSelect_unselect_witness :
  onMapSelect example_getName (click_chain (mounted example_data) (Some [0; 0]))
    (mounted example_data)
  = Returned tt
      (emit (ChartSelect unselected_event) (set_selection None (mounted example_data))).
Proof. apply onMapSelect_unselect. reflexivity. Defined.

(** The data keyed [fr]: the element is painted, and a click on it throws. *)
Lemma onMapSelect_throws_key_witness :
  onMapSelect example_getName (click_chain (mounted lower_data) (Some [0; 1; 0]))
    (mounted lower_data)
  = Threw TypeError (mounted lower_data).
Proof.
  apply (onMapSelect_throws_key example_getName _ _ "fr" fr_drawable);
    [reflexivity | discriminate | reflexivity].
Defined.

(** A click on the [svg] element itself: the walk reaches the document. *)
Lemma onMapSelect_throws_walk_witness :
  onMapSelect example_getName (click_chain (mounted example_data) (Some [0]))
    (mounted example_data)
  = Threw TypeError (mounted example_data).
Proof. apply onMapSelect_throws_walk. reflexivity. Defined.

(** ** The invariants on the example *)

Definition mounted_page : Page :=
  nullish (mapContent (mounted example_data)) example_page.

Definition painted_fr : ElementData :=
  {| el_id := "fr"; classList := ["countryxx"];
     style := {| backgroundColor := None;
                 fill := Some "color-mix(in oklch, oklch(55% 0.25 25) 0%, oklch(100% 0 0))";
                 stroke := None; strokeWidth := None |};
     onmouseenter := Some (CountryHover true);
     onmouseleave := Some (CountryHover false) |}.

Definition selected_fr : Component :=
  run example_getName (mounted example_data) [Click (Some [0; 1; 0])].

Lemma reachable_mapData_witness :
  mapData (mounted example_data)
  = match mapContent (mounted example_data) with
    | Some _ => resolved (mounted example_data)
    | None => ∅
    end.
Proof. apply (reachable_mapData example_getName), mounted_reachable. Defined.

Lemma reachable_painted_witness :
  fill (style painted_fr)
  = Some (fill_for (resolved (mounted example_data))
                   (palette (inputs (mounted example_data))) (el_id painted_fr))
  /\ onmouseenter painted_fr = Some (CountryHover true)
  /\ onmouseleave painted_fr = Some (CountryHover false).
Proof.
  apply (reachable_painted example_getName (mounted example_data) mounted_page [1]);
    [apply mounted_reachable | reflexivity | discriminate | reflexivity | reflexivity].
Defined.

Lemma reachable_percentage_ok_witness :
  is_lower_case "fr" = true /\ pct_ok (percentage fr_drawable).
Proof.
  apply (reachable_percentage_ok example_getName (mounted example_data));
    [apply mounted_reachable | repeat split | reflexivity].
Defined.

Lemma reachable_selection_witness :
  countryId (selection_of example_getName "FR" (record_of 10)) <> ""
  /\ toUpperCase (countryId (selection_of example_getName "FR" (record_of 10)))
     = countryId (selection_of example_getName "FR" (record_of 10))
  /\ countryName (selection_of example_getName "FR" (record_of 10))
     = countryNameOf example_getName
         (countryId (selection_of example_getName "FR" (record_of 10))).
Proof.
  apply (reachable_selection example_getName selected_fr);
    [apply run_reachable, mounted_reachable | reflexivity].
Defined.

Lemma selectionValue_selected_witness :
  selectionValue (final_state (onMapSelect example_getName fr_click (mounted example_data)))
  = inr (cd_value (record_of 10)).
Proof.
  apply (selectionValue_selected example_getName _ _ "fr" fr_drawable example_data);
    [reflexivity | discriminate | reflexivity | reflexivity].
Defined.

(** The element [IT] is painted with the record of [It], and a click on
    it unselects. *)
Example example_upper_case_painted :
  (fill ∘ style <$> (mapContent (mounted case_data)
                      ≫= fun page => data_at (page_host page) [0; 5]))
  = Some (Some "color-mix(in oklch, oklch(55% 0.25 25) 0%, oklch(100% 0 0))").
Proof. reflexivity. Qed.

Lemma onMapSelect_upper_case_id_witness :
  onMapSelect example_getName (click_chain (mounted case_data) (Some [0; 5]))
    (mounted case_data)
  = Returned tt (emit (ChartSelect unselected_event) (set_selection None (mounted case_data))).
Proof.
  apply (onMapSelect_upper_case_id example_getName _ _ "IT");
    [apply mounted_reachable | reflexivity | reflexivity | reflexivity].
Defined.

(** A map with two elements whose ids name members of [Object.prototype],
    and a data with a record under the upper-cased id of the second. *)
Definition member_page : Page :=
  {| page_host :=
       node "" [] [node "" [] [node "constructor" ["countryxx"] [];
                               node "hasOwnProperty" ["countryxx"] []]];
     page_outer := [ChainDocument] |}.

Definition member_data : CountriesData := [("HASOWNPROPERTY", record_of 10)].

Definition member_mounted : Component :=
  run example_getName (new_component (default_inputs (Some member_data)) None)
      [ViewInit member_page].

(** The first is coloured as an element without data; the second, read in
    lower case, with the record of the data. *)
Example example_member_painted :
  (fun p => fill ∘ style <$> (mapContent member_mounted
                               ≫= fun page => data_at (page_host page) p))
    <$> [[0; 0]; [0; 1]]
  = [Some (Some "#CFCFCF");
     Some (Some "color-mix(in oklch, oklch(55% 0.25 25) 0%, oklch(100% 0 0))")].
Proof. reflexivity. Qed.

(** A click on the first throws. *)
Lemma onMapSelect_inherited_id_witness :
  onMapSelect example_getName (click_chain member_mounted (Some [0; 0])) member_mounted
  = Threw TypeError member_mounted.
Proof.
  apply (onMapSelect_inherited_id example_getName _ _ "constructor"); reflexivity.
Defined.

(** A click on the second selects the record of the data, with an event
    that has no value. *)
Lemma onMapSelect_inherited_select_witness :
  onMapSelect example_getName (click_chain member_mounted (Some [0; 1])) member_mounted
  = Returned tt
      (emit (ChartSelect {| ev_selected := true; ev_value := Some NaN;
                            ev_country := toUpperCase "hasOwnProperty";
                            ev_extra := None |})
         (set_selection
            (Some (selection_of example_getName (toUpperCase "hasOwnProperty")
                     (record_of 10)))
            member_mounted)).
Proof.
  apply (onMapSelect_inherited_select example_getName _ _ "hasOwnProperty" member_data);
    reflexivity.
Defined.

(** A selection followed by a data that is [null]: reading the value of
    the selection throws. *)
Example example_stale_selection :
  selectionValue (run example_getName selected_fr [InputsChange (default_inputs None)])
  = inl TypeError.
Proof. reflexivity. Qed.

Lemma onMapSelect_refines_witness :
  sel_state (final_state (onMapSelect example_getName fr_click (mounted example_data)))
  = click_state (Some ("fr", fr_drawable))
  /\ outputs (final_state (onMapSelect example_getName fr_click (mounted example_data)))
     = (outputs (mounted example_data)
        ++ [ChartSelect (click_event (Some ("fr", fr_drawable)))])%list.
Proof.
  apply onMapSelect_refines; [reflexivity | discriminate | reflexivity].
Defined.

Lemma click_returns_witness :
  returned (onMapSelect example_getName fr_click (mounted example_data)) = true.
Proof.
  apply (click_returns example_getName _ _ (Some "fr"));
    [apply mounted_reachable | vm_compute; repeat constructor | reflexivity
    | intros id [= <-]; reflexivity].
Defined.

(** A click on the [svg] element itself. *)
Lemma click_outside_throws_witness :
  onMapSelect example_getName (click_chain (mounted example_data) (Some [0]))
    (mounted example_data)
  = Threw TypeError (mounted example_data)
  /\ step example_getName (mounted example_data) (Click (Some [0])) = mounted example_data.
Proof.
  apply (click_outside_throws example_getName _ mounted_page);
    [reflexivity
    | exists [ChainElement "" []], []; split; [reflexivity | repeat constructor]
    | repeat constructor
    | reflexivity].
Defined.

Lemma resolve_target_nearest_witness :
  resolve_target (parent_chain example_page ([0; 1] ++ [0])%list)
  = inr (Some (el_id (el_data (node "fr" ["countryxx"]
                                 [node "" ["landxx"] []; node "" ["landxx"] []])))).
Proof.
  apply resolve_target_nearest;
    [reflexivity | eexists; reflexivity | reflexivity | vm_compute; repeat constructor
    | reflexivity].
Defined.

(** ** The theorems of [Traces] on the example *)

Lemma mounted_example : Traces.mounted (mounted example_data).
Proof. eexists. split; [reflexivity | eexists; reflexivity]. Defined.

Lemma reachable_outputs_wf_witness : Forall output_wf (outputs selected_fr).
Proof.
  apply (reachable_outputs_wf example_getName), run_reachable, mounted_reachable.
Defined.

Definition example_run : list Event :=
  [Click (Some [0; 1; 0]); MouseEnter [0; 1]; Click (Some [0]); Click (Some [0; 0])].

Lemma example_run_proper : proper example_getName (mounted example_data) example_run.
Proof. repeat split; intros country E; vm_compute in E; discriminate E. Defined.

Lemma run_refines_witness :
  sel_state (run example_getName (mounted example_data) example_run)
  = fold_left spec_step (labels example_getName (mounted example_data) example_run)
      (sel_state (mounted example_data))
  /\ select_events (outputs (run example_getName (mounted example_data) example_run))
     = (select_events (outputs (mounted example_data))
        ++ (labels example_getName (mounted example_data) example_run ≫= spec_emit))%list.
Proof. apply run_refines, example_run_proper. Defined.

(** The run: a selection, a hover, a click that throws, an unselection. *)
Example example_run_labels :
  labels example_getName (mounted example_data) example_run
  = [Clicked (Some ("fr", fr_drawable)); Tau; Tau; Clicked None].
Proof. reflexivity. Qed.

Lemma selectionValue_live_witness :
  selectionValue (run example_getName selected_fr
                      [InputsChange (default_inputs (Some [("FR", record_of 42)]))])
  = match in_data (inputs (run example_getName selected_fr
                               [InputsChange (default_inputs (Some [("FR", record_of 42)]))])) with
    | Some data =>
        inr (data_get data (countryId (selection_of example_getName "FR" (record_of 10)))
             ≫= cd_value)
    | None => inl TypeError
    end.
Proof.
  apply (selectionValue_live example_getName selected_fr);
    [reflexivity | repeat constructor].
Defined.

(** A change of the data, then the run above: the host keeps its elements. *)
Lemma run_keeps_structure_witness :
  exists page',
    mapContent (run example_getName (mounted example_data)
                    (InputsChange (default_inputs (Some case_data)) :: example_run))
    = Some page'
    /\ page_outer page' = page_outer mounted_page
    /\ same_structure (page_host mounted_page) (page_host page').
Proof.
  apply (run_keeps_structure example_getName (mounted example_data));
    [repeat constructor | reflexivity].
Defined.

(** ** The inputs a pass reads *)

(** A component whose data is [null], and the same inputs with a minimum:
    the pass does not read the bounds. *)
Definition null_mounted : Component :=
  run example_getName (new_component (default_inputs None) None) [ViewInit example_page].

Definition with_minimum (i : Inputs) : Inputs :=
  {| in_data := in_data i; countryLabel := countryLabel i; valueLabel := valueLabel i;
     showCaption := showCaption i; captionBelow := captionBelow i;
     minValue := Some (of_Z 5); maxValue := maxValue i; palette := palette i |}.

Example null_mounted_reads :
  reads null_mounted
  = [SData; SBackgroundColor; SNoDataColor; SExceptionColor; SMinColor; SMaxColor]
  /\ reads (mounted example_data)
     = [SData; SMinValue; SMaxValue;
        SBackgroundColor; SNoDataColor; SExceptionColor; SMinColor; SMaxColor]
  /\ reads (new_component (default_inputs (Some example_data)) (Some empty_page))
     = [SData; SMinValue; SMaxValue].
Proof. repeat split; reflexivity. Qed.

Lemma null_unchanged : unchanged null_mounted (with_minimum (default_inputs None)).
Proof. repeat constructor. Defined.

Lemma pass_reads_only_witness :
  reads (set_inputs (with_minimum (default_inputs None)) null_mounted)
  = reads (set_inputs (default_inputs None) null_mounted)
  /\ run_effect (set_inputs (with_minimum (default_inputs None)) null_mounted)
     = set_inputs (with_minimum (default_inputs None))
         (run_effect (set_inputs (default_inputs None) null_mounted)).
Proof. apply pass_reads_only. exact null_unchanged. Defined.

Lemma pass_fixpoint_witness :
  step example_getName (mounted example_data) (InputsChange (inputs (mounted example_data)))
  = emit (fst (pass_result mounted_page))
      (set_loading (snd (pass_result mounted_page)) (mounted example_data))
  /\ step example_getName (mounted example_data) (ViewInit mounted_page)
     = emit (fst (pass_result mounted_page))
         (set_loading (snd (pass_result mounted_page)) (mounted example_data)).
Proof. apply (pass_fixpoint example_getName); [apply mounted_reachable | reflexivity]. Defined.

(** The minimum changes: the machine of [Machine.step] runs the pass and
    emits the ready event a second time; the machine that compares the
    inputs read does not. *)
Example null_minimum_changes :
  outputs (run example_getName null_mounted
               [InputsChange (with_minimum (default_inputs None))])
  = [ChartReady; ChartReady]
  /\ outputs (lazy_run example_getName skips_unchanged null_mounted
                 [InputsChange (with_minimum (default_inputs None))])
     = [ChartReady].
Proof. split; reflexivity. Qed.

(** Two changes in a row and a click: the machine of [Machine.step] runs
    two passes; a framework that batches runs one. *)
Definition batched_run : list Event :=
  [InputsChange (with_minimum (default_inputs None));
   InputsChange (default_inputs (Some example_data)); Click (Some [0; 1; 0])].

Example batched_run_coalesce :
  coalesce batched_run
  = [InputsChange (default_inputs (Some example_data)); Click (Some [0; 1; 0])].
Proof. reflexivity. Qed.

Example batched_run_outputs :
  length (outputs (run example_getName null_mounted batched_run)) = 4
  /\ length (outputs (lazy_run example_getName skips_unchanged null_mounted
                         (coalesce batched_run))) = 3
  /\ select_events (outputs (run example_getName null_mounted batched_run))
     = [selected_event "fr" fr_drawable].
Proof. repeat split; reflexivity. Qed.

Lemma scheduled_run_same_fields_witness :
  same_fields
    (run example_getName null_mounted batched_run)
    (lazy_run example_getName skips_unchanged null_mounted (coalesce batched_run)).
Proof.
  apply (scheduled_run_same_fields example_getName skips_unchanged);
    [apply skips_unchanged_sound | apply run_reachable; constructor | reflexivity].
Defined.

(** ** Progress on the machine that skips passes *)

(** The component with [null] data after a click on the ocean: the last
    event is the unselection. *)
Definition null_clicked : Component :=
  run example_getName null_mounted [Click (Some [0; 0])].

Example null_clicked_last :
  last (outputs null_clicked) = Some (ChartSelect unselected_event).
Proof. reflexivity. Qed.

(** A change of the minimum, which the pass on [null] data has not read,
    is skipped: the state stays as it is, with the unselection as the last
    event, while the machine of [Machine.step] runs a pass and emits the
    ready event. *)
Example skipped_change_not_ready :
  last (outputs (lazy_run example_getName skips_unchanged null_clicked
                   [InputsChange (with_minimum (default_inputs None))]))
  = Some (ChartSelect unselected_event)
  /\ last (outputs (run example_getName null_clicked
                      [InputsChange (with_minimum (default_inputs None))]))
     = Some ChartReady.
Proof. split; reflexivity. Qed.

Lemma null_clicked_mounted : Traces.mounted null_clicked.
Proof. eexists. split; [reflexivity | eexists; reflexivity]. Defined.

(** The run of a hover, the change that is skipped and a change of the
    data, which the pass has read. *)
Definition notified_run : list Event :=
  [MouseEnter [0; 1]; InputsChange (with_minimum (default_inputs None));
   InputsChange (default_inputs (Some example_data)); MouseLeave [0; 1]].

Lemma notified_run_notified :
  notified example_getName skips_unchanged null_clicked notified_run.
Proof.
  do 2 apply notified_later. apply notified_change.
  intros Hu. apply (bool_decide_eq_true_2 _) in Hu. vm_compute in Hu. discriminate Hu.
Defined.

Lemma ready_after_notification_witness :
  eventually (lazy_step example_getName skips_unchanged) ready null_clicked notified_run.
Proof.
  apply ready_after_notification;
    [apply skips_unchanged_sound | exact null_clicked_mounted | repeat constructor
    | exact notified_run_notified].
Defined.
